(** * PDF import service: a shallow embedding of PDFImportService_Enhanced.js

    The script polls a source directory, validates the files it finds,
    imports each one into the ELO archive (find or create the archive
    folder, create and check in a Sord, upload the document version, delete
    the Sord again when the upload fails), starts a workflow, and moves the
    file to the processed or to the error directory.

    The embedding follows the script function by function and keeps its
    names.  Where a proof has to speak about a block of a function (the
    [try] block and the [catch] block of a loop, the part of the import
    before and after the check-in), the block has a definition of its own
    and the function is made of these.  The basic script, without
    validation and retries, has the same [getOrCreateArchiveFolder],
    [getMaskId] and [moveFile]; it is embedded in the module [Basic], and
    the reading of the configuration file in the module [ConfigFile].

    The script talks to three things outside itself, which are modelled as
    parts of one explicit [World]:

    - the archive behind [ixConnect]: a store of Sords with an id counter,
      masks, workflow templates and workflows; a script of replies that
      says, for each coming remote call, whether the archive answers,
      cannot be reached, or reports an error; and the record of the calls
      made.  Which Sords a search by [findByIndex.name] finds is left to the
      archive: the search is a parameter of the model.
    - the file system behind [java.io.File]: regular files keyed by
      directory and name, a set of directories, whether a rename replaces an
      existing target (it does on some platforms and not on others), and a
      script of refusals for the operations that the operating system may
      deny;
    - the clock, which [Thread.sleep] moves, the logger, and the list of
      the sleeps.

    Exceptions are values of the result type, [try]/[catch] is a
    combinator, and every loop is a structural recursion on the number of
    turns it can still take.  The numbers that the script divides are
    doubles; the counters, ids and sizes, which it only adds to and
    compares, are integers. *)

From stdpp Require Import base strings list gmap pretty.
From Stdlib Require Import ZArith QArith Qround Qabs Lia Ascii String.
From Stdlib.Strings Require Import Byte.

Open Scope string_scope.
Open Scope list_scope.
Open Scope Z_scope.

(** ** JavaScript strings

    A string is a sequence of code units; the embedding uses Rocq strings
    and reads every character as one code unit below 256, which covers the
    configuration of the script (the paragraph sign that starts an archive
    path is code unit 182). *)

Module Js.

Definition length (s : string) : Z := Z.of_nat (String.length s).

(** [s.startsWith(p)] *)
Definition startsWith (s p : string) : bool := String.prefix p s.

(** [s.endsWith(p)] *)
Definition endsWith (s p : string) : bool :=
  let n := String.length s in
  let k := String.length p in
  (k <=? n)%nat && String.eqb (String.substring (n - k) k s) p.

(** [s.indexOf(p)]: the first position at which [p] occurs, or -1. *)
Fixpoint indexOf_from (s p : string) (i : Z) : Z :=
  if String.prefix p s then i
  else match s with
       | EmptyString => -1
       | String _ s' => indexOf_from s' p (i + 1)
       end.

Definition indexOf (s p : string) : Z := indexOf_from s p 0.

(** [s.lastIndexOf(c)] for a one-character pattern: the last position of
    [c], or -1. *)
Fixpoint lastIndexOf_from (s : string) (c : ascii) (i acc : Z) : Z :=
  match s with
  | EmptyString => acc
  | String x s' => lastIndexOf_from s' c (i + 1) (if Ascii.eqb x c then i else acc)
  end.

Definition lastIndexOf (s : string) (c : ascii) : Z := lastIndexOf_from s c 0 (-1).

(** [s.substring(a, b)]: both indices are clamped to [0, length] and
    swapped when [a > b]. *)
Definition clamp (len i : Z) : Z := Z.max 0 (Z.min i len).

Definition substring (s : string) (a b : Z) : string :=
  let a' := clamp (length s) a in
  let b' := clamp (length s) b in
  let lo := Z.min a' b' in
  let hi := Z.max a' b' in
  String.substring (Z.to_nat lo) (Z.to_nat (hi - lo)) s.

(** [s.substring(a)] *)
Definition substring_from (s : string) (a : Z) : string :=
  substring s a (length s).

(** [s.toLowerCase()] on code units below 256: the ASCII capitals and the
    Latin-1 capitals (192 to 222 without the multiplication sign 215). *)
Definition lower_unit (c : ascii) : ascii :=
  let n := nat_of_ascii c in
  if ((65 <=? n) && (n <=? 90))%nat then ascii_of_nat (n + 32)
  else if ((192 <=? n) && (n <=? 222) && negb (n =? 215))%nat then ascii_of_nat (n + 32)
  else c.

Fixpoint toLowerCase (s : string) : string :=
  match s with
  | EmptyString => EmptyString
  | String c s' => String (lower_unit c) (toLowerCase s')
  end.

(** The numbers the script computes with [/], [*] and [Math.round] are
    doubles: a finite double is the rational it stands for, and the two
    other values are what a division by zero gives.  The script only
    divides by numbers that are not negative, so the sign of an infinity and
    of a zero is not kept. *)
Inductive Number : Type :=
  | NaN
  | Infinity
  | Num (q : Q).

(** [b^t] for any integer [t] and a base [b > 0]. *)
Definition power (b t : Z) : Q :=
  if 0 <=? t then inject_Z (b ^ t) else (1 # Z.to_pos (b ^ (- t)))%Q.

(** The binary exponent of [x > 0]: the [e] with [2^e <= x < 2^(e+1)]. *)
Definition exponent2 (x : Q) : Z :=
  if Qle_bool 1 x then Z.log2 (Qfloor x) else - Z.log2_up (Qceiling (/ x)).

(** The nearest integer, a tie going to the even one. *)
Definition nearest_even (x : Q) : Z :=
  let f := Qfloor x in
  match (x - inject_Z f ?= 1 # 2)%Q with
  | Lt => f
  | Gt => f + 1
  | Eq => if Z.even f then f else f + 1
  end.

(** The exponent of the last of the 53 bits of a double near [s > 0]; the
    exponents end at -1074. *)
Definition quantum (s : Q) : Z := Z.max (exponent2 s - 52) (-1074).

(** The double nearest to the rational [x]: 53 significant bits, ties to
    even, infinity from [2^1024] on. *)
Definition round64 (x : Q) : Number :=
  if Qeq_bool x 0 then Num 0
  else
    let s := Qabs x in
    let t := quantum s in
    let r := (inject_Z (nearest_even (s / power 2 t)) * power 2 t)%Q in
    if Qle_bool (power 2 1024) r then Infinity
    else Num (Qred (if Qle_bool 0 x then r else - r)).

(** The double of a whole number. *)
Definition of_Z (z : Z) : Number := round64 (inject_Z z).

(** [x / y] *)
Definition div (x y : Number) : Number :=
  match x, y with
  | Num a, Num b =>
      if Qeq_bool b 0 then (if Qeq_bool a 0 then NaN else Infinity)
      else round64 (a / b)
  | Infinity, Num _ => Infinity
  | Num _, Infinity => Num 0
  | _, _ => NaN
  end.

(** [x * y] *)
Definition mul (x y : Number) : Number :=
  match x, y with
  | Num a, Num b => round64 (a * b)
  | Infinity, Num b | Num b, Infinity => if Qeq_bool b 0 then NaN else Infinity
  | Infinity, Infinity => Infinity
  | _, _ => NaN
  end.

(** [Math.round]: the nearest integer, halves upwards. *)
Definition Math_round (x : Number) : Number :=
  match x with
  | Num q => Num (inject_Z (Qfloor (q + (1 # 2))))
  | other => other
  end.

(** *** Numbers as text

    [Number::toString]: the shortest decimal that reads back as the number,
    laid out as digits, as a fraction, or with an exponent. *)

(** The number of decimal digits of a whole number [n > 0]. *)
Definition digits (n : Z) : Z := Z.of_nat (String.length (pretty n)).

(** The decimal exponent of [x > 0]: the [n] with [10^(n-1) <= x < 10^n]. *)
Definition exponent10 (x : Q) : Z :=
  if Qle_bool 1 x then digits (Qfloor x) else 1 - digits (Qceiling (/ x) - 1).

(** Whether the decimal [s * 10^(n-k)] reads back as the double [x]. *)
Definition reads_back (x : Q) (n k s : Z) : bool :=
  match round64 (inject_Z s * power 10 (n - k)) with
  | Num q => Qeq_bool q x
  | _ => false
  end.

(** The [k]-digit decimals next to [x > 0] that read back as [x], the
    nearer one first; [n] is the decimal exponent of [x]. *)
Definition decimal (x : Q) (n k : Z) : option (Z * Z) :=
  let y := (x * power 10 (k - n))%Q in
  let lo := Qfloor y in
  let up := if lo + 1 =? 10 ^ k then (n + 1, 10 ^ (k - 1)) else (n, lo + 1) in
  let lo_ok := (10 ^ (k - 1) <=? lo) && reads_back x n k lo in
  let up_ok := reads_back x up.1 k up.2 in
  if lo_ok && up_ok then
    match (y - inject_Z lo ?= 1 # 2)%Q with
    | Lt => Some (n, lo)
    | Gt => Some up
    | Eq => if Z.even lo then Some (n, lo) else Some up
    end
  else if lo_ok then Some (n, lo)
  else if up_ok then Some up
  else None.

(** The shortest decimal that reads back as [x], from [k] digits on; 17
    digits are enough for every double. *)
Fixpoint shortest (fuel : nat) (x : Q) (n k : Z) : Z * Z * Z :=
  match fuel with
  | O => (n, k, Qfloor (x * power 10 (k - n)))
  | S fuel' =>
      match decimal x n k with
      | Some (n', s) => (n', k, s)
      | None => shortest fuel' x n (k + 1)
      end
  end.

(** [n] zeros. *)
Fixpoint zeros (n : nat) : string :=
  match n with
  | O => ""
  | S n' => String "0" (zeros n')
  end.

(** The text of the positive number with the [k] digits [s] and the
    decimal exponent [n]. *)
Definition layout (n k s : Z) : string :=
  let d := pretty s in
  if (k <=? n) && (n <=? 21) then d +:+ zeros (Z.to_nat (n - k))
  else if (0 <? n) && (n <=? 21) then
    String.substring 0 (Z.to_nat n) d +:+ "."
    +:+ String.substring (Z.to_nat n) (Z.to_nat (k - n)) d
  else if (-6 <? n) && (n <=? 0) then "0." +:+ zeros (Z.to_nat (- n)) +:+ d
  else
    let e := n - 1 in
    let exponent := (if 0 <=? e then "e+" else "e-") +:+ pretty (Z.abs e) in
    if k =? 1 then d +:+ exponent
    else String.substring 0 1 d +:+ "."
         +:+ String.substring 1 (Z.to_nat (k - 1)) d +:+ exponent.

(** The text of a double [x > 0]. *)
Definition toString_positive (x : Q) : string :=
  let '(n, k, s) := shortest 17 x (exponent10 x) 1 in layout n k s.

(** String conversion of a number, as [Number::toString] has it. *)
Definition toString (x : Number) : string :=
  match x with
  | NaN => "NaN"
  | Infinity => "Infinity"
  | Num q =>
      if Qeq_bool q 0 then "0"
      else if Qle_bool 0 q then toString_positive q
      else "-" +:+ toString_positive (- q)
  end.

(** [Math.pow(2, n)] for a counter [n]. *)
Definition Math_pow2 (n : nat) : Z := 2 ^ Z.of_nat n.

End Js.

(** ** Configuration *)

Record Config : Type := {
  SOURCE_DIR : string;
  ARCHIVE_PATH : string;
  METADATA_MASK : string;
  WORKFLOW_TEMPLATE : string;
  PROCESSED_DIR : string;
  ERROR_DIR : string;
  INTERVAL : Z;
  MAX_FILE_SIZE : Z;
  ALLOWED_EXTENSIONS : list string;
  EXCLUDE_PATTERNS : list string;
  RETRY_ATTEMPTS : Z;
  CONNECTION_TIMEOUT : Z;
  LOG_LEVEL : string
}.

(** The paragraph sign, the path separator of the archive. *)
Definition pilcrow : ascii := ascii_of_nat 182.

(** The fallback configuration of the script. *)
Definition default_config : Config := {|
  SOURCE_DIR := "C:\temp\pdf_import";
  ARCHIVE_PATH := String pilcrow "Eingangsrechnungen";
  METADATA_MASK := "Eingangsrechnung";
  WORKFLOW_TEMPLATE := "dps.invoice.Base";
  PROCESSED_DIR := "C:\temp\pdf_import\processed";
  ERROR_DIR := "C:\temp\pdf_import\error";
  INTERVAL := 30000;
  MAX_FILE_SIZE := 50 * 1024 * 1024;
  ALLOWED_EXTENSIONS := [".pdf"];
  EXCLUDE_PATTERNS := ["temp_*"; ".*"];
  RETRY_ATTEMPTS := 3;
  CONNECTION_TIMEOUT := 30000;
  LOG_LEVEL := "INFO"
|}.

(** ** The archive behind [ixConnect] *)

Inductive SordType : Type := LBT_NONE | LBT_FOLDER | LBT_DOCUMENT.

Record Sord : Type := {
  id : Z;
  parentId : Z;
  name : string;
  mask : option Z;
  type : SordType;
  desc : string;
  content : option (list byte)
}.

Record DocMask : Type := { mask_id : Z; mask_name : string }.

Record DocVersion : Type := { comment : string; version : string; ext : string }.

(** The value of [checkinDocBegin]: the upload address of [docs[0]] and the
    version the script attaches to it. *)
Record Document : Type := { url : string; doc_version : option DocVersion }.

Record WorkFlow : Type := {
  wf_id : Z;
  wf_template : string;
  wf_sord : Z;
  wf_started : bool
}.

(** The remote operations of the script. *)
Inductive IxOp : Type :=
  | OpGetServerInfo
  | OpFindFirstSords
  | OpCreateSord
  | OpCheckinSord
  | OpCheckoutDocMasks
  | OpCheckinDocBegin
  | OpUpload
  | OpCheckinDocEnd
  | OpDeleteSord
  | OpCheckoutWorkFlow
  | OpCreateWorkFlow
  | OpStartWorkFlow.

(** What the archive does with one remote call: it answers, it cannot be
    reached, or it reports an error of its own. *)
Inductive Reply : Type := Answer | Unreachable | ServerError.

#[global] Instance SordType_eq_dec : EqDecision SordType.
Proof. solve_decision. Defined.

#[global] Instance IxOp_eq_dec : EqDecision IxOp.
Proof. solve_decision. Defined.

#[global] Instance Reply_eq_dec : EqDecision Reply.
Proof. solve_decision. Defined.

(** The archive is not part of the script.  Its search is a parameter of
    the model: [index key s] says whether a search by [findByIndex.name]
    with the name [key] finds the Sord [s]. *)
Record Archive : Type := {
  sords : list Sord;
  nextId : Z;
  index : string -> Sord -> bool;
  docMasks : list DocMask;
  wfTemplates : list string;
  workflows : list WorkFlow;
  staged : gmap string (list byte);
  replies : list Reply;
  calls : list (IxOp * Reply)
}.

(** ** The file system behind [java.io.File] *)

(** A [java.io.File] made from a directory and a name. *)
Record JFile : Type := { getParent : string; getName : string }.

Definition path_of (f : JFile) : string * string := (getParent f, getName f).

Record FileNode : Type := {
  isFile : bool;
  canRead : bool;
  read_fails : bool;
  bytes : list byte
}.

Record FileSystem : Type := {
  files : gmap (string * string) FileNode;
  dirs : gset string;
  rename_replaces : bool;
  refusals : list bool
}.

(** ** Logger, statistics and the world *)

Inductive Level : Type := DEBUG | INFO | WARN | ERROR.

Inductive Exn : Type :=
  | Error (message : string)
  | RemoteException (op : IxOp) (r : Reply)
  | IOException (f : JFile).

Record LogEntry : Type := {
  level : Level;
  text : string;
  cause : option Exn
}.

Record Stats : Type := {
  totalProcessed : Z;
  totalErrors : Z;
  lastRun : option Z;
  startTime : Z
}.

Record World : Type := {
  ix : Archive;
  fs : FileSystem;
  now : Z;
  slept : list Z;
  log : list LogEntry;
  stats : Stats
}.

Definition set_ix (a : Archive) (w : World) : World :=
  {| ix := a; fs := fs w; now := now w; slept := slept w; log := log w; stats := stats w |}.

Definition set_fs (s : FileSystem) (w : World) : World :=
  {| ix := ix w; fs := s; now := now w; slept := slept w; log := log w; stats := stats w |}.

Definition set_stats (s : Stats) (w : World) : World :=
  {| ix := ix w; fs := fs w; now := now w; slept := slept w; log := log w; stats := s |}.

(** ** Computations: state passing with exceptions *)

Inductive Result (A : Type) : Type :=
  | Normal (a : A)
  | Thrown (e : Exn).

Arguments Normal {A} a.
Arguments Thrown {A} e.

Definition M (A : Type) : Type := World -> Result A * World.

Definition ret {A} (a : A) : M A := fun w => (Normal a, w).

Definition throw {A} (e : Exn) : M A := fun w => (Thrown e, w).

Definition bind {A B} (m : M A) (k : A -> M B) : M B :=
  fun w => match m w with
           | (Normal a, w') => k a w'
           | (Thrown e, w') => (Thrown e, w')
           end.

(** [try { m } catch (e) { h e }] *)
Definition try_catch {A} (m : M A) (h : Exn -> M A) : M A :=
  fun w => match m w with
           | (Normal a, w') => (Normal a, w')
           | (Thrown e, w') => h e w'
           end.

Declare Scope js_scope.
Delimit Scope js_scope with js.
Notation "'let!' x := m 'in' k" := (bind m (fun x => k))
  (at level 10, x name, m at level 100, k at level 200) : js_scope.
Notation "m >> k" := (bind m (fun _ => k))
  (at level 100, k at level 200, right associativity) : js_scope.
Open Scope js_scope.

Definition get_world : M World := fun w => (Normal w, w).

Definition modify (f : World -> World) : M unit := fun w => (Normal tt, f w).

(** [e.message] *)
Definition message_of (e : Exn) : string :=
  match e with
  | Error m => m
  | RemoteException _ Unreachable => "archive unreachable"
  | RemoteException _ _ => "archive error"
  | IOException _ => "i/o error"
  end.

Definition add_log (e : LogEntry) (w : World) : World :=
  {| ix := ix w; fs := fs w; now := now w; slept := slept w;
     log := log w ++ [e]; stats := stats w |}.

Definition add_sleep (ms : Z) (w : World) : World :=
  {| ix := ix w; fs := fs w; now := now w + ms; slept := slept w ++ [ms];
     log := log w; stats := stats w |}.

(** [logger.debug / info / warn / error] *)
Definition logger (l : Level) (t : string) (c : option Exn) : M unit :=
  modify (add_log {| level := l; text := t; cause := c |}).

(** [java.lang.Thread.sleep(ms)]: the call is recorded and the clock moves. *)
Definition sleep (ms : Z) : M unit := modify (add_sleep ms).

(** [new Date().getTime()] *)
Definition getTime : M Z := fun w => (Normal (now w), w).

(** [new Date().toISOString()]; the calendar rendering is not modelled, the
    text is the decimal number of milliseconds. *)
Definition toISOString (t : Z) : string := pretty t.

(** ** Remote calls *)

Definition get_ix : M Archive := fun w => (Normal (ix w), w).

Definition modify_ix (f : Archive -> Archive) : M unit :=
  modify (fun w => set_ix (f (ix w)) w).

(** The script of replies is consumed from the front; when it is used up
    the archive answers. *)
Definition next_reply (a : Archive) : Reply :=
  match replies a with
  | [] => Answer
  | r :: _ => r
  end.

Definition record_call (op : IxOp) (a : Archive) : Archive :=
  {| sords := sords a; nextId := nextId a; index := index a; docMasks := docMasks a;
     wfTemplates := wfTemplates a; workflows := workflows a; staged := staged a;
     replies := tail (replies a);
     calls := calls a ++ [(op, next_reply a)] |}.

(** One remote call: the reply is taken, the call is recorded, and an
    unreachable archive raises in the client. *)
Definition remote (op : IxOp) : M Reply :=
  fun w =>
    let r := next_reply (ix w) in
    let w' := set_ix (record_call op (ix w)) w in
    match r with
    | Unreachable => (Thrown (RemoteException op Unreachable), w')
    | _ => (Normal r, w')
    end.

(** A remote call whose error reply raises as well. *)
Definition ix_call (op : IxOp) : M unit :=
  let! r := remote op in
  match r with
  | ServerError => throw (RemoteException op ServerError)
  | _ => ret tt
  end.

Definition set_sords (l : list Sord) (n : Z) (a : Archive) : Archive :=
  {| sords := l; nextId := n; index := index a; docMasks := docMasks a;
     wfTemplates := wfTemplates a; workflows := workflows a; staged := staged a;
     replies := replies a; calls := calls a |}.

Definition set_staged (m : gmap string (list byte)) (a : Archive) : Archive :=
  {| sords := sords a; nextId := nextId a; index := index a; docMasks := docMasks a;
     wfTemplates := wfTemplates a; workflows := workflows a; staged := m;
     replies := replies a; calls := calls a |}.

Definition set_workflows (l : list WorkFlow) (a : Archive) : Archive :=
  {| sords := sords a; nextId := nextId a; index := index a; docMasks := docMasks a;
     wfTemplates := wfTemplates a; workflows := l; staged := staged a;
     replies := replies a; calls := calls a |}.

(** [ixConnect.ix().getServerInfo()]: the name of the server, or nothing
    when the server reports an error. *)
Definition getServerInfo : M (option string) :=
  let! r := remote OpGetServerInfo in
  match r with
  | ServerError => ret None
  | _ => ret (Some "ELO")
  end.

(** The Sords that a search by [findByIndex.name] finds in the archive, in
    the order in which they are stored. *)
Definition sords_named (key : string) (a : Archive) : list Sord :=
  filter (fun s => index a key s = true) (sords a).

(** [ixConnect.ix().findFirstSords(findInfo, max, SordC.mbAll).sords] *)
Definition findFirstSords (findByIndex_name : string) (max : nat) : M (list Sord) :=
  ix_call OpFindFirstSords >>
  let! a := get_ix in
  ret (take max (sords_named findByIndex_name a)).

(** [ixConnect.ix().createSord(parentId, null, EditInfoC.mbSord).sord]: a
    draft that the archive has not stored yet. *)
Definition createSord (parent : Z) : M Sord :=
  ix_call OpCreateSord >>
  ret {| id := -1; parentId := parent; name := ""; mask := None;
         type := LBT_NONE; desc := ""; content := None |}.

Definition with_id (i : Z) (s : Sord) : Sord :=
  {| id := i; parentId := parentId s; name := name s; mask := mask s;
     type := type s; desc := desc s; content := content s |}.

(** [ixConnect.ix().checkinSord(sord, SordC.mbAll, LockC.NO).sord.id]: the
    draft is stored under the next free id. *)
Definition checkinSord (s : Sord) : M Z :=
  ix_call OpCheckinSord >>
  let! a := get_ix in
  modify_ix (set_sords (sords a ++ [with_id (nextId a) s]) (nextId a + 1)) >>
  ret (nextId a).

(** [ixConnect.ix().checkoutDocMasks(null, DocMaskC.mbAll, LockC.NO)] *)
Definition checkoutDocMasks : M (list DocMask) :=
  ix_call OpCheckoutDocMasks >>
  let! a := get_ix in
  ret (docMasks a).

(** [ixConnect.ix().checkinDocBegin(sordId)] *)
Definition checkinDocBegin (sordId : Z) : M Document :=
  ix_call OpCheckinDocBegin >>
  ret {| url := "upload/" +:+ pretty sordId; doc_version := None |}.

(** [ixConnect.upload(fileData, url)]: true when the bytes arrived. *)
Definition upload (fileData : list byte) (u : string) : M bool :=
  let! r := remote OpUpload in
  match r with
  | ServerError => ret false
  | _ => let! a := get_ix in
         modify_ix (set_staged (<[u := fileData]> (staged a))) >>
         ret true
  end.

Definition with_content (c : option (list byte)) (s : Sord) : Sord :=
  {| id := id s; parentId := parentId s; name := name s; mask := mask s;
     type := type s; desc := desc s; content := c |}.

(** [ixConnect.ix().checkinDocEnd(sordId, SordC.mbAll, document)]: the
    uploaded bytes become the document of the Sord. *)
Definition checkinDocEnd (sordId : Z) (d : Document) : M unit :=
  ix_call OpCheckinDocEnd >>
  let! a := get_ix in
  modify_ix (set_sords
    (map (fun s => if id s =? sordId then with_content (staged a !! url d) s else s)
         (sords a))
    (nextId a)).

(** [ixConnect.ix().deleteSord(null, sordId, LockC.NO, null)] *)
Definition deleteSord (sordId : Z) : M unit :=
  ix_call OpDeleteSord >>
  let! a := get_ix in
  modify_ix (set_sords (filter (fun s => id s <> sordId) (sords a)) (nextId a)).

(** [ixConnect.ix().checkoutWorkFlow(name, WFTypeC.TEMPLATE, ...)]: the
    template, or nothing when the archive has none of that name. *)
Definition checkoutWorkFlow (template : string) : M (option string) :=
  ix_call OpCheckoutWorkFlow >>
  let! a := get_ix in
  ret (if bool_decide (template ∈ wfTemplates a) then Some template else None).

(** [ixConnect.ix().createWorkFlow(wfTemplate, sordId)] *)
Definition createWorkFlow (template : string) (sordId : Z) : M WorkFlow :=
  ix_call OpCreateWorkFlow >>
  let! a := get_ix in
  let wf := {| wf_id := 1 + Z.of_nat (List.length (workflows a));
               wf_template := template; wf_sord := sordId; wf_started := false |} in
  modify_ix (set_workflows (workflows a ++ [wf])) >>
  ret wf.

(** [ixConnect.ix().startWorkFlow(id, name)] *)
Definition startWorkFlow (wfId : Z) (wf_name : string) : M unit :=
  ix_call OpStartWorkFlow >>
  let! a := get_ix in
  modify_ix (set_workflows
    (map (fun wf => if wf_id wf =? wfId
                    then {| wf_id := wf_id wf; wf_template := wf_template wf;
                            wf_sord := wf_sord wf; wf_started := true |}
                    else wf)
         (workflows a))).

(** ** File operations *)

Definition get_fs : M FileSystem := fun w => (Normal (fs w), w).

Definition modify_fs (f : FileSystem -> FileSystem) : M unit :=
  modify (fun w => set_fs (f (fs w)) w).

Definition node (s : FileSystem) (f : JFile) : option FileNode :=
  files s !! path_of f.

(** [f.exists()] *)
Definition File_exists (s : FileSystem) (f : JFile) : bool :=
  bool_decide (is_Some (node s f)).

(** [f.canRead()] *)
Definition File_canRead (s : FileSystem) (f : JFile) : bool :=
  match node s f with
  | Some n => canRead n
  | None => false
  end.

(** [f.isFile()] *)
Definition File_isFile (s : FileSystem) (f : JFile) : bool :=
  match node s f with
  | Some n => isFile n
  | None => false
  end.

(** [f.length()] *)
Definition File_length (s : FileSystem) (f : JFile) : Z :=
  match node s f with
  | Some n => Z.of_nat (List.length (bytes n))
  | None => 0
  end.

(** [dir.exists() && dir.isDirectory()] *)
Definition isDirectory (s : FileSystem) (d : string) : bool :=
  bool_decide (d ∈ dirs s).

(** [java.io.File.separator] on the platform of the configuration. *)
Definition separator : string := String (ascii_of_nat 92) EmptyString.

(** [f.getAbsolutePath()] *)
Definition getAbsolutePath (f : JFile) : string :=
  getParent f +:+ separator +:+ getName f.

(** Whether a file has the path [p]. *)
Definition file_at (s : FileSystem) (p : string) : bool :=
  bool_decide (Exists (fun kv : (string * string) * FileNode =>
                         getAbsolutePath {| getParent := kv.1.1; getName := kv.1.2 |} = p)
                      (map_to_list (files s))).

(** [new java.io.File(p).exists()]: the path is a directory or a file. *)
Definition path_exists (s : FileSystem) (p : string) : bool :=
  isDirectory s p || file_at s p.

(** [dir.listFiles()]: the entries of the directory, in the order of the
    file system. *)
Definition listFiles (s : FileSystem) (d : string) : list JFile :=
  omap (fun kv : (string * string) * FileNode =>
          if bool_decide (kv.1.1 = d)
          then Some {| getParent := kv.1.1; getName := kv.1.2 |}
          else None)
       (map_to_list (files s)).

(** The bytes of a file that can be opened and read. *)
Definition readable_bytes (s : FileSystem) (f : JFile) : option (list byte) :=
  match node s f with
  | Some n => if canRead n && negb (read_fails n) then Some (bytes n) else None
  | None => None
  end.

(** [new FileInputStream(f)], [read(buffer)] into a buffer of five bytes and
    [close()]: the number of bytes read (-1 at the end of the file) and the
    buffer. *)
Definition read_header (f : JFile) : M (Z * list byte) :=
  let! s := get_fs in
  match readable_bytes s f with
  | Some b => ret (match take 5 b with
                   | [] => -1
                   | h => Z.of_nat (List.length h)
                   end, take 5 b)
  | None => throw (IOException f)
  end.

(** [fileUtils.readFileToByteArray(f.getAbsolutePath())] *)
Definition readFileToByteArray (f : JFile) : M (list byte) :=
  let! s := get_fs in
  match readable_bytes s f with
  | Some b => ret b
  | None => throw (IOException f)
  end.

Definition next_refusal (s : FileSystem) : bool :=
  match refusals s with
  | [] => false
  | b :: _ => b
  end.

Definition set_files (m : gmap (string * string) FileNode) (s : FileSystem) : FileSystem :=
  {| files := m; dirs := dirs s; rename_replaces := rename_replaces s;
     refusals := tail (refusals s) |}.

Definition set_dirs (d : gset string) (s : FileSystem) : FileSystem :=
  {| files := files s; dirs := d; rename_replaces := rename_replaces s;
     refusals := tail (refusals s) |}.

(** Whether [src.renameTo(dst)] goes through: the source exists, the
    operating system does not refuse, the target directory exists, and the
    target name is free or the platform replaces an existing target. *)
Definition rename_allowed (s : FileSystem) (src dst : JFile) : bool :=
  File_exists s src
  && negb (next_refusal s)
  && isDirectory s (getParent dst)
  && (negb (File_exists s dst) || rename_replaces s).

(** [src.renameTo(dst)] *)
Definition renameTo (src dst : JFile) : M bool :=
  let! s := get_fs in
  match node s src with
  | Some n =>
      if rename_allowed s src dst
      then modify_fs (set_files (<[path_of dst := n]> (delete (path_of src) (files s)))) >>
           ret true
      else modify_fs (set_files (files s)) >> ret false
  | None => modify_fs (set_files (files s)) >> ret false
  end.

(** [dir.mkdirs()] *)
Definition mkdirs (d : string) : M bool :=
  let! s := get_fs in
  if next_refusal s
  then modify_fs (set_dirs (dirs s)) >> ret false
  else modify_fs (set_dirs ({[d]} ∪ dirs s)) >> ret true.

#[global] Instance byte_eq_decision : EqDecision byte := Byte.byte_eq_dec.

(** The marker a PDF starts with: the four bytes of [%PDF]. *)
Definition PDF_MARKER : list byte := [x25; x50; x44; x46].

(** Truth of a number in a condition: every number but zero. *)
Definition truthy (n : Z) : bool := negb (n =? 0).

(** ** The script *)

Section Script.

Variable CONFIG : Config.

(** *** validatePDFFile *)

(** The loop over [CONFIG.ALLOWED_EXTENSIONS]; [fileName] is already in
    lower case. *)
Fixpoint hasValidExtension (fileName : string) (extensions : list string) : bool :=
  match extensions with
  | [] => false
  | e :: rest =>
      if Js.endsWith fileName (Js.toLowerCase e) then true
      else hasValidExtension fileName rest
  end.

(** The loop over [CONFIG.EXCLUDE_PATTERNS]: the first pattern one of whose
    three tests fires, or nothing. *)
Fixpoint excludingPattern (fileName : string) (patterns : list string) : option string :=
  match patterns with
  | [] => None
  | pattern :: rest =>
      if Js.startsWith pattern "*" && Js.endsWith fileName (Js.substring_from pattern 1)
      then Some pattern
      else if Js.endsWith pattern "*"
              && Js.startsWith fileName (Js.substring pattern 0 (Js.length pattern - 1))
      then Some pattern
      else if negb (Js.indexOf fileName pattern =? -1)
      then Some pattern
      else excludingPattern fileName rest
  end.

(** The header block: [false] is the [return false] of an invalid header,
    [true] lets the function go on. *)
Definition checkHeader (pdfFile : JFile) : M bool :=
  try_catch
    (let! r := read_header pdfFile in
     if r.1 >=? 4
     then if bool_decide (take 4 r.2 = PDF_MARKER)
          then ret true
          else logger WARN ("Invalid PDF header: " +:+ getName pdfFile) None >>
               ret false
     else ret true)
    (fun headerError =>
       logger WARN ("Could not validate PDF header for: " +:+ getName pdfFile)
              (Some headerError) >>
       ret true).

Definition validatePDFFile (pdfFile : JFile) : M bool :=
  try_catch
    (let! s := get_fs in
     if negb (File_exists s pdfFile) || negb (File_canRead s pdfFile)
     then logger WARN ("File does not exist or is not readable: " +:+ getName pdfFile) None >>
          ret false
     else
       let fileSize := File_length s pdfFile in
       if fileSize =? 0
       then logger WARN ("File is empty: " +:+ getName pdfFile) None >> ret false
       else if fileSize >? MAX_FILE_SIZE CONFIG
       then logger WARN ("File too large (" +:+ pretty fileSize +:+ " bytes): "
                         +:+ getName pdfFile) None >>
            ret false
       else
         let fileName := Js.toLowerCase (getName pdfFile) in
         if negb (hasValidExtension fileName (ALLOWED_EXTENSIONS CONFIG))
         then logger WARN ("Invalid file extension: " +:+ getName pdfFile) None >>
              ret false
         else
           match excludingPattern fileName (EXCLUDE_PATTERNS CONFIG) with
           | Some pattern =>
               logger DEBUG ("File excluded by pattern " +:+ pattern +:+ ": "
                             +:+ getName pdfFile) None >>
               ret false
           | None =>
               let! headerOk := checkHeader pdfFile in
               if headerOk
               then logger DEBUG ("File validation passed: " +:+ getName pdfFile +:+ " ("
                                  +:+ pretty fileSize +:+ " bytes)") None >>
                    ret true
               else ret false
           end)
    (fun e =>
       logger ERROR ("Error validating file: " +:+ getName pdfFile) (Some e) >>
       ret false).

(** *** getValidPDFFiles *)

Fixpoint collectValid (candidates : list JFile) (validFiles : list JFile) : M (list JFile) :=
  match candidates with
  | [] => ret validFiles
  | file :: rest =>
      let! s := get_fs in
      if File_isFile s file
      then let! ok := validatePDFFile file in
           collectValid rest (if ok then validFiles ++ [file] else validFiles)
      else collectValid rest validFiles
  end.

Definition getValidPDFFiles (dirPath : string) : M (list JFile) :=
  let! s := get_fs in
  if negb (isDirectory s dirPath)
  then logger WARN ("Source directory does not exist: " +:+ dirPath) None >> ret []
  else
    let candidates := listFiles s dirPath in
    let! validFiles := collectValid candidates [] in
    logger DEBUG ("Found " +:+ pretty (Z.of_nat (List.length validFiles))
                  +:+ " valid files out of "
                  +:+ pretty (Z.of_nat (List.length candidates)) +:+ " total files") None >>
    ret validFiles.

(** *** validateELOConnection *)

Definition validateELOConnection : M bool :=
  try_catch
    (let! serverInfo := getServerInfo in
     match serverInfo with
     | Some server =>
         logger DEBUG ("ELO connection validated. Server: " +:+ server) None >> ret true
     | None =>
         logger ERROR "ELO connection test failed - no server info" None >> ret false
     end)
    (fun e => logger ERROR "ELO connection validation failed" (Some e) >> ret false).

(** *** getOrCreateArchiveFolder *)

Definition getOrCreateArchiveFolder : M Z :=
  try_catch
    (let! found := findFirstSords (ARCHIVE_PATH CONFIG) 1 in
     match found with
     | s :: _ =>
         logger DEBUG ("Found existing archive folder: " +:+ ARCHIVE_PATH CONFIG) None >>
         ret (id s)
     | [] =>
         logger INFO ("Creating archive folder: " +:+ ARCHIVE_PATH CONFIG) None >>
         let! parentSord := createSord 1 in
         let parentSord :=
           {| id := id parentSord; parentId := parentId parentSord;
              name := Js.substring_from (ARCHIVE_PATH CONFIG) 1;
              mask := mask parentSord;
              type := LBT_FOLDER;
              desc := "Created by PDFImportService for invoice imports";
              content := content parentSord |} in
         let! folderId := checkinSord parentSord in
         logger INFO ("Archive folder created with ID: " +:+ pretty folderId) None >>
         ret folderId
     end)
    (fun e => logger ERROR "Error getting/creating archive folder" (Some e) >> throw e).

(** *** getMaskId *)

Fixpoint findMask (maskName : string) (masks : list DocMask) : option DocMask :=
  match masks with
  | [] => None
  | m :: rest => if String.eqb (mask_name m) maskName then Some m else findMask maskName rest
  end.

Definition getMaskId (maskName : string) : M (option Z) :=
  try_catch
    (let! masks := checkoutDocMasks in
     match findMask maskName masks with
     | Some m =>
         logger DEBUG ("Found mask: " +:+ maskName +:+ " with ID: " +:+ pretty (mask_id m))
                None >>
         ret (Some (mask_id m))
     | None => logger WARN ("Mask not found: " +:+ maskName) None >> ret None
     end)
    (fun e => logger ERROR ("Error getting mask ID for: " +:+ maskName) (Some e) >> ret None).

(** *** uploadPDFFile *)

(** [readFileInChunks]: the bytes, or [null] when reading fails. *)
Definition readFileInChunks (file : JFile) : M (option (list byte)) :=
  try_catch
    (let! data := readFileToByteArray file in ret (Some data))
    (fun e => logger ERROR ("Error reading file: " +:+ getName file) (Some e) >> ret None).

Definition uploadPDFFile (sordId : Z) (pdfFile : JFile) : M bool :=
  try_catch
    (let! t := getTime in
     let docVersion :=
       {| comment := "Imported by PDFImportService Enhanced on " +:+ toISOString t;
          version := "1.0"; ext := "pdf" |} in
     let! document := checkinDocBegin sordId in
     let document := {| url := url document; doc_version := Some docVersion |} in
     let! fileData := readFileInChunks pdfFile in
     match fileData with
     | None => throw (Error "Failed to read file data")
     | Some data =>
         let! uploadResult := upload data (url document) in
         if uploadResult
         then checkinDocEnd sordId document >>
              logger DEBUG ("File uploaded successfully: " +:+ getName pdfFile +:+ " ("
                            +:+ pretty (Z.of_nat (List.length data)) +:+ " bytes)") None >>
              ret true
         else throw (Error "Upload operation returned false")
     end)
    (fun e => logger ERROR ("Error uploading file: " +:+ getName pdfFile) (Some e) >> ret false).

(** *** importFileToELOWithValidation *)

(** [setCustomMetadata]: the assignments to the mask fields are commented
    out in the script; what is left computes two values and logs. *)
Definition setCustomMetadata (sord : Sord) (pdfFile : JFile) : M unit :=
  try_catch
    (logger DEBUG ("Custom metadata set for: " +:+ getName pdfFile) None)
    (fun e => logger WARN "Failed to set custom metadata" (Some e) >> throw e).

(** The body of the function up to the check-in of the Sord: validation,
    archive folder, draft, name, mask, type, description, check-in.  The
    value is the id of the stored Sord. *)
Definition importCheckin (pdfFile : JFile) : M Z :=
  let! valid := validatePDFFile pdfFile in
  if negb valid then throw (Error "File validation failed")
  else
    let! parent := getOrCreateArchiveFolder in
    let! sord := createSord parent in
    let fileName := getName pdfFile in
    let docName := Js.substring fileName 0 (Js.lastIndexOf fileName ".") in
    let! maskId := getMaskId (METADATA_MASK CONFIG) in
    let! t := getTime in
    let sord :=
      {| id := id sord; parentId := parentId sord;
         name := docName;
         mask := match maskId with
                 | Some m => if truthy m then Some m else mask sord
                 | None => mask sord
                 end;
         type := LBT_DOCUMENT;
         desc := "Imported by PDFImportService on " +:+ toISOString t;
         content := content sord |} in
    try_catch
      (setCustomMetadata sord pdfFile)
      (fun metaError =>
         logger WARN "Failed to set custom metadata, continuing with basic import"
                (Some metaError)) >>
    checkinSord sord.

(** The rest of the body: upload, and the cleanup when the upload failed. *)
Definition importUpload (sordId : Z) (pdfFile : JFile) : M Z :=
  let! success := uploadPDFFile sordId pdfFile in
  if success then ret sordId
  else
    try_catch
      (deleteSord sordId)
      (fun cleanupError =>
         logger WARN ("Failed to cleanup failed import for Sord ID: " +:+ pretty sordId)
                (Some cleanupError)) >>
    throw (Error "File upload failed").

Definition importFileToELOWithValidation (pdfFile : JFile) : M Z :=
  try_catch
    (let! sordId := importCheckin pdfFile in
     importUpload sordId pdfFile)
    (fun e =>
       logger ERROR ("Error importing file to ELO: " +:+ getName pdfFile) (Some e) >>
       throw e).

(** *** startWorkflowWithRetry *)

Definition maxAttempts : nat := 2.

(** The [try] block of the loop: one attempt to start the workflow.  It
    ends in the [return] of the function. *)
Definition workflowAttempt (sordId : Z) (attempts : nat) : M bool :=
  logger INFO ("Starting workflow for Sord ID: " +:+ pretty sordId +:+ " (Attempt "
               +:+ pretty attempts +:+ "/" +:+ pretty maxAttempts +:+ ")") None >>
  let! wfTemplate := checkoutWorkFlow (WORKFLOW_TEMPLATE CONFIG) in
  match wfTemplate with
  | None => throw (Error ("Workflow template not found: " +:+ WORKFLOW_TEMPLATE CONFIG))
  | Some template =>
      let! wfInstance := createWorkFlow template sordId in
      startWorkFlow (wf_id wfInstance) "Started by PDFImportService" >>
      logger INFO ("Workflow started successfully for Sord ID: " +:+ pretty sordId
                   +:+ " (Workflow ID: " +:+ pretty (wf_id wfInstance) +:+ ")") None >>
      ret true
  end.

(** The [catch] block: wait two seconds and go round again, or pass the
    error on after the last attempt. *)
Definition workflowFailed (sordId : Z) (attempts : nat) (e : Exn) : M bool :=
  logger WARN ("Workflow start attempt " +:+ pretty attempts
               +:+ " failed for Sord ID: " +:+ pretty sordId +:+ " - "
               +:+ message_of e) None >>
  if (attempts <? maxAttempts)%nat
  then sleep 2000 >> ret false
  else throw e.

(** The [while (attempts < maxAttempts)] loop; [remaining] is
    [maxAttempts - attempts], the number of turns the loop can still take.
    A turn ends the function ([true]) or goes round again ([false]). *)
Fixpoint workflowLoop (sordId : Z) (remaining attempts : nat) : M unit :=
  match remaining with
  | O => ret tt
  | S remaining' =>
      let attempts := S attempts in
      let! done :=
        try_catch (workflowAttempt sordId attempts) (workflowFailed sordId attempts) in
      if done then ret tt else workflowLoop sordId remaining' attempts
  end.

Definition startWorkflowWithRetry (sordId : Z) : M unit :=
  workflowLoop sordId maxAttempts 0.

(** *** moveFile *)

(** The name under which a file goes to a directory that already has a file
    of its name: the time stamp goes in front of the last dot. *)
Definition stampedName (fileName : string) (timestamp : Z) : string :=
  let baseName := Js.substring fileName 0 (Js.lastIndexOf fileName ".") in
  let extension := Js.substring_from fileName (Js.lastIndexOf fileName ".") in
  baseName +:+ "_" +:+ pretty timestamp +:+ extension.

(** The target that [moveFile] chooses. *)
Definition chooseTarget (file : JFile) (targetDir : string) : M JFile :=
  let targetFile := {| getParent := targetDir; getName := getName file |} in
  let! s := get_fs in
  if File_exists s targetFile
  then let! timestamp := getTime in
       ret {| getParent := targetDir; getName := stampedName (getName file) timestamp |}
  else ret targetFile.

Definition moveFile (file : JFile) (targetDir : string) : M unit :=
  try_catch
    (let! targetFile := chooseTarget file targetDir in
     let! moved := renameTo file targetFile in
     if moved
     then logger DEBUG ("Moved file to: " +:+ getAbsolutePath targetFile) None
     else logger ERROR ("Failed to move file: " +:+ getAbsolutePath file) None)
    (fun e => logger ERROR ("Error moving file: " +:+ getAbsolutePath file) (Some e)).

Definition moveFileToProcessedDir (file : JFile) : M unit :=
  moveFile file (PROCESSED_DIR CONFIG).

Definition moveFileToErrorDir (file : JFile) : M unit :=
  moveFile file (ERROR_DIR CONFIG).

(** *** processSinglePDFWithRetry *)

(** The waiting time after a failed attempt, in milliseconds:
    [Math.pow(2, attempts) * 1000]. *)
Definition waitTime (attempts : nat) : Z := Js.Math_pow2 attempts * 1000.

(** The [try] block of the loop: one attempt.  When the import gave a
    Sord id, the workflow is started, the file is moved and the function
    returns [true]. *)
Definition importAttempt (pdfFile : JFile) (attempts : nat) : M (option bool) :=
  logger INFO ("Processing file: " +:+ getName pdfFile +:+ " (Attempt "
               +:+ pretty attempts +:+ "/" +:+ pretty (RETRY_ATTEMPTS CONFIG)
               +:+ ")") None >>
  let! sordId := importFileToELOWithValidation pdfFile in
  if truthy sordId
  then
    try_catch
      (startWorkflowWithRetry sordId)
      (fun wfError =>
         logger WARN ("Workflow start failed for Sord ID: " +:+ pretty sordId
                      +:+ ", but import was successful") (Some wfError)) >>
    moveFileToProcessedDir pdfFile >>
    logger INFO ("Successfully processed file: " +:+ getName pdfFile
                 +:+ " (Sord ID: " +:+ pretty sordId +:+ ")") None >>
    ret (Some true)
  else throw (Error "Failed to import file to ELO").

(** The [catch] block: the exponential backoff while attempts remain. *)
Definition attemptFailed (pdfFile : JFile) (attempts : nat) (e : Exn) : M (option bool) :=
  logger WARN ("Attempt " +:+ pretty attempts +:+ " failed for file: "
               +:+ getName pdfFile +:+ " - " +:+ message_of e) None >>
  (if Z.of_nat attempts <? RETRY_ATTEMPTS CONFIG
   then logger INFO ("Waiting " +:+ pretty (waitTime attempts)
                     +:+ "ms before retry...") None >>
        sleep (waitTime attempts)
   else ret tt) >>
  ret None.

(** The code after the loop: all attempts failed. *)
Definition giveUp (pdfFile : JFile) : M bool :=
  logger ERROR ("All " +:+ pretty (RETRY_ATTEMPTS CONFIG)
                +:+ " attempts failed for file: " +:+ getName pdfFile) None >>
  moveFileToErrorDir pdfFile >>
  ret false.

(** The [while (attempts < CONFIG.RETRY_ATTEMPTS)] loop; [remaining] is
    the number of turns for which the condition still holds,
    [CONFIG.RETRY_ATTEMPTS - attempts] or none when that is negative.  A
    turn returns from the function
    ([Some b]) or goes round again ([None]); when no turn is left the code
    after the loop runs. *)
Fixpoint retryLoop (pdfFile : JFile) (remaining attempts : nat) : M bool :=
  match remaining with
  | O => giveUp pdfFile
  | S remaining' =>
      let attempts := S attempts in
      let! returned :=
        try_catch (importAttempt pdfFile attempts) (attemptFailed pdfFile attempts) in
      match returned with
      | Some b => ret b
      | None => retryLoop pdfFile remaining' attempts
      end
  end.

Definition processSinglePDFWithRetry (pdfFile : JFile) : M bool :=
  retryLoop pdfFile (Z.to_nat (RETRY_ATTEMPTS CONFIG)) 0.

(** *** Statistics *)

Definition get_stats : M Stats := fun w => (Normal (stats w), w).

(** [stats.totalProcessed++] *)
Definition countProcessed : M unit :=
  modify (fun w =>
    set_stats {| totalProcessed := totalProcessed (stats w) + 1;
                 totalErrors := totalErrors (stats w);
                 lastRun := lastRun (stats w); startTime := startTime (stats w) |} w).

(** [stats.totalErrors++] *)
Definition countError : M unit :=
  modify (fun w =>
    set_stats {| totalProcessed := totalProcessed (stats w);
                 totalErrors := totalErrors (stats w) + 1;
                 lastRun := lastRun (stats w); startTime := startTime (stats w) |} w).

(** [stats.lastRun = startTime] *)
Definition setLastRun (t : Z) : M unit :=
  modify (fun w =>
    set_stats {| totalProcessed := totalProcessed (stats w);
                 totalErrors := totalErrors (stats w);
                 lastRun := Some t; startTime := startTime (stats w) |} w).

(** [Math.round((stats.totalProcessed / (stats.totalProcessed +
    stats.totalErrors)) * 100)] *)
Definition successRate (st : Stats) : Js.Number :=
  Js.Math_round
    (Js.mul (Js.div (Js.of_Z (totalProcessed st))
                    (Js.of_Z (totalProcessed st + totalErrors st)))
            (Js.of_Z 100)).

(** [Math.round(uptime / (1000 * 60 * 60) * 100) / 100] *)
Definition uptimeHours (uptime : Z) : Js.Number :=
  Js.div
    (Js.Math_round
       (Js.mul (Js.div (Js.of_Z uptime) (Js.of_Z (1000 * 60 * 60))) (Js.of_Z 100)))
    (Js.of_Z 100).

Definition logStatistics : M unit :=
  let! t := getTime in
  let! st := get_stats in
  let uptime := t - startTime st in
  logger INFO "=== PDFImportService Statistics ===" None >>
  logger INFO ("Uptime: " +:+ Js.toString (uptimeHours uptime) +:+ " hours") None >>
  logger INFO ("Total processed: " +:+ pretty (totalProcessed st)) None >>
  logger INFO ("Total errors: " +:+ pretty (totalErrors st)) None >>
  logger INFO ("Success rate: " +:+ Js.toString (successRate st) +:+ "%") None >>
  logger INFO ("Last run: " +:+ match lastRun st with
                                | Some r => toISOString r
                                | None => "Never"
                                end) None >>
  logger INFO "===================================" None.

(** *** Directories *)

Definition createDirectoryIfNotExists (dirPath : string) : M unit :=
  try_catch
    (let! s := get_fs in
     if negb (path_exists s dirPath)
     then let! made := mkdirs dirPath in
          if made
          then logger INFO ("Created directory: " +:+ dirPath) None
          else logger ERROR ("Failed to create directory: " +:+ dirPath) None
     else ret tt)
    (fun e => logger ERROR ("Error creating directory: " +:+ dirPath) (Some e)).

Definition ensureDirectoriesExist : M unit :=
  createDirectoryIfNotExists (SOURCE_DIR CONFIG) >>
  createDirectoryIfNotExists (PROCESSED_DIR CONFIG) >>
  createDirectoryIfNotExists (ERROR_DIR CONFIG).

(** *** processPDFFiles *)

(** The body of the [for] loop: one file, counted as processed or as an
    error. *)
Definition processOne (file : JFile) : M bool :=
  try_catch
    (let! done := processSinglePDFWithRetry file in
     if done
     then countProcessed >> ret true
     else countError >> ret false)
    (fun e =>
       logger ERROR ("Unhandled error processing file: " +:+ getName file) (Some e) >>
       moveFileToErrorDir file >>
       countError >>
       ret false).

(** The [for] loop over the valid files, with its two counters. *)
Fixpoint processEach (pdfFiles : list JFile) (successCount errorCount : Z) : M (Z * Z) :=
  match pdfFiles with
  | [] => ret (successCount, errorCount)
  | file :: rest =>
      let! ok := processOne file in
      if ok
      then processEach rest (successCount + 1) errorCount
      else processEach rest successCount (errorCount + 1)
  end.

(** The end of a run: every tenth outcome brings the statistics. *)
Definition summarise : M unit :=
  let! st := get_stats in
  if Z.rem (totalProcessed st + totalErrors st) 10 =? 0
  then logStatistics
  else ret tt.

(** The part of a run that follows the scan when it found files. *)
Definition processFound (startTime : Z) (pdfFiles : list JFile) : M unit :=
  logger INFO ("Found " +:+ pretty (Z.of_nat (List.length pdfFiles))
               +:+ " valid PDF files to process") None >>
  let! counts := processEach pdfFiles 0 0 in
  let! t := getTime in
  let duration := t - startTime in
  logger INFO ("PDF import process completed. Success: " +:+ pretty counts.1
               +:+ ", Errors: " +:+ pretty counts.2 +:+ ", Duration: "
               +:+ pretty duration +:+ "ms") None >>
  summarise.

(** The [try] block of a run. *)
Definition runBody (startTime : Z) : M unit :=
  let! st := get_stats in
  logger INFO ("Starting PDF import process... (Run #"
               +:+ pretty (totalProcessed st + totalErrors st + 1) +:+ ")") None >>
  let! connected := validateELOConnection in
  if negb connected
  then logger ERROR "ELO connection validation failed" None
  else
    ensureDirectoriesExist >>
    let! pdfFiles := getValidPDFFiles (SOURCE_DIR CONFIG) in
    match pdfFiles with
    | [] => logger DEBUG "No valid PDF files found in source directory" None
    | _ :: _ => processFound startTime pdfFiles
    end.

Definition processPDFFiles : M unit :=
  let! startTime := getTime in
  setLastRun startTime >>
  try_catch
    (runBody startTime)
    (fun e => logger ERROR "Critical error in processPDFFiles" (Some e) >> countError).

(** The timer of [setInterval]: [n] further runs, one at a time. *)
Fixpoint intervalRuns (n : nat) : M unit :=
  match n with
  | O => ret tt
  | S n' => processPDFFiles >> intervalRuns n'
  end.

(** [CONFIG.INTERVAL / 1000] *)
Definition INTERVAL_seconds : Js.Number :=
  Js.div (Js.of_Z (INTERVAL CONFIG)) (Js.of_Z 1000).

(** [Math.round(CONFIG.MAX_FILE_SIZE / 1024 / 1024)] *)
Definition MAX_FILE_SIZE_MB : Js.Number :=
  Js.Math_round
    (Js.div (Js.div (Js.of_Z (MAX_FILE_SIZE CONFIG)) (Js.of_Z 1024)) (Js.of_Z 1024)).

(** The lines that [main] starts with. *)
Definition banner : M unit :=
  logger INFO "=== PDFImportService Enhanced Starting ===" None >>
  logger INFO "Configuration loaded:" None >>
  logger INFO ("- Source Directory: " +:+ SOURCE_DIR CONFIG) None >>
  logger INFO ("- Archive Path: " +:+ ARCHIVE_PATH CONFIG) None >>
  logger INFO ("- Metadata Mask: " +:+ METADATA_MASK CONFIG) None >>
  logger INFO ("- Workflow Template: " +:+ WORKFLOW_TEMPLATE CONFIG) None >>
  logger INFO ("- Interval: " +:+ Js.toString INTERVAL_seconds +:+ " seconds")
         None >>
  logger INFO ("- Max File Size: " +:+ Js.toString MAX_FILE_SIZE_MB +:+ " MB")
         None >>
  logger INFO ("- Retry Attempts: " +:+ pretty (RETRY_ATTEMPTS CONFIG)) None >>
  logger INFO "============================================" None.

(** [main], followed by [n] runs of the timer: the banner with the
    configuration, the check of the connection, the first run, and the
    line that the service is running. *)
Definition main (n : nat) : M unit :=
  banner >>
  let! connected := validateELOConnection in
  if negb connected
  then logger ERROR "Initial ELO connection validation failed. Service will not start." None
  else
    processPDFFiles >>
    logger INFO ("PDFImportService Enhanced is running with "
                 +:+ Js.toString INTERVAL_seconds +:+ " second interval") None >>
    intervalRuns n.

End Script.

(** ** The exclusion check, twice

    [patternMatches] is the test that one turn of the loop in
    [validatePDFFile] makes.  [specMatches] is the reading of the
    specification: a pattern that starts with the wildcard is a suffix
    match, a pattern that ends with it is a prefix match, and only a pattern
    without any wildcard is looked for inside the name. *)

Definition patternMatches (fileName pattern : string) : bool :=
  (Js.startsWith pattern "*" && Js.endsWith fileName (Js.substring_from pattern 1))
  || (Js.endsWith pattern "*"
      && Js.startsWith fileName (Js.substring pattern 0 (Js.length pattern - 1)))
  || negb (Js.indexOf fileName pattern =? -1).

Fixpoint occurs (c : ascii) (s : string) : bool :=
  match s with
  | EmptyString => false
  | String x s' => Ascii.eqb x c || occurs c s'
  end.

Definition wildcard : ascii := ascii_of_nat 42.

Definition specMatches (fileName pattern : string) : bool :=
  (Js.startsWith pattern "*" && Js.endsWith fileName (Js.substring_from pattern 1))
  || (Js.endsWith pattern "*"
      && Js.startsWith fileName (Js.substring pattern 0 (Js.length pattern - 1)))
  || (negb (occurs wildcard pattern) && negb (Js.indexOf fileName pattern =? -1)).

(** ** Worlds to run the script in

    An archive that knows the mask and the workflow template of the default
    configuration and has no Sord yet, the three directories of the default
    configuration, and a clock. *)

(** A search that looks a Sord up at its path: the paragraph sign and the
    name of a Sord that lies under the root, which has the id 1. *)
Definition at_root (key : string) (s : Sord) : bool :=
  String.eqb key (String pilcrow (name s)) && (parentId s =? 1).

Definition demo_archive (script : list Reply) : Archive :=
  {| sords := []; nextId := 2; index := at_root;
     docMasks := [{| mask_id := 7; mask_name := "Eingangsrechnung" |}];
     wfTemplates := ["dps.invoice.Base"];
     workflows := []; staged := ∅;
     replies := script; calls := [] |}.

Definition plain_file (b : list byte) : FileNode :=
  {| isFile := true; canRead := true; read_fails := false; bytes := b |}.

Definition in_source (n : string) : JFile :=
  {| getParent := SOURCE_DIR default_config; getName := n |}.

Definition in_processed (n : string) : JFile :=
  {| getParent := PROCESSED_DIR default_config; getName := n |}.

Definition in_error (n : string) : JFile :=
  {| getParent := ERROR_DIR default_config; getName := n |}.

Definition demo_fs (l : list (JFile * FileNode)) (replaces : bool) : FileSystem :=
  {| files := list_to_map (map (fun p => (path_of p.1, p.2)) l);
     dirs := {[ SOURCE_DIR default_config; PROCESSED_DIR default_config;
                ERROR_DIR default_config ]};
     rename_replaces := replaces; refusals := [] |}.

Definition demo_world (script : list Reply) (l : list (JFile * FileNode))
    (replaces : bool) (clock : Z) : World :=
  {| ix := demo_archive script; fs := demo_fs l replaces; now := clock;
     slept := []; log := [];
     stats := {| totalProcessed := 0; totalErrors := 0; lastRun := None;
                 startTime := 0 |} |}.

(** Five bytes that start a PDF, and five that do not. *)
Definition pdf_bytes : list byte := [x25; x50; x44; x46; x2d].
Definition other_bytes : list byte := [x41; x42; x43; x44; x45].

(** ** Frames

    Most properties below need to know what a function leaves alone: the
    list of sleeps, the file system, the archive, the counters.  Such a fact
    is a relation between the world before and the world after, and
    [keeps T m] says that every run of [m] relates the two.  The classes say
    which updates of the world a relation lets through; a function that only
    makes such updates keeps the relation. *)

Definition keeps (T : World -> World -> Prop) {A : Type} (m : M A) : Prop :=
  forall w, T w (m w).2.

(** The line of the statistics summary that carries the success rate. *)
Definition isRateLine (e : LogEntry) : bool :=
  String.prefix "Success rate: " (text e).

(** [OverLog] lets through every new log line but the one with the success
    rate, which only [logStatistics] writes. *)
Class OverLog (T : World -> World -> Prop) : Prop :=
  over_log : forall w e, isRateLine e = false -> T w (add_log e w).

Class OverIx (T : World -> World -> Prop) : Prop :=
  over_ix : forall w a, T w (set_ix a w).

Class OverCalls (T : World -> World -> Prop) : Prop :=
  over_calls : forall w op, T w (set_ix (record_call op (ix w)) w).

Class OverSords (T : World -> World -> Prop) : Prop :=
  over_sords : forall w l n, T w (set_ix (set_sords l n (ix w)) w).

Class OverStaged (T : World -> World -> Prop) : Prop :=
  over_staged : forall w m, T w (set_ix (set_staged m (ix w)) w).

Class OverWorkflows (T : World -> World -> Prop) : Prop :=
  over_workflows : forall w l, T w (set_ix (set_workflows l (ix w)) w).

Class OverFs (T : World -> World -> Prop) : Prop :=
  over_fs : forall w s, T w (set_fs s w).

Class OverSleep (T : World -> World -> Prop) : Prop :=
  over_sleep : forall w ms, T w (add_sleep ms w).

Class OverStats (T : World -> World -> Prop) : Prop :=
  over_stats : forall w s, T w (set_stats s w).

(** The relations that are used. *)
Definition sameSlept (w w' : World) : Prop := slept w' = slept w.

Definition sameFs (w w' : World) : Prop := fs w' = fs w.

Definition sameIx (w w' : World) : Prop := ix w' = ix w.

Definition sameStats (w w' : World) : Prop := stats w' = stats w.

Definition sameSords (w w' : World) : Prop := sords (ix w') = sords (ix w).

(** The log only grows. *)
Definition moreLogged (w w' : World) : Prop :=
  exists new, log w' = log w ++ new.

(** The record of remote calls only grows. *)
Definition moreCalls (w w' : World) : Prop :=
  exists new, calls (ix w') = calls (ix w) ++ new.

(** Everything but the log is as it was. *)
Definition onlyLogged (w w' : World) : Prop :=
  ix w' = ix w /\ fs w' = fs w /\ now w' = now w /\ slept w' = slept w
  /\ stats w' = stats w.

(** [yields P m]: whenever [m] returns a value, the value has [P]. *)
Definition yields {A : Type} (P : A -> Prop) (m : M A) : Prop :=
  forall w, match (m w).1 with
            | Normal a => P a
            | Thrown _ => True
            end.

(** [succeeds m]: [m] never throws. *)
Definition succeeds {A : Type} (m : M A) : Prop :=
  forall w, exists a, (m w).1 = Normal a.

(** ** Backoff arithmetic *)

(** The time unit of the backoff, in milliseconds. *)
Definition timeUnit : Z := 1000.

(** The sleeps of a file that fails [R] attempts: [2^k] time units after
    attempt [k], for [k] from 1 to [R - 1]. *)
Definition backoffDelays (R : nat) : list Z :=
  map (fun k => 2 ^ Z.of_nat k * timeUnit) (seq 1 (R - 1)).

Definition total (l : list Z) : Z := fold_right Z.add 0 l.

(** The sum of [2^k] for [k] from 1 to [n]. *)
Fixpoint geometric (n : nat) : Z :=
  match n with
  | O => 0
  | S n' => geometric n' + 2 ^ Z.of_nat n
  end.

(** ** Validation as a function of the file system *)

Section Checks.

Variable CONFIG : Config.

(** What the checks before the header block ask of a file: it exists, can
    be read, is not empty and not too large, has an allowed extension, and
    no exclusion pattern fires. *)
Definition passesBasicChecks (s : FileSystem) (f : JFile) : Prop :=
  File_exists s f = true
  /\ File_canRead s f = true
  /\ 0 < File_length s f <= MAX_FILE_SIZE CONFIG
  /\ hasValidExtension (Js.toLowerCase (getName f)) (ALLOWED_EXTENSIONS CONFIG) = true
  /\ excludingPattern (Js.toLowerCase (getName f)) (EXCLUDE_PATTERNS CONFIG) = None.

(** The verdict of the header block: [false] only when four bytes were read
    and they are not the marker. *)
Definition headerVerdict (s : FileSystem) (f : JFile) : bool :=
  match readable_bytes s f with
  | Some b => negb ((4 <=? List.length b)%nat && negb (bool_decide (take 4 b = PDF_MARKER)))
  | None => true
  end.

(** The verdict of [validatePDFFile], read off its tests in their order;
    [validatePDFFile_verdict] proves that this is what the function
    returns. *)
Definition validVerdict (s : FileSystem) (f : JFile) : bool :=
  if negb (File_exists s f) || negb (File_canRead s f) then false
  else if File_length s f =? 0 then false
  else if File_length s f >? MAX_FILE_SIZE CONFIG then false
  else if negb (hasValidExtension (Js.toLowerCase (getName f)) (ALLOWED_EXTENSIONS CONFIG))
  then false
  else match excludingPattern (Js.toLowerCase (getName f)) (EXCLUDE_PATTERNS CONFIG) with
       | Some _ => false
       | None => headerVerdict s f
       end.

End Checks.

(** ** The target of a move *)

(** The file that [moveFile] renames to: the name as it is when the target
    directory has no file of that name, the stamped name otherwise. *)
Definition chosenTarget (w : World) (file : JFile) (targetDir : string) : JFile :=
  if File_exists (fs w) {| getParent := targetDir; getName := getName file |}
  then {| getParent := targetDir; getName := stampedName (getName file) (now w) |}
  else {| getParent := targetDir; getName := getName file |}.

(** The file system after a rename that went through. *)
Definition renamed (s : FileSystem) (src dst : JFile) (n : FileNode) : FileSystem :=
  set_files (<[path_of dst := n]> (delete (path_of src) (files s))) s.

(** The archive and the file system are as they were. *)
Definition sameStores (w w' : World) : Prop := ix w' = ix w /\ fs w' = fs w.

(** The line that an attempt on a file starts with. *)
Definition attemptLine (CONFIG : Config) (pdfFile : JFile) (attempts : nat) : LogEntry :=
  {| level := INFO;
     text := "Processing file: " +:+ getName pdfFile +:+ " (Attempt "
             +:+ pretty attempts +:+ "/" +:+ pretty (RETRY_ATTEMPTS CONFIG) +:+ ")";
     cause := None |}.

(** The warning that is all that is left of a workflow that did not start. *)
Definition workflowWarning (sordId : Z) (wfError : Exn) : LogEntry :=
  {| level := WARN;
     text := "Workflow start failed for Sord ID: " +:+ pretty sordId
             +:+ ", but import was successful";
     cause := Some wfError |}.

(** ** Remote calls that could not reach the archive *)

(** A recorded call that either reached the archive or is the lookup of
    the masks. *)
Definition reachedOrMasks (c : IxOp * Reply) : Prop :=
  c.2 = Unreachable -> c.1 = OpCheckoutDocMasks.

(** The record of calls grew by such calls only. *)
Definition cleanCalls (w w' : World) : Prop :=
  exists new, calls (ix w') = calls (ix w) ++ new /\ Forall reachedOrMasks new.

(** [cleanly ok m]: when [m] returns a value that has [ok], the record of
    calls grew by such calls only. *)
Definition cleanly {A : Type} (ok : A -> Prop) (m : M A) : Prop :=
  forall w a w', m w = (Normal a, w') -> ok a -> cleanCalls w w'.

(** ** The success rate in the log *)

(** A line that shows the success rate as a percentage from 0 to 100. *)
Definition validRateLine (e : LogEntry) : Prop :=
  exists r, 0 <= r <= 100 /\ text e = "Success rate: " +:+ pretty r +:+ "%".

(** The log grew, and not by a line with the success rate. *)
Definition noRateLines (w w' : World) : Prop :=
  exists new, log w' = log w ++ new /\ Forall (fun e => isRateLine e = false) new.

(** The counters did not go down. *)
Definition countersGrow (w w' : World) : Prop :=
  totalProcessed (stats w) <= totalProcessed (stats w')
  /\ totalErrors (stats w) <= totalErrors (stats w').

(** ** More vocabulary for the properties of the script *)

(** An ASCII capital letter. *)
Definition capital (c : ascii) : bool :=
  ((65 <=? nat_of_ascii c) && (nat_of_ascii c <=? 90))%nat.

(** A pattern with an ASCII capital letter in it. *)
Fixpoint hasCapital (s : string) : bool :=
  match s with
  | EmptyString => false
  | String c s' => capital c || hasCapital s'
  end.

(** The next [n] remote calls are answered. *)
Definition answered (n : nat) (a : Archive) : Prop :=
  Forall (fun r => r = Answer) (take n (replies a)).

(** The documents of an archive. *)
Definition documents (a : Archive) : list Sord :=
  filter (fun s => type s = LBT_DOCUMENT) (sords a).

(** Every stored Sord has an id below the next free id, as in an archive
    that gave out all its ids itself. *)
Definition idsBelowNext (a : Archive) : Prop :=
  Forall (fun s => id s < nextId a) (sords a).

(** The stored Sords and the next free id are as they were. *)
Definition sameStored (w w' : World) : Prop :=
  sords (ix w') = sords (ix w) /\ nextId (ix w') = nextId (ix w).

(** The stored Sords grew by folders only, and the ids stay below the next
    free id when they were. *)
Definition onlyFoldersAdded (w w' : World) : Prop :=
  (exists new, sords (ix w') = sords (ix w) ++ new
               /\ Forall (fun s => type s = LBT_FOLDER) new)
  /\ (idsBelowNext (ix w) -> idsBelowNext (ix w')).

(** The short name that the import gives the document of a file. *)
Definition documentName (f : JFile) : string :=
  Js.substring (getName f) 0 (Js.lastIndexOf (getName f) ".").

(** The entry of the file system under the path of [g] is as it was. *)
Definition sameNode (g : JFile) (w w' : World) : Prop :=
  node (fs w') g = node (fs w) g.

(** ** An archive that answers

    [steady s ts sl w]: the archive of [w] answers every call, its next
    free id is positive and its workflow templates are [ts]; the file system
    is [s] and the sleeps so far are [sl]. *)
Definition steady (s : FileSystem) (ts : list string) (sl : list Z) (w : World) : Prop :=
  replies (ix w) = [] /\ 0 < nextId (ix w) /\ wfTemplates (ix w) = ts
  /\ fs w = s /\ slept w = sl.

(** [returns I P m]: from a world that has [I], [m] returns a value that
    has [P], in a world that has [I]. *)
Definition returns {A : Type} (I : World -> Prop) (P : A -> Prop) (m : M A) : Prop :=
  forall w, I w -> exists a, (m w).1 = Normal a /\ P a /\ I (m w).2.

(** ** The configuration file

    The enhanced script starts by reading [config.json].  The parsed
    document is a record whose optional parts are the ones that the script
    reads with a default ([x || d]) or that it reads through ([x.y]) and
    that raise when they are missing; the settings that the script copies
    as they are, are taken to be present and of their type, and the numbers
    of the document are whole numbers of either sign.  [None] for the whole
    document is a file that is missing or cannot be parsed. *)

Module ConfigFile.

Record Logging : Type := { logging_level : option string }.

Record Settings : Type := {
  sourceDirectory : string;
  archivePath : string;
  metadataMask : string;
  workflowTemplate : string;
  processedDirectory : string;
  errorDirectory : string;
  intervalSeconds : Z;
  logging : option Logging
}.

Record FileFilters : Type := {
  extensions : option (list string);
  maxFileSizeMB : option Z;
  excludePatterns : option (list string)
}.

Record EloConnection : Type := {
  timeout : option Z;
  retryAttempts : option Z
}.

Record ConfigData : Type := {
  settings : option Settings;
  fileFilters : option FileFilters;
  eloConnection : option EloConnection
}.

(** [x || d] for a number: a missing number and zero give the default,
    every other number is kept, a negative one as well. *)
Definition or_Z (x : option Z) (d : Z) : Z :=
  match x with
  | Some n => if n =? 0 then d else n
  | None => d
  end.

(** [x || d] for an array: only a missing array gives the default, an
    empty array is kept. *)
Definition or_list (x : option (list string)) (d : list string) : list string :=
  match x with
  | Some l => l
  | None => d
  end.

(** [x || d] for a string: a missing and an empty string give the default. *)
Definition or_string (x : option string) (d : string) : string :=
  match x with
  | Some EmptyString => d
  | Some v => v
  | None => d
  end.

(** The object that the [try] block builds; [None] when reading through a
    missing part raises. *)
Definition readConfig (configData : ConfigData) : option Config :=
  match settings configData, fileFilters configData, eloConnection configData with
  | Some st, Some ff, Some ec =>
      match logging st with
      | Some lg =>
          Some {| SOURCE_DIR := sourceDirectory st;
                  ARCHIVE_PATH := archivePath st;
                  METADATA_MASK := metadataMask st;
                  WORKFLOW_TEMPLATE := workflowTemplate st;
                  PROCESSED_DIR := processedDirectory st;
                  ERROR_DIR := errorDirectory st;
                  INTERVAL := intervalSeconds st * 1000;
                  MAX_FILE_SIZE := or_Z (maxFileSizeMB ff) 50 * 1024 * 1024;
                  ALLOWED_EXTENSIONS := or_list (extensions ff) [".pdf"];
                  EXCLUDE_PATTERNS := or_list (excludePatterns ff) [];
                  RETRY_ATTEMPTS := or_Z (retryAttempts ec) 3;
                  CONNECTION_TIMEOUT := or_Z (timeout ec) 30000;
                  LOG_LEVEL := or_string (logging_level lg) "INFO" |}
      | None => None
      end
  | _, _, _ => None
  end.

(** The configuration that the script runs with: the one of the file, or
    the fallback of the [catch] block. *)
Definition loadConfig (file : option ConfigData) : Config :=
  match file with
  | Some configData =>
      match readConfig configData with
      | Some c => c
      | None => default_config
      end
  | None => default_config
  end.

End ConfigFile.

(** ** The basic script

    The script that the enhanced one grew out of: the same archive folder,
    mask lookup and move of a file, but no validation, no retry, no cleanup
    after a failed upload, and a workflow whose failure fails the file.  Its
    configuration is the part of [Config] up to the interval. *)

Module Basic.

Section Script.

Variable CONFIG : Config.

Definition getOrCreateArchiveFolder : M Z :=
  try_catch
    (let! found := findFirstSords (ARCHIVE_PATH CONFIG) 1 in
     match found with
     | s :: _ => ret (id s)
     | [] =>
         let! parentSord := createSord 1 in
         let parentSord :=
           {| id := id parentSord; parentId := parentId parentSord;
              name := Js.substring_from (ARCHIVE_PATH CONFIG) 1;
              mask := mask parentSord;
              type := LBT_FOLDER;
              desc := desc parentSord;
              content := content parentSord |} in
         checkinSord parentSord
     end)
    (fun e => logger ERROR "Error getting/creating archive folder" (Some e) >> throw e).

Definition getMaskId (maskName : string) : M (option Z) :=
  try_catch
    (let! masks := checkoutDocMasks in
     match findMask maskName masks with
     | Some m => ret (Some (mask_id m))
     | None => logger WARN ("Mask not found: " +:+ maskName) None >> ret None
     end)
    (fun e => logger ERROR ("Error getting mask ID for: " +:+ maskName) (Some e) >> ret None).

(** [importFileToELO] up to the check-in of the Sord. *)
Definition importCheckin (pdfFile : JFile) : M Z :=
  let! parent := getOrCreateArchiveFolder in
  let! sord := createSord parent in
  let fileName := getName pdfFile in
  let docName := Js.substring fileName 0 (Js.lastIndexOf fileName ".") in
  let! maskId := getMaskId (METADATA_MASK CONFIG) in
  let sord :=
    {| id := id sord; parentId := parentId sord;
       name := docName;
       mask := match maskId with
               | Some m => if truthy m then Some m else mask sord
               | None => mask sord
               end;
       type := LBT_DOCUMENT;
       desc := desc sord;
       content := content sord |} in
  checkinSord sord.

(** The rest of [importFileToELO]: the upload of the bytes.  The version
    has no file extension set. *)
Definition importUpload (sordId : Z) (pdfFile : JFile) : M Z :=
  let docVersion :=
    {| comment := "Imported by PDFImportService"; version := "1.0"; ext := "" |} in
  let! document := checkinDocBegin sordId in
  let document := {| url := url document; doc_version := Some docVersion |} in
  let! fileData := readFileToByteArray pdfFile in
  let! uploadResult := upload fileData (url document) in
  if uploadResult
  then checkinDocEnd sordId document >> ret sordId
  else throw (Error "Failed to upload file content").

Definition importFileToELO (pdfFile : JFile) : M Z :=
  try_catch
    (let! sordId := importCheckin pdfFile in
     importUpload sordId pdfFile)
    (fun e =>
       logger ERROR ("Error importing file to ELO: " +:+ getName pdfFile) (Some e) >>
       throw e).

Definition startWorkflow (sordId : Z) : M unit :=
  try_catch
    (logger INFO ("Starting workflow for Sord ID: " +:+ pretty sordId) None >>
     let! wfTemplate := checkoutWorkFlow (WORKFLOW_TEMPLATE CONFIG) in
     match wfTemplate with
     | None => throw (Error ("Workflow template not found: " +:+ WORKFLOW_TEMPLATE CONFIG))
     | Some template =>
         let! wfInstance := createWorkFlow template sordId in
         startWorkFlow (wf_id wfInstance) "" >>
         logger INFO ("Workflow started successfully for Sord ID: " +:+ pretty sordId) None
     end)
    (fun e =>
       logger ERROR ("Error starting workflow for Sord ID: " +:+ pretty sordId) (Some e) >>
       throw e).

(** The target is chosen as in the enhanced script. *)
Definition moveFile (file : JFile) (targetDir : string) : M unit :=
  try_catch
    (let! targetFile := chooseTarget file targetDir in
     let! moved := renameTo file targetFile in
     if moved
     then logger INFO ("Moved file to: " +:+ getAbsolutePath targetFile) None
     else logger ERROR ("Failed to move file: " +:+ getAbsolutePath file) None)
    (fun e => logger ERROR ("Error moving file: " +:+ getAbsolutePath file) (Some e)).

Definition moveFileToProcessedDir (file : JFile) : M unit :=
  moveFile file (PROCESSED_DIR CONFIG).

Definition moveFileToErrorDir (file : JFile) : M unit :=
  moveFile file (ERROR_DIR CONFIG).

Definition processSinglePDF (pdfFile : JFile) : M unit :=
  logger INFO ("Processing file: " +:+ getName pdfFile) None >>
  let! sordId := importFileToELO pdfFile in
  if truthy sordId
  then
    startWorkflow sordId >>
    moveFileToProcessedDir pdfFile >>
    logger INFO ("Successfully processed file: " +:+ getName pdfFile
                 +:+ " (Sord ID: " +:+ pretty sordId +:+ ")") None
  else throw (Error "Failed to import file to ELO").

(** The loop of [getPDFFiles] over the entries of the directory. *)
Fixpoint collectPDF (s : FileSystem) (candidates : list JFile) (pdfFiles : list JFile)
    : list JFile :=
  match candidates with
  | [] => pdfFiles
  | file :: rest =>
      if File_isFile s file && Js.endsWith (Js.toLowerCase (getName file)) ".pdf"
      then collectPDF s rest (pdfFiles ++ [file])
      else collectPDF s rest pdfFiles
  end.

Definition getPDFFiles (dirPath : string) : M (list JFile) :=
  try_catch
    (let! s := get_fs in
     if negb (isDirectory s dirPath)
     then logger WARN ("Source directory does not exist: " +:+ dirPath) None >> ret []
     else ret (collectPDF s (listFiles s dirPath) []))
    (fun e =>
       logger ERROR ("Error reading PDF files from directory: " +:+ dirPath) (Some e) >>
       ret []).

(** The result of [mkdirs] is not looked at. *)
Definition createDirectoryIfNotExists (dirPath : string) : M unit :=
  try_catch
    (let! s := get_fs in
     if negb (path_exists s dirPath)
     then mkdirs dirPath >> logger INFO ("Created directory: " +:+ dirPath) None
     else ret tt)
    (fun e => logger ERROR ("Error creating directory: " +:+ dirPath) (Some e)).

Definition ensureDirectoriesExist : M unit :=
  createDirectoryIfNotExists (SOURCE_DIR CONFIG) >>
  createDirectoryIfNotExists (PROCESSED_DIR CONFIG) >>
  createDirectoryIfNotExists (ERROR_DIR CONFIG).

(** The body of the [for] loop. *)
Definition processOne (file : JFile) : M unit :=
  try_catch
    (processSinglePDF file)
    (fun e =>
       logger ERROR ("Error processing file: " +:+ getName file) (Some e) >>
       moveFileToErrorDir file).

Fixpoint processEach (pdfFiles : list JFile) : M unit :=
  match pdfFiles with
  | [] => ret tt
  | file :: rest => processOne file >> processEach rest
  end.

Definition processPDFFiles : M unit :=
  try_catch
    (logger INFO "Starting PDF import process..." None >>
     ensureDirectoriesExist >>
     let! pdfFiles := getPDFFiles (SOURCE_DIR CONFIG) in
     match pdfFiles with
     | [] => logger DEBUG "No PDF files found in source directory" None
     | _ :: _ =>
         logger INFO ("Found " +:+ pretty (Z.of_nat (List.length pdfFiles))
                      +:+ " PDF files to process") None >>
         processEach pdfFiles >>
         logger INFO "PDF import process completed" None
     end)
    (fun e => logger ERROR "Error in processPDFFiles" (Some e)).

Fixpoint intervalRuns (n : nat) : M unit :=
  match n with
  | O => ret tt
  | S n' => processPDFFiles >> intervalRuns n'
  end.

(** [main], followed by [n] runs of the timer. *)
Definition main (n : nat) : M unit :=
  logger INFO ("PDFImportService started with " +:+ Js.toString (INTERVAL_seconds CONFIG)
               +:+ " second interval") None >>
  processPDFFiles >>
  intervalRuns n.

End Script.

End Basic.

(** The Sords of an archive are still there, in their order and under
    their ids; more may have come. *)
Definition sordsKept (w w' : World) : Prop :=
  exists more, map id (sords (ix w')) = map id (sords (ix w)) ++ more.

(** ** The archive folder, found before it is created *)

(** The folders of a list of Sords. *)
Definition foldersOf (l : list Sord) : list Sord :=
  filter (fun s => type s = LBT_FOLDER) l.

(** The search of the archive is a lookup at the path: it finds the folder
    that the script makes for the archive path, which lies under the root
    and has the path without its first character as its name. *)
Definition findsItsFolder (CONFIG : Config) (a : Archive) : Prop :=
  forall s, name s = Js.substring_from (ARCHIVE_PATH CONFIG) 1 ->
            parentId s = 1 -> type s = LBT_FOLDER ->
            index a (ARCHIVE_PATH CONFIG) s = true.

(** [foundBeforeCreated CONFIG w w']: in an archive that gave out its ids
    itself and whose search is a lookup at the path, every Sord of [w] is
    stored in [w'] as it was, and of the Sords that came after them at most
    one is a folder: none when the search for the archive path found a Sord
    in [w], and one that the search finds in [w'] otherwise. *)
Definition foundBeforeCreated (CONFIG : Config) (w w' : World) : Prop :=
  idsBelowNext (ix w) -> findsItsFolder CONFIG (ix w) ->
  idsBelowNext (ix w')
  /\ index (ix w') = index (ix w)
  /\ exists added,
       sords (ix w') = sords (ix w) ++ added
       /\ (List.length (foldersOf added) <= 1)%nat
       /\ (sords_named (ARCHIVE_PATH CONFIG) (ix w) <> [] -> foldersOf added = [])
       /\ Forall (fun s => index (ix w') (ARCHIVE_PATH CONFIG) s = true) (foldersOf added).

(** ** The schedule of the attempts, as the specification words it *)

(** No time passed between [v] and [u]: nothing was slept. *)
Definition noPause (v u : World) : Prop :=
  now u = now v /\ slept u = slept v.

(** Between [v] and [u] the script slept once, for [ms] milliseconds, and
    did nothing else but log. *)
Definition pausedFor (ms : Z) (v u : World) : Prop :=
  ix u = ix v /\ fs u = fs v /\ stats u = stats v
  /\ now u = now v + ms /\ slept u = slept v ++ [ms]
  /\ exists lines, log u = log v ++ lines.

(** [scheduled CONFIG f R k w out]: from the world [w], in which attempt [k]
    on the file [f] starts, the attempts up to the [R]-th end in [out].  An
    attempt that returns ends the schedule.  An attempt before the [R]-th
    that fails is followed by one sleep of [2^k] time units, and attempt
    [k + 1] starts in the world after the sleep.  When the [R]-th attempt
    fails, nothing is slept any more and the file has failed. *)
Inductive scheduled (CONFIG : Config) (f : JFile) (R : nat) :
    nat -> World -> Result bool * World -> Prop :=
  | attempt_returned k w b w' :
      importAttempt CONFIG f k w = (Normal (Some b), w') ->
      scheduled CONFIG f R k w (Normal b, w')
  | attempt_failed k w e v u out :
      (k < R)%nat ->
      importAttempt CONFIG f k w = (Thrown e, v) ->
      noPause w v ->
      pausedFor (2 ^ Z.of_nat k * timeUnit) v u ->
      scheduled CONFIG f R (S k) u out ->
      scheduled CONFIG f R k w out
  | last_attempt_failed w e v out :
      importAttempt CONFIG f R w = (Thrown e, v) ->
      noPause w v ->
      noPause v out.2 ->
      out.1 = Normal false ->
      scheduled CONFIG f R R w out.

(** ** The outcomes that the statistics count *)

(** The number of outcomes so far: the files that succeeded and the files
    that failed. *)
Definition outcomes (w : World) : Z :=
  totalProcessed (stats w) + totalErrors (stats w).

(** The counters are whole numbers that a double holds. *)
Definition countersFit (w : World) : Prop := outcomes w < 2 ^ 53.

(** [emits c w w']: the log grew between [w] and [w'], every new line with
    the success rate is valid, and there is such a line among the new ones
    exactly when [c] holds. *)
Definition emits (c : Prop) (w w' : World) : Prop :=
  exists new, log w' = log w ++ new
              /\ Forall (fun e => isRateLine e = true -> validRateLine e) new
              /\ (Exists (fun e => isRateLine e = true) new <-> c).

(** The log grew by valid lines with the success rate, and by none when no
    outcome was counted. *)
Definition quietOrValid (w w' : World) : Prop :=
  exists new, log w' = log w ++ new
              /\ Forall (fun e => isRateLine e = true -> validRateLine e) new
              /\ (outcomes w' = outcomes w -> Forall (fun e => isRateLine e = false) new).

(** The search of the archive is as it was. *)
Definition sameIndex (w w' : World) : Prop := index (ix w') = index (ix w).

(** * Properties *)

(** ** Exclusion patterns *)

Lemma excludingPattern_find (fileName : string) (patterns : list string) :
  excludingPattern fileName patterns = List.find (patternMatches fileName) patterns.
Proof.
  induction patterns as [|p rest IH]; simpl; [reflexivity|].
  unfold patternMatches.
  destruct (Js.startsWith p "*" && Js.endsWith fileName (Js.substring_from p 1)); simpl;
    [reflexivity|].
  destruct (Js.endsWith p "*"
            && Js.startsWith fileName (Js.substring p 0 (Js.length p - 1))); simpl;
    [reflexivity|].
  destruct (negb (Js.indexOf fileName p =? -1)); [reflexivity|exact IH].
Qed.

Lemma prefix_occurs (c : ascii) (p s : string) :
  String.prefix p s = true -> occurs c p = true -> occurs c s = true.
Proof.
  revert s. induction p as [|a p IH]; intros s Hp Hc; simpl in *; [discriminate|].
  destruct s as [|b s]; simpl in Hp; [discriminate|].
  revert Hp. destruct (ascii_dec a b) as [->|]; intros Hp; [|discriminate].
  simpl. destruct (Ascii.eqb b c); simpl in *; [reflexivity|].
  apply IH; assumption.
Qed.

Lemma indexOf_from_absent (c : ascii) (p s : string) (i : Z) :
  occurs c p = true -> occurs c s = false -> Js.indexOf_from s p i = -1.
Proof.
  intros Hp. revert i. induction s as [|x s IH]; intros i Hs;
    cbn [Js.indexOf_from].
  - destruct (String.prefix p "") eqn:E; [|reflexivity].
    apply (prefix_occurs c) in E; [discriminate|assumption].
  - destruct (String.prefix p (String x s)) eqn:E.
    + apply (prefix_occurs c) in E; [|assumption]. congruence.
    + simpl in Hs. apply orb_false_iff in Hs as [_ Hs]. apply IH, Hs.
Qed.

Lemma patternMatches_spec (fileName pattern : string) :
  occurs wildcard fileName = false ->
  patternMatches fileName pattern = specMatches fileName pattern.
Proof.
  intros Hf. unfold patternMatches, specMatches. f_equal.
  destruct (occurs wildcard pattern) eqn:Hp; simpl; [|reflexivity].
  unfold Js.indexOf. rewrite (indexOf_from_absent wildcard); [reflexivity|assumption..].
Qed.

(** C6, as the code has it.  The exclusion loop returns the first pattern
    of the list, in order, for which one of three tests fires: the pattern
    starts with the wildcard and the lower-case name ends with the rest of
    it; the pattern ends with the wildcard and the name starts with what is
    before it; the name contains the whole pattern as it is written.  The
    third test is made for every pattern, with or without a wildcard.  It
    agrees with the reading of the specification, which looks inside the
    name only for patterns without a wildcard, on every name that has no
    wildcard character in it. *)
Theorem exclusion_first_match (fileName : string) (patterns : list string) :
  excludingPattern fileName patterns = List.find (patternMatches fileName) patterns
  /\ (is_Some (excludingPattern fileName patterns)
      <-> exists p, In p patterns /\ patternMatches fileName p = true)
  /\ (occurs wildcard fileName = false ->
      excludingPattern fileName patterns = List.find (specMatches fileName) patterns).
Proof.
  split; [apply excludingPattern_find|]. split.
  - rewrite excludingPattern_find. split.
    + intros [p Hp]. exists p. apply List.find_some in Hp. exact Hp.
    + intros [p [Hin Hp]].
      destruct (List.find (patternMatches fileName) patterns) eqn:E; [eauto|].
      pose proof (List.find_none _ _ E p Hin). congruence.
  - intros Hf. rewrite excludingPattern_find.
    induction patterns as [|p rest IH]; simpl; [reflexivity|].
    rewrite (patternMatches_spec _ _ Hf), IH. reflexivity.
Qed.

Lemma exclusion_first_match_witness :
  occurs wildcard "temp_scan.pdf" = false
  /\ excludingPattern "temp_scan.pdf" (EXCLUDE_PATTERNS default_config) = Some "temp_*".
Proof.
  split; [reflexivity|].
  rewrite (proj2 (proj2 (exclusion_first_match "temp_scan.pdf"
                           (EXCLUDE_PATTERNS default_config)))); reflexivity.
Defined.

(** C6, as the claim words it, fails.  With the exclusion patterns of the
    default configuration the name [a.*.pdf] is rejected by the pattern
    [.*]: it does not start with a dot, but it contains the two characters
    of the pattern. *)
Lemma exclusion_wildcard_substring :
  excludingPattern "a.*.pdf" (EXCLUDE_PATTERNS default_config) = Some ".*"
  /\ Js.startsWith "a.*.pdf" "." = false
  /\ existsb (specMatches "a.*.pdf") (EXCLUDE_PATTERNS default_config) = false.
Proof. repeat split; reflexivity. Qed.

(** ** Frame rules *)

Section FrameRules.

Context (T : World -> World -> Prop) `{!PreOrder T}.

Lemma keeps_ret {A} (a : A) : keeps T (ret a).
Proof. intros w. simpl. reflexivity. Qed.

Lemma keeps_throw {A} (e : Exn) : keeps T (@throw A e).
Proof. intros w. simpl. reflexivity. Qed.

Lemma keeps_bind {A B} (m : M A) (k : A -> M B) :
  keeps T m -> (forall a, keeps T (k a)) -> keeps T (bind m k).
Proof.
  intros Hm Hk w. unfold bind. specialize (Hm w).
  destruct (m w) as [[a|e] w1]; simpl in *; [|exact Hm].
  etransitivity; [exact Hm|apply Hk].
Qed.

Lemma keeps_try_catch {A} (m : M A) (h : Exn -> M A) :
  keeps T m -> (forall e, keeps T (h e)) -> keeps T (try_catch m h).
Proof.
  intros Hm Hh w. unfold try_catch. specialize (Hm w).
  destruct (m w) as [[a|e] w1]; simpl in *; [exact Hm|].
  etransitivity; [exact Hm|apply Hh].
Qed.

Lemma keeps_modify (f : World -> World) :
  (forall w, T w (f w)) -> keeps T (modify f).
Proof. intros H w. apply H. Qed.

Lemma keeps_get_world : keeps T get_world.
Proof. intros w. simpl. reflexivity. Qed.

Lemma keeps_get_ix : keeps T get_ix.
Proof. intros w. simpl. reflexivity. Qed.

Lemma keeps_get_fs : keeps T get_fs.
Proof. intros w. simpl. reflexivity. Qed.

Lemma keeps_get_stats : keeps T get_stats.
Proof. intros w. simpl. reflexivity. Qed.

Lemma keeps_getTime : keeps T getTime.
Proof. intros w. simpl. reflexivity. Qed.

Lemma keeps_logger `{!OverLog T} l t c :
  String.prefix "Success rate: " t = false -> keeps T (logger l t c).
Proof. intros H. apply keeps_modify. intros w. apply over_log. exact H. Qed.

Lemma keeps_sleep `{!OverSleep T} ms : keeps T (sleep ms).
Proof. apply keeps_modify. intros w. apply over_sleep. Qed.

Lemma keeps_set_sords `{!OverSords T} l n : keeps T (modify_ix (set_sords l n)).
Proof. apply keeps_modify. intros w. apply over_sords. Qed.

Lemma keeps_set_staged `{!OverStaged T} m : keeps T (modify_ix (set_staged m)).
Proof. apply keeps_modify. intros w. apply over_staged. Qed.

Lemma keeps_set_workflows `{!OverWorkflows T} l : keeps T (modify_ix (set_workflows l)).
Proof. apply keeps_modify. intros w. apply over_workflows. Qed.

Lemma keeps_modify_fs `{!OverFs T} f : keeps T (modify_fs f).
Proof. apply keeps_modify. intros w. apply over_fs. Qed.

Lemma keeps_remote `{!OverCalls T} op : keeps T (remote op).
Proof. intros w. unfold remote. destruct (next_reply (ix w)); simpl; apply over_calls. Qed.

Lemma keeps_count `{!OverStats T} :
  keeps T countProcessed /\ keeps T countError /\ forall t, keeps T (setLastRun t).
Proof. repeat split; try intros t; apply keeps_modify; intros w; apply over_stats. Qed.

End FrameRules.

(** One step of a frame proof: the rule for the head of the computation, or
    a case analysis on what the computation branches on. *)
Ltac keeps_step :=
  match goal with
  | |- keeps _ (bind _ _) => apply keeps_bind; [typeclasses eauto| |intros ?]
  | |- keeps _ (try_catch _ _) => apply keeps_try_catch; [typeclasses eauto| |intros ?]
  | |- keeps _ (ret _) => apply keeps_ret; typeclasses eauto
  | |- keeps _ (throw _) => apply keeps_throw; typeclasses eauto
  | |- keeps _ get_world => apply keeps_get_world; typeclasses eauto
  | |- keeps _ get_ix => apply keeps_get_ix; typeclasses eauto
  | |- keeps _ get_fs => apply keeps_get_fs; typeclasses eauto
  | |- keeps _ get_stats => apply keeps_get_stats; typeclasses eauto
  | |- keeps _ getTime => apply keeps_getTime; typeclasses eauto
  | |- keeps _ (logger _ _ _) => apply keeps_logger; [typeclasses eauto..|reflexivity]
  | |- keeps _ (sleep _) => apply keeps_sleep; typeclasses eauto
  | |- keeps _ (modify_ix (set_sords _ _)) => apply keeps_set_sords; typeclasses eauto
  | |- keeps _ (modify_ix (set_staged _)) => apply keeps_set_staged; typeclasses eauto
  | |- keeps _ (modify_ix (set_workflows _)) => apply keeps_set_workflows; typeclasses eauto
  | |- keeps _ (modify_fs _) => apply keeps_modify_fs; typeclasses eauto
  | |- keeps _ (remote _) => apply keeps_remote; typeclasses eauto
  | |- keeps _ countProcessed => apply keeps_count; typeclasses eauto
  | |- keeps _ countError => apply keeps_count; typeclasses eauto
  | |- keeps _ (setLastRun _) => apply keeps_count; typeclasses eauto
  | |- keeps _ (match ?x with _ => _ end) => destruct x
  | |- keeps _ (let _ := _ in _) => cbv zeta
  end.

Create HintDb keeps.

Ltac keeps_auto := repeat first [keeps_step | solve [eauto with keeps typeclass_instances]].

Section FramesOfTheScript.

Context (T : World -> World -> Prop) `{!PreOrder T}.
Variable CONFIG : Config.

Lemma keeps_ix_call `{!OverCalls T} op : keeps T (ix_call op).
Proof. unfold ix_call. keeps_auto. Qed.
#[local] Hint Resolve keeps_ix_call : keeps.

Lemma keeps_getServerInfo `{!OverCalls T} : keeps T getServerInfo.
Proof. unfold getServerInfo. keeps_auto. Qed.

Lemma keeps_findFirstSords `{!OverCalls T} key max : keeps T (findFirstSords key max).
Proof. unfold findFirstSords. keeps_auto. Qed.

Lemma keeps_createSord `{!OverCalls T} parent : keeps T (createSord parent).
Proof. unfold createSord. keeps_auto. Qed.

Lemma keeps_checkinSord `{!OverCalls T, !OverSords T, !OverStaged T, !OverWorkflows T} s : keeps T (checkinSord s).
Proof. unfold checkinSord. keeps_auto. Qed.

Lemma keeps_checkoutDocMasks `{!OverCalls T} : keeps T checkoutDocMasks.
Proof. unfold checkoutDocMasks. keeps_auto. Qed.

Lemma keeps_checkinDocBegin `{!OverCalls T} sordId : keeps T (checkinDocBegin sordId).
Proof. unfold checkinDocBegin. keeps_auto. Qed.

Lemma keeps_upload `{!OverCalls T, !OverSords T, !OverStaged T, !OverWorkflows T} data u : keeps T (upload data u).
Proof. unfold upload. keeps_auto. Qed.

Lemma keeps_checkinDocEnd `{!OverCalls T, !OverSords T, !OverStaged T, !OverWorkflows T} sordId d : keeps T (checkinDocEnd sordId d).
Proof. unfold checkinDocEnd. keeps_auto. Qed.

Lemma keeps_deleteSord `{!OverCalls T, !OverSords T, !OverStaged T, !OverWorkflows T} sordId : keeps T (deleteSord sordId).
Proof. unfold deleteSord. keeps_auto. Qed.

Lemma keeps_checkoutWorkFlow `{!OverCalls T, !OverWorkflows T} t : keeps T (checkoutWorkFlow t).
Proof. unfold checkoutWorkFlow. keeps_auto. Qed.

Lemma keeps_createWorkFlow `{!OverCalls T, !OverWorkflows T} t sordId : keeps T (createWorkFlow t sordId).
Proof. unfold createWorkFlow. keeps_auto. Qed.

Lemma keeps_startWorkFlow `{!OverCalls T, !OverWorkflows T} i n : keeps T (startWorkFlow i n).
Proof. unfold startWorkFlow. keeps_auto. Qed.

Lemma keeps_read_header f : keeps T (read_header f).
Proof. unfold read_header. keeps_auto. Qed.

Lemma keeps_readFileToByteArray f : keeps T (readFileToByteArray f).
Proof. unfold readFileToByteArray. keeps_auto. Qed.

Lemma keeps_renameTo `{!OverFs T} src dst : keeps T (renameTo src dst).
Proof. unfold renameTo. keeps_auto. Qed.

Lemma keeps_mkdirs `{!OverFs T} d : keeps T (mkdirs d).
Proof. unfold mkdirs. keeps_auto. Qed.

#[local] Hint Resolve keeps_getServerInfo keeps_findFirstSords keeps_createSord
  keeps_checkinSord keeps_checkoutDocMasks keeps_checkinDocBegin keeps_upload
  keeps_checkinDocEnd keeps_deleteSord keeps_checkoutWorkFlow keeps_createWorkFlow
  keeps_startWorkFlow keeps_read_header keeps_readFileToByteArray keeps_renameTo
  keeps_mkdirs : keeps.

Lemma keeps_checkHeader `{!OverLog T} f : keeps T (checkHeader f).
Proof. unfold checkHeader. keeps_auto. Qed.
#[local] Hint Resolve keeps_checkHeader : keeps.

Lemma keeps_validatePDFFile `{!OverLog T} f : keeps T (validatePDFFile CONFIG f).
Proof. unfold validatePDFFile. keeps_auto. Qed.
#[local] Hint Resolve keeps_validatePDFFile : keeps.

Lemma keeps_collectValid `{!OverLog T} l acc : keeps T (collectValid CONFIG l acc).
Proof. revert acc. induction l as [|f l IH]; intros acc; simpl; keeps_auto. Qed.
#[local] Hint Resolve keeps_collectValid : keeps.

Lemma keeps_getValidPDFFiles `{!OverLog T} d : keeps T (getValidPDFFiles CONFIG d).
Proof. unfold getValidPDFFiles. keeps_auto. Qed.

Lemma keeps_validateELOConnection `{!OverLog T, !OverCalls T} : keeps T validateELOConnection.
Proof. unfold validateELOConnection. keeps_auto. Qed.

Lemma keeps_getOrCreateArchiveFolder `{!OverLog T, !OverCalls T, !OverSords T, !OverStaged T, !OverWorkflows T} :
  keeps T (getOrCreateArchiveFolder CONFIG).
Proof. unfold getOrCreateArchiveFolder. keeps_auto. Qed.

Lemma keeps_getMaskId `{!OverLog T, !OverCalls T} n : keeps T (getMaskId n).
Proof. unfold getMaskId. keeps_auto. Qed.

Lemma keeps_readFileInChunks `{!OverLog T} f : keeps T (readFileInChunks f).
Proof. unfold readFileInChunks. keeps_auto. Qed.
#[local] Hint Resolve keeps_getOrCreateArchiveFolder keeps_getMaskId
  keeps_readFileInChunks : keeps.

Lemma keeps_uploadPDFFile `{!OverLog T, !OverCalls T, !OverSords T, !OverStaged T, !OverWorkflows T} i f : keeps T (uploadPDFFile i f).
Proof. unfold uploadPDFFile. keeps_auto. Qed.

Lemma keeps_setCustomMetadata `{!OverLog T} s f : keeps T (setCustomMetadata s f).
Proof. unfold setCustomMetadata. keeps_auto. Qed.
#[local] Hint Resolve keeps_uploadPDFFile keeps_setCustomMetadata : keeps.

Lemma keeps_importCheckin `{!OverLog T, !OverCalls T, !OverSords T, !OverStaged T, !OverWorkflows T} f : keeps T (importCheckin CONFIG f).
Proof. unfold importCheckin. keeps_auto. Qed.

Lemma keeps_importUpload `{!OverLog T, !OverCalls T, !OverSords T, !OverStaged T, !OverWorkflows T} i f : keeps T (importUpload i f).
Proof. unfold importUpload. keeps_auto. Qed.
#[local] Hint Resolve keeps_importCheckin keeps_importUpload : keeps.

Lemma keeps_importFileToELOWithValidation `{!OverLog T, !OverCalls T, !OverSords T, !OverStaged T, !OverWorkflows T} f :
  keeps T (importFileToELOWithValidation CONFIG f).
Proof. unfold importFileToELOWithValidation. keeps_auto. Qed.

Lemma keeps_workflowAttempt `{!OverLog T, !OverCalls T, !OverWorkflows T} i a :
  keeps T (workflowAttempt CONFIG i a).
Proof. unfold workflowAttempt. keeps_auto. Qed.

Lemma keeps_workflowFailed `{!OverLog T, !OverSleep T} i a e :
  keeps T (workflowFailed i a e).
Proof. unfold workflowFailed. keeps_auto. Qed.
#[local] Hint Resolve keeps_workflowAttempt keeps_workflowFailed : keeps.

Lemma keeps_workflowLoop `{!OverLog T, !OverCalls T, !OverWorkflows T, !OverSleep T} i n a :
  keeps T (workflowLoop CONFIG i n a).
Proof. revert a. induction n as [|n IH]; intros a; simpl; keeps_auto. Qed.

Lemma keeps_startWorkflowWithRetry `{!OverLog T, !OverCalls T, !OverWorkflows T, !OverSleep T} i :
  keeps T (startWorkflowWithRetry CONFIG i).
Proof. apply keeps_workflowLoop. Qed.

Lemma keeps_chooseTarget f d : keeps T (chooseTarget f d).
Proof. unfold chooseTarget. keeps_auto. Qed.
#[local] Hint Resolve keeps_chooseTarget : keeps.

Lemma keeps_moveFile `{!OverLog T, !OverFs T} f d : keeps T (moveFile f d).
Proof. unfold moveFile. keeps_auto. Qed.
#[local] Hint Resolve keeps_importFileToELOWithValidation keeps_startWorkflowWithRetry
  keeps_moveFile : keeps.

Lemma keeps_importAttempt `{!OverLog T, !OverCalls T, !OverSords T, !OverStaged T, !OverWorkflows T, !OverSleep T, !OverFs T} f a :
  keeps T (importAttempt CONFIG f a).
Proof. unfold importAttempt, moveFileToProcessedDir. keeps_auto. Qed.

Lemma keeps_attemptFailed `{!OverLog T, !OverSleep T} f a e :
  keeps T (attemptFailed CONFIG f a e).
Proof. unfold attemptFailed. keeps_auto. Qed.

Lemma keeps_giveUp `{!OverLog T, !OverFs T} f : keeps T (giveUp CONFIG f).
Proof. unfold giveUp, moveFileToErrorDir. keeps_auto. Qed.
#[local] Hint Resolve keeps_importAttempt keeps_attemptFailed keeps_giveUp : keeps.

Lemma keeps_retryLoop `{!OverLog T, !OverCalls T, !OverSords T, !OverStaged T, !OverWorkflows T, !OverSleep T, !OverFs T} f n a :
  keeps T (retryLoop CONFIG f n a).
Proof. revert a. induction n as [|n IH]; intros a; simpl; keeps_auto. Qed.

Lemma keeps_processSinglePDFWithRetry `{!OverLog T, !OverCalls T, !OverSords T, !OverStaged T, !OverWorkflows T, !OverSleep T, !OverFs T} f :
  keeps T (processSinglePDFWithRetry CONFIG f).
Proof. apply keeps_retryLoop. Qed.

Lemma keeps_createDirectoryIfNotExists `{!OverLog T, !OverFs T} d :
  keeps T (createDirectoryIfNotExists d).
Proof. unfold createDirectoryIfNotExists. keeps_auto. Qed.
#[local] Hint Resolve keeps_createDirectoryIfNotExists : keeps.

Lemma keeps_ensureDirectoriesExist `{!OverLog T, !OverFs T} :
  keeps T (ensureDirectoriesExist CONFIG).
Proof. unfold ensureDirectoriesExist. keeps_auto. Qed.

#[local] Hint Resolve keeps_processSinglePDFWithRetry keeps_getValidPDFFiles
  keeps_validateELOConnection keeps_ensureDirectoriesExist : keeps.

Lemma keeps_processOne
    `{!OverLog T, !OverCalls T, !OverSords T, !OverStaged T, !OverWorkflows T,
      !OverSleep T, !OverFs T, !OverStats T} f :
  keeps T (processOne CONFIG f).
Proof. unfold processOne, moveFileToErrorDir. keeps_auto. Qed.
#[local] Hint Resolve keeps_processOne : keeps.

Lemma keeps_processEach
    `{!OverLog T, !OverCalls T, !OverSords T, !OverStaged T, !OverWorkflows T,
      !OverSleep T, !OverFs T, !OverStats T} l s e :
  keeps T (processEach CONFIG l s e).
Proof. revert s e. induction l as [|f l IH]; intros s e; simpl; keeps_auto. Qed.


Lemma keeps_banner `{!OverLog T} : keeps T (banner CONFIG).
Proof. unfold banner. keeps_auto. Qed.

End FramesOfTheScript.

(** ** The relations are frames *)

#[global] Instance OverIx_calls T `{!OverIx T} : OverCalls T.
Proof. intros w op. apply over_ix. Qed.
#[global] Instance OverIx_sords T `{!OverIx T} : OverSords T.
Proof. intros w l n. apply over_ix. Qed.
#[global] Instance OverIx_staged T `{!OverIx T} : OverStaged T.
Proof. intros w m. apply over_ix. Qed.
#[global] Instance OverIx_workflows T `{!OverIx T} : OverWorkflows T.
Proof. intros w l. apply over_ix. Qed.

#[global] Instance sameSords_preorder : PreOrder sameSords.
Proof. split; [intros w; reflexivity|intros a b c H1 H2; unfold sameSords in *; congruence]. Qed.
#[global] Instance sameSords_log : OverLog sameSords.
Proof. intros w e _. reflexivity. Qed.
#[global] Instance sameSords_calls : OverCalls sameSords.
Proof. intros w op. reflexivity. Qed.
#[global] Instance sameSords_staged : OverStaged sameSords.
Proof. intros w m. reflexivity. Qed.
#[global] Instance sameSords_workflows : OverWorkflows sameSords.
Proof. intros w l. reflexivity. Qed.
#[global] Instance sameSords_sleep : OverSleep sameSords.
Proof. intros w a. reflexivity. Qed.
#[global] Instance sameSords_fs : OverFs sameSords.
Proof. intros w a. reflexivity. Qed.

#[global] Instance moreLogged_preorder : PreOrder moreLogged.
Proof.
  split; [intros w; exists []; rewrite app_nil_r; reflexivity|].
  intros a b c [n1 H1] [n2 H2]. exists (n1 ++ n2). rewrite H2, H1, app_assoc. reflexivity.
Qed.
#[global] Instance moreLogged_log : OverLog moreLogged.
Proof. intros w e _. eexists. reflexivity. Qed.
#[global] Instance moreLogged_ix : OverIx moreLogged.
Proof. intros w a. exists []. simpl. rewrite app_nil_r. reflexivity. Qed.
#[global] Instance moreLogged_sleep : OverSleep moreLogged.
Proof. intros w a. exists []. simpl. rewrite app_nil_r. reflexivity. Qed.
#[global] Instance moreLogged_fs : OverFs moreLogged.
Proof. intros w a. exists []. simpl. rewrite app_nil_r. reflexivity. Qed.
#[global] Instance moreLogged_stats : OverStats moreLogged.
Proof. intros w a. exists []. simpl. rewrite app_nil_r. reflexivity. Qed.

#[global] Instance moreCalls_preorder : PreOrder moreCalls.
Proof.
  split; [intros w; exists []; rewrite app_nil_r; reflexivity|].
  intros a b c [n1 H1] [n2 H2]. exists (n1 ++ n2). rewrite H2, H1, app_assoc. reflexivity.
Qed.
#[global] Instance moreCalls_log : OverLog moreCalls.
Proof. intros w e _. exists []. simpl. rewrite app_nil_r. reflexivity. Qed.
#[global] Instance moreCalls_calls : OverCalls moreCalls.
Proof. intros w op. eexists. reflexivity. Qed.
#[global] Instance moreCalls_sords : OverSords moreCalls.
Proof. intros w l n. exists []. simpl. rewrite app_nil_r. reflexivity. Qed.
#[global] Instance moreCalls_staged : OverStaged moreCalls.
Proof. intros w m. exists []. simpl. rewrite app_nil_r. reflexivity. Qed.
#[global] Instance moreCalls_workflows : OverWorkflows moreCalls.
Proof. intros w l. exists []. simpl. rewrite app_nil_r. reflexivity. Qed.
#[global] Instance moreCalls_sleep : OverSleep moreCalls.
Proof. intros w a. exists []. simpl. rewrite app_nil_r. reflexivity. Qed.
#[global] Instance moreCalls_fs : OverFs moreCalls.
Proof. intros w a. exists []. simpl. rewrite app_nil_r. reflexivity. Qed.

#[global] Instance sameSlept_preorder : PreOrder sameSlept.
Proof. split; [intros w; reflexivity|intros a b c H1 H2; unfold sameSlept in *; congruence]. Qed.
#[global] Instance sameSlept_log : OverLog sameSlept.
Proof. intros w e _. reflexivity. Qed.
#[global] Instance sameSlept_ix : OverIx sameSlept.
Proof. intros w a. reflexivity. Qed.
#[global] Instance sameSlept_fs : OverFs sameSlept.
Proof. intros w a. reflexivity. Qed.
#[global] Instance sameSlept_stats : OverStats sameSlept.
Proof. intros w a. reflexivity. Qed.

#[global] Instance sameFs_preorder : PreOrder sameFs.
Proof. split; [intros w; reflexivity|intros a b c H1 H2; unfold sameFs in *; congruence]. Qed.
#[global] Instance sameFs_log : OverLog sameFs.
Proof. intros w e _. reflexivity. Qed.
#[global] Instance sameFs_ix : OverIx sameFs.
Proof. intros w a. reflexivity. Qed.
#[global] Instance sameFs_sleep : OverSleep sameFs.
Proof. intros w a. reflexivity. Qed.
#[global] Instance sameFs_stats : OverStats sameFs.
Proof. intros w a. reflexivity. Qed.

#[global] Instance sameIx_preorder : PreOrder sameIx.
Proof. split; [intros w; reflexivity|intros a b c H1 H2; unfold sameIx in *; congruence]. Qed.
#[global] Instance sameIx_log : OverLog sameIx.
Proof. intros w e _. reflexivity. Qed.
#[global] Instance sameIx_fs : OverFs sameIx.
Proof. intros w a. reflexivity. Qed.
#[global] Instance sameIx_sleep : OverSleep sameIx.
Proof. intros w a. reflexivity. Qed.
#[global] Instance sameIx_stats : OverStats sameIx.
Proof. intros w a. reflexivity. Qed.

#[global] Instance sameStats_preorder : PreOrder sameStats.
Proof. split; [intros w; reflexivity|intros a b c H1 H2; unfold sameStats in *; congruence]. Qed.
#[global] Instance sameStats_log : OverLog sameStats.
Proof. intros w e _. reflexivity. Qed.
#[global] Instance sameStats_ix : OverIx sameStats.
Proof. intros w a. reflexivity. Qed.
#[global] Instance sameStats_fs : OverFs sameStats.
Proof. intros w a. reflexivity. Qed.
#[global] Instance sameStats_sleep : OverSleep sameStats.
Proof. intros w a. reflexivity. Qed.

#[global] Instance onlyLogged_preorder : PreOrder onlyLogged.
Proof.
  split; [intros w; repeat split|].
  intros a b c (?&?&?&?&?) (?&?&?&?&?). repeat split; congruence.
Qed.
#[global] Instance onlyLogged_log : OverLog onlyLogged.
Proof. intros w e _. repeat split. Qed.

(** ** Results *)

Lemma yields_ret {A} (P : A -> Prop) a : P a -> yields P (ret a).
Proof. intros H w. exact H. Qed.

Lemma yields_throw {A} (P : A -> Prop) e : yields P (throw e).
Proof. intros w. exact I. Qed.

Lemma yields_bind {A B} (P : B -> Prop) (m : M A) (k : A -> M B) :
  (forall a, yields P (k a)) -> yields P (bind m k).
Proof.
  intros Hk w. unfold bind. destruct (m w) as [[a|e] w1]; [apply Hk|exact I].
Qed.

Lemma yields_try_catch {A} (P : A -> Prop) (m : M A) (h : Exn -> M A) :
  yields P m -> (forall e, yields P (h e)) -> yields P (try_catch m h).
Proof.
  intros Hm Hh w. unfold try_catch. specialize (Hm w).
  destruct (m w) as [[a|e] w1]; [exact Hm|apply Hh].
Qed.

Lemma succeeds_ret {A} (a : A) : succeeds (ret a).
Proof. intros w. eexists. reflexivity. Qed.

Lemma succeeds_bind {A B} (m : M A) (k : A -> M B) :
  succeeds m -> (forall a, succeeds (k a)) -> succeeds (bind m k).
Proof.
  intros Hm Hk w. unfold bind. destruct (Hm w) as [a Ha].
  destruct (m w) as [[a'|e] w1]; simpl in Ha; [apply Hk|discriminate].
Qed.

Lemma succeeds_try_catch {A} (m : M A) (h : Exn -> M A) :
  (forall e, succeeds (h e)) -> succeeds (try_catch m h).
Proof.
  intros Hh w. unfold try_catch.
  destruct (m w) as [[a|e] w1]; [eexists; reflexivity|apply Hh].
Qed.

Lemma succeeds_modify (f : World -> World) : succeeds (modify f).
Proof. intros w. eexists. reflexivity. Qed.

Lemma succeeds_logger l t c : succeeds (logger l t c).
Proof. apply succeeds_modify. Qed.

Lemma succeeds_unit (m : M unit) w : succeeds m -> (m w).1 = Normal tt.
Proof. intros H. destruct (H w) as [[] Ha]. exact Ha. Qed.

Lemma run_eta {A} (m : M A) (w : World) : m w = ((m w).1, (m w).2).
Proof. destruct (m w); reflexivity. Qed.

(** Inversion of a run: what the parts of a computation did. *)

Lemma bind_inv {A B} (m : M A) (k : A -> M B) w r w' :
  bind m k w = (r, w') ->
  (exists a w1, m w = (Normal a, w1) /\ k a w1 = (r, w'))
  \/ (exists e, m w = (Thrown e, w') /\ r = Thrown e).
Proof.
  unfold bind. destruct (m w) as [[a|e] w1]; intros E.
  - left. eauto.
  - right. inversion E; subst. eauto.
Qed.

Lemma try_catch_inv {A} (m : M A) (h : Exn -> M A) w r w' :
  try_catch m h w = (r, w') ->
  (exists a, m w = (Normal a, w') /\ r = Normal a)
  \/ (exists e w1, m w = (Thrown e, w1) /\ h e w1 = (r, w')).
Proof.
  unfold try_catch. destruct (m w) as [[a|e] w1]; intros E.
  - left. inversion E; subst. eauto.
  - right. eauto.
Qed.

Lemma logger_inv l t c w r w' :
  logger l t c w = (r, w') ->
  r = Normal tt /\ w' = add_log {| level := l; text := t; cause := c |} w.
Proof. intros E. inversion E. auto. Qed.

Lemma keeps_run (T : World -> World -> Prop) {A} (m : M A) w r w' :
  keeps T m -> m w = (r, w') -> T w w'.
Proof. intros K E. specialize (K w). rewrite E in K. exact K. Qed.

Lemma yields_run {A} (P : A -> Prop) (m : M A) w a w' :
  yields P m -> m w = (Normal a, w') -> P a.
Proof. intros Y E. specialize (Y w). rewrite E in Y. exact Y. Qed.

Lemma succeeds_run {A} (m : M A) w e w' :
  succeeds m -> m w = (Thrown e, w') -> False.
Proof. intros S E. destruct (S w) as [a Ha]. rewrite E in Ha. discriminate. Qed.

Section Results.

Variable CONFIG : Config.

Lemma moveFile_succeeds f d : succeeds (moveFile f d).
Proof. unfold moveFile. apply succeeds_try_catch. intros e. apply succeeds_logger. Qed.

Lemma workflowAttempt_yields i a : yields (fun b => b = true) (workflowAttempt CONFIG i a).
Proof.
  unfold workflowAttempt.
  apply yields_bind; intros _. apply yields_bind; intros [t|]; [|apply yields_throw].
  repeat (apply yields_bind; intros ?). apply yields_ret. reflexivity.
Qed.

Lemma importAttempt_yields f a :
  yields (fun r => r = Some true) (importAttempt CONFIG f a).
Proof.
  unfold importAttempt.
  apply yields_bind; intros _. apply yields_bind; intros i.
  destruct (truthy i); [|apply yields_throw].
  repeat (apply yields_bind; intros ?). apply yields_ret. reflexivity.
Qed.

Lemma attemptFailed_yields f a e : yields (fun r => r = None) (attemptFailed CONFIG f a e).
Proof.
  unfold attemptFailed. repeat (apply yields_bind; intros ?). apply yields_ret. reflexivity.
Qed.

Lemma attemptFailed_succeeds f a e : succeeds (attemptFailed CONFIG f a e).
Proof.
  unfold attemptFailed. apply succeeds_bind; [apply succeeds_logger|intros _].
  apply succeeds_bind; [|intros _; apply succeeds_ret].
  destruct (Z.of_nat a <? RETRY_ATTEMPTS CONFIG); [|apply succeeds_ret].
  apply succeeds_bind; [apply succeeds_logger|intros _; apply succeeds_modify].
Qed.

End Results.

(** ** Backoff *)

#[global] Instance noPause_preorder : PreOrder noPause.
Proof.
  split; [intros w; split; reflexivity|].
  intros a b c [H1 H2] [H3 H4]. split; congruence.
Qed.
#[global] Instance noPause_log : OverLog noPause.
Proof. intros w e _. split; reflexivity. Qed.
#[global] Instance noPause_ix : OverIx noPause.
Proof. intros w a. split; reflexivity. Qed.
#[global] Instance noPause_fs : OverFs noPause.
Proof. intros w a. split; reflexivity. Qed.
#[global] Instance noPause_stats : OverStats noPause.
Proof. intros w a. split; reflexivity. Qed.

Section Backoff.

Variable CONFIG : Config.

Lemma workflowFailed_inv i a e w r w' :
  workflowFailed i a e w = (r, w') ->
  ((a < maxAttempts)%nat /\ r = Normal false /\ slept w' = slept w ++ [2000])
  \/ (~ (a < maxAttempts)%nat /\ r = Thrown e /\ slept w' = slept w).
Proof.
  unfold workflowFailed. intros E.
  apply bind_inv in E as [([] & w1 & E1 & E2)|(e' & E1 & _)];
    apply logger_inv in E1 as [? ->]; [|discriminate].
  destruct (Nat.ltb_spec a maxAttempts) as [Hlt|Hge].
  - left. inversion E2; subst. auto.
  - right. inversion E2; subst. split; [lia|auto].
Qed.

Lemma startWorkflowWithRetry_slept i w r w' :
  startWorkflowWithRetry CONFIG i w = (r, w') ->
  exists wf, slept w' = slept w ++ wf /\ (wf = [] \/ wf = [2000]).
Proof.
  unfold startWorkflowWithRetry. change maxAttempts with 2%nat at 1.
  cbn [workflowLoop]. intros E.
  apply bind_inv in E as [(b & w1 & E1 & E2)|(e & E1 & _)].
  - apply try_catch_inv in E1 as [(b' & E1 & Hb)|(e & w0 & E1 & E1')].
    + apply (keeps_run sameSlept) in E1 as K; [|apply keeps_workflowAttempt; typeclasses eauto].
      inversion Hb; subst b'. apply (yields_run _ _ _ _ _ (workflowAttempt_yields CONFIG i 1)) in E1.
      subst b. inversion E2; subst. exists []. rewrite app_nil_r. auto.
    + apply (keeps_run sameSlept) in E1 as K; [|apply keeps_workflowAttempt; typeclasses eauto].
      apply workflowFailed_inv in E1' as [(_ & Hb & Hs)|(Hn & Hb & _)]; [|discriminate].
      inversion Hb; subst b.
      apply bind_inv in E2 as [(b & w2 & E3 & E4)|(e2 & E3 & _)].
      * apply try_catch_inv in E3 as [(b' & E3 & Hb')|(e3 & w3 & E3 & E3')].
        -- apply (keeps_run sameSlept) in E3 as K3;
             [|apply keeps_workflowAttempt; typeclasses eauto].
           inversion Hb'; subst b'.
           apply (yields_run _ _ _ _ _ (workflowAttempt_yields CONFIG i 2)) in E3.
           subst b. inversion E4; subst. exists [2000]. rewrite K3, Hs, K. auto.
        -- apply workflowFailed_inv in E3' as [(Hlt & _)|(_ & Hb' & _)];
             [unfold maxAttempts in Hlt; lia|discriminate].
      * apply try_catch_inv in E3 as [(b' & E3 & Hb')|(e3 & w3 & E3 & E3')]; [discriminate|].
        apply (keeps_run sameSlept) in E3 as K3;
          [|apply keeps_workflowAttempt; typeclasses eauto].
        apply workflowFailed_inv in E3' as [(Hlt & _)|(_ & _ & Hs')];
          [unfold maxAttempts in Hlt; lia|].
        exists [2000]. rewrite Hs', K3, Hs, K. auto.
  - apply try_catch_inv in E1 as [(b' & E1 & Hb)|(e1 & w0 & E1 & E1')]; [discriminate|].
    apply workflowFailed_inv in E1' as [(_ & Hb & _)|(Hn & _)]; [discriminate|].
    unfold maxAttempts in Hn. lia.
Qed.

(** An attempt that fails has not slept. *)
Lemma importAttempt_noPause f a w e w' :
  importAttempt CONFIG f a w = (Thrown e, w') -> noPause w w'.
Proof.
  unfold importAttempt. intros E.
  apply bind_inv in E as [([] & w0 & E0 & E)|(e0 & E0 & _)];
    apply logger_inv in E0 as [? ->]; [|discriminate].
  assert (noPause w (add_log {| level := INFO;
            text := "Processing file: " +:+ getName f +:+ " (Attempt " +:+ pretty a
                    +:+ "/" +:+ pretty (RETRY_ATTEMPTS CONFIG) +:+ ")";
            cause := None |} w)) as K0 by (split; reflexivity).
  apply bind_inv in E as [(i & w1 & E1 & E)|(e1 & E1 & He)];
    (apply (keeps_run noPause) in E1 as K;
       [|apply keeps_importFileToELOWithValidation; typeclasses eauto]).
  2:{ inversion He; subst. etransitivity; [exact K0|exact K]. }
  destruct (truthy i); [|inversion E; subst; etransitivity; [exact K0|exact K]].
  exfalso.
  apply bind_inv in E as [([] & w2 & E2 & E)|(e2 & E2 & _)].
  - apply bind_inv in E as [([] & w3 & E3 & E)|(e3 & E3 & _)].
    + apply bind_inv in E as [([] & w4 & E4 & E)|(e4 & E4 & _)];
        apply logger_inv in E4 as [? ->]; discriminate.
    + eapply succeeds_run; [apply moveFile_succeeds|exact E3].
  - apply try_catch_inv in E2 as [(? & _ & ?)|(e' & w3 & _ & E2')]; [discriminate|].
    apply logger_inv in E2' as [? _]. discriminate.
Qed.

Lemma importAttempt_slept f a w r w' :
  importAttempt CONFIG f a w = (r, w') ->
  match r with
  | Normal _ => exists wf, slept w' = slept w ++ wf /\ (wf = [] \/ wf = [2000])
  | Thrown _ => slept w' = slept w
  end.
Proof.
  unfold importAttempt. intros E.
  apply bind_inv in E as [([] & w0 & E0 & E)|(e & E0 & _)];
    apply logger_inv in E0 as [? ->]; [|discriminate].
  apply bind_inv in E as [(i & w1 & E1 & E)|(e & E1 & ->)];
    (apply (keeps_run sameSlept) in E1 as K;
       [|apply keeps_importFileToELOWithValidation; typeclasses eauto]);
    unfold sameSlept in K; cbn [slept add_log] in K; [|exact K].
  destruct (truthy i); [|inversion E; subst; exact K].
  apply bind_inv in E as [([] & w2 & E2 & E)|(e & E2 & ->)].
  - assert (exists wf, slept w2 = slept w1 ++ wf /\ (wf = [] \/ wf = [2000]))
      as (wf & Hwf & Hcases).
    { apply try_catch_inv in E2 as [(? & E2 & _)|(e & w3 & E2 & E2')].
      - eapply startWorkflowWithRetry_slept, E2.
      - apply logger_inv in E2' as [_ ->].
        eapply startWorkflowWithRetry_slept in E2. exact E2. }
    apply bind_inv in E as [([] & w3 & E3 & E)|(e & E3 & _)].
    + apply (keeps_run sameSlept) in E3 as K3; [|apply keeps_moveFile; typeclasses eauto].
      apply bind_inv in E as [([] & w4 & E4 & E)|(e & E4 & _)];
        apply logger_inv in E4 as [? ->]; [|discriminate].
      inversion E; subst. exists wf. cbn [slept add_log]. rewrite K3, Hwf, K. auto.
    + exfalso. eapply succeeds_run; [apply moveFile_succeeds|exact E3].
  - exfalso. apply try_catch_inv in E2 as [(? & _ & ?)|(e' & w3 & _ & E2')]; [discriminate|].
    apply logger_inv in E2' as [? _]. discriminate.
Qed.

(** The [catch] block sleeps once, for [2^attempts] seconds, while an
    attempt remains, and only logs after the last attempt. *)
Lemma attemptFailed_inv f a e w r w' :
  attemptFailed CONFIG f a e w = (r, w') ->
  r = Normal None
  /\ (Z.of_nat a < RETRY_ATTEMPTS CONFIG -> pausedFor (waitTime a) w w')
  /\ (~ Z.of_nat a < RETRY_ATTEMPTS CONFIG -> onlyLogged w w').
Proof.
  unfold attemptFailed. intros E.
  apply bind_inv in E as [([] & w0 & E0 & E)|(e' & E0 & _)];
    apply logger_inv in E0 as [? ->]; [|discriminate].
  destruct (Z.ltb_spec (Z.of_nat a) (RETRY_ATTEMPTS CONFIG)) as [Hlt|Hge].
  - apply bind_inv in E as [([] & w1 & E1 & E)|(e' & E1 & _)].
    + apply bind_inv in E1 as [([] & w2 & E2 & E1)|(e' & E2 & _)];
        apply logger_inv in E2 as [? ->]; [|discriminate].
      inversion E1; subst. inversion E; subst.
      split; [reflexivity|]. split; [|lia]. intros _.
      unfold pausedFor. cbn [ix fs stats now slept log add_sleep add_log].
      repeat split. eexists [_; _]. rewrite <- app_assoc. reflexivity.
    + apply bind_inv in E1 as [([] & w2 & E2 & E1)|(e'' & E2 & _)];
        apply logger_inv in E2 as [? ->]; discriminate.
  - inversion E; subst. split; [reflexivity|]. split; [lia|]. intros _.
    unfold onlyLogged. cbn [ix fs stats now slept add_log]. repeat split.
Qed.

Lemma giveUp_inv f w r w' :
  giveUp CONFIG f w = (r, w') ->
  r = Normal false
  /\ moveFile f (ERROR_DIR CONFIG)
        (add_log {| level := ERROR;
                    text := "All " +:+ pretty (RETRY_ATTEMPTS CONFIG)
                            +:+ " attempts failed for file: " +:+ getName f;
                    cause := None |} w) = (Normal tt, w').
Proof.
  unfold giveUp, moveFileToErrorDir. intros E.
  apply bind_inv in E as [([] & w0 & E0 & E)|(e' & E0 & _)];
    apply logger_inv in E0 as [? ->]; [|discriminate].
  apply bind_inv in E as [([] & w1 & E1 & E)|(e' & E1 & _)].
  - inversion E; subst. auto.
  - exfalso. eapply succeeds_run; [apply moveFile_succeeds|exact E1].
Qed.

(** The code after the loop sleeps nothing. *)
Lemma giveUp_noPause f w : noPause w (giveUp CONFIG f w).2 /\ (giveUp CONFIG f w).1 = Normal false.
Proof.
  destruct (giveUp CONFIG f w) as [r w'] eqn:E. cbn [fst snd].
  apply giveUp_inv in E as [-> E]. split; [|reflexivity].
  apply (keeps_run noPause) in E; [|apply keeps_moveFile; typeclasses eauto].
  destruct E as [E1 E2]. split; [exact E1|exact E2].
Qed.

(** The loop keeps the schedule: with [n] turns left after [a] attempts, of
    [a + n] in all, attempt [a + 1] starts the schedule. *)
Lemma retryLoop_scheduled f n : forall a w,
  Z.of_nat (a + S n) = RETRY_ATTEMPTS CONFIG ->
  scheduled CONFIG f (a + S n) (S a) w (retryLoop CONFIG f (S n) a w).
Proof.
  induction n as [|n IH]; intros a w Hsum.
  - replace (a + 1)%nat with (S a) by lia. cbn [retryLoop]. unfold bind at 1.
    destruct (try_catch (importAttempt CONFIG f (S a)) (attemptFailed CONFIG f (S a)) w)
      as [[o|x] w1] eqn:E1.
    + apply try_catch_inv in E1 as [(o' & E1 & Ho)|(e & v & E1 & E1')].
      * inversion Ho; subst o'.
        pose proof (yields_run _ _ _ _ _ (importAttempt_yields CONFIG f (S a)) E1) as ->.
        apply attempt_returned. exact E1.
      * apply importAttempt_noPause in E1 as K.
        apply attemptFailed_inv in E1' as (Ho & _ & Hge). inversion Ho; subst o.
        destruct (Hge ltac:(lia)) as (_ & _ & Hn & Hs & _).
        destruct (giveUp_noPause f w1) as [[G1 G2] G3].
        eapply last_attempt_failed; [exact E1|exact K| |exact G3].
        split; [rewrite G1; exact Hn|rewrite G2; exact Hs].
    + exfalso. apply try_catch_inv in E1 as [(? & _ & ?)|(e' & v & _ & E1')]; [discriminate|].
      eapply succeeds_run; [apply attemptFailed_succeeds|exact E1'].
  - change (retryLoop CONFIG f (S (S n)) a w)
      with (bind (try_catch (importAttempt CONFIG f (S a)) (attemptFailed CONFIG f (S a)))
              (fun returned => match returned with
                               | Some b => ret b
                               | None => retryLoop CONFIG f (S n) (S a)
                               end) w).
    unfold bind at 1.
    destruct (try_catch (importAttempt CONFIG f (S a)) (attemptFailed CONFIG f (S a)) w)
      as [[o|x] w1] eqn:E1.
    + apply try_catch_inv in E1 as [(o' & E1 & Ho)|(e & v & E1 & E1')].
      * inversion Ho; subst o'.
        pose proof (yields_run _ _ _ _ _ (importAttempt_yields CONFIG f (S a)) E1) as ->.
        apply attempt_returned. exact E1.
      * apply importAttempt_noPause in E1 as K.
        apply attemptFailed_inv in E1' as (Ho & Hlt & _). inversion Ho; subst o.
        eapply attempt_failed; [lia|exact E1|exact K|apply Hlt; lia|].
        replace (a + S (S n))%nat with (S a + S n)%nat by lia. apply IH. lia.
    + exfalso. apply try_catch_inv in E1 as [(? & _ & ?)|(e' & v & _ & E1')]; [discriminate|].
      eapply succeeds_run; [apply attemptFailed_succeeds|exact E1'].
Qed.

Lemma retryLoop_slept f n : forall a w r w',
  Z.of_nat (a + n) = Z.max 0 (RETRY_ATTEMPTS CONFIG) ->
  retryLoop CONFIG f n a w = (r, w') ->
  exists k wf,
    slept w' = slept w ++ map waitTime (seq (S a) k) ++ wf
    /\ ((r = Normal false /\ k = (n - 1)%nat /\ wf = [])
        \/ (r = Normal true /\ (k < n)%nat /\ (wf = [] \/ wf = [2000]))).
Proof.
  induction n as [|n IH]; intros a w r w' Hsum E; cbn [retryLoop] in E.
  - apply giveUp_inv in E as [-> E].
    apply (keeps_run sameSlept) in E; [|apply keeps_moveFile; typeclasses eauto].
    exists 0%nat, []. cbn [slept add_log] in E. rewrite E. simpl.
    rewrite app_nil_r. auto.
  - apply bind_inv in E as [(o & w1 & E1 & E)|(e & E1 & _)].
    + apply try_catch_inv in E1 as [(o' & E1 & Ho)|(e & w0 & E1 & E1')].
      * inversion Ho; subst o'.
        pose proof (yields_run _ _ _ _ _ (importAttempt_yields CONFIG f (S a)) E1) as ->.
        apply importAttempt_slept in E1 as (wf & Hwf & Hcases).
        inversion E; subst. exists 0%nat, wf. simpl. split; [exact Hwf|].
        right. split; [reflexivity|]. split; [lia|exact Hcases].
      * apply importAttempt_slept in E1 as K.
        apply attemptFailed_inv in E1' as (Ho & Hlt & Hge). inversion Ho; subst o.
        assert (Z.of_nat (S a) < RETRY_ATTEMPTS CONFIG -> slept w1 = slept w0 ++ [waitTime (S a)])
          as Hlt' by (intros H; destruct (Hlt H) as (_ & _ & _ & _ & H' & _); exact H').
        assert (~ Z.of_nat (S a) < RETRY_ATTEMPTS CONFIG -> slept w1 = slept w0)
          as Hge' by (intros H; destruct (Hge H) as (_ & _ & _ & H' & _); exact H').
        clear Hlt Hge. rename Hlt' into Hlt. rename Hge' into Hge.
        apply IH in E as (k & wf & Hs & Hcases); [|lia].
        destruct n as [|n].
        -- exists 0%nat, []. rewrite Hge in Hs by lia.
           destruct Hcases as [(-> & -> & ->)|(_ & Hk & _)]; [|lia].
           simpl in Hs |- *. rewrite app_nil_r in *. split; [congruence|].
           left. auto.
        -- exists (S k), wf. rewrite Hlt in Hs by lia. split.
           ++ rewrite Hs, K. cbn [seq map]. rewrite <- !app_assoc. reflexivity.
           ++ destruct Hcases as [(-> & -> & ->)|(-> & Hk & Hwf)].
              ** left. split; [reflexivity|]. split; [lia|reflexivity].
              ** right. split; [reflexivity|]. split; [lia|exact Hwf].
    + exfalso. apply try_catch_inv in E1 as [(? & _ & ?)|(e' & w0 & _ & E1')]; [discriminate|].
      eapply succeeds_run; [apply attemptFailed_succeeds|exact E1'].
Qed.

End Backoff.

Lemma total_delays (n : nat) :
  total (map (fun k => 2 ^ Z.of_nat k * timeUnit) (seq 1 n)) = geometric n * timeUnit.
Proof.
  induction n as [|n IH]; [reflexivity|].
  rewrite seq_S, map_app. unfold total in *. rewrite fold_right_app. cbn [map fold_right].
  replace (1 + n)%nat with (S n) by lia.
  assert (forall l z, fold_right Z.add z l = fold_right Z.add 0 l + z) as Hfold.
  { intros l. induction l as [|x l IHl]; intros z; simpl; [lia|]. rewrite IHl. lia. }
  rewrite Hfold, IH. cbn [geometric]. lia.
Qed.

Lemma geometric_closed (n : nat) : geometric n = 2 ^ (Z.of_nat n + 1) - 2.
Proof.
  induction n as [|n IH]; [reflexivity|].
  cbn [geometric]. rewrite IH.
  replace (Z.of_nat (S n)) with (Z.of_nat n + 1) by lia.
  rewrite (Z.pow_add_r 2 (Z.of_nat n + 1) 1) by lia. lia.
Qed.

(** C2.  [processSinglePDFWithRetry] keeps the schedule of the
    specification.  With [R >= 1] configured attempts, the run on a file is
    the schedule that starts with attempt 1: an attempt [k < R] that fails
    sleeps nothing itself, is followed by one sleep of exactly [2^k] time
    units of one second, and attempt [k + 1] starts right after that sleep;
    when attempt [R] fails nothing is slept any more and the file has
    failed.  So the sleeps of a run are [2^1], [2^2], ..., [2^k] time
    units, one after each of the first [k] attempts, and then at most one
    wait of the workflow trigger of the attempt that succeeded; and for a
    file that fails all [R] attempts they are the delays for [k] from 1 to
    [R - 1], which add up to [2^R - 2] time units. *)
Theorem backoff_schedule (CONFIG : Config) (f : JFile) (w : World) :
  let R := Z.to_nat (RETRY_ATTEMPTS CONFIG) in
  let run := processSinglePDFWithRetry CONFIG f w in
  ((1 <= R)%nat -> scheduled CONFIG f R 1 w run)
  /\ (exists k wf,
      slept run.2 = slept w ++ map (fun j => 2 ^ Z.of_nat j * timeUnit) (seq 1 k) ++ wf
      /\ ((run.1 = Normal false /\ k = (R - 1)%nat /\ wf = [])
          \/ (run.1 = Normal true /\ (k < R)%nat /\ (wf = [] \/ wf = [2000]))))
  /\ (run.1 = Normal false ->
      slept run.2 = slept w ++ backoffDelays R
      /\ total (backoffDelays R) = geometric (R - 1) * timeUnit
      /\ geometric (R - 1) = 2 ^ Z.of_nat (Nat.max R 1) - 2).
Proof.
  intros R run. split.
  { intros HR. subst run. unfold processSinglePDFWithRetry. fold R.
    destruct R as [|n] eqn:ER; [lia|].
    apply (retryLoop_scheduled CONFIG f n 0 w). subst R. lia. }
  destruct (retryLoop_slept CONFIG f R 0 w run.1 run.2) as (k & wf & Hs & Hcases);
    [subst R; lia|apply run_eta|].
  split; [exists k, wf; split; [exact Hs|exact Hcases]|].
  intros Hfalse. destruct Hcases as [(_ & -> & ->)|(Htrue & _)]; [|congruence].
  rewrite app_nil_r in Hs. split; [exact Hs|]. split; [apply total_delays|].
  rewrite geometric_closed. f_equal. f_equal. lia.
Qed.

Lemma backoff_schedule_witness :
  let w := demo_world [] [] false 0 in
  let f := in_source "gone.pdf" in
  let run := processSinglePDFWithRetry default_config f w in
  (1 <= Z.to_nat (RETRY_ATTEMPTS default_config))%nat
  /\ scheduled default_config f 3 1 w run
  /\ run.1 = Normal false
  /\ slept run.2 = [2000; 4000].
Proof.
  intros w f run.
  assert (1 <= Z.to_nat (RETRY_ATTEMPTS default_config))%nat as HR by (vm_compute; lia).
  assert (run.1 = Normal false) as H by (vm_compute; reflexivity).
  destruct (backoff_schedule default_config f w) as (S1 & _ & S3).
  split; [exact HR|]. split; [exact (S1 HR)|]. split; [exact H|].
  exact (proj1 (S3 H)).
Defined.

(** ** The import transaction *)

Lemma uploadPDFFile_succeeds i f : succeeds (uploadPDFFile i f).
Proof.
  unfold uploadPDFFile. apply succeeds_try_catch. intros e.
  apply succeeds_bind; [apply succeeds_logger|intros _; apply succeeds_ret].
Qed.

Lemma deleteSord_run i w :
  deleteSord i w =
  match next_reply (ix w) with
  | Answer =>
      (Normal tt,
       set_ix (set_sords (filter (fun s => id s <> i) (sords (ix w))) (nextId (ix w))
                 (record_call OpDeleteSord (ix w))) w)
  | r => (Thrown (RemoteException OpDeleteSord r), set_ix (record_call OpDeleteSord (ix w)) w)
  end.
Proof.
  unfold deleteSord, ix_call, bind, remote. destruct (next_reply (ix w)); reflexivity.
Qed.


Lemma import_after_failed_upload (CONFIG : Config) (f : JFile) (w w1 w2 : World) (i : Z) :
  importCheckin CONFIG f w = (Normal i, w1) ->
  uploadPDFFile i f w1 = (Normal false, w2) ->
  importFileToELOWithValidation CONFIG f w =
  (Thrown (Error "File upload failed"),
   add_log {| level := ERROR; text := "Error importing file to ELO: " +:+ getName f;
              cause := Some (Error "File upload failed") |}
     match next_reply (ix w2) with
     | Answer =>
         set_ix (set_sords (filter (fun s => id s <> i) (sords (ix w2))) (nextId (ix w2))
                   (record_call OpDeleteSord (ix w2))) w2
     | r =>
         add_log {| level := WARN;
                    text := "Failed to cleanup failed import for Sord ID: " +:+ pretty i;
                    cause := Some (RemoteException OpDeleteSord r) |}
           (set_ix (record_call OpDeleteSord (ix w2)) w2)
     end).
Proof.
  intros H1 H2.
  unfold importFileToELOWithValidation, try_catch. unfold bind at 1. rewrite H1.
  unfold importUpload. unfold bind at 1. rewrite H2. cbv iota.
  unfold bind at 1, try_catch. rewrite deleteSord_run.
  destruct (next_reply (ix w2)); reflexivity.
Qed.

(** C3.  When the Sord has been checked in and [uploadPDFFile] then
    reports failure, [importFileToELOWithValidation] calls [deleteSord] for
    that Sord as its next and last remote call, and raises "File upload
    failed" instead of returning an id, whatever the delete call does.  When
    the delete call answers, the Sord is gone; when it fails, the failure is
    logged as a warning, the Sords stay as they are, and the error that is
    raised is still the upload failure. *)
Theorem failed_upload_is_compensated (CONFIG : Config) (f : JFile) (w w1 w2 : World) (i : Z) :
  importCheckin CONFIG f w = (Normal i, w1) ->
  uploadPDFFile i f w1 = (Normal false, w2) ->
  let run := importFileToELOWithValidation CONFIG f w in
  let failure := Error "File upload failed" in
  let reported :=
    {| level := ERROR; text := "Error importing file to ELO: " +:+ getName f;
       cause := Some failure |} in
  run.1 = Thrown failure
  /\ calls (ix run.2) = calls (ix w2) ++ [(OpDeleteSord, next_reply (ix w2))]
  /\ (next_reply (ix w2) = Answer ->
      sords (ix run.2) = filter (fun s => id s <> i) (sords (ix w2))
      /\ log run.2 = log w2 ++ [reported])
  /\ (next_reply (ix w2) <> Answer ->
      sords (ix run.2) = sords (ix w2)
      /\ log run.2 =
         log w2
         ++ [{| level := WARN;
                text := "Failed to cleanup failed import for Sord ID: " +:+ pretty i;
                cause := Some (RemoteException OpDeleteSord (next_reply (ix w2))) |};
             reported]).
Proof.
  intros H1 H2 run failure reported. subst run.
  rewrite (import_after_failed_upload CONFIG f w w1 w2 i H1 H2).
  cbn [fst snd]. split; [reflexivity|].
  destruct (next_reply (ix w2)) eqn:R; cbn; rewrite ?R, <- ?app_assoc;
    repeat split; intros; congruence.
Qed.

Lemma failed_upload_is_compensated_witness :
  let f := in_source "a.pdf" in
  let w := demo_world [Answer; Answer; Answer; Answer; Answer; Answer; Answer;
                       ServerError; Unreachable]
                      [(f, plain_file pdf_bytes)] false 0 in
  let w1 := (importCheckin default_config f w).2 in
  let w2 := (uploadPDFFile 3 f w1).2 in
  let run := importFileToELOWithValidation default_config f w in
  importCheckin default_config f w = (Normal 3, w1)
  /\ uploadPDFFile 3 f w1 = (Normal false, w2)
  /\ run.1 = Thrown (Error "File upload failed")
  /\ calls (ix run.2) = calls (ix w2) ++ [(OpDeleteSord, Unreachable)].
Proof.
  intros f w w1 w2 run.
  assert (importCheckin default_config f w = (Normal 3, w1)) as H1
    by (vm_compute; reflexivity).
  assert (uploadPDFFile 3 f w1 = (Normal false, w2)) as H2
    by (vm_compute; reflexivity).
  split; [exact H1|]. split; [exact H2|].
  pose proof (failed_upload_is_compensated default_config f w w1 w2 3 H1 H2) as (Hr & Hc & _).
  split; [exact Hr|]. exact Hc.
Defined.

(** ** Validation *)

Lemma read_header_run f w :
  read_header f w =
  match readable_bytes (fs w) f with
  | Some b => (Normal (match take 5 b with
                       | [] => -1
                       | h => Z.of_nat (List.length h)
                       end, take 5 b), w)
  | None => (Thrown (IOException f), w)
  end.
Proof.
  unfold read_header, bind, get_fs. destruct (readable_bytes (fs w) f); reflexivity.
Qed.

Lemma bytesRead_enough (b : list byte) :
  (match take 5 b with
   | [] => -1
   | h => Z.of_nat (List.length h)
   end >=? 4) = (4 <=? List.length b)%nat
  /\ take 4 (take 5 b) = take 4 b.
Proof.
  do 5 (destruct b as [|? b]; [split; reflexivity|]). split; reflexivity.
Qed.

(** The header block of the validation, case by case. *)
Lemma checkHeader_run f w :
  checkHeader f w =
  match readable_bytes (fs w) f with
  | Some b =>
      if (4 <=? List.length b)%nat && negb (bool_decide (take 4 b = PDF_MARKER))
      then (Normal false,
            add_log {| level := WARN; text := "Invalid PDF header: " +:+ getName f;
                       cause := None |} w)
      else (Normal true, w)
  | None =>
      (Normal true,
       add_log {| level := WARN;
                  text := "Could not validate PDF header for: " +:+ getName f;
                  cause := Some (IOException f) |} w)
  end.
Proof.
  unfold checkHeader, try_catch. unfold bind at 1. rewrite read_header_run.
  destruct (readable_bytes (fs w) f) as [b|]; [|reflexivity].
  cbn [fst snd]. destruct (bytesRead_enough b) as [-> ->].
  destruct (4 <=? List.length b)%nat; [|reflexivity].
  destruct (bool_decide (take 4 b = PDF_MARKER)); reflexivity.
Qed.

Section Validation.

Variable CONFIG : Config.

Lemma validatePDFFile_checked f w :
  passesBasicChecks CONFIG (fs w) f ->
  validatePDFFile CONFIG f w =
  match checkHeader f w with
  | (Normal true, w') =>
      (Normal true,
       add_log {| level := DEBUG;
                  text := "File validation passed: " +:+ getName f +:+ " ("
                          +:+ pretty (File_length (fs w) f) +:+ " bytes)";
                  cause := None |} w')
  | (Normal false, w') => (Normal false, w')
  | (Thrown e, w') =>
      (Normal false,
       add_log {| level := ERROR; text := "Error validating file: " +:+ getName f;
                  cause := Some e |} w')
  end.
Proof.
  intros (He & Hr & [Hpos Hmax] & Hext & Hexcl).
  unfold validatePDFFile, try_catch. unfold bind at 1, get_fs.
  rewrite He, Hr. cbn [negb orb].
  destruct (Z.eqb_spec (File_length (fs w) f) 0) as [E|_]; [lia|].
  destruct (Z.gtb_spec (File_length (fs w) f) (MAX_FILE_SIZE CONFIG)) as [E|_]; [lia|].
  rewrite Hext, Hexcl. cbn [negb]. unfold bind at 1.
  destruct (checkHeader f w) as [[[|]|e] w']; reflexivity.
Qed.

(** The verdict of the validation is a function of the configuration and
    the file system. *)
Lemma validatePDFFile_verdict f w :
  (validatePDFFile CONFIG f w).1 = Normal (validVerdict CONFIG (fs w) f).
Proof.
  unfold validatePDFFile, validVerdict, try_catch. unfold bind at 1, get_fs.
  destruct (negb (File_exists (fs w) f) || negb (File_canRead (fs w) f)); [reflexivity|].
  destruct (File_length (fs w) f =? 0); [reflexivity|].
  destruct (File_length (fs w) f >? MAX_FILE_SIZE CONFIG); [reflexivity|].
  destruct (negb (hasValidExtension (Js.toLowerCase (getName f)) (ALLOWED_EXTENSIONS CONFIG)));
    [reflexivity|].
  destruct (excludingPattern (Js.toLowerCase (getName f)) (EXCLUDE_PATTERNS CONFIG));
    [reflexivity|].
  unfold bind at 1. rewrite checkHeader_run. unfold headerVerdict.
  destruct (readable_bytes (fs w) f) as [b|]; [|reflexivity].
  destruct ((4 <=? List.length b)%nat && negb (bool_decide (take 4 b = PDF_MARKER)));
    reflexivity.
Qed.

Lemma validatePDFFile_determined f w1 w2 :
  fs w1 = fs w2 -> (validatePDFFile CONFIG f w1).1 = (validatePDFFile CONFIG f w2).1.
Proof. intros H. rewrite !validatePDFFile_verdict, H. reflexivity. Qed.

Lemma validatePDFFile_succeeds f : succeeds (validatePDFFile CONFIG f).
Proof.
  unfold validatePDFFile. apply succeeds_try_catch. intros e.
  apply succeeds_bind; [apply succeeds_logger|intros _; apply succeeds_ret].
Qed.

End Validation.

(** C5, as the code has it.  For a file that passes the checks on
    existence, readability, size, extension and exclusion patterns, the
    header decides: when at least four bytes were read and they are not the
    marker, the validation logs a warning and returns [false]; when they are
    the marker it returns [true]; when fewer than four bytes were read, or
    the header could not be read at all, it returns [true] as well. *)
Theorem header_check (CONFIG : Config) (f : JFile) (w : World) :
  passesBasicChecks CONFIG (fs w) f ->
  let run := validatePDFFile CONFIG f w in
  (forall b, readable_bytes (fs w) f = Some b -> (4 <= List.length b)%nat ->
             take 4 b <> PDF_MARKER ->
             run.1 = Normal false
             /\ log run.2 = log w ++ [{| level := WARN;
                                         text := "Invalid PDF header: " +:+ getName f;
                                         cause := None |}])
  /\ (forall b, readable_bytes (fs w) f = Some b -> (4 <= List.length b)%nat ->
                take 4 b = PDF_MARKER -> run.1 = Normal true)
  /\ (forall b, readable_bytes (fs w) f = Some b -> (List.length b < 4)%nat ->
                run.1 = Normal true)
  /\ (readable_bytes (fs w) f = None -> run.1 = Normal true).
Proof.
  intros Hc run. subst run. rewrite (validatePDFFile_checked CONFIG f w Hc), checkHeader_run.
  split; [|split; [|split]].
  - intros b -> Hlen Hm. destruct (Nat.leb_spec 4 (List.length b)); [|lia].
    rewrite bool_decide_eq_false_2 by assumption. split; reflexivity.
  - intros b -> Hlen Hm. destruct (Nat.leb_spec 4 (List.length b)); [|lia].
    rewrite bool_decide_eq_true_2 by assumption. reflexivity.
  - intros b -> Hlen. destruct (Nat.leb_spec 4 (List.length b)); [lia|]. reflexivity.
  - intros ->. reflexivity.
Qed.

Lemma header_check_witness :
  let f := in_source "bad.pdf" in
  let w := demo_world [] [(f, plain_file other_bytes)] false 0 in
  passesBasicChecks default_config (fs w) f
  /\ (validatePDFFile default_config f w).1 = Normal false.
Proof.
  intros f w.
  assert (passesBasicChecks default_config (fs w) f) as Hc.
  { unfold passesBasicChecks. repeat split; try (vm_compute; reflexivity).
    vm_compute. discriminate. }
  split; [exact Hc|].
  refine (proj1 (proj1 (header_check default_config f w Hc) other_bytes _ _ _)).
  - vm_compute. reflexivity.
  - vm_compute. lia.
  - vm_compute. discriminate.
Defined.

(** C5, as the claim words it, fails.  [bad.pdf] passes the checks on
    existence, size, extension and exclusion, and its first four bytes are
    not the marker: the validation returns [false], the scan does not list
    the file, and a whole run leaves it in the source directory and makes
    no import call. *)
Lemma bad_header_is_rejected :
  let f := in_source "bad.pdf" in
  let w := demo_world [] [(f, plain_file other_bytes)] false 0 in
  let run := processPDFFiles default_config w in
  File_exists (fs w) f = true
  /\ File_canRead (fs w) f = true
  /\ File_length (fs w) f = 5
  /\ hasValidExtension "bad.pdf" (ALLOWED_EXTENSIONS default_config) = true
  /\ excludingPattern "bad.pdf" (EXCLUDE_PATTERNS default_config) = None
  /\ readable_bytes (fs w) f = Some other_bytes
  /\ (validatePDFFile default_config f w).1 = Normal false
  /\ (getValidPDFFiles default_config (SOURCE_DIR default_config) w).1 = Normal []
  /\ File_exists (fs run.2) f = true
  /\ calls (ix run.2) = [(OpGetServerInfo, Answer)].
Proof. repeat split; vm_compute; reflexivity. Qed.

(** ** Moving files *)

Lemma chooseTarget_run f d w : chooseTarget f d w = (Normal (chosenTarget w f d), w).
Proof.
  unfold chooseTarget, chosenTarget, bind, get_fs, getTime.
  destruct (File_exists (fs w) _); reflexivity.
Qed.

Lemma renameTo_run src dst w :
  renameTo src dst w =
  match node (fs w) src with
  | Some n =>
      if rename_allowed (fs w) src dst
      then (Normal true, set_fs (renamed (fs w) src dst n) w)
      else (Normal false, set_fs (set_files (files (fs w)) (fs w)) w)
  | None => (Normal false, set_fs (set_files (files (fs w)) (fs w)) w)
  end.
Proof.
  unfold renameTo, bind, get_fs.
  destruct (node (fs w) src) as [n|]; [|reflexivity].
  destruct (rename_allowed (fs w) src dst); reflexivity.
Qed.

Lemma rename_allowed_exists s src dst :
  rename_allowed s src dst = true -> exists n, node s src = Some n.
Proof.
  unfold rename_allowed, File_exists. intros H.
  repeat (apply andb_true_iff in H as [H ?]).
  apply bool_decide_eq_true in H. exact H.
Qed.

(** What [moveFile] does to the files. *)
Lemma moveFile_files f d w :
  (moveFile f d w).1 = Normal tt
  /\ files (fs (moveFile f d w).2) =
     match node (fs w) f with
     | Some n =>
         if rename_allowed (fs w) f (chosenTarget w f d)
         then <[path_of (chosenTarget w f d) := n]> (delete (path_of f) (files (fs w)))
         else files (fs w)
     | None => files (fs w)
     end.
Proof.
  unfold moveFile, try_catch. unfold bind at 1 3. rewrite chooseTarget_run.
  unfold bind. rewrite renameTo_run.
  destruct (node (fs w) f) as [n|]; [|split; reflexivity].
  destruct (rename_allowed (fs w) f (chosenTarget w f d)); split; reflexivity.
Qed.

Lemma length_substring (s : string) : forall n m,
  (n + m <= String.length s)%nat -> String.length (String.substring n m s) = m.
Proof.
  induction s as [|c s IH]; intros n m H; simpl in H.
  - assert (n = 0 /\ m = 0)%nat as [-> ->] by lia. reflexivity.
  - destruct n as [|n]; simpl.
    + destruct m as [|m]; [reflexivity|]. simpl. rewrite IH by lia. reflexivity.
    + apply IH. lia.
Qed.

Lemma length_append (a b : string) :
  String.length (a +:+ b) = (String.length a + String.length b)%nat.
Proof. induction a as [|c a IH]; simpl; [reflexivity|]. rewrite IH. reflexivity. Qed.

(** The two halves that [moveFile] cuts a name into have the length of the
    name, wherever the last dot is, and also when there is none. *)
Lemma cut_length (s : string) (i : Z) :
  (String.length (Js.substring s 0 i) + String.length (Js.substring_from s i))%nat
  = String.length s.
Proof.
  unfold Js.substring_from, Js.substring, Js.clamp, Js.length.
  rewrite !length_substring by lia. lia.
Qed.

Lemma stampedName_longer (fileName : string) (timestamp : Z) :
  (String.length fileName < String.length (stampedName fileName timestamp))%nat.
Proof.
  unfold stampedName. rewrite !length_append.
  pose proof (cut_length fileName (Js.lastIndexOf fileName ".")). simpl. lia.
Qed.

Lemma stampedName_fresh (fileName : string) (timestamp : Z) :
  stampedName fileName timestamp <> fileName.
Proof.
  intros H. pose proof (stampedName_longer fileName timestamp) as L.
  rewrite H in L. lia.
Qed.

(** C4, as the code has it.  When the target directory already has a file
    of the name, [moveFile] renames to the stamped name, which is the part
    before the last dot, an underscore, the clock in milliseconds, and the
    part from the last dot on.  That name differs from the name of the file,
    so the file that is already there stays as it is.  When nothing exists
    under the stamped name and the rename goes through, the file arrives
    under the stamped name and no other file changes; when the rename does
    not go through, every file stays where it is. *)
Theorem moveFile_collision (file : JFile) (targetDir : string) (w : World) :
  File_exists (fs w) {| getParent := targetDir; getName := getName file |} = true ->
  getParent file <> targetDir ->
  let present := {| getParent := targetDir; getName := getName file |} in
  let target := {| getParent := targetDir;
                   getName := stampedName (getName file) (now w) |} in
  let run := moveFile file targetDir w in
  chosenTarget w file targetDir = target
  /\ path_of target <> path_of present
  /\ node (fs run.2) present = node (fs w) present
  /\ (rename_allowed (fs w) file target = true ->
      File_exists (fs w) target = false ->
      node (fs run.2) target = node (fs w) file
      /\ node (fs run.2) file = None
      /\ forall g, path_of g <> path_of file -> path_of g <> path_of target ->
                   node (fs run.2) g = node (fs w) g)
  /\ (rename_allowed (fs w) file target = false -> files (fs run.2) = files (fs w)).
Proof.
  intros Hex Hdir present target run.
  assert (chosenTarget w file targetDir = target) as Ht
    by (unfold chosenTarget; rewrite Hex; reflexivity).
  assert (path_of target <> path_of present) as Hne.
  { unfold path_of; simpl. intros H. inversion H as [H'].
    exact (stampedName_fresh _ _ H'). }
  assert (path_of file <> path_of present) as Hsrc.
  { unfold path_of; simpl. intros H. inversion H. contradiction. }
  assert (path_of file <> path_of target) as Hst.
  { unfold path_of; simpl. intros H. inversion H. contradiction. }
  destruct (moveFile_files file targetDir w) as [_ Hfiles]. fold run in Hfiles.
  rewrite Ht in Hfiles. unfold node.
  split; [exact Ht|]. split; [exact Hne|]. split; [|split].
  - rewrite Hfiles. destruct (files (fs w) !! path_of file) as [n|] eqn:En;
      unfold node; rewrite En; [|reflexivity].
    destruct (rename_allowed (fs w) file target); [|reflexivity].
    rewrite lookup_insert_ne by exact Hne. rewrite lookup_delete_ne by exact Hsrc.
    reflexivity.
  - intros Hallowed Hfree. rewrite Hfiles.
    destruct (rename_allowed_exists _ _ _ Hallowed) as [n En].
    unfold node in En |- *. rewrite En, Hallowed.
    split; [apply lookup_insert_eq|]. split.
    + rewrite lookup_insert_ne by (intros H; apply Hst; symmetry; exact H).
      apply lookup_delete_eq.
    + intros g Hg1 Hg2.
      rewrite lookup_insert_ne by (intros H; apply Hg2; symmetry; exact H).
      rewrite lookup_delete_ne by (intros H; apply Hg1; symmetry; exact H).
      reflexivity.
  - intros Hdenied. rewrite Hfiles. unfold node. rewrite Hdenied.
    destruct (files (fs w) !! path_of file); reflexivity.
Qed.

Lemma moveFile_collision_witness :
  let f := in_source "invoice1.pdf" in
  let d := PROCESSED_DIR default_config in
  let w := demo_world [] [(f, plain_file pdf_bytes);
                          (in_processed "invoice1.pdf", plain_file other_bytes)]
                      false 1700000000000 in
  let run := moveFile f d w in
  File_exists (fs w) (in_processed "invoice1.pdf") = true
  /\ getParent f <> d
  /\ node (fs run.2) (in_processed "invoice1.pdf") = Some (plain_file other_bytes)
  /\ node (fs run.2) (in_processed "invoice1_1700000000000.pdf")
     = Some (plain_file pdf_bytes).
Proof.
  intros f d w run.
  assert (File_exists (fs w) {| getParent := d; getName := getName f |} = true) as H1
    by (vm_compute; reflexivity).
  assert (getParent f <> d) as H2 by (vm_compute; discriminate).
  split; [exact H1|]. split; [exact H2|].
  destruct (moveFile_collision f d w H1 H2) as (_ & _ & Hpresent & Hmoved & _).
  split.
  - etransitivity; [exact Hpresent|]. vm_compute. reflexivity.
  - etransitivity; [refine (proj1 (Hmoved _ _)); vm_compute; reflexivity|].
    vm_compute. reflexivity.
Defined.

(** C4, as the claim words it, fails.  The processed directory has
    [a.pdf] and also [a_5.pdf], and the clock shows 5.  Moving another
    [a.pdf] there picks the name [a_5.pdf] without looking whether it is
    free.  On a platform whose rename replaces an existing target the old
    [a_5.pdf] is overwritten; on a platform whose rename refuses an existing
    target the move does not take place and the file stays in the source
    directory. *)
Lemma moveFile_stamped_name_taken :
  let f := in_source "a.pdf" in
  let d := PROCESSED_DIR default_config in
  let before := [(f, plain_file pdf_bytes);
                 (in_processed "a.pdf", plain_file other_bytes);
                 (in_processed "a_5.pdf", plain_file other_bytes)] in
  let replacing := moveFile f d (demo_world [] before true 5) in
  let refusing := moveFile f d (demo_world [] before false 5) in
  stampedName "a.pdf" 5 = "a_5.pdf"
  /\ node (fs (demo_world [] before true 5)) (in_processed "a_5.pdf")
     = Some (plain_file other_bytes)
  /\ node (fs replacing.2) (in_processed "a_5.pdf") = Some (plain_file pdf_bytes)
  /\ node (fs refusing.2) f = Some (plain_file pdf_bytes)
  /\ node (fs refusing.2) (in_processed "a_5.pdf") = Some (plain_file other_bytes).
Proof. repeat split; vm_compute; reflexivity. Qed.

(** A move to a directory that has no file of the name. *)
Lemma moveFile_plain (file : JFile) (targetDir : string) (w : World) :
  let target := {| getParent := targetDir; getName := getName file |} in
  File_exists (fs w) target = false ->
  rename_allowed (fs w) file target = true ->
  getParent file <> targetDir ->
  node (fs (moveFile file targetDir w).2) target = node (fs w) file
  /\ node (fs (moveFile file targetDir w).2) file = None.
Proof.
  intros target Hfree Hallowed Hdir.
  destruct (moveFile_files file targetDir w) as [_ Hfiles].
  assert (chosenTarget w file targetDir = target) as Ht
    by (unfold chosenTarget; fold target; rewrite Hfree; reflexivity).
  rewrite Ht in Hfiles.
  destruct (rename_allowed_exists _ _ _ Hallowed) as [n En].
  unfold node in *. rewrite Hfiles, En, Hallowed.
  split; [apply lookup_insert_eq|].
  rewrite lookup_insert_ne; [apply lookup_delete_eq|].
  unfold path_of; simpl. intros H. inversion H. congruence.
Qed.

(** ** Files that fail the validation at processing time *)

Section Invalid.

Variable CONFIG : Config.

Lemma import_invalid f w :
  (validatePDFFile CONFIG f w).1 = Normal false ->
  importFileToELOWithValidation CONFIG f w =
  (Thrown (Error "File validation failed"),
   add_log {| level := ERROR; text := "Error importing file to ELO: " +:+ getName f;
              cause := Some (Error "File validation failed") |}
           (validatePDFFile CONFIG f w).2).
Proof.
  intros H. unfold importFileToELOWithValidation, try_catch. unfold bind at 1.
  unfold importCheckin. unfold bind at 1.
  destruct (validatePDFFile CONFIG f w) as [r w1]. simpl in H. subst r. reflexivity.
Qed.

Lemma importAttempt_invalid f a w :
  validVerdict CONFIG (fs w) f = false ->
  exists e w1, importAttempt CONFIG f a w = (Thrown e, w1) /\ sameStores w w1.
Proof.
  intros H. unfold importAttempt. unfold bind at 1. unfold logger at 1, modify.
  unfold bind at 1.
  match goal with
  | |- context [importFileToELOWithValidation CONFIG f ?x] => set (w0 := x)
  end.
  assert ((validatePDFFile CONFIG f w0).1 = Normal false) as Hv
    by (rewrite validatePDFFile_verdict; f_equal; exact H).
  rewrite (import_invalid f w0 Hv). eexists _, _. split; [reflexivity|].
  destruct (keeps_validatePDFFile onlyLogged CONFIG f w0) as (Hix & Hfs & _).
  split; simpl; [rewrite Hix|rewrite Hfs]; reflexivity.
Qed.

Lemma attemptFailed_stores f a e w r w' :
  attemptFailed CONFIG f a e w = (r, w') -> r = Normal None /\ sameStores w w'.
Proof.
  intros E. pose proof (attemptFailed_inv CONFIG f a e w r w' E) as [Hr _].
  split; [exact Hr|].
  split.
  - apply (keeps_run sameIx) in E; [exact E|apply keeps_attemptFailed; typeclasses eauto].
  - apply (keeps_run sameFs) in E; [exact E|apply keeps_attemptFailed; typeclasses eauto].
Qed.

Lemma retryLoop_invalid f n : forall a w,
  validVerdict CONFIG (fs w) f = false ->
  exists w1, sameStores w w1 /\ retryLoop CONFIG f n a w = giveUp CONFIG f w1.
Proof.
  induction n as [|n IH]; intros a w H; cbn [retryLoop].
  - exists w. split; [split; reflexivity|reflexivity].
  - destruct (importAttempt_invalid f (S a) w H) as (e & w1 & E1 & [Hix1 Hfs1]).
    unfold bind at 1, try_catch. rewrite E1.
    destruct (attemptFailed CONFIG f (S a) e w1) as [r w2] eqn:E2.
    apply attemptFailed_stores in E2 as [-> [Hix2 Hfs2]].
    destruct (IH (S a) w2) as (w3 & [Hix3 Hfs3] & E3).
    { rewrite Hfs2, Hfs1. exact H. }
    exists w3. split; [split; congruence|exact E3].
Qed.

End Invalid.

(** C10.  [importFileToELOWithValidation] validates the file before it
    touches the archive, in every attempt.  A file whose validation fails
    at processing time therefore fails all attempts, with the full backoff,
    and without a single remote call: the archive is as it was.  The code
    after the loop then moves the file to the error directory: the world at
    the end is the one [moveFileToErrorDir] leaves, and when the rename can
    go through and the error directory has no file of that name, the file
    is in the error directory and no longer where it was. *)
Theorem invalid_file_goes_to_error (CONFIG : Config) (f : JFile) (w : World) :
  (validatePDFFile CONFIG f w).1 = Normal false ->
  let run := processSinglePDFWithRetry CONFIG f w in
  let target := {| getParent := ERROR_DIR CONFIG; getName := getName f |} in
  run.1 = Normal false
  /\ ix run.2 = ix w
  /\ slept run.2 = slept w ++ backoffDelays (Z.to_nat (RETRY_ATTEMPTS CONFIG))
  /\ (exists w1, ix w1 = ix w /\ fs w1 = fs w
                 /\ run.2 = (moveFileToErrorDir CONFIG f w1).2)
  /\ (File_exists (fs w) target = false ->
      rename_allowed (fs w) f target = true ->
      getParent f <> ERROR_DIR CONFIG ->
      node (fs run.2) target = node (fs w) f /\ node (fs run.2) f = None).
Proof.
  intros Hv run target. rewrite validatePDFFile_verdict in Hv.
  assert (validVerdict CONFIG (fs w) f = false) as Hv' by congruence. clear Hv.
  destruct (retryLoop_invalid CONFIG f (Z.to_nat (RETRY_ATTEMPTS CONFIG)) 0 w Hv')
    as (w1 & [Hix Hfs] & E).
  fold (processSinglePDFWithRetry CONFIG f w) in E. fold run in E.
  destruct (giveUp CONFIG f w1) as [r w2] eqn:G. apply giveUp_inv in G as [-> G].
  assert (run.1 = Normal false) as Hr by (rewrite E; reflexivity).
  assert (run.2 = w2) as Hw by (rewrite E; reflexivity).
  set (w1' := add_log _ w1) in G.
  assert (w2 = (moveFile f (ERROR_DIR CONFIG) w1').2) as Hm by (rewrite G; reflexivity).
  split; [exact Hr|]. split; [|split; [|split]].
  - rewrite Hw, Hm.
    rewrite (keeps_moveFile sameIx f (ERROR_DIR CONFIG) w1'). simpl. exact Hix.
  - destruct (retryLoop_slept CONFIG f (Z.to_nat (RETRY_ATTEMPTS CONFIG)) 0 w run.1 run.2)
      as (k & wf & Hs & Hcases); [lia|apply run_eta|].
    destruct Hcases as [(_ & -> & ->)|(Ht & _)]; [|congruence].
    rewrite app_nil_r in Hs. exact Hs.
  - exists w1'. split; [exact Hix|]. split; [exact Hfs|].
    rewrite Hw. exact Hm.
  - intros Hfree Hallowed Hdir. rewrite Hw, Hm.
    assert (fs w1' = fs w) as Hfs' by exact Hfs.
    rewrite <- Hfs' in Hfree, Hallowed |- *.
    exact (moveFile_plain f (ERROR_DIR CONFIG) w1' Hfree Hallowed Hdir).
Qed.

Lemma invalid_file_goes_to_error_witness :
  let f := in_source "empty.pdf" in
  let w := demo_world [] [(f, plain_file [])] false 0 in
  let run := processSinglePDFWithRetry default_config f w in
  (validatePDFFile default_config f w).1 = Normal false
  /\ run.1 = Normal false
  /\ calls (ix run.2) = []
  /\ node (fs run.2) (in_error "empty.pdf") = Some (plain_file [])
  /\ node (fs run.2) f = None.
Proof.
  intros f w run.
  assert ((validatePDFFile default_config f w).1 = Normal false) as H
    by (vm_compute; reflexivity).
  split; [exact H|].
  destruct (invalid_file_goes_to_error default_config f w H) as (Hr & Hix & _ & _ & Hmoved).
  split; [exact Hr|]. split; [fold run in Hix; rewrite Hix; reflexivity|].
  assert (node (fs w) f = Some (plain_file [])) as Hn by (vm_compute; reflexivity).
  rewrite <- Hn. apply Hmoved.
  - vm_compute. reflexivity.
  - vm_compute. reflexivity.
  - vm_compute. discriminate.
Defined.

(** ** The workflow trigger cannot fail a file *)

Section Workflow.

Variable CONFIG : Config.

(** The workflow trigger inside its [try]: it always comes back, and it
    touches neither the files nor the Sords. *)
Lemma guarded_workflow i w :
  exists w2,
    try_catch (startWorkflowWithRetry CONFIG i) (fun wfError =>
      logger WARN ("Workflow start failed for Sord ID: " +:+ pretty i
                   +:+ ", but import was successful") (Some wfError)) w
    = (Normal tt, w2)
    /\ fs w2 = fs w
    /\ sords (ix w2) = sords (ix w)
    /\ (forall e w', startWorkflowWithRetry CONFIG i w = (Thrown e, w') ->
                     w2 = add_log (workflowWarning i e) w').
Proof.
  unfold try_catch.
  pose proof (keeps_startWorkflowWithRetry sameFs CONFIG i w) as Kf.
  pose proof (keeps_startWorkflowWithRetry sameSords CONFIG i w) as Ks.
  destruct (startWorkflowWithRetry CONFIG i w) as [[[]|e] w']; simpl in Kf, Ks.
  - exists w'. repeat split; try assumption. intros e w'' H. discriminate.
  - eexists. split; [reflexivity|]. repeat split; try assumption.
    intros e' w'' H. inversion H; subst. reflexivity.
Qed.

Lemma importAttempt_imported f a w i w1 :
  importFileToELOWithValidation CONFIG f (add_log (attemptLine CONFIG f a) w)
  = (Normal i, w1) ->
  i <> 0 ->
  exists w2,
    fs w2 = fs w1 /\ sords (ix w2) = sords (ix w1)
    /\ (forall e w', startWorkflowWithRetry CONFIG i w1 = (Thrown e, w') ->
                     w2 = add_log (workflowWarning i e) w')
    /\ importAttempt CONFIG f a w =
       (Normal (Some true),
        add_log {| level := INFO;
                   text := "Successfully processed file: " +:+ getName f
                           +:+ " (Sord ID: " +:+ pretty i +:+ ")";
                   cause := None |}
                (moveFileToProcessedDir CONFIG f w2).2).
Proof.
  intros Himp Hi.
  destruct (guarded_workflow i w1) as (w2 & Hwf & Hfs & Hsords & Hwarn).
  exists w2. split; [exact Hfs|]. split; [exact Hsords|]. split; [exact Hwarn|].
  unfold importAttempt. unfold bind at 1. unfold logger at 1, modify.
  fold (attemptLine CONFIG f a). unfold bind at 1. rewrite Himp.
  assert (truthy i = true) as -> by (unfold truthy; destruct (Z.eqb_spec i 0); [lia|reflexivity]).
  unfold bind at 1. rewrite Hwf. unfold bind at 1.
  destruct (moveFile_files f (PROCESSED_DIR CONFIG) w2) as [Hr _].
  unfold moveFileToProcessedDir.
  destruct (moveFile f (PROCESSED_DIR CONFIG) w2) as [r w3]. simpl in Hr. subst r.
  reflexivity.
Qed.

End Workflow.

(** C7.  In any turn of the retry loop in which the import returns a Sord
    id, the function returns [true], whatever the workflow trigger does:
    the trigger runs inside its own [try], touches neither the files nor
    the Sords, and when it fails after its attempts the only trace is a
    warning in the log.  The file is then handed to the move into the
    processed directory, and when the rename can go through and the
    directory has no file of that name, the file is there and no longer in
    the source directory. *)
Theorem workflow_failure_is_not_fatal (CONFIG : Config) (f : JFile) (n a : nat)
    (w w1 : World) (i : Z) :
  importFileToELOWithValidation CONFIG f (add_log (attemptLine CONFIG f (S a)) w)
  = (Normal i, w1) ->
  i <> 0 ->
  let run := retryLoop CONFIG f (S n) a w in
  let target := {| getParent := PROCESSED_DIR CONFIG; getName := getName f |} in
  run.1 = Normal true
  /\ sords (ix run.2) = sords (ix w1)
  /\ (exists w2, fs w2 = fs w1
                 /\ fs run.2 = fs (moveFileToProcessedDir CONFIG f w2).2)
  /\ (forall e w', startWorkflowWithRetry CONFIG i w1 = (Thrown e, w') ->
                   In (workflowWarning i e) (log run.2))
  /\ (File_exists (fs w1) target = false ->
      rename_allowed (fs w1) f target = true ->
      getParent f <> PROCESSED_DIR CONFIG ->
      node (fs run.2) target = node (fs w1) f /\ node (fs run.2) f = None).
Proof.
  intros Himp Hi run target.
  destruct (importAttempt_imported CONFIG f (S a) w i w1 Himp Hi)
    as (w2 & Hfs & Hsords & Hwarn & E).
  assert (run = (Normal true,
                 add_log {| level := INFO;
                            text := "Successfully processed file: " +:+ getName f
                                    +:+ " (Sord ID: " +:+ pretty i +:+ ")";
                            cause := None |}
                         (moveFileToProcessedDir CONFIG f w2).2)) as ->.
  { subst run. cbn [retryLoop]. unfold bind at 1, try_catch. rewrite E. reflexivity. }
  cbn [fst snd]. split; [reflexivity|]. split; [|split; [|split]].
  - cbn [ix add_log]. unfold moveFileToProcessedDir.
    rewrite (keeps_moveFile sameSords f (PROCESSED_DIR CONFIG) w2). exact Hsords.
  - exists w2. split; [exact Hfs|reflexivity].
  - intros e w' Hwf. cbn [log add_log]. apply in_or_app. left.
    pose proof (keeps_moveFile moreLogged f (PROCESSED_DIR CONFIG) w2) as [new Hnew].
    unfold moveFileToProcessedDir. rewrite Hnew. apply in_or_app. left.
    rewrite (Hwarn e w' Hwf). cbn [log add_log]. apply in_or_app. right. left. reflexivity.
  - intros Hfree Hallowed Hdir. cbn [fs add_log].
    rewrite <- Hfs in Hfree, Hallowed |- *.
    exact (moveFile_plain f (PROCESSED_DIR CONFIG) w2 Hfree Hallowed Hdir).
Qed.

Lemma workflow_failure_is_not_fatal_witness :
  let f := in_source "a.pdf" in
  let w := demo_world [Answer; Answer; Answer; Answer; Answer; Answer; Answer; Answer;
                       Answer; Unreachable; Unreachable]
                      [(f, plain_file pdf_bytes)] false 0 in
  let w1 := (importFileToELOWithValidation default_config f
               (add_log (attemptLine default_config f 1) w)).2 in
  let run := processSinglePDFWithRetry default_config f w in
  importFileToELOWithValidation default_config f
    (add_log (attemptLine default_config f 1) w) = (Normal 3, w1)
  /\ (startWorkflowWithRetry default_config 3 w1).1
     = Thrown (RemoteException OpCheckoutWorkFlow Unreachable)
  /\ run.1 = Normal true
  /\ node (fs run.2) (in_processed "a.pdf") = Some (plain_file pdf_bytes)
  /\ node (fs run.2) f = None.
Proof.
  intros f w w1 run.
  assert (importFileToELOWithValidation default_config f
            (add_log (attemptLine default_config f 1) w) = (Normal 3, w1)) as H1
    by (vm_compute; reflexivity).
  assert (3 <> 0) as H2 by lia.
  split; [exact H1|]. split; [vm_compute; reflexivity|].
  destruct (workflow_failure_is_not_fatal default_config f 2 0 w w1 3 H1 H2)
    as (Hr & _ & _ & _ & Hmoved).
  split; [exact Hr|].
  assert (node (fs w1) f = Some (plain_file pdf_bytes)) as Hn by (vm_compute; reflexivity).
  rewrite <- Hn. apply Hmoved.
  - vm_compute. reflexivity.
  - vm_compute. reflexivity.
  - vm_compute. discriminate.
Defined.

(** ** Unreachable archive *)

#[global] Instance cleanCalls_preorder : PreOrder cleanCalls.
Proof.
  split.
  - intros w. exists []. rewrite app_nil_r. split; [reflexivity|constructor].
  - intros a b c (n1 & H1 & F1) (n2 & H2 & F2). exists (n1 ++ n2).
    rewrite H2, H1, app_assoc. split; [reflexivity|]. apply Forall_app. split; assumption.
Qed.

Lemma cleanCalls_same w w' : calls (ix w') = calls (ix w) -> cleanCalls w w'.
Proof. intros H. exists []. rewrite app_nil_r. split; [exact H|constructor]. Qed.

#[global] Instance cleanCalls_log : OverLog cleanCalls.
Proof. intros w e _. apply cleanCalls_same. reflexivity. Qed.
#[global] Instance cleanCalls_sords : OverSords cleanCalls.
Proof. intros w l n. apply cleanCalls_same. reflexivity. Qed.
#[global] Instance cleanCalls_staged : OverStaged cleanCalls.
Proof. intros w m. apply cleanCalls_same. reflexivity. Qed.
#[global] Instance cleanCalls_workflows : OverWorkflows cleanCalls.
Proof. intros w l. apply cleanCalls_same. reflexivity. Qed.
#[global] Instance cleanCalls_sleep : OverSleep cleanCalls.
Proof. intros w a. apply cleanCalls_same. reflexivity. Qed.
#[global] Instance cleanCalls_fs : OverFs cleanCalls.
Proof. intros w a. apply cleanCalls_same. reflexivity. Qed.

Lemma cleanly_keeps {A} (ok : A -> Prop) (m : M A) : keeps cleanCalls m -> cleanly ok m.
Proof. intros K w a w' E _. exact (keeps_run _ _ _ _ _ K E). Qed.

Lemma cleanly_weaken {A} (ok : A -> Prop) (m : M A) :
  cleanly (fun _ => True) m -> cleanly ok m.
Proof. intros C w a w' E _. exact (C w a w' E I). Qed.

Lemma cleanly_bind {A B} (ok : B -> Prop) (m : M A) (k : A -> M B) :
  cleanly (fun _ => True) m -> (forall a, cleanly ok (k a)) -> cleanly ok (bind m k).
Proof.
  intros Cm Ck w b w' E Hok.
  apply bind_inv in E as [(a & w1 & E1 & E2)|(e & _ & ?)]; [|discriminate].
  etransitivity; [exact (Cm _ _ _ E1 I)|exact (Ck a _ _ _ E2 Hok)].
Qed.

Lemma cleanly_try_catch {A} (ok : A -> Prop) (m : M A) (h : Exn -> M A) :
  cleanly ok m -> (forall e, yields (fun a => ~ ok a) (h e)) -> cleanly ok (try_catch m h).
Proof.
  intros Cm Yh w a w' E Hok.
  apply try_catch_inv in E as [(a' & E1 & Ha)|(e & w1 & _ & E2)].
  - inversion Ha; subst a'. exact (Cm _ _ _ E1 Hok).
  - exfalso. exact (yields_run _ _ _ _ _ (Yh e) E2 Hok).
Qed.

Lemma cleanly_ret {A} (ok : A -> Prop) (a : A) : cleanly ok (ret a).
Proof. apply cleanly_keeps, keeps_ret. typeclasses eauto. Qed.

Lemma cleanly_throw {A} (ok : A -> Prop) e : cleanly ok (@throw A e).
Proof. intros w a w' E. discriminate. Qed.

(** A remote call that returns has reached the archive. *)
Lemma cleanly_remote op : cleanly (fun _ => True) (remote op).
Proof.
  intros w r w' E _. unfold remote in E.
  exists [(op, next_reply (ix w))].
  destruct (next_reply (ix w)) eqn:R; inversion E; subst; simpl; rewrite ?R;
    (split; [reflexivity|]); repeat constructor; unfold reachedOrMasks; simpl;
    discriminate.
Qed.

Lemma cleanly_ix_call op : cleanly (fun _ => True) (ix_call op).
Proof.
  unfold ix_call. apply cleanly_bind; [apply cleanly_remote|].
  intros []; first [apply cleanly_ret|apply cleanly_throw].
Qed.

(** The lookup of the masks never adds any other call. *)
Lemma keeps_clean_checkoutDocMasks : keeps cleanCalls checkoutDocMasks.
Proof.
  intros w. unfold checkoutDocMasks, ix_call, bind, remote.
  exists [(OpCheckoutDocMasks, next_reply (ix w))].
  destruct (next_reply (ix w)) eqn:R; simpl; rewrite ?R; (split; [reflexivity|]);
    repeat constructor; intros _; reflexivity.
Qed.

Lemma keeps_clean_getMaskId n : keeps cleanCalls (getMaskId n).
Proof.
  unfold getMaskId. apply keeps_try_catch; [typeclasses eauto| |intros e; keeps_auto].
  apply keeps_bind; [typeclasses eauto|apply keeps_clean_checkoutDocMasks|].
  intros masks. keeps_auto.
Qed.

Ltac cleanly_step :=
  match goal with
  | |- cleanly _ (bind _ _) => apply cleanly_bind; [|intros ?]
  | |- cleanly _ (ret _) => apply cleanly_ret
  | |- cleanly _ (throw _) => apply cleanly_throw
  | |- cleanly _ (ix_call _) => apply cleanly_weaken, cleanly_ix_call
  | |- cleanly _ (remote _) => apply cleanly_weaken, cleanly_remote
  | |- cleanly _ (match ?x with _ => _ end) => destruct x
  | |- cleanly _ (let _ := _ in _) => cbv zeta
  | |- cleanly _ _ => apply cleanly_keeps; solve [keeps_auto]
  end.

Section Unreachable.

Variable CONFIG : Config.

Lemma cleanly_findFirstSords key max : cleanly (fun _ => True) (findFirstSords key max).
Proof. unfold findFirstSords. repeat cleanly_step. Qed.

Lemma cleanly_createSord p : cleanly (fun _ => True) (createSord p).
Proof. unfold createSord. repeat cleanly_step. Qed.

Lemma cleanly_checkinSord s : cleanly (fun _ => True) (checkinSord s).
Proof. unfold checkinSord. repeat cleanly_step. Qed.

Lemma cleanly_checkinDocBegin i : cleanly (fun _ => True) (checkinDocBegin i).
Proof. unfold checkinDocBegin. repeat cleanly_step. Qed.

Lemma cleanly_upload d u : cleanly (fun _ => True) (upload d u).
Proof. unfold upload. repeat cleanly_step. Qed.

Lemma cleanly_checkinDocEnd i d : cleanly (fun _ => True) (checkinDocEnd i d).
Proof. unfold checkinDocEnd. repeat cleanly_step. Qed.

Lemma cleanly_getOrCreateArchiveFolder :
  cleanly (fun _ => True) (getOrCreateArchiveFolder CONFIG).
Proof.
  unfold getOrCreateArchiveFolder. apply cleanly_try_catch.
  - apply cleanly_bind; [apply cleanly_findFirstSords|]. intros [|s l].
    + apply cleanly_bind; [apply cleanly_keeps; keeps_auto|intros _].
      apply cleanly_bind; [apply cleanly_createSord|intros d]. cbv zeta.
      apply cleanly_bind; [apply cleanly_checkinSord|intros i].
      repeat cleanly_step.
    + repeat cleanly_step.
  - intros e. apply yields_bind. intros _. apply yields_throw.
Qed.

Lemma cleanly_importCheckin f : cleanly (fun _ => True) (importCheckin CONFIG f).
Proof.
  unfold importCheckin.
  apply cleanly_bind; [apply cleanly_keeps, keeps_validatePDFFile; typeclasses eauto|].
  intros valid. destruct (negb valid); [apply cleanly_throw|].
  apply cleanly_bind; [apply cleanly_getOrCreateArchiveFolder|intros parent].
  apply cleanly_bind; [apply cleanly_createSord|intros sord]. cbv zeta.
  apply cleanly_bind; [apply cleanly_keeps, keeps_clean_getMaskId|intros maskId].
  apply cleanly_bind; [apply cleanly_keeps; keeps_auto|intros t].
  apply cleanly_bind; [|intros _; apply cleanly_checkinSord].
  apply cleanly_keeps. apply keeps_try_catch; [typeclasses eauto| |intros e; keeps_auto].
  apply keeps_setCustomMetadata; typeclasses eauto.
Qed.

Lemma cleanly_uploadPDFFile i f : cleanly (fun b => b = true) (uploadPDFFile i f).
Proof.
  unfold uploadPDFFile. apply cleanly_try_catch.
  - apply cleanly_bind; [apply cleanly_keeps; keeps_auto|intros t]. cbv zeta.
    apply cleanly_bind; [apply cleanly_checkinDocBegin|intros d].
    apply cleanly_bind; [apply cleanly_keeps, keeps_readFileInChunks; typeclasses eauto|].
    intros [data|]; [|apply cleanly_throw].
    apply cleanly_bind; [apply cleanly_upload|intros [|]]; [|apply cleanly_throw].
    apply cleanly_bind; [apply cleanly_checkinDocEnd|intros _].
    repeat cleanly_step.
  - intros e. apply yields_bind. intros _. apply yields_ret. discriminate.
Qed.

Lemma cleanly_importUpload i f : cleanly (fun _ => True) (importUpload i f).
Proof.
  intros w a w' E _. unfold importUpload in E.
  apply bind_inv in E as [(b & w1 & E1 & E2)|(e & _ & ?)]; [|discriminate].
  destruct b.
  - inversion E2; subst. eapply cleanly_uploadPDFFile; [exact E1|reflexivity].
  - exfalso. apply bind_inv in E2 as [(? & ? & _ & E3)|(e & _ & ?)]; discriminate.
Qed.

Lemma cleanly_importFileToELOWithValidation f :
  cleanly (fun _ => True) (importFileToELOWithValidation CONFIG f).
Proof.
  unfold importFileToELOWithValidation. apply cleanly_try_catch.
  - apply cleanly_bind; [apply cleanly_importCheckin|intros i; apply cleanly_importUpload].
  - intros e. apply yields_bind. intros _. apply yields_throw.
Qed.

End Unreachable.

Lemma importAttempt_thrown (CONFIG : Config) f a w e w1 :
  importFileToELOWithValidation CONFIG f (add_log (attemptLine CONFIG f a) w)
  = (Thrown e, w1) ->
  importAttempt CONFIG f a w = (Thrown e, w1).
Proof.
  intros H. unfold importAttempt. unfold bind at 1. unfold logger at 1, modify.
  fold (attemptLine CONFIG f a). unfold bind at 1. rewrite H. reflexivity.
Qed.

(** C8, as the code has it.  Every remote call of an import attempt is
    recorded.  When a call other than the lookup of the masks finds the
    archive unreachable, [importFileToELOWithValidation] raises: the attempt
    fails.  (The lookup of the masks is the exception: [getMaskId] catches
    every error and returns [null].)  An attempt that raises uses up one
    turn of the retry loop: the loop goes on with one turn less, from the
    world that the [catch] block leaves. *)
Theorem unreachable_aborts_attempt (CONFIG : Config) (f : JFile) (w : World) :
  let run := importFileToELOWithValidation CONFIG f w in
  (exists new,
      calls (ix run.2) = calls (ix w) ++ new
      /\ forall op, In (op, Unreachable) new -> op <> OpCheckoutDocMasks ->
                    exists e, run.1 = Thrown e)
  /\ (forall n a e w1,
        importFileToELOWithValidation CONFIG f (add_log (attemptLine CONFIG f (S a)) w)
        = (Thrown e, w1) ->
        retryLoop CONFIG f (S n) a w
        = retryLoop CONFIG f n (S a) (attemptFailed CONFIG f (S a) e w1).2).
Proof.
  intros run. split.
  - destruct (keeps_importFileToELOWithValidation moreCalls CONFIG f w) as [new Hnew].
    fold run in Hnew. exists new. split; [exact Hnew|].
    intros op Hin Hop. destruct run as [[a|e] w'] eqn:E; [|eauto].
    exfalso. destruct (cleanly_importFileToELOWithValidation CONFIG f w a w' E I)
      as (new' & Hnew' & Hclean).
    simpl in Hnew. rewrite Hnew in Hnew'. apply app_inv_head in Hnew'. subst new'.
    rewrite Forall_forall in Hclean. apply Hop. apply (Hclean (op, Unreachable)).
    + apply list_elem_of_In. exact Hin.
    + reflexivity.
  - intros n a e w1 H. cbn [retryLoop]. unfold bind at 1, try_catch.
    rewrite (importAttempt_thrown CONFIG f (S a) w e w1 H).
    destruct (attemptFailed CONFIG f (S a) e w1) as [r w2] eqn:E.
    apply attemptFailed_inv in E as [-> _]. reflexivity.
Qed.

Lemma unreachable_aborts_attempt_witness :
  let f := in_source "a.pdf" in
  let w := demo_world [Answer; Unreachable] [(f, plain_file pdf_bytes)] false 0 in
  let run := importFileToELOWithValidation default_config f w in
  In (OpCreateSord, Unreachable) (calls (ix run.2))
  /\ OpCreateSord <> OpCheckoutDocMasks
  /\ exists e, run.1 = Thrown e.
Proof.
  intros f w run.
  assert (In (OpCreateSord, Unreachable) (calls (ix run.2))) as Hin
    by (vm_compute; right; left; reflexivity).
  assert (OpCreateSord <> OpCheckoutDocMasks) as Hop by discriminate.
  split; [exact Hin|]. split; [exact Hop|].
  destruct (proj1 (unreachable_aborts_attempt default_config f w)) as (new & Hnew & Habort).
  apply (Habort OpCreateSord); [|exact Hop].
  fold run in Hnew. change (calls (ix w)) with (@nil (IxOp * Reply)) in Hnew.
  simpl in Hnew. rewrite <- Hnew. exact Hin.
Defined.

(** C8, as the claim words it, fails.  The archive folder is created and
    the draft is made; then the lookup of the masks finds the archive
    unreachable.  [getMaskId] catches the error, the import goes on without
    a mask and returns the id of the new Sord, and the file is processed in
    its first attempt, without any backoff. *)
Lemma mask_lookup_unreachable_is_absorbed :
  let f := in_source "a.pdf" in
  let w := demo_world [Answer; Answer; Answer; Answer; Unreachable]
                      [(f, plain_file pdf_bytes)] false 0 in
  let attempt := importFileToELOWithValidation default_config f w in
  let run := processSinglePDFWithRetry default_config f w in
  attempt.1 = Normal 3
  /\ In (OpCheckoutDocMasks, Unreachable) (calls (ix attempt.2))
  /\ map mask (sords (ix attempt.2)) = [None; None]
  /\ run.1 = Normal true
  /\ slept run.2 = []
  /\ node (fs run.2) (in_processed "a.pdf") = Some (plain_file pdf_bytes).
Proof.
  split; [vm_compute; reflexivity|].
  split; [vm_compute; do 4 right; left; reflexivity|].
  repeat split; vm_compute; reflexivity.
Qed.
(** ** Doubles *)

Lemma nearest_even_comp (x y : Q) : (x == y)%Q -> Js.nearest_even x = Js.nearest_even y.
Proof.
  intros H. unfold Js.nearest_even. rewrite (Qfloor_comp _ _ H).
  assert ((x - inject_Z (Qfloor y) ?= 1 # 2) = (y - inject_Z (Qfloor y) ?= 1 # 2))%Q as ->
    by (apply Qcompare_comp; [rewrite H|]; reflexivity).
  reflexivity.
Qed.

Lemma nearest_even_whole (z : Z) : Js.nearest_even (inject_Z z) = z.
Proof.
  unfold Js.nearest_even. rewrite Qfloor_Z.
  assert ((inject_Z z - inject_Z z ?= 1 # 2)%Q = Lt) as ->; [|reflexivity].
  rewrite <- Qlt_alt. unfold Qlt. simpl. rewrite ?Pos.mul_1_r. lia.
Qed.

Lemma nearest_even_between (y : Q) (M : Z) :
  (0 <= y)%Q -> (y <= inject_Z M)%Q -> 0 <= Js.nearest_even y <= M.
Proof.
  intros H0 HM. unfold Js.nearest_even.
  assert (0 <= Qfloor y) as Hf.
  { change 0 with (Qfloor (inject_Z 0)). apply Qfloor_resp_le. exact H0. }
  assert (Qfloor y <= M) as Hm.
  { rewrite <- (Qfloor_Z M). apply Qfloor_resp_le. exact HM. }
  destruct (Z.eq_dec (Qfloor y) M) as [E|E].
  - assert (y == inject_Z M)%Q as Hy.
    { apply Qle_antisym; [exact HM|]. rewrite <- E. apply Qfloor_le. }
    assert ((y - inject_Z (Qfloor y) ?= 1 # 2)%Q = Lt) as ->; [|lia].
    rewrite <- Qlt_alt, E, Hy. unfold Qlt. simpl. rewrite ?Pos.mul_1_r. lia.
  - destruct (y - inject_Z (Qfloor y) ?= 1 # 2)%Q; [destruct (Z.even _)|..]; lia.
Qed.

Lemma power_pos (b t : Z) : 0 < b -> (0 < Js.power b t)%Q.
Proof.
  intros Hb. unfold Js.power. destruct (Z.leb_spec 0 t) as [H|H].
  - change 0%Q with (inject_Z 0). rewrite <- Zlt_Qlt. apply Z.pow_pos_nonneg; lia.
  - reflexivity.
Qed.

(** Below one, a power of two is the inverse of a whole number. *)
Lemma power_down (t : Z) : t <= 0 -> (Js.power 2 t * inject_Z (2 ^ (- t)) == 1)%Q.
Proof.
  intros Ht. unfold Js.power. destruct (Z.leb_spec 0 t) as [H|H].
  - assert (t = 0) as -> by lia. reflexivity.
  - assert (0 < 2 ^ (- t)) as Hp by (apply Z.pow_pos_nonneg; lia).
    unfold Qeq, Qmult, inject_Z. simpl. rewrite Pos.mul_1_r, Z2Pos.id by exact Hp. lia.
Qed.

Lemma exponent2_small (x : Q) : (0 < x)%Q -> (x < inject_Z (2 ^ 53))%Q -> Js.exponent2 x <= 52.
Proof.
  intros H0 H. unfold Js.exponent2. destruct (Qle_bool 1 x) eqn:E.
  - apply Qle_bool_iff in E.
    assert (0 < Qfloor x) as Hf.
    { apply Z.lt_le_trans with 1; [lia|]. change 1 with (Qfloor (inject_Z 1)).
      apply Qfloor_resp_le. exact E. }
    assert (Qfloor x < 2 ^ 53) as Hlt.
    { apply Z.le_lt_trans with (Qfloor x); [lia|]. rewrite Zlt_Qlt.
      eapply Qle_lt_trans; [apply Qfloor_le|exact H]. }
    apply Z.lt_succ_r. apply Z.log2_lt_pow2; [exact Hf|exact Hlt].
  - pose proof (Z.log2_up_nonneg (Qceiling (/ x))). lia.
Qed.

Lemma Qabs_same (x : Q) : (0 <= x)%Q -> Qabs x = x.
Proof.
  destruct x as [a b]. unfold Qle, Qabs. simpl. intros H. rewrite Z.abs_eq by lia. reflexivity.
Qed.

Section Rounding.

Variables (x : Q) (N : Z).
Hypothesis positive : (0 < x)%Q.
Hypothesis whole_bound : (x <= inject_Z N)%Q.
Hypothesis small : N < 2 ^ 53.

Lemma quantum_down : Js.quantum x <= 0.
Proof.
  unfold Js.quantum.
  assert (Js.exponent2 x <= 52); [|lia].
  apply exponent2_small; [exact positive|].
  eapply Qle_lt_trans; [exact whole_bound|]. rewrite <- Zlt_Qlt. exact small.
Qed.

Lemma scaled : (x / Js.power 2 (Js.quantum x) == x * inject_Z (2 ^ (- Js.quantum x)))%Q.
Proof.
  pose proof (power_down _ quantum_down) as H.
  pose proof (power_pos 2 (Js.quantum x) ltac:(lia)) as Hp.
  field_simplify_eq; [|intros E; rewrite E in Hp; discriminate Hp].
  rewrite <- (Qmult_1_r x) at 1. rewrite <- H. ring.
Qed.

Lemma rounded_between :
  (0 <= inject_Z (Js.nearest_even (x / Js.power 2 (Js.quantum x)))
        * Js.power 2 (Js.quantum x))%Q
  /\ (inject_Z (Js.nearest_even (x / Js.power 2 (Js.quantum x)))
      * Js.power 2 (Js.quantum x) <= inject_Z N)%Q.
Proof.
  pose proof (power_down _ quantum_down) as H.
  pose proof (power_pos 2 (Js.quantum x) ltac:(lia)) as Hp.
  assert (0 < 2 ^ (- Js.quantum x)) as Hpow
    by (apply Z.pow_pos_nonneg; pose proof quantum_down; lia).
  destruct (nearest_even_between (x / Js.power 2 (Js.quantum x))
              (N * 2 ^ (- Js.quantum x))) as [Hn0 HnN].
  - rewrite scaled. apply Qmult_le_0_compat; [apply Qlt_le_weak; exact positive|].
    change 0%Q with (inject_Z 0). rewrite <- Zle_Qle. lia.
  - rewrite scaled, inject_Z_mult. apply Qmult_le_compat_r; [exact whole_bound|].
    change 0%Q with (inject_Z 0). rewrite <- Zle_Qle. lia.
  - split.
    + apply Qmult_le_0_compat; [|apply Qlt_le_weak; exact Hp].
      change 0%Q with (inject_Z 0). rewrite <- Zle_Qle. exact Hn0.
    + apply Qle_trans with (inject_Z (N * 2 ^ (- Js.quantum x)) * Js.power 2 (Js.quantum x))%Q.
      * apply Qmult_le_compat_r; [|apply Qlt_le_weak; exact Hp].
        rewrite <- Zle_Qle. exact HnN.
      * rewrite inject_Z_mult.
        rewrite <- Qmult_assoc, (Qmult_comm (inject_Z (2 ^ (- Js.quantum x)))), H.
        rewrite Qmult_1_r. apply Qle_refl.
Qed.

Lemma overflow_is_far (r : Q) : (r <= inject_Z N)%Q -> Qle_bool (Js.power 2 1024) r = false.
Proof.
  intros HN. destruct (Qle_bool (Js.power 2 1024) r) eqn:O; [|reflexivity].
  apply Qle_bool_iff in O. exfalso.
  assert (inject_Z (2 ^ 1024) <= inject_Z N)%Q as C
    by (eapply Qle_trans; [exact O|exact HN]).
  rewrite <- Zle_Qle in C. assert (2 ^ 53 < 2 ^ 1024) by reflexivity. lia.
Qed.

(** Rounding a number between zero and a whole number below [2^53] gives a
    number between them. *)
Lemma round64_between :
  exists q, Js.round64 x = Js.Num q /\ (0 <= q)%Q /\ (q <= inject_Z N)%Q.
Proof.
  destruct rounded_between as [H0 HN]. unfold Js.round64.
  destruct (Qeq_bool x 0) eqn:E.
  { apply Qeq_bool_iff in E. rewrite E in positive. discriminate positive. }
  rewrite (Qabs_same x) by (apply Qlt_le_weak; exact positive). cbv zeta.
  rewrite (overflow_is_far _ HN).
  assert (Qle_bool 0 x = true) as -> by (apply Qle_bool_iff, Qlt_le_weak; exact positive).
  eexists. split; [reflexivity|]. rewrite Qred_correct. split; assumption.
Qed.

End Rounding.

Lemma Qred_whole (z : Z) : Qred (inject_Z z) = inject_Z z.
Proof.
  unfold Qred, inject_Z.
  pose proof (Z.ggcd_gcd z 1) as G. pose proof (Z.ggcd_correct_divisors z 1) as D.
  destruct (Z.ggcd z 1) as [g [a b]]. cbn [fst snd] in *.
  rewrite Z.gcd_1_r in G. subst g. destruct D as [D1 D2].
  rewrite Z.mul_1_l in D1, D2. subst a b. reflexivity.
Qed.

(** A whole number below [2^53] is a double. *)
Lemma round64_whole (z : Z) : 0 <= z < 2 ^ 53 -> Js.round64 (inject_Z z) = Js.Num (inject_Z z).
Proof.
  intros [H0 H]. destruct (Z.eq_dec z 0) as [->|Hz]; [reflexivity|].
  assert (0 < inject_Z z)%Q as Hpos by (change 0%Q with (inject_Z 0); rewrite <- Zlt_Qlt; lia).
  pose proof (quantum_down (inject_Z z) z Hpos (Qle_refl _) H) as Ht.
  pose proof (scaled (inject_Z z) z Hpos (Qle_refl _) H) as Hy.
  pose proof (rounded_between (inject_Z z) z Hpos (Qle_refl _) H) as [_ Hb].
  unfold Js.round64.
  destruct (Qeq_bool (inject_Z z) 0) eqn:E.
  { apply Qeq_bool_iff in E. rewrite E in Hpos. discriminate Hpos. }
  rewrite (Qabs_same (inject_Z z)) by (apply Qlt_le_weak; exact Hpos). cbv zeta.
  rewrite (overflow_is_far z H _ Hb).
  assert (Qle_bool 0 (inject_Z z) = true) as ->
    by (apply Qle_bool_iff, Qlt_le_weak; exact Hpos).
  f_equal. etransitivity; [|apply Qred_whole]. apply Qred_complete.
  rewrite (nearest_even_comp _ _ Hy), <- inject_Z_mult, nearest_even_whole, inject_Z_mult.
  rewrite <- Qmult_assoc, (Qmult_comm (inject_Z (2 ^ (- Js.quantum (inject_Z z))))).
  rewrite (power_down _ Ht). apply Qmult_1_r.
Qed.

(** Rounding keeps a number between zero and a whole number below [2^53]. *)
Lemma round64_unit (x : Q) (N : Z) :
  (0 <= x)%Q -> (x <= inject_Z N)%Q -> 0 <= N < 2 ^ 53 ->
  exists q, Js.round64 x = Js.Num q /\ (0 <= q)%Q /\ (q <= inject_Z N)%Q.
Proof.
  intros H0 HN [Hn Hs]. destruct (Qeq_bool x 0) eqn:E.
  - exists 0%Q. unfold Js.round64. rewrite E. split; [reflexivity|]. split; [apply Qle_refl|].
    change 0%Q with (inject_Z 0). rewrite <- Zle_Qle. exact Hn.
  - apply round64_between; [|exact HN|exact Hs].
    apply Qle_lteq in H0 as [H0|H0]; [exact H0|].
    apply Qeq_bool_neq in E. exfalso. apply E. symmetry. exact H0.
Qed.

(** The text of a whole number from 0 to 100 is its decimal text. *)
Lemma toString_percent (r : Z) : 0 <= r <= 100 -> Js.toString (Js.Num (inject_Z r)) = pretty r.
Proof.
  intros Hr.
  assert (forallb (fun n => String.eqb (Js.toString (Js.Num (inject_Z (Z.of_nat n))))
                                       (pretty (Z.of_nat n))) (seq 0 101) = true) as A
    by (vm_compute; reflexivity).
  rewrite forallb_forall in A. specialize (A (Z.to_nat r)).
  rewrite Z2Nat.id in A by lia. apply String.eqb_eq, A, in_seq. lia.
Qed.

(** ** The statistics summary *)

#[global] Instance noRateLines_preorder : PreOrder noRateLines.
Proof.
  split.
  - intros w. exists []. rewrite app_nil_r. split; [reflexivity|constructor].
  - intros a b c (n1 & H1 & F1) (n2 & H2 & F2). exists (n1 ++ n2).
    rewrite H2, H1, app_assoc. split; [reflexivity|]. apply Forall_app. split; assumption.
Qed.

Lemma noRateLines_same w w' : log w' = log w -> noRateLines w w'.
Proof. intros H. exists []. rewrite app_nil_r. split; [exact H|constructor]. Qed.

#[global] Instance noRateLines_log : OverLog noRateLines.
Proof. intros w e H. exists [e]. split; [reflexivity|]. repeat constructor. exact H. Qed.
#[global] Instance noRateLines_ix : OverIx noRateLines.
Proof. intros w a. apply noRateLines_same. reflexivity. Qed.
#[global] Instance noRateLines_sleep : OverSleep noRateLines.
Proof. intros w a. apply noRateLines_same. reflexivity. Qed.
#[global] Instance noRateLines_fs : OverFs noRateLines.
Proof. intros w a. apply noRateLines_same. reflexivity. Qed.
#[global] Instance noRateLines_stats : OverStats noRateLines.
Proof. intros w a. apply noRateLines_same. reflexivity. Qed.

Lemma no_rate_line (new : list LogEntry) :
  Forall (fun e => isRateLine e = false) new ->
  Forall (fun e => isRateLine e = true -> validRateLine e) new
  /\ ~ Exists (fun e => isRateLine e = true) new.
Proof.
  intros F. split.
  - eapply Forall_impl; [exact F|]. simpl. intros e He Hr. congruence.
  - intros X. apply Exists_exists in X as (e & Hin & Hr).
    rewrite Forall_forall in F. specialize (F e Hin). congruence.
Qed.

(** Lines without the success rate before or after do not change what is
    emitted. *)
Lemma emits_before c w w1 w2 : noRateLines w w1 -> emits c w1 w2 -> emits c w w2.
Proof.
  intros (n1 & H1 & F1) (n2 & H2 & V2 & X2). exists (n1 ++ n2).
  destruct (no_rate_line n1 F1) as [V1 N1].
  rewrite H2, H1, app_assoc. split; [reflexivity|]. split.
  - apply Forall_app. split; assumption.
  - rewrite Exists_app. tauto.
Qed.

Lemma emits_after c w w1 w2 : emits c w w1 -> noRateLines w1 w2 -> emits c w w2.
Proof.
  intros (n1 & H1 & V1 & X1) (n2 & H2 & F2). exists (n1 ++ n2).
  destruct (no_rate_line n2 F2) as [V2 N2].
  rewrite H2, H1, app_assoc. split; [reflexivity|]. split.
  - apply Forall_app. split; assumption.
  - rewrite Exists_app. tauto.
Qed.

Lemma emits_none (c : Prop) w w' : noRateLines w w' -> ~ c -> emits c w w'.
Proof.
  intros (n & H & F) Hc. exists n. destruct (no_rate_line n F) as [V N].
  split; [exact H|]. split; [exact V|]. tauto.
Qed.

Lemma emits_iff (c c' : Prop) w w' : (c <-> c') -> emits c w w' -> emits c' w w'.
Proof.
  intros Hc (n & H & V & X). exists n. split; [exact H|]. split; [exact V|]. tauto.
Qed.

Lemma prefix_append (s t : string) : String.prefix s (s +:+ t) = true.
Proof.
  induction s as [|c s IH]; [destruct t; reflexivity|].
  change (String c s +:+ t) with (String c (s +:+ t)). cbn [String.prefix].
  destruct (ascii_dec c c) as [_|N]; [exact IH|congruence].
Qed.

Lemma plain_line l t c :
  String.prefix "Success rate: " t = false ->
  isRateLine {| level := l; text := t; cause := c |} = true ->
  validRateLine {| level := l; text := t; cause := c |}.
Proof. unfold isRateLine. cbn [text]. intros F H. congruence. Qed.

Lemma logged_quiet w l t c :
  String.prefix "Success rate: " t = false ->
  noRateLines w (add_log {| level := l; text := t; cause := c |} w).
Proof. intros H. apply over_log. exact H. Qed.

(** With at least one outcome counted, and counters that a double holds,
    the success rate is a whole number from 0 to 100. *)
Lemma successRate_percent (st : Stats) :
  0 <= totalProcessed st -> 0 <= totalErrors st ->
  0 < totalProcessed st + totalErrors st ->
  totalProcessed st + totalErrors st < 2 ^ 53 ->
  exists r, 0 <= r <= 100 /\ successRate st = Js.Num (inject_Z r).
Proof.
  intros Hp He Hsum Hfit. unfold successRate, Js.of_Z.
  set (p := totalProcessed st) in *. set (n := p + totalErrors st) in *.
  rewrite (round64_whole p) by lia. rewrite (round64_whole n) by lia.
  rewrite (round64_whole 100) by (split; [lia|reflexivity]).
  assert (0 < inject_Z n)%Q as Hn by (change 0%Q with (inject_Z 0); rewrite <- Zlt_Qlt; lia).
  unfold Js.div.
  destruct (Qeq_bool (inject_Z n) 0) eqn:Hq.
  { apply Qeq_bool_iff in Hq. rewrite Hq in Hn. discriminate Hn. }
  destruct (round64_unit (inject_Z p / inject_Z n) 1) as (q & -> & Hq0 & Hq1).
  - apply Qle_shift_div_l; [exact Hn|]. rewrite Qmult_0_l.
    change 0%Q with (inject_Z 0). rewrite <- Zle_Qle. lia.
  - apply Qle_shift_div_r; [exact Hn|]. rewrite Qmult_1_l. rewrite <- Zle_Qle. lia.
  - split; [lia|reflexivity].
  - unfold Js.mul.
    destruct (round64_unit (q * inject_Z 100) 100) as (q' & -> & H0 & H1).
    + apply Qmult_le_0_compat; [exact Hq0|discriminate].
    + apply Qle_trans with (inject_Z 1 * inject_Z 100)%Q; [|discriminate].
      apply Qmult_le_compat_r; [exact Hq1|discriminate].
    + split; [lia|reflexivity].
    + unfold Js.Math_round. eexists. split; [|reflexivity]. split.
      * change 0 with (Qfloor (inject_Z 0)). apply Qfloor_resp_le.
        apply Qle_trans with q'; [exact H0|].
        rewrite <- (Qplus_0_r q') at 1. apply Qplus_le_r. discriminate.
      * change 100 with (Qfloor (inject_Z 100 + (1 # 2))). apply Qfloor_resp_le.
        apply Qplus_le_l. exact H1.
Qed.

Lemma logStatistics_stats w : stats (logStatistics w).2 = stats w.
Proof. reflexivity. Qed.

(** The summary writes one line with the success rate, and a valid one when
    an outcome has been counted. *)
Lemma logStatistics_emits w :
  0 <= totalProcessed (stats w) -> 0 <= totalErrors (stats w) ->
  0 < outcomes w -> countersFit w ->
  (logStatistics w).1 = Normal tt /\ emits True w (logStatistics w).2.
Proof.
  intros Hp He Hsum Hfit.
  destruct (successRate_percent (stats w) Hp He Hsum Hfit) as (r & Hr & Hrate).
  split; [reflexivity|].
  unfold logStatistics, bind, getTime, get_stats, logger, modify. cbn [fst snd].
  eexists [_; _; _; _; _; _; _]. split; [|split].
  - cbn [log add_log]. rewrite <- !app_assoc. reflexivity.
  - repeat (apply Forall_cons_2; [try (apply plain_line; reflexivity)|]); [|constructor].
    intros _. exists r. split; [exact Hr|]. cbn [text].
    rewrite Hrate, toString_percent by lia. reflexivity.
  - split; [trivial|]. intros _. do 4 apply Exists_cons_tl. apply Exists_cons_hd.
    apply prefix_append.
Qed.

Section Summary.

Variable CONFIG : Config.

Lemma summarise_plain w :
  (summarise w).1 = Normal tt /\ stats (summarise w).2 = stats w.
Proof.
  unfold summarise, bind, get_stats. destruct (_ =? 0); split; reflexivity.
Qed.

(** At the end of a run the summary is written exactly when the number of
    outcomes is a multiple of ten. *)
Lemma summarise_emits w :
  0 <= totalProcessed (stats w) -> 0 <= totalErrors (stats w) ->
  0 < outcomes w -> countersFit w ->
  (summarise w).1 = Normal tt
  /\ stats (summarise w).2 = stats w
  /\ emits (Z.rem (outcomes w) 10 = 0) w (summarise w).2.
Proof.
  intros Hp He Hsum Hfit. unfold summarise, bind, get_stats.
  fold (outcomes w). destruct (Z.eqb_spec (Z.rem (outcomes w) 10) 0) as [Hz|Hz].
  - destruct (logStatistics_emits w Hp He Hsum Hfit) as [R E].
    split; [exact R|]. split; [apply logStatistics_stats|].
    eapply emits_iff; [|exact E]. tauto.
  - split; [reflexivity|]. split; [reflexivity|].
    apply emits_none; [reflexivity|exact Hz].
Qed.

(** One file is one outcome: one of the two counters goes up by one. *)
Lemma processOne_counts f w :
  let w' := (processOne CONFIG f w).2 in
  countersGrow w w'
  /\ totalProcessed (stats w') + totalErrors (stats w')
     = totalProcessed (stats w) + totalErrors (stats w) + 1.
Proof.
  intros w'. subst w'. destruct (processOne CONFIG f w) as [r w'] eqn:E. cbn [snd].
  unfold processOne in E.
  apply try_catch_inv in E as [(b & E & _)|(e & w1 & E & E')].
  - apply bind_inv in E as [(done & w1 & E1 & E2)|(e & _ & ?)]; [|discriminate].
    apply (keeps_run sameStats) in E1;
      [|apply keeps_processSinglePDFWithRetry; typeclasses eauto].
    unfold sameStats in E1.
    destruct done; inversion E2; subst; unfold countersGrow; simpl; rewrite E1; lia.
  - assert (stats w1 = stats w) as Hs.
    { apply bind_inv in E as [(done & w0 & E1 & E2)|(e0 & E1 & _)].
      - destruct done; inversion E2.
      - apply (keeps_run sameStats) in E1;
          [exact E1|apply keeps_processSinglePDFWithRetry; typeclasses eauto]. }
    apply bind_inv in E' as [([] & w2 & E1 & E2)|(e0 & E1 & _)];
      apply logger_inv in E1 as [? ->]; [|discriminate].
    apply bind_inv in E2 as [([] & w3 & E3 & E4)|(e0 & E3 & _)].
    + apply (keeps_run sameStats) in E3; [|apply keeps_moveFile; typeclasses eauto].
      unfold sameStats in E3. cbn [stats add_log] in E3.
      inversion E4; subst. unfold countersGrow. simpl. rewrite E3, Hs. lia.
    + exfalso. eapply succeeds_run; [apply moveFile_succeeds|exact E3].
Qed.

Lemma processOne_succeeds f : succeeds (processOne CONFIG f).
Proof.
  unfold processOne. apply succeeds_try_catch. intros e.
  apply succeeds_bind; [apply succeeds_logger|intros _].
  apply succeeds_bind; [apply moveFile_succeeds|intros _].
  apply succeeds_bind; [apply succeeds_modify|intros _; apply succeeds_ret].
Qed.

Lemma processEach_succeeds l : forall s e, succeeds (processEach CONFIG l s e).
Proof.
  induction l as [|f l IH]; intros s e; cbn [processEach]; [apply succeeds_ret|].
  apply succeeds_bind; [apply processOne_succeeds|intros b]. destruct b; apply IH.
Qed.

Lemma processEach_counts l : forall s e w,
  let w' := (processEach CONFIG l s e w).2 in
  countersGrow w w'
  /\ totalProcessed (stats w') + totalErrors (stats w')
     = totalProcessed (stats w) + totalErrors (stats w) + Z.of_nat (List.length l).
Proof.
  induction l as [|f l IH]; intros s e w; cbn [processEach].
  - simpl. unfold countersGrow. lia.
  - unfold bind. pose proof (processOne_counts f w) as [[G1 G2] C].
    pose proof (processOne_succeeds f w) as [b0 Hb0].
    destruct (processOne CONFIG f w) as [[b|x] w1]; cbn [fst snd] in *.
    + destruct b; [specialize (IH (s + 1) e w1)|specialize (IH s (e + 1) w1)];
        cbv zeta in IH; destruct IH as [[G3 G4] C']; unfold countersGrow;
        cbn [List.length]; lia.
    + discriminate.
Qed.

(** The part of a run that follows a scan which found files: the outcomes
    grow by the number of files, and the summary follows exactly when that
    brings them to a multiple of ten. *)
Lemma processFound_emits t l w :
  l <> [] ->
  0 <= totalProcessed (stats w) -> 0 <= totalErrors (stats w) ->
  let w' := (processFound CONFIG t l w).2 in
  (processFound CONFIG t l w).1 = Normal tt
  /\ countersGrow w w'
  /\ outcomes w' = outcomes w + Z.of_nat (List.length l)
  /\ (countersFit w' -> emits (Z.rem (outcomes w') 10 = 0) w w').
Proof.
  intros Hl Hp He w'. subst w'.
  destruct (processFound CONFIG t l w) as [r w'] eqn:E. cbn [fst snd].
  unfold processFound in E.
  apply bind_inv in E as [([] & w0 & E0 & E)|(x & E0 & _)];
    apply logger_inv in E0 as [? ->]; [|discriminate].
  match type of E with context [add_log ?e w] =>
    set (w0 := add_log e w) in *;
    assert (noRateLines w w0) as V0 by (apply logged_quiet; reflexivity)
  end.
  assert (stats w0 = stats w) as Hs0 by reflexivity.
  pose proof (keeps_processEach noRateLines CONFIG l 0 0 w0) as K.
  pose proof (processEach_counts l 0 0 w0) as [[G1 G2] C].
  pose proof (processEach_succeeds l 0 0 w0) as [counts0 Hc].
  rewrite Hs0 in G1, G2, C.
  assert (Z.of_nat (List.length l) > 0) as Hlen by (destruct l; [congruence|simpl; lia]).
  apply bind_inv in E as [(counts & w1 & E1 & E)|(x & E1 & _)];
    rewrite E1 in K, G1, G2, C, Hc; cbn [fst snd] in K, G1, G2, C, Hc; [|discriminate].
  apply bind_inv in E as [(t' & w1' & Et & E)|(x & Et & _)]; [|discriminate].
  inversion Et; subst t' w1'. clear Et.
  apply bind_inv in E as [([] & w2 & E2 & E)|(x & E2 & _)];
    apply logger_inv in E2 as [? ->]; [|discriminate].
  match type of E with context [add_log ?e w1] =>
    set (w2 := add_log e w1) in *;
    assert (noRateLines w1 w2) as V2 by (apply logged_quiet; reflexivity)
  end.
  assert (stats w2 = stats w1) as Hs2 by reflexivity.
  pose proof (summarise_plain w2) as [Hr Hs']. rewrite E in Hr, Hs'. cbn [fst snd] in Hr, Hs'.
  assert (outcomes w' = outcomes w + Z.of_nat (List.length l)) as Ho
    by (unfold outcomes; rewrite Hs', Hs2; exact C).
  assert (countersFit w' -> emits (Z.rem (outcomes w') 10 = 0) w2 w') as Hemit.
  { assert (outcomes w2 = outcomes w') as Ho2 by (unfold outcomes; rewrite Hs'; reflexivity).
    intros Hfit. rewrite <- Ho2.
    destruct (summarise_emits w2) as (_ & _ & Em).
    - rewrite Hs2. lia.
    - rewrite Hs2. lia.
    - rewrite Ho2, Ho. unfold outcomes. lia.
    - unfold countersFit. rewrite Ho2. exact Hfit.
    - rewrite E in Em. exact Em. }
  split; [exact Hr|]. split; [|split; [exact Ho|]].
  - unfold countersGrow. rewrite Hs', Hs2. split; lia.
  - intros Hfit. apply emits_before with w2; [|exact (Hemit Hfit)].
    etransitivity; [exact V0|]. etransitivity; [exact K|exact V2].
Qed.

Lemma validateELOConnection_succeeds : succeeds validateELOConnection.
Proof.
  unfold validateELOConnection. apply succeeds_try_catch. intros e.
  apply succeeds_bind; [apply succeeds_logger|intros _; apply succeeds_ret].
Qed.

Lemma createDirectoryIfNotExists_succeeds d : succeeds (createDirectoryIfNotExists d).
Proof. unfold createDirectoryIfNotExists. apply succeeds_try_catch. intros e. apply succeeds_logger. Qed.

Lemma ensureDirectoriesExist_succeeds : succeeds (ensureDirectoriesExist CONFIG).
Proof.
  unfold ensureDirectoriesExist.
  apply succeeds_bind; [apply createDirectoryIfNotExists_succeeds|intros _].
  apply succeeds_bind; [apply createDirectoryIfNotExists_succeeds|intros _].
  apply createDirectoryIfNotExists_succeeds.
Qed.

Lemma collectValid_succeeds l : forall acc, succeeds (collectValid CONFIG l acc).
Proof.
  induction l as [|f l IH]; intros acc; cbn [collectValid]; [apply succeeds_ret|].
  apply succeeds_bind; [intros w; eexists; reflexivity|intros s].
  destruct (File_isFile s f); [|apply IH].
  apply succeeds_bind; [apply validatePDFFile_succeeds|intros b]. apply IH.
Qed.

Lemma getValidPDFFiles_succeeds d : succeeds (getValidPDFFiles CONFIG d).
Proof.
  unfold getValidPDFFiles. apply succeeds_bind; [intros w; eexists; reflexivity|intros s].
  destruct (negb (isDirectory s d)).
  - apply succeeds_bind; [apply succeeds_logger|intros _; apply succeeds_ret].
  - apply succeeds_bind; [apply collectValid_succeeds|intros l].
    apply succeeds_bind; [apply succeeds_logger|intros _; apply succeeds_ret].
Qed.

(** The [try] block of a run: the outcomes grow by the files that the scan
    found, and the summary is written exactly when files were found and
    brought the outcomes to a multiple of ten. *)
Lemma runBody_emits t w :
  0 <= totalProcessed (stats w) -> 0 <= totalErrors (stats w) ->
  let w' := (runBody CONFIG t w).2 in
  (runBody CONFIG t w).1 = Normal tt
  /\ countersGrow w w'
  /\ (countersFit w' ->
      emits (outcomes w < outcomes w' /\ Z.rem (outcomes w') 10 = 0) w w').
Proof.
  intros Hp He w'. subst w'.
  destruct (runBody CONFIG t w) as [r w'] eqn:E. cbn [fst snd].
  unfold runBody in E.
  apply bind_inv in E as [(st & w0' & E0 & E)|(x & E0 & _)]; [|discriminate].
  inversion E0; subst st w0'. clear E0.
  apply bind_inv in E as [([] & w0 & E0 & E)|(x & E0 & _)];
    apply logger_inv in E0 as [? ->]; [|discriminate].
  match type of E with context [add_log ?e w] =>
    set (w0 := add_log e w) in *;
    assert (noRateLines w w0) as V0 by (apply logged_quiet; reflexivity)
  end.
  assert (stats w0 = stats w) as Hs0 by reflexivity.
  apply bind_inv in E as [(connected & w1 & E1 & E)|(x & E1 & _)];
    [|exfalso; eapply succeeds_run; [apply validateELOConnection_succeeds|exact E1]].
  apply (keeps_run noRateLines) in E1 as K1;
    [|apply keeps_validateELOConnection; typeclasses eauto].
  apply (keeps_run sameStats) in E1 as S1;
    [|apply keeps_validateELOConnection; typeclasses eauto].
  unfold sameStats in S1. rewrite Hs0 in S1.
  destruct connected; cbn [negb] in E.
  2:{ apply logger_inv in E as [-> ->].
      split; [reflexivity|]. unfold countersGrow, outcomes. cbn [stats add_log].
      rewrite S1. split; [lia|]. intros _. apply emits_none; [|lia].
      etransitivity; [exact V0|]. etransitivity; [exact K1|].
      apply logged_quiet. reflexivity. }
  apply bind_inv in E as [([] & w2 & E2 & E)|(x & E2 & _)];
    [|exfalso; eapply succeeds_run; [apply ensureDirectoriesExist_succeeds|exact E2]].
  apply (keeps_run noRateLines) in E2 as K2;
    [|apply keeps_ensureDirectoriesExist; typeclasses eauto].
  apply (keeps_run sameStats) in E2 as S2;
    [|apply keeps_ensureDirectoriesExist; typeclasses eauto].
  unfold sameStats in S2. rewrite S1 in S2.
  apply bind_inv in E as [(l & w3 & E3 & E)|(x & E3 & _)];
    [|exfalso; eapply succeeds_run; [apply getValidPDFFiles_succeeds|exact E3]].
  apply (keeps_run noRateLines) in E3 as K3;
    [|apply keeps_getValidPDFFiles; typeclasses eauto].
  apply (keeps_run sameStats) in E3 as S3;
    [|apply keeps_getValidPDFFiles; typeclasses eauto].
  unfold sameStats in S3. rewrite S2 in S3.
  assert (noRateLines w w3) as V3.
  { etransitivity; [exact V0|]. etransitivity; [exact K1|].
    etransitivity; [exact K2|exact K3]. }
  destruct l as [|f l].
  - apply logger_inv in E as [-> ->]. split; [reflexivity|].
    unfold countersGrow, outcomes. cbn [stats add_log]. rewrite S3. split; [lia|].
    intros _. apply emits_none; [|lia].
    etransitivity; [exact V3|]. apply logged_quiet. reflexivity.
  - destruct (processFound_emits t (f :: l) w3) as (Hr & G & Ho & Em);
      [discriminate|rewrite S3; lia..|].
    rewrite E in Hr, G, Ho, Em. cbn [fst snd] in Hr, G, Ho, Em.
    assert (outcomes w3 = outcomes w) as Ho3 by (unfold outcomes; rewrite S3; reflexivity).
    split; [exact Hr|]. split.
    + unfold countersGrow in *. rewrite S3 in G. exact G.
    + intros Hfit. apply emits_before with w3; [exact V3|].
      eapply emits_iff; [|exact (Em Hfit)].
      rewrite Ho, Ho3. cbn [List.length]. split; [intros Hz; split; [lia|exact Hz]|tauto].
Qed.

(** A run. *)
Lemma processPDFFiles_emits w :
  0 <= totalProcessed (stats w) -> 0 <= totalErrors (stats w) ->
  let w' := (processPDFFiles CONFIG w).2 in
  (processPDFFiles CONFIG w).1 = Normal tt
  /\ countersGrow w w'
  /\ (countersFit w' ->
      emits (outcomes w < outcomes w' /\ Z.rem (outcomes w') 10 = 0) w w').
Proof.
  intros Hp He w'. subst w'.
  destruct (processPDFFiles CONFIG w) as [r w'] eqn:E. cbn [fst snd].
  unfold processPDFFiles in E.
  apply bind_inv in E as [(t & w0' & E0 & E)|(x & E0 & _)]; [|discriminate].
  inversion E0; subst t w0'. clear E0.
  apply bind_inv in E as [([] & w0 & E0 & E)|(x & E0 & _)]; [|discriminate].
  inversion E0; subst w0. clear E0.
  match type of E with context [set_stats ?s w] => set (w0 := set_stats s w) in * end.
  assert (noRateLines w w0) as V0 by apply over_stats.
  assert (totalProcessed (stats w0) = totalProcessed (stats w)
          /\ totalErrors (stats w0) = totalErrors (stats w)) as [Sp Se]
    by (split; reflexivity).
  assert (outcomes w0 = outcomes w) as Ho0 by reflexivity.
  destruct (runBody_emits (now w) w0) as (Hr & G & Em); [rewrite Sp; exact Hp|rewrite Se; exact He|].
  apply try_catch_inv in E as [([] & E & Hrr)|(x & w1 & E & _)];
    rewrite E in Hr, G, Em; cbn [fst snd] in Hr, G, Em; [|discriminate].
  split; [exact Hrr|]. split.
  - unfold countersGrow in *. rewrite Sp, Se in G. exact G.
  - intros Hfit. apply emits_before with w0; [exact V0|].
    rewrite <- Ho0. exact (Em Hfit).
Qed.

End Summary.

Lemma emits_quiet (c : Prop) w w' :
  emits (outcomes w < outcomes w' /\ c) w w' -> quietOrValid w w'.
Proof.
  intros (new & H & V & X). exists new. split; [exact H|]. split; [exact V|].
  intros Ho. apply Forall_forall. intros e Hin.
  destruct (isRateLine e) eqn:R; [|reflexivity]. exfalso.
  assert (Exists (fun e => isRateLine e = true) new) as Hx
    by (apply Exists_exists; exists e; split; assumption).
  apply X in Hx as [Hlt _]. lia.
Qed.

Lemma noRateLines_quiet w w' : noRateLines w w' -> quietOrValid w w'.
Proof.
  intros (new & H & F). exists new. destruct (no_rate_line new F) as [V _].
  split; [exact H|]. split; [exact V|]. intros _. exact F.
Qed.

Lemma quietOrValid_trans w w1 w2 :
  countersGrow w w1 -> countersGrow w1 w2 ->
  quietOrValid w w1 -> quietOrValid w1 w2 -> quietOrValid w w2.
Proof.
  intros [G1 G2] [G3 G4] (n1 & H1 & V1 & Q1) (n2 & H2 & V2 & Q2).
  exists (n1 ++ n2). rewrite H2, H1, app_assoc. split; [reflexivity|]. split.
  - apply Forall_app. split; assumption.
  - unfold outcomes in *. intros Ho. apply Forall_app. split; [apply Q1|apply Q2]; lia.
Qed.

Lemma countersGrow_trans w w1 w2 : countersGrow w w1 -> countersGrow w1 w2 -> countersGrow w w2.
Proof. unfold countersGrow. lia. Qed.

Lemma countersFit_before w w' : countersGrow w w' -> countersFit w' -> countersFit w.
Proof. unfold countersGrow, countersFit, outcomes. lia. Qed.

(** Any number of runs of the timer. *)
Lemma intervalRuns_quiet (CONFIG : Config) (n : nat) : forall w,
  0 <= totalProcessed (stats w) -> 0 <= totalErrors (stats w) ->
  let w' := (intervalRuns CONFIG n w).2 in
  (intervalRuns CONFIG n w).1 = Normal tt
  /\ countersGrow w w'
  /\ (countersFit w' -> quietOrValid w w').
Proof.
  induction n as [|n IH]; intros w Hp He; cbn [intervalRuns].
  - simpl. split; [reflexivity|]. split; [unfold countersGrow; lia|].
    intros _. apply noRateLines_quiet. reflexivity.
  - unfold bind. destruct (processPDFFiles_emits CONFIG w Hp He) as (Hr & G & Em).
    destruct (processPDFFiles CONFIG w) as [r w1]. cbn [fst snd] in Hr, G, Em. subst r.
    destruct (IH w1) as (Hr' & G' & Q'); [destruct G; lia..|].
    cbv zeta in Hr', G', Q' |- *. split; [exact Hr'|].
    split; [exact (countersGrow_trans _ _ _ G G')|].
    intros Hfit. apply quietOrValid_trans with w1; [exact G|exact G'| |exact (Q' Hfit)].
    eapply emits_quiet, Em, countersFit_before; [exact G'|exact Hfit].
Qed.

Lemma banner_succeeds (CONFIG : Config) : succeeds (banner CONFIG).
Proof.
  unfold banner.
  repeat (apply succeeds_bind; [apply succeeds_logger|intros _]). apply succeeds_logger.
Qed.

Lemma main_unfold (CONFIG : Config) (n : nat) :
  main CONFIG n =
  bind (banner CONFIG) (fun _ =>
  bind validateELOConnection (fun connected =>
  if negb connected
  then logger ERROR "Initial ELO connection validation failed. Service will not start."
              None
  else
    bind (processPDFFiles CONFIG) (fun _ =>
    bind (logger INFO ("PDFImportService Enhanced is running with "
                       +:+ Js.toString (INTERVAL_seconds CONFIG) +:+ " second interval") None)
         (fun _ => intervalRuns CONFIG n)))).
Proof. reflexivity. Qed.

(** The service: the first run and any number of runs of the timer. *)
Lemma main_quiet (CONFIG : Config) (n : nat) (w : World) :
  0 <= totalProcessed (stats w) -> 0 <= totalErrors (stats w) ->
  let w' := (main CONFIG n w).2 in
  (main CONFIG n w).1 = Normal tt
  /\ (countersFit w' -> quietOrValid w w').
Proof.
  intros Hp He w'. subst w'. destruct (main CONFIG n w) as [r w'] eqn:E. cbn [fst snd].
  rewrite main_unfold in E.
  apply bind_inv in E as [([] & w0 & E0 & E)|(x & E0 & _)];
    [|exfalso; eapply succeeds_run; [apply banner_succeeds|exact E0]].
  apply (keeps_run noRateLines) in E0 as K0; [|apply keeps_banner; typeclasses eauto].
  apply (keeps_run sameStats) in E0 as Hs0; [|apply keeps_banner; typeclasses eauto].
  unfold sameStats in Hs0.
  apply bind_inv in E as [(connected & w1 & E1 & E)|(x & E1 & _)];
    [|exfalso; eapply succeeds_run; [apply validateELOConnection_succeeds|exact E1]].
  apply (keeps_run noRateLines) in E1 as K1;
    [|apply keeps_validateELOConnection; typeclasses eauto].
  apply (keeps_run sameStats) in E1 as S1;
    [|apply keeps_validateELOConnection; typeclasses eauto].
  unfold sameStats in S1. rewrite Hs0 in S1.
  assert (noRateLines w w1) as V1 by (etransitivity; [exact K0|exact K1]).
  assert (countersGrow w w1) as G01 by (unfold countersGrow; rewrite S1; lia).
  destruct connected; cbn [negb] in E.
  2:{ apply logger_inv in E as [-> ->]. split; [reflexivity|]. intros _.
      apply noRateLines_quiet. etransitivity; [exact V1|].
      apply logged_quiet. reflexivity. }
  destruct (processPDFFiles_emits CONFIG w1) as (Hr & G & Em); [rewrite S1; lia..|].
  apply bind_inv in E as [([] & w2 & E2 & E)|(x & E2 & _)];
    rewrite E2 in Hr, G, Em; cbn [fst snd] in Hr, G, Em; [|discriminate].
  apply bind_inv in E as [([] & w3 & E3 & E)|(x & E3 & _)];
    apply logger_inv in E3 as [? ->]; [|discriminate].
  match type of E with intervalRuns _ _ ?x = _ =>
    assert (noRateLines w2 x) as V3 by (apply logged_quiet; reflexivity);
    assert (stats x = stats w2) as S3 by reflexivity;
    destruct (intervalRuns_quiet CONFIG n x) as (Hr' & G' & Q')
  end.
  { rewrite S3. destruct G. rewrite S1 in *. lia. }
  { rewrite S3. destruct G. rewrite S1 in *. lia. }
  rewrite E in Hr', G', Q'. cbn [fst snd] in Hr', G', Q'.
  split; [exact Hr'|]. intros Hfit.
  assert (countersGrow w2 w') as G2 by (unfold countersGrow in *; rewrite S3 in G'; exact G').
  apply quietOrValid_trans with w1; [exact G01|exact (countersGrow_trans _ _ _ G G2)| |].
  - apply noRateLines_quiet. exact V1.
  - apply quietOrValid_trans with w2; [exact G|exact G2| |].
    + eapply emits_quiet, Em, countersFit_before; [exact G2|exact Hfit].
    + match type of E with intervalRuns _ _ ?x = _ =>
        apply quietOrValid_trans with x;
          [unfold countersGrow; rewrite S3; lia|exact G'|
           apply noRateLines_quiet; exact V3|exact (Q' Hfit)]
      end.
Qed.

(** C9, as the code has it.  [logStatistics] divides without looking at
    the divisor, and has no text for a rate that is not a number.  What
    keeps the division from zero is where the summary is written: at the
    end of a run in which the scan found files, and only when the outcomes
    counted so far, across all runs, are then a multiple of ten.  So, with
    counters that are not negative and that a double holds, which is what
    the script starts with and what counting by one makes of them: a run
    returns normally; a line with the success rate is among the lines it
    logs exactly when it counted an outcome and the outcomes are then a
    multiple of ten; and every such line, of a run and of the service with
    any number of runs, shows a whole percentage from 0 to 100.  While no
    outcome is counted the service writes no line with the success rate at
    all. *)
Theorem summary_rate_is_valid (CONFIG : Config) (n : nat) (w : World) :
  0 <= totalProcessed (stats w) ->
  0 <= totalErrors (stats w) ->
  (let run := processPDFFiles CONFIG w in
   countersFit run.2 ->
   run.1 = Normal tt
   /\ exists new,
        log run.2 = log w ++ new
        /\ Forall (fun e => isRateLine e = true -> validRateLine e) new
        /\ (Exists (fun e => isRateLine e = true) new
            <-> outcomes w < outcomes run.2 /\ Z.rem (outcomes run.2) 10 = 0))
  /\ (let run := main CONFIG n w in
      countersFit run.2 ->
      run.1 = Normal tt
      /\ exists new,
           log run.2 = log w ++ new
           /\ Forall (fun e => isRateLine e = true -> validRateLine e) new
           /\ (outcomes run.2 = outcomes w ->
               Forall (fun e => isRateLine e = false) new)).
Proof.
  intros Hp He. split.
  - intros run Hfit. destruct (processPDFFiles_emits CONFIG w Hp He) as (Hr & _ & Em).
    split; [exact Hr|exact (Em Hfit)].
  - intros run Hfit. destruct (main_quiet CONFIG n w Hp He) as (Hr & Q).
    split; [exact Hr|exact (Q Hfit)].
Qed.

Lemma summary_rate_is_valid_witness :
  let f := in_source "a.pdf" in
  let w := set_stats {| totalProcessed := 22; totalErrors := 17; lastRun := None;
                        startTime := 0 |}
                     (demo_world [] [(f, plain_file pdf_bytes)] false 522000) in
  let run := processPDFFiles default_config w in
  0 <= totalProcessed (stats w)
  /\ 0 <= totalErrors (stats w)
  /\ countersFit run.2
  /\ outcomes run.2 = 40
  /\ In "Uptime: 0.14 hours" (map text (log run.2))
  /\ In "Success rate: 57%" (map text (log run.2))
  /\ exists new,
       log run.2 = log w ++ new
       /\ Forall (fun e => isRateLine e = true -> validRateLine e) new
       /\ (Exists (fun e => isRateLine e = true) new
           <-> outcomes w < outcomes run.2 /\ Z.rem (outcomes run.2) 10 = 0).
Proof.
  intros f w run.
  assert (0 <= totalProcessed (stats w)) as Hp by (vm_compute; discriminate).
  assert (0 <= totalErrors (stats w)) as He by (vm_compute; discriminate).
  assert (countersFit run.2) as Hfit by (vm_compute; reflexivity).
  split; [exact Hp|]. split; [exact He|]. split; [exact Hfit|].
  split; [vm_compute; reflexivity|].
  split; [vm_compute; do 18 right; left; reflexivity|].
  split; [vm_compute; do 21 right; left; reflexivity|].
  exact (proj2 (proj1 (summary_rate_is_valid default_config 0 w Hp He) Hfit)).
Defined.

(** C9, as the claim words it, fails.  The service starts with no outcome
    counted; as long as none is counted, here through a first run and three
    runs of the timer over an empty directory, it returns normally and
    writes no summary: the log has no line with the success rate, so the
    rate is reported neither as 0% nor as n/a. *)
Lemma summary_not_written_at_zero :
  let w := demo_world [] [] false 0 in
  let run := main default_config 3 w in
  outcomes w = 0
  /\ outcomes run.2 = 0
  /\ run.1 = Normal tt
  /\ existsb isRateLine (log run.2) = false
  /\ existsb (fun e => String.eqb (text e) "=== PDFImportService Statistics ===")
             (log run.2) = false.
Proof. repeat split; vm_compute; reflexivity. Qed.
(** * More of the script *)

(** ** Strings: letter case, suffixes and the last dot *)

Lemma lower_unit_not_capital (x : ascii) : capital (Js.lower_unit x) = false.
Proof. destruct x as [[] [] [] [] [] [] [] []]; reflexivity. Qed.

Lemma hasCapital_occurs (s : string) :
  hasCapital s = true -> exists c, capital c = true /\ occurs c s = true.
Proof.
  induction s as [|x s IH]; simpl; [discriminate|].
  destruct (capital x) eqn:Hx; simpl.
  - intros _. exists x. rewrite Ascii.eqb_refl. auto.
  - intros H. destruct (IH H) as (c & Hc & Ho). exists c. rewrite Ho, orb_true_r. auto.
Qed.

Lemma occurs_lower (c : ascii) (s : string) :
  capital c = true -> occurs c (Js.toLowerCase s) = false.
Proof.
  intros Hc. induction s as [|x s IH]; simpl; [reflexivity|].
  rewrite IH, orb_false_r.
  destruct (Ascii.eqb (Js.lower_unit x) c) eqn:E; [|reflexivity].
  apply Ascii.eqb_eq in E. rewrite <- E, lower_unit_not_capital in Hc. discriminate.
Qed.

Lemma occurs_app (c : ascii) (a b : string) :
  occurs c (a +:+ b) = occurs c a || occurs c b.
Proof.
  induction a as [|x a IH]; [reflexivity|].
  change (String x a +:+ b) with (String x (a +:+ b)). simpl.
  rewrite IH, orb_assoc. reflexivity.
Qed.

Lemma substring_occurs (c : ascii) (s : string) : forall n m,
  occurs c (String.substring n m s) = true -> occurs c s = true.
Proof.
  induction s as [|x s IH]; intros [|n] [|m]; simpl; try discriminate.
  - destruct (Ascii.eqb x c); simpl; [reflexivity|apply IH].
  - intros H. apply IH in H. rewrite H, orb_true_r. reflexivity.
  - intros H. apply IH in H. rewrite H, orb_true_r. reflexivity.
Qed.

Lemma endsWith_occurs (c : ascii) (s p : string) :
  Js.endsWith s p = true -> occurs c p = true -> occurs c s = true.
Proof.
  unfold Js.endsWith. intros H Hp. apply andb_true_iff in H as [_ H].
  apply String.eqb_eq in H. rewrite <- H in Hp. exact (substring_occurs _ _ _ _ Hp).
Qed.

Lemma substring_whole (s : string) : String.substring 0 (String.length s) s = s.
Proof. induction s as [|x s IH]; simpl; [reflexivity|rewrite IH; reflexivity]. Qed.

Lemma substring_split (s : string) : forall n, (n <= String.length s)%nat ->
  String.substring 0 n s +:+ String.substring n (String.length s - n) s = s.
Proof.
  induction s as [|x s IH]; intros [|n] Hn; simpl in *; try reflexivity; try lia.
  - rewrite substring_whole. reflexivity.
  - change (String x ?a +:+ ?b) with (String x (a +:+ b)). rewrite IH by lia. reflexivity.
Qed.

Lemma substring_app_l (a r : string) :
  String.substring 0 (String.length a) (a +:+ r) = a.
Proof.
  induction a as [|x a IH]; simpl.
  - destruct r; reflexivity.
  - change (String x a +:+ r) with (String x (a +:+ r)). simpl. rewrite IH. reflexivity.
Qed.

Lemma substring_app_r (a r : string) :
  String.substring (String.length a) (String.length r) (a +:+ r) = r.
Proof.
  induction a as [|x a IH]; simpl.
  - apply substring_whole.
  - change (String x a +:+ r) with (String x (a +:+ r)). simpl. exact IH.
Qed.

(** [s.substring(0, k)] and [s.substring(k)] for a position [k] of [s]. *)
Lemma js_substring_to (s : string) (k : nat) :
  (k <= String.length s)%nat -> Js.substring s 0 (Z.of_nat k) = String.substring 0 k s.
Proof.
  intros Hk. unfold Js.substring, Js.clamp, Js.length.
  replace (Z.max 0 (Z.min 0 (Z.of_nat (String.length s)))) with 0 by lia.
  replace (Z.max 0 (Z.min (Z.of_nat k) (Z.of_nat (String.length s)))) with (Z.of_nat k) by lia.
  replace (Z.min 0 (Z.of_nat k)) with 0 by lia.
  replace (Z.max 0 (Z.of_nat k) - 0) with (Z.of_nat k) by lia.
  rewrite Nat2Z.id. reflexivity.
Qed.

Lemma js_substring_from (s : string) (k : nat) :
  (k <= String.length s)%nat ->
  Js.substring_from s (Z.of_nat k) = String.substring k (String.length s - k) s.
Proof.
  intros Hk. unfold Js.substring_from, Js.substring, Js.clamp, Js.length.
  replace (Z.max 0 (Z.min (Z.of_nat k) (Z.of_nat (String.length s)))) with (Z.of_nat k) by lia.
  replace (Z.max 0 (Z.min (Z.of_nat (String.length s)) (Z.of_nat (String.length s))))
    with (Z.of_nat (String.length s)) by lia.
  replace (Z.min (Z.of_nat k) (Z.of_nat (String.length s))) with (Z.of_nat k) by lia.
  replace (Z.max (Z.of_nat k) (Z.of_nat (String.length s)) - Z.of_nat k)
    with (Z.of_nat (String.length s - k)) by lia.
  rewrite !Nat2Z.id. reflexivity.
Qed.

(** A negative index counts as 0. *)
Lemma js_substring_negative (s : string) (i : Z) :
  i < 0 -> Js.substring s 0 i = "" /\ Js.substring_from s i = s.
Proof.
  intros Hi. unfold Js.substring_from, Js.substring, Js.clamp, Js.length.
  replace (Z.max 0 (Z.min i (Z.of_nat (String.length s)))) with 0 by lia.
  replace (Z.max 0 (Z.min 0 (Z.of_nat (String.length s)))) with 0 by lia.
  replace (Z.max 0 (Z.min (Z.of_nat (String.length s)) (Z.of_nat (String.length s))))
    with (Z.of_nat (String.length s)) by lia.
  replace (Z.min 0 (Z.of_nat (String.length s))) with 0 by lia.
  replace (Z.max 0 (Z.of_nat (String.length s)) - 0) with (Z.of_nat (String.length s)) by lia.
  rewrite Nat2Z.id. simpl. split; [destruct s; reflexivity|apply substring_whole].
Qed.

Lemma lastIndexOf_from_absent (c : ascii) (s : string) : forall i acc,
  occurs c s = false -> Js.lastIndexOf_from s c i acc = acc.
Proof.
  induction s as [|x s IH]; intros i acc H; simpl in *; [reflexivity|].
  apply orb_false_iff in H as [Hx Hs]. rewrite Hx. apply IH, Hs.
Qed.

Lemma lastIndexOf_from_app (c : ascii) (a b : string) : forall i acc,
  occurs c b = false ->
  Js.lastIndexOf_from (a +:+ String c b) c i acc = i + Z.of_nat (String.length a).
Proof.
  induction a as [|x a IH]; intros i acc Hb.
  - change ("" +:+ String c b) with (String c b). simpl.
    rewrite Ascii.eqb_refl, lastIndexOf_from_absent by assumption. lia.
  - change (String x a +:+ String c b) with (String x (a +:+ String c b)).
    cbn [Js.lastIndexOf_from String.length]. rewrite IH by assumption. lia.
Qed.

Lemma length_lower (s : string) : String.length (Js.toLowerCase s) = String.length s.
Proof. induction s as [|x s IH]; simpl; [reflexivity|rewrite IH; reflexivity]. Qed.

Lemma substring_lower (s : string) : forall n m,
  String.substring n m (Js.toLowerCase s) = Js.toLowerCase (String.substring n m s).
Proof.
  induction s as [|x s IH]; intros [|n] [|m]; simpl; try reflexivity;
    rewrite ?IH; reflexivity.
Qed.

Lemma endsWith_lower (s p : string) :
  Js.endsWith s p = true -> Js.endsWith (Js.toLowerCase s) (Js.toLowerCase p) = true.
Proof.
  unfold Js.endsWith. rewrite !length_lower. intros H.
  apply andb_true_iff in H as [H1 H2]. apply String.eqb_eq in H2.
  rewrite H1, substring_lower, H2. simpl. apply String.eqb_refl.
Qed.


Lemma substring_from_1 (x : ascii) (s : string) : Js.substring_from (String x s) 1 = s.
Proof.
  change 1 with (Z.of_nat 1).
  rewrite (js_substring_from (String x s) 1) by (simpl; lia).
  simpl. rewrite Nat.sub_0_r. apply substring_whole.
Qed.

Lemma capital_pattern_no_match (fileName pattern : string) :
  hasCapital pattern = true -> patternMatches (Js.toLowerCase fileName) pattern = false.
Proof.
  intros H. destruct (hasCapital_occurs _ H) as (c & Hc & Ho).
  pose proof (occurs_lower c fileName Hc) as Hn.
  assert (Hstar : Ascii.eqb "*"%char c = false).
  { destruct (Ascii.eqb "*"%char c) eqn:E; [|reflexivity].
    apply Ascii.eqb_eq in E. subst c. discriminate. }
  unfold patternMatches.
  apply orb_false_iff; split; [apply orb_false_iff; split|].
  - destruct (Js.startsWith pattern "*") eqn:E1; [|reflexivity]. simpl.
    destruct (Js.endsWith (Js.toLowerCase fileName) (Js.substring_from pattern 1)) eqn:E2;
      [|reflexivity].
    unfold Js.startsWith in E1. destruct pattern as [|x p]; [discriminate|].
    cbn [String.prefix] in E1. revert E1. destruct (ascii_dec "*"%char x) as [<-|]; [|discriminate].
    intros _. rewrite substring_from_1 in E2. cbn [occurs] in Ho. rewrite Hstar in Ho.
    cbn [orb] in Ho. rewrite (endsWith_occurs c _ _ E2 Ho) in Hn. discriminate.
  - destruct (Js.endsWith pattern "*") eqn:E1; [|reflexivity]. simpl.
    destruct (Js.startsWith (Js.toLowerCase fileName)
                (Js.substring pattern 0 (Js.length pattern - 1))) eqn:E2; [|reflexivity].
    unfold Js.endsWith in E1. apply andb_true_iff in E1 as [L E1].
    apply Nat.leb_le in L. simpl in L. apply String.eqb_eq in E1. simpl in E1.
    unfold Js.length in E2.
    replace (Z.of_nat (String.length pattern) - 1)
      with (Z.of_nat (String.length pattern - 1)) in E2 by lia.
    rewrite js_substring_to in E2 by lia.
    pose proof (substring_split pattern (String.length pattern - 1) ltac:(lia)) as S.
    replace (String.length pattern - (String.length pattern - 1))%nat with 1%nat in S by lia.
    rewrite E1 in S. rewrite <- S, occurs_app in Ho. cbn [occurs] in Ho.
    rewrite Hstar, !orb_false_r in Ho.
    rewrite (prefix_occurs c _ _ E2 Ho) in Hn. discriminate.
  - unfold Js.indexOf. rewrite (indexOf_from_absent c) by assumption. reflexivity.
Qed.

(** X1: exclusion patterns are compared with the lower-case file name, but
    are themselves taken as they are written.  A pattern that has an ASCII
    capital letter in it therefore never excludes a file: the exclusion loop
    gives the same result with and without such patterns, and a list of
    such patterns only excludes nothing. *)
Theorem capital_patterns_never_exclude (fileName : string) (patterns : list string) :
  excludingPattern (Js.toLowerCase fileName) patterns
  = excludingPattern (Js.toLowerCase fileName)
      (List.filter (fun p => negb (hasCapital p)) patterns)
  /\ (Forall (fun p => hasCapital p = true) patterns ->
      excludingPattern (Js.toLowerCase fileName) patterns = None).
Proof.
  split.
  - rewrite !excludingPattern_find.
    induction patterns as [|p rest IH]; simpl; [reflexivity|].
    destruct (hasCapital p) eqn:Hp; simpl.
    + rewrite (capital_pattern_no_match _ _ Hp). exact IH.
    + destruct (patternMatches (Js.toLowerCase fileName) p); [reflexivity|exact IH].
  - intros H. rewrite excludingPattern_find.
    induction H as [|p rest Hp _ IH]; simpl; [reflexivity|].
    rewrite (capital_pattern_no_match _ _ Hp). exact IH.
Qed.

Lemma capital_patterns_never_exclude_witness :
  Forall (fun p => hasCapital p = true) ["TEMP_*"; "*.Draft.pdf"; "Copy"]
  /\ excludingPattern (Js.toLowerCase "TEMP_Copy.Draft.pdf")
       ["TEMP_*"; "*.Draft.pdf"; "Copy"] = None
  /\ excludingPattern (Js.toLowerCase "TEMP_Copy.Draft.pdf")
       ["temp_*"] = Some "temp_*".
Proof.
  assert (Forall (fun p => hasCapital p = true) ["TEMP_*"; "*.Draft.pdf"; "Copy"]) as H
    by (repeat constructor).
  split; [exact H|]. split; [|reflexivity].
  exact (proj2 (capital_patterns_never_exclude "TEMP_Copy.Draft.pdf" _) H).
Defined.

Lemma hasValidExtension_exists (fileName : string) (extensions : list string) :
  hasValidExtension fileName extensions = true
  <-> exists e, In e extensions /\ Js.endsWith fileName (Js.toLowerCase e) = true.
Proof.
  induction extensions as [|x rest IH]; simpl.
  - split; [discriminate|intros (e & [] & _)].
  - destruct (Js.endsWith fileName (Js.toLowerCase x)) eqn:E.
    + split; [intros _; exists x; auto|reflexivity].
    + rewrite IH. split.
      * intros (e & Hin & He). exists e. auto.
      * intros (e & [->|Hin] & He); [congruence|]. exists e. auto.
Qed.

(** X2: the extension check does not look at letter case, neither in the
    file name nor in the configured extensions: a name that ends with an
    allowed extension written in any letter case is accepted. *)
Theorem extension_check_ignores_case (fileName e e' : string) (extensions : list string) :
  In e extensions ->
  Js.toLowerCase e' = Js.toLowerCase e ->
  Js.endsWith fileName e' = true ->
  hasValidExtension (Js.toLowerCase fileName) extensions = true.
Proof.
  intros Hin He Hn. apply hasValidExtension_exists. exists e. split; [exact Hin|].
  rewrite <- He. apply endsWith_lower, Hn.
Qed.

Lemma extension_check_ignores_case_witness :
  hasValidExtension (Js.toLowerCase "SCAN_01.Pdf") [".txt"; ".PDF"] = true.
Proof.
  apply (extension_check_ignores_case "SCAN_01.Pdf" ".PDF" ".Pdf");
    [simpl; auto|reflexivity|reflexivity].
Defined.

(** X3: how a file name is cut at its last dot.  For a name [base.ext]
    whose [ext] has no dot, the name under which [moveFile] avoids a
    collision is [base_T.ext] for the time stamp [T], and the short name of
    the imported document is [base].  A name without any dot has no base:
    the time stamp goes in front of the whole name, and the short name of
    the document is empty. *)
Theorem name_is_cut_at_last_dot (base ext fileName : string) (timestamp : Z) :
  (occurs "." ext = false ->
   stampedName (base +:+ "." +:+ ext) timestamp
   = base +:+ "_" +:+ pretty timestamp +:+ "." +:+ ext
   /\ Js.substring (base +:+ "." +:+ ext) 0 (Js.lastIndexOf (base +:+ "." +:+ ext) ".")
      = base)
  /\ (occurs "." fileName = false ->
      stampedName fileName timestamp = "_" +:+ pretty timestamp +:+ fileName
      /\ Js.substring fileName 0 (Js.lastIndexOf fileName ".") = "").
Proof.
  split.
  - intros He.
    assert (L : Js.lastIndexOf (base +:+ "." +:+ ext) "." = Z.of_nat (String.length base)).
    { unfold Js.lastIndexOf. change ("." +:+ ext) with (String "."%char ext).
      rewrite lastIndexOf_from_app by assumption. lia. }
    assert (Hlen : (String.length base <= String.length (base +:+ "." +:+ ext))%nat)
      by (rewrite length_append; lia).
    unfold stampedName. rewrite L, js_substring_to, js_substring_from by assumption.
    rewrite substring_app_l.
    replace (String.length (base +:+ "." +:+ ext) - String.length base)%nat
      with (String.length ("." +:+ ext)) by (rewrite (length_append base); lia).
    rewrite substring_app_r. auto.
  - intros Hn.
    assert (L : Js.lastIndexOf fileName "." = -1)
      by (apply lastIndexOf_from_absent, Hn).
    unfold stampedName. rewrite L.
    destruct (js_substring_negative fileName (-1) ltac:(lia)) as [-> ->]. auto.
Qed.

Lemma name_is_cut_at_last_dot_witness :
  stampedName "invoice.2024.pdf" 1700000000000 = "invoice.2024_1700000000000.pdf"
  /\ stampedName "README" 5 = "_5README".
Proof.
  split.
  - exact (proj1 (proj1 (name_is_cut_at_last_dot "invoice.2024" "pdf" "" 1700000000000)
                    eq_refl)).
  - exact (proj1 (proj2 (name_is_cut_at_last_dot "" "" "README" 5) eq_refl)).
Defined.
(** ** Scanning the source directory *)

Section Scan.

Variable CONFIG : Config.

Lemma validatePDFFile_onlyLogged f : keeps onlyLogged (validatePDFFile CONFIG f).
Proof. apply keeps_validatePDFFile; typeclasses eauto. Qed.

Lemma collectValid_filter (candidates : list JFile) : forall validFiles w,
  (collectValid CONFIG candidates validFiles w).1
  = Normal (validFiles
            ++ List.filter (fun f => File_isFile (fs w) f && validVerdict CONFIG (fs w) f)
                 candidates).
Proof.
  induction candidates as [|f rest IH]; intros acc w; simpl.
  - rewrite app_nil_r. reflexivity.
  - unfold bind at 1. simpl. destruct (File_isFile (fs w) f) eqn:Hf; simpl.
    + unfold bind at 1.
      pose proof (validatePDFFile_verdict CONFIG f w) as V.
      pose proof (validatePDFFile_onlyLogged f w) as (_ & Hfs & _).
      destruct (validatePDFFile CONFIG f w) as [[ok|e] w1]; simpl in *; [|discriminate].
      inversion V; subst ok. rewrite IH, Hfs.
      destruct (validVerdict CONFIG (fs w) f); [rewrite <- app_assoc|]; reflexivity.
    + apply IH.
Qed.

End Scan.

Lemma getValidPDFFiles_filter (CONFIG : Config) (dirPath : string) (w : World) :
  let run := getValidPDFFiles CONFIG dirPath w in
  run.1 = Normal
            (if isDirectory (fs w) dirPath
             then List.filter
                    (fun f => File_isFile (fs w) f && validVerdict CONFIG (fs w) f)
                    (listFiles (fs w) dirPath)
             else [])
  /\ ix run.2 = ix w /\ fs run.2 = fs w /\ stats run.2 = stats w /\ slept run.2 = slept w.
Proof.
  intros run. split.
  - subst run. unfold getValidPDFFiles. unfold bind at 1. simpl.
    destruct (isDirectory (fs w) dirPath); simpl; [|reflexivity].
    unfold bind at 1.
    pose proof (collectValid_filter CONFIG (listFiles (fs w) dirPath) [] w) as C.
    destruct (collectValid CONFIG (listFiles (fs w) dirPath) [] w) as [[l|e] w1];
      simpl in *; [|discriminate].
    inversion C; subst l. reflexivity.
  - assert (K : keeps onlyLogged (getValidPDFFiles CONFIG dirPath))
      by (apply keeps_getValidPDFFiles; typeclasses eauto).
    destruct (K w) as (H1 & H2 & _ & H4 & H5). auto.
Qed.

(** X4: the scan of a directory.  [getValidPDFFiles] never throws.  When
    the directory exists it returns, in the order of the listing, exactly
    the entries that are regular files and pass the validation; when the
    directory does not exist it returns the empty list.  The scan changes
    nothing but the log: the archive is not called and no file is touched. *)
Theorem scan_selects_valid_files (CONFIG : Config) (dirPath : string) (w : World) :
  let run := getValidPDFFiles CONFIG dirPath w in
  run.1 = Normal
            (if isDirectory (fs w) dirPath
             then List.filter
                    (fun f => File_isFile (fs w) f && validVerdict CONFIG (fs w) f)
                    (listFiles (fs w) dirPath)
             else [])
  /\ ix run.2 = ix w /\ fs run.2 = fs w /\ stats run.2 = stats w /\ slept run.2 = slept w.
Proof. exact (getValidPDFFiles_filter CONFIG dirPath w). Qed.

Lemma validVerdict_true (CONFIG : Config) (s : FileSystem) (f : JFile) :
  validVerdict CONFIG s f = true
  <-> passesBasicChecks CONFIG s f /\ headerVerdict s f = true.
Proof.
  unfold validVerdict, passesBasicChecks.
  destruct (File_exists s f); simpl; [|split; [discriminate|intros [[? _] _]; discriminate]].
  destruct (File_canRead s f); simpl;
    [|split; [discriminate|intros [(_ & ? & _) _]; discriminate]].
  destruct (Z.eqb_spec (File_length s f) 0) as [E|E];
    [split; [discriminate|intros [(_ & _ & ? & _) _]; lia]|].
  destruct (Z.gtb_spec (File_length s f) (MAX_FILE_SIZE CONFIG)) as [G|G];
    [split; [discriminate|intros [(_ & _ & ? & _) _]; lia]|].
  destruct (hasValidExtension _ _); simpl;
    [|split; [discriminate|intros [(_ & _ & _ & ? & _) _]; discriminate]].
  destruct (excludingPattern _ _);
    [split; [discriminate|intros [(_ & _ & _ & _ & ?) _]; discriminate]|].
  assert (0 <= File_length s f).
  { unfold File_length. destruct (node s f); lia. }
  split; [intros V; repeat split; auto; lia|intros [_ V]; exact V].
Qed.

(** X5: what the validation accepts.  [validatePDFFile] never throws and
    changes nothing but the log.  It returns true exactly for a file that
    exists and can be read, is not empty and not larger than the configured
    maximum, has an allowed extension, is hit by no exclusion pattern, and
    whose header block does not object. *)
Theorem validation_accepts (CONFIG : Config) (f : JFile) (w : World) :
  let run := validatePDFFile CONFIG f w in
  (exists b, run.1 = Normal b)
  /\ (run.1 = Normal true
      <-> passesBasicChecks CONFIG (fs w) f /\ headerVerdict (fs w) f = true)
  /\ onlyLogged w run.2.
Proof.
  intros run. subst run. rewrite validatePDFFile_verdict. split; [eauto|]. split.
  - rewrite <- validVerdict_true. split; [congruence|intros ->; reflexivity].
  - apply keeps_validatePDFFile; typeclasses eauto.
Qed.

(** ** Looking things up in the archive *)

Lemma findMask_find (maskName : string) (masks : list DocMask) :
  findMask maskName masks
  = List.find (fun m => String.eqb (mask_name m) maskName) masks.
Proof. induction masks as [|m rest IH]; simpl; [|rewrite IH]; reflexivity. Qed.

(** X6: the lookup of the mask.  [getMaskId] makes one remote call and
    never throws.  When the archive answers, the result is the id of the
    first mask whose name is the name asked for, and nothing when there is
    no such mask; when the call fails in either way, the result is nothing
    as well.  No Sord and no file is touched. *)
Theorem mask_lookup (maskName : string) (w : World) :
  let run := getMaskId maskName w in
  run.1 = Normal
            match next_reply (ix w) with
            | Answer =>
                option_map mask_id
                  (List.find (fun m => String.eqb (mask_name m) maskName)
                             (docMasks (ix w)))
            | _ => None
            end
  /\ calls (ix run.2) = calls (ix w) ++ [(OpCheckoutDocMasks, next_reply (ix w))]
  /\ sords (ix run.2) = sords (ix w)
  /\ fs run.2 = fs w.
Proof.
  intros run. subst run.
  unfold getMaskId, try_catch, bind, checkoutDocMasks, ix_call, bind, remote.
  rewrite <- findMask_find.
  destruct (next_reply (ix w)) eqn:R; simpl;
    [destruct (findMask maskName (docMasks (ix w))); simpl|..];
    rewrite ?R; repeat split; reflexivity.
Qed.

(** X7: the archive folder that is found.  When the search for the archive
    path finds Sords, [getOrCreateArchiveFolder] returns the id of the first
    of them, whatever its type is, and stores nothing; when the search call
    fails, the failure is thrown on.  Either way the search is the only
    remote call. *)
Theorem archive_folder_found (CONFIG : Config) (w : World) (s : Sord) (others : list Sord) :
  sords_named (ARCHIVE_PATH CONFIG) (ix w) = s :: others ->
  let run := getOrCreateArchiveFolder CONFIG w in
  run.1 = match next_reply (ix w) with
          | Answer => Normal (id s)
          | r => Thrown (RemoteException OpFindFirstSords r)
          end
  /\ calls (ix run.2) = calls (ix w) ++ [(OpFindFirstSords, next_reply (ix w))]
  /\ sords (ix run.2) = sords (ix w)
  /\ nextId (ix run.2) = nextId (ix w).
Proof.
  intros H run. subst run.
  unfold getOrCreateArchiveFolder, try_catch, bind, findFirstSords, ix_call, bind, remote.
  unfold sords_named in *.
  destruct (next_reply (ix w)) eqn:R; simpl; rewrite ?H; simpl; rewrite ?R;
    repeat split; reflexivity.
Qed.

Lemma archive_folder_found_witness :
  let document := {| id := 9; parentId := 1; name := "Eingangsrechnungen";
                     mask := None; type := LBT_DOCUMENT; desc := ""; content := None |} in
  let w := set_ix (set_sords [document] 10 (demo_archive [])) (demo_world [] [] false 0) in
  (getOrCreateArchiveFolder default_config w).1 = Normal 9.
Proof.
  intros document w.
  assert (sords_named (ARCHIVE_PATH default_config) (ix w) = [document]) as H
    by (vm_compute; reflexivity).
  exact (proj1 (archive_folder_found default_config w document [] H)).
Defined.
(** ** What an import stores *)

#[global] Instance sameStored_preorder : PreOrder sameStored.
Proof.
  split; [intros w; split; reflexivity|].
  intros a b c [H1 H2] [H3 H4]. unfold sameStored. split; congruence.
Qed.
#[global] Instance sameStored_log : OverLog sameStored.
Proof. intros w e _. split; reflexivity. Qed.
#[global] Instance sameStored_calls : OverCalls sameStored.
Proof. intros w op. split; reflexivity. Qed.
#[global] Instance sameStored_staged : OverStaged sameStored.
Proof. intros w m. split; reflexivity. Qed.
#[global] Instance sameStored_workflows : OverWorkflows sameStored.
Proof. intros w l. split; reflexivity. Qed.
#[global] Instance sameStored_sleep : OverSleep sameStored.
Proof. intros w a. split; reflexivity. Qed.
#[global] Instance sameStored_fs : OverFs sameStored.
Proof. intros w a. split; reflexivity. Qed.
#[global] Instance sameStored_stats : OverStats sameStored.
Proof. intros w a. split; reflexivity. Qed.

Lemma sameStored_onlyFoldersAdded w w' : sameStored w w' -> onlyFoldersAdded w w'.
Proof.
  intros [H1 H2]. split.
  - exists []. rewrite app_nil_r. auto.
  - unfold idsBelowNext. rewrite H1, H2. auto.
Qed.

#[global] Instance onlyFoldersAdded_preorder : PreOrder onlyFoldersAdded.
Proof.
  split; [intros w; apply sameStored_onlyFoldersAdded; reflexivity|].
  intros a b c [(n1 & H1 & F1) I1] [(n2 & H2 & F2) I2]. split; [|auto].
  exists (n1 ++ n2). rewrite H2, H1, app_assoc. split; [reflexivity|].
  apply Forall_app; auto.
Qed.
#[global] Instance onlyFoldersAdded_log : OverLog onlyFoldersAdded.
Proof. intros w e _. apply sameStored_onlyFoldersAdded. split; reflexivity. Qed.
#[global] Instance onlyFoldersAdded_calls : OverCalls onlyFoldersAdded.
Proof. intros w op. apply sameStored_onlyFoldersAdded. split; reflexivity. Qed.
#[global] Instance onlyFoldersAdded_staged : OverStaged onlyFoldersAdded.
Proof. intros w m. apply sameStored_onlyFoldersAdded. split; reflexivity. Qed.
#[global] Instance onlyFoldersAdded_workflows : OverWorkflows onlyFoldersAdded.
Proof. intros w l. apply sameStored_onlyFoldersAdded. split; reflexivity. Qed.

(** The primitives, as equations of their runs. *)

Lemma ix_call_run op w :
  ix_call op w =
  match next_reply (ix w) with
  | Answer => (Normal tt, set_ix (record_call op (ix w)) w)
  | r => (Thrown (RemoteException op r), set_ix (record_call op (ix w)) w)
  end.
Proof. unfold ix_call, bind, remote. destruct (next_reply (ix w)); reflexivity. Qed.

Lemma checkinSord_stored s w r w' :
  checkinSord s w = (r, w') ->
  (r = Normal (nextId (ix w))
   /\ sords (ix w') = sords (ix w) ++ [with_id (nextId (ix w)) s]
   /\ nextId (ix w') = nextId (ix w) + 1)
  \/ (exists e, r = Thrown e /\ sameStored w w').
Proof.
  unfold checkinSord, bind at 1. rewrite ix_call_run.
  destruct (next_reply (ix w)); intros E; inversion E; subst; simpl;
    [left; auto|right; eexists; split; [reflexivity|split; reflexivity]..].
Qed.

Lemma keeps_folder_checkinSord s :
  type s = LBT_FOLDER -> keeps onlyFoldersAdded (checkinSord s).
Proof.
  intros Hs w. destruct (checkinSord s w) as [r w'] eqn:E. simpl.
  apply checkinSord_stored in E as [(_ & H1 & H2)|(e & _ & H)];
    [|apply sameStored_onlyFoldersAdded, H].
  split.
  - eexists. split; [exact H1|]. constructor; [exact Hs|constructor].
  - unfold idsBelowNext. rewrite H1, H2. intros I. apply Forall_app. split.
    + eapply Forall_impl; [exact I|]. simpl. intros; lia.
    + constructor; [simpl; lia|constructor].
Qed.

Section Stored.

Variable CONFIG : Config.

Lemma getOrCreateArchiveFolder_folders :
  keeps onlyFoldersAdded (getOrCreateArchiveFolder CONFIG).
Proof.
  unfold getOrCreateArchiveFolder.
  apply keeps_try_catch; [typeclasses eauto| |intros e; keeps_auto].
  apply keeps_bind; [typeclasses eauto|apply keeps_findFirstSords; typeclasses eauto|].
  intros [|s l]; [|keeps_auto].
  apply keeps_bind; [typeclasses eauto|keeps_auto|intros _].
  apply keeps_bind; [typeclasses eauto|apply keeps_createSord; typeclasses eauto|].
  intros d. apply keeps_bind; [typeclasses eauto| |intros i; keeps_auto].
  apply keeps_folder_checkinSord. reflexivity.
Qed.

End Stored.

Lemma createSord_draft p w s w' :
  createSord p w = (Normal s, w') -> content s = None /\ sameStored w w'.
Proof.
  unfold createSord, bind at 1. rewrite ix_call_run.
  destruct (next_reply (ix w)); intros E; inversion E; subst; simpl;
    split; try split; reflexivity.
Qed.

Lemma checkinDocBegin_url i w d w' :
  checkinDocBegin i w = (Normal d, w') -> url d = "upload/" +:+ pretty i.
Proof.
  unfold checkinDocBegin, bind at 1. rewrite ix_call_run.
  destruct (next_reply (ix w)); intros E; inversion E; subst; reflexivity.
Qed.

Lemma readFileInChunks_run f w :
  readFileInChunks f w =
  match readable_bytes (fs w) f with
  | Some b => (Normal (Some b), w)
  | None => (Normal None,
             add_log {| level := ERROR; text := "Error reading file: " +:+ getName f;
                        cause := Some (IOException f) |} w)
  end.
Proof.
  unfold readFileInChunks, try_catch, bind, readFileToByteArray, bind, get_fs.
  destruct (readable_bytes (fs w) f); reflexivity.
Qed.

Lemma upload_stored data u w b w' :
  upload data u w = (Normal b, w') ->
  sameStored w w' /\ (b = true -> staged (ix w') !! u = Some data).
Proof.
  unfold upload, bind at 1, remote.
  destruct (next_reply (ix w)); intros E; inversion E; subst; simpl.
  - split; [split; reflexivity|]. intros _. apply lookup_insert_eq.
  - split; [split; reflexivity|discriminate].
Qed.

Lemma checkinDocEnd_stored i d w r w' :
  checkinDocEnd i d w = (r, w') ->
  nextId (ix w') = nextId (ix w)
  /\ match r with
     | Normal _ =>
         sords (ix w')
         = map (fun s => if id s =? i then with_content (staged (ix w) !! url d) s else s)
               (sords (ix w))
     | Thrown _ => sords (ix w') = sords (ix w)
     end.
Proof.
  unfold checkinDocEnd, bind at 1. rewrite ix_call_run.
  destruct (next_reply (ix w)); intros E; inversion E; subst; simpl; auto.
Qed.

Ltac split_bind E a w1 E1 :=
  let Hr := fresh "Hr" in
  apply bind_inv in E as [(a & w1 & E1 & E)|(? & E1 & Hr)];
  [|first [discriminate Hr
          |match type of Hr with ?r = _ => is_var r; subst r end
          |inversion Hr; subst; clear Hr]].

Ltac chain :=
  first [eassumption | reflexivity | etransitivity; [eassumption|chain]].

Lemma uploadPDFFile_stored i f w b w' :
  uploadPDFFile i f w = (Normal b, w') ->
  fs w' = fs w
  /\ nextId (ix w') = nextId (ix w)
  /\ if b
     then exists data,
            readable_bytes (fs w) f = Some data
            /\ sords (ix w')
               = map (fun s => if id s =? i then with_content (Some data) s else s)
                     (sords (ix w))
     else sords (ix w') = sords (ix w).
Proof.
  intros E.
  assert (Hfs : sameFs w w')
    by (exact (keeps_run sameFs _ _ _ _ (keeps_uploadPDFFile sameFs i f) E)).
  split; [exact Hfs|].
  assert (Kbegin : forall w, sameStored w (checkinDocBegin i w).2)
    by (apply keeps_checkinDocBegin; typeclasses eauto).
  assert (KbeginFs : forall w, sameFs w (checkinDocBegin i w).2)
    by (apply keeps_checkinDocBegin; typeclasses eauto).
  assert (Kread : forall w, onlyLogged w (readFileInChunks f w).2)
    by (apply keeps_readFileInChunks; typeclasses eauto).
  unfold uploadPDFFile in E.
  apply try_catch_inv in E as [(a & E & Ha)|(e & wx & E & H)].
  - inversion Ha; subst a; clear Ha.
    split_bind E t w0 E0. inversion E0; subst w0 t; clear E0.
    split_bind E d w1 E1.
    pose proof (Kbegin w) as [S1 N1]. pose proof (KbeginFs w) as F1.
    rewrite E1 in S1, N1, F1. simpl in S1, N1, F1.
    pose proof (checkinDocBegin_url _ _ _ _ E1) as U.
    split_bind E fd w2 E2. rewrite readFileInChunks_run in E2.
    destruct fd as [data|]; [|inversion E].
    destruct (readable_bytes (fs w1) f) as [data'|] eqn:R; inversion E2; subst; clear E2.
    split_bind E ok w3 E3. apply upload_stored in E3 as [[S3 N3] L3].
    destruct ok; [|inversion E].
    split_bind E u w4 E4. apply checkinDocEnd_stored in E4 as [N4 S4].
    split_bind E u' w5 E5. apply logger_inv in E5 as [_ ->].
    inversion E; subst; simpl in *. split; [congruence|].
    exists data. split; [rewrite <- F1; exact R|].
    rewrite S4, S3, S1, (L3 eq_refl). reflexivity.
  - split_bind H lg w6 E6. apply logger_inv in E6 as [_ ->]. inversion H; subst; clear H.
    simpl. clear Hfs.
    split_bind E t w0 E0; [|discriminate E0]. inversion E0; subst w0 t; clear E0.
    split_bind E d w1 E1;
      [|pose proof (Kbegin w) as [S1 N1]; rewrite E1 in S1, N1; auto].
    pose proof (Kbegin w) as [S1 N1]. rewrite E1 in S1, N1. simpl in S1, N1.
    split_bind E fd w2 E2;
      [|rewrite readFileInChunks_run in E2; destruct (readable_bytes (fs w1) f);
        discriminate].
    pose proof (Kread w1) as (I2 & _). rewrite E2 in I2. simpl in I2.
    destruct fd as [data|]; [|inversion E; subst; rewrite I2; auto].
    split_bind E ok w3 E3.
    + apply upload_stored in E3 as [[S3 N3] _].
      destruct ok; [|inversion E; subst; rewrite N3, S3, I2; auto].
      split_bind E u w4 E4.
      * split_bind E u' w5 E5; [inversion E|].
        apply logger_inv in E5 as [? _]. discriminate.
      * apply checkinDocEnd_stored in E4 as [N4 S4].
        rewrite N4, S4, N3, S3, I2. auto.
    + assert (K3 : sameStored w2 wx).
      { assert (K : keeps sameStored (upload data (url d)))
          by (unfold upload; keeps_auto).
        exact (keeps_run _ _ _ _ _ K E3). }
      destruct K3 as [S3 N3]. rewrite N3, S3, I2. auto.
Qed.

Section Imports.

Variable CONFIG : Config.

Lemma importCheckin_stored f w r w1 :
  importCheckin CONFIG f w = (r, w1) ->
  fs w1 = fs w
  /\ exists w0,
       onlyFoldersAdded w w0
       /\ ((exists e, r = Thrown e /\ sameStored w0 w1)
           \/ (exists doc,
                 r = Normal (nextId (ix w0))
                 /\ sords (ix w1) = sords (ix w0) ++ [with_id (nextId (ix w0)) doc]
                 /\ nextId (ix w1) = nextId (ix w0) + 1
                 /\ name doc = documentName f
                 /\ type doc = LBT_DOCUMENT
                 /\ content doc = None
                 /\ validVerdict CONFIG (fs w) f = true)).
Proof.
  intros E.
  split; [exact (keeps_run sameFs _ _ _ _ (keeps_importCheckin sameFs CONFIG f) E)|].
  assert (Kv : keeps onlyFoldersAdded (validatePDFFile CONFIG f))
    by (apply keeps_validatePDFFile; typeclasses eauto).
  assert (Kc : forall p, keeps onlyFoldersAdded (createSord p))
    by (intros p; apply keeps_createSord; typeclasses eauto).
  assert (Km : keeps onlyFoldersAdded (getMaskId (METADATA_MASK CONFIG)))
    by (apply keeps_getMaskId; typeclasses eauto).
  assert (Ks : forall s, keeps onlyFoldersAdded
                (try_catch (setCustomMetadata s f)
                   (fun metaError =>
                      logger WARN "Failed to set custom metadata, continuing with basic import"
                             (Some metaError)))).
  { intros s. apply keeps_try_catch; [typeclasses eauto| |intros e; keeps_auto].
    apply keeps_setCustomMetadata; typeclasses eauto. }
  unfold importCheckin in E.
  split_bind E valid wa Ea;
    [|exists w1; split; [exact (keeps_run _ _ _ _ _ Kv Ea)|left; eexists; split; reflexivity]].
  pose proof (keeps_run _ _ _ _ _ Kv Ea) as Ha.
  pose proof (validatePDFFile_verdict CONFIG f w) as V. rewrite Ea in V. simpl in V.
  destruct valid; simpl in E;
    [|inversion E; subst; exists w1; split; [exact Ha|left; eexists; split; reflexivity]].
  split_bind E parent wb Eb;
    [|exists w1; split;
      [etransitivity; [exact Ha|exact (keeps_run _ _ _ _ _ (getOrCreateArchiveFolder_folders CONFIG) Eb)]
      |left; eexists; split; reflexivity]].
  pose proof (keeps_run _ _ _ _ _ (getOrCreateArchiveFolder_folders CONFIG) Eb) as Hb.
  split_bind E sord wc Ec;
    [|exists w1; split; [pose proof (keeps_run _ _ _ _ _ (Kc parent) Ec); chain
                        |left; eexists; split; reflexivity]].
  pose proof (keeps_run _ _ _ _ _ (Kc parent) Ec) as Hc.
  apply createSord_draft in Ec as [Cn _].
  split_bind E maskId wd Ed;
    [|exists w1; split; [pose proof (keeps_run _ _ _ _ _ Km Ed); chain
                        |left; eexists; split; reflexivity]].
  pose proof (keeps_run _ _ _ _ _ Km Ed) as Hd.
  split_bind E t we Ee; [|discriminate Ee]. inversion Ee; subst we t; clear Ee.
  split_bind E u wf Ef;
    [|exists w1; split; [pose proof (keeps_run _ _ _ _ _ (Ks _) Ef); chain
                        |left; eexists; split; reflexivity]].
  pose proof (keeps_run _ _ _ _ _ (Ks _) Ef) as Hf.
  exists wf. split; [chain|].
  apply checkinSord_stored in E as [(-> & S & N)|(e & -> & K)].
  - right. eexists. split; [reflexivity|]. split; [exact S|]. split; [exact N|].
    simpl. repeat split; [exact Cn|congruence].
  - left. eauto.
Qed.

Lemma importUpload_inv i f w r w' :
  importUpload i f w = (r, w') ->
  exists b w2,
    uploadPDFFile i f w = (Normal b, w2)
    /\ if b then r = Normal i /\ w' = w2
       else exists e, r = Thrown e
            /\ ((try_catch (deleteSord i) (fun cleanupError =>
                   logger WARN ("Failed to cleanup failed import for Sord ID: " +:+ pretty i)
                          (Some cleanupError))) w2).2 = w'.
Proof.
  unfold importUpload. intros E.
  split_bind E b w2 E2; [|exfalso; exact (succeeds_run _ _ _ _ (uploadPDFFile_succeeds i f) E2)].
  exists b, w2. split; [exact E2|]. destruct b.
  - inversion E; auto.
  - unfold bind in E.
    destruct (try_catch _ _ w2) as [[u|e] w3]; simpl; inversion E; subst; eauto.
Qed.

End Imports.

Lemma importFileToELOWithValidation_stored (CONFIG : Config) (f : JFile) (w w' : World) (i : Z) :
  importFileToELOWithValidation CONFIG f w = (Normal i, w') ->
  validVerdict CONFIG (fs w) f = true
  /\ fs w' = fs w
  /\ exists doc data,
       last (sords (ix w')) = Some doc
       /\ id doc = i
       /\ type doc = LBT_DOCUMENT
       /\ name doc = documentName f
       /\ content doc = Some data
       /\ readable_bytes (fs w) f = Some data
       /\ data <> [].
Proof.
  intros E. unfold importFileToELOWithValidation in E.
  apply try_catch_inv in E as [(a & E & Ha)|(e & wx & _ & H)].
  2:{ split_bind H u wy Ey. discriminate H. }
  inversion Ha; subst a; clear Ha.
  split_bind E i0 w1 E1.
  apply importCheckin_stored in E1 as (F1 & w0 & _ & [(e & ? & _)|(doc & Hi & S & _ & Hn & Ht & Hc & V)]);
    [discriminate|].
  inversion Hi; subst i0; clear Hi.
  apply importUpload_inv in E as (b & w2 & E2 & H).
  destruct b; [|destruct H as (e & ? & _); discriminate].
  destruct H as [Hi ->]. inversion Hi as [Hi']; clear Hi.
  apply uploadPDFFile_stored in E2 as (F2 & _ & data & R & S2).
  split; [exact V|]. split; [congruence|].
  exists (with_content (Some data) (with_id (nextId (ix w0)) doc)), data.
  rewrite F1 in R. repeat split; try assumption; try reflexivity.
  - rewrite S2, S, map_app. cbn [map]. rewrite last_snoc. simpl.
    rewrite Z.eqb_refl. reflexivity.
  - intros ->. apply validVerdict_true in V as [(_ & _ & L & _) _].
    unfold readable_bytes in R. unfold File_length in L.
    destruct (node (fs w) f) as [n|]; [|discriminate].
    destruct (canRead n && negb (read_fails n)); inversion R as [B].
    rewrite B in L. simpl in L. lia.
Qed.

(** X8: what a successful import leaves in the archive.  When
    [importFileToELOWithValidation] returns an id, the file passed the
    validation, the Sord stored last has that id, is a document, is named
    after the file without its extension, and holds the bytes of the file,
    which are not empty.  The file itself is not touched. *)
Theorem import_stores_the_file (CONFIG : Config) (f : JFile) (w w' : World) (i : Z) :
  importFileToELOWithValidation CONFIG f w = (Normal i, w') ->
  validVerdict CONFIG (fs w) f = true
  /\ fs w' = fs w
  /\ exists doc data,
       last (sords (ix w')) = Some doc
       /\ id doc = i
       /\ type doc = LBT_DOCUMENT
       /\ name doc = documentName f
       /\ content doc = Some data
       /\ readable_bytes (fs w) f = Some data
       /\ data <> [].
Proof. exact (importFileToELOWithValidation_stored CONFIG f w w' i). Qed.

Lemma import_stores_the_file_witness :
  let f := in_source "invoice.2024.pdf" in
  let w := demo_world [] [(f, plain_file pdf_bytes)] false 0 in
  let run := importFileToELOWithValidation default_config f w in
  run.1 = Normal 3
  /\ exists doc, last (sords (ix run.2)) = Some doc
                 /\ id doc = 3 /\ name doc = "invoice.2024"
                 /\ content doc = Some pdf_bytes.
Proof.
  intros f w run.
  assert (run = (Normal 3, run.2)) as E by (vm_compute; reflexivity).
  split; [rewrite E; reflexivity|].
  destruct (import_stores_the_file default_config f w run.2 3 E)
    as (_ & _ & doc & data & L & I & _ & N & C & R & _).
  exists doc. repeat split; try assumption.
  assert (readable_bytes (fs w) f = Some pdf_bytes) as R' by (vm_compute; reflexivity).
  congruence.
Defined.

Lemma filter_documents_folders (l : list Sord) :
  Forall (fun s => type s = LBT_FOLDER) l ->
  filter (fun s => type s = LBT_DOCUMENT) l = [].
Proof.
  induction 1 as [|s l Hs _ IH]; [reflexivity|].
  rewrite filter_cons_False by congruence. exact IH.
Qed.

Lemma onlyFoldersAdded_documents w w' :
  onlyFoldersAdded w w' -> documents (ix w') = documents (ix w).
Proof.
  intros [(new & S & F) _]. unfold documents.
  rewrite S, filter_app, (filter_documents_folders _ F), app_nil_r. reflexivity.
Qed.

Lemma filter_other_ids (l : list Sord) (i : Z) :
  Forall (fun s => id s < i) l -> filter (fun s => id s <> i) l = l.
Proof.
  induction 1 as [|s l Hs _ IH]; [reflexivity|].
  rewrite filter_cons_True by lia. rewrite IH. reflexivity.
Qed.

(** X9: what a failed import leaves in the archive.  In an archive whose
    ids are below its next free id, an import that throws leaves the
    documents of the archive as they were, unless the call that deletes the
    Sord of a failed upload failed itself: the last remote call is then that
    call, and it was not answered. *)
Theorem failed_import_leaves_no_document (CONFIG : Config) (f : JFile) (w w' : World)
    (e : Exn) :
  idsBelowNext (ix w) ->
  importFileToELOWithValidation CONFIG f w = (Thrown e, w') ->
  fs w' = fs w
  /\ (documents (ix w') = documents (ix w)
      \/ exists r, r <> Answer /\ last (calls (ix w')) = Some (OpDeleteSord, r)).
Proof.
  intros I E.
  split; [exact (keeps_run sameFs _ _ _ _
                   (keeps_importFileToELOWithValidation sameFs CONFIG f) E)|].
  unfold importFileToELOWithValidation in E.
  apply try_catch_inv in E as [(a & _ & Ha)|(e0 & wx & E & H)]; [discriminate|].
  split_bind H u wy Ey; [|discriminate Ey].
  apply logger_inv in Ey as [_ ->]. inversion H; subst; clear H. simpl.
  split_bind E i0 w1 E1.
  - apply importCheckin_stored in E1
      as (_ & w0 & K0 & [(e1 & ? & _)|(doc & Hi & S & N & _ & Ht & _ & _)]);
      [discriminate|].
    inversion Hi; subst i0; clear Hi.
    apply importUpload_inv in E as (b & w2 & E2 & H).
    destruct b; [destruct H; discriminate|]. destruct H as (e1 & _ & <-).
    apply uploadPDFFile_stored in E2 as (_ & N2 & S2).
    unfold try_catch. rewrite deleteSord_run.
    destruct (next_reply (ix w2)) eqn:R; simpl.
    + left. rewrite <- (onlyFoldersAdded_documents _ _ K0). unfold documents. simpl.
      rewrite S2, S, filter_app, filter_other_ids by (apply (proj2 K0 I)).
      rewrite filter_cons_False by (simpl; lia). rewrite filter_nil, app_nil_r.
      reflexivity.
    + right. exists Unreachable. rewrite R, last_snoc. split; [discriminate|reflexivity].
    + right. exists ServerError. rewrite R, last_snoc. split; [discriminate|reflexivity].
  - left. apply importCheckin_stored in E1 as (_ & w0 & K0 & [(e1 & _ & [S N])|(doc & ? & _)]);
      [|discriminate].
    rewrite <- (onlyFoldersAdded_documents _ _ K0). unfold documents. rewrite S. reflexivity.
Qed.

Lemma failed_import_leaves_no_document_witness :
  let f := in_source "a.pdf" in
  let w := demo_world [Answer; Answer; Answer; Answer; Answer; Answer; Answer; ServerError]
                      [(f, plain_file pdf_bytes)] false 0 in
  let run := importFileToELOWithValidation default_config f w in
  run.1 = Thrown (Error "File upload failed")
  /\ map id (sords (ix run.2)) = [2]
  /\ documents (ix run.2) = [].
Proof.
  intros f w run.
  assert (idsBelowNext (ix w)) as I by constructor.
  assert (run = (Thrown (Error "File upload failed"), run.2)) as E
    by (vm_compute; reflexivity).
  split; [rewrite E; reflexivity|]. split; [vm_compute; reflexivity|].
  destruct (failed_import_leaves_no_document default_config f w run.2 _ I E)
    as (_ & [D|(r & Hr & L)]).
  - exact D.
  - exfalso. vm_compute in L. inversion L. congruence.
Defined.
(** ** Starting the workflow *)

Lemma answered_next (n : nat) (a : Archive) (op : IxOp) :
  answered (S n) a -> next_reply a = Answer /\ answered n (record_call op a).
Proof.
  unfold answered, next_reply. simpl. destruct (replies a) as [|r rest]; simpl.
  - intros _. split; [reflexivity|]. rewrite take_nil. constructor.
  - intros H. inversion H; subst. auto.
Qed.

Lemma checkoutWorkFlow_run t w :
  checkoutWorkFlow t w =
  match next_reply (ix w) with
  | Answer =>
      (Normal (if bool_decide (t ∈ wfTemplates (ix w)) then Some t else None),
       set_ix (record_call OpCheckoutWorkFlow (ix w)) w)
  | r => (Thrown (RemoteException OpCheckoutWorkFlow r),
          set_ix (record_call OpCheckoutWorkFlow (ix w)) w)
  end.
Proof.
  unfold checkoutWorkFlow, bind at 1. rewrite ix_call_run.
  destruct (next_reply (ix w)); reflexivity.
Qed.

Lemma createWorkFlow_inv t i w wf w' :
  createWorkFlow t i w = (Normal wf, w') ->
  wf_template wf = t /\ wf_sord wf = i
  /\ workflows (ix w') = workflows (ix w) ++ [wf].
Proof.
  unfold createWorkFlow, bind at 1. rewrite ix_call_run.
  destruct (next_reply (ix w)); intros E; inversion E; subst; simpl; auto.
Qed.

Lemma startWorkFlow_inv k n w w' :
  startWorkFlow k n w = (Normal tt, w') ->
  workflows (ix w')
  = map (fun wf => if wf_id wf =? k
                   then {| wf_id := wf_id wf; wf_template := wf_template wf;
                           wf_sord := wf_sord wf; wf_started := true |}
                   else wf)
        (workflows (ix w)).
Proof.
  unfold startWorkFlow, bind at 1. rewrite ix_call_run.
  destruct (next_reply (ix w)); intros E; inversion E; subst; simpl; auto.
Qed.

Section Workflows.

Variable CONFIG : Config.

Lemma workflowAttempt_started i a w b w' :
  workflowAttempt CONFIG i a w = (Normal b, w') ->
  exists wf, last (workflows (ix w')) = Some wf
             /\ wf_sord wf = i
             /\ wf_template wf = WORKFLOW_TEMPLATE CONFIG
             /\ wf_started wf = true.
Proof.
  unfold workflowAttempt. intros E.
  split_bind E u w1 E1. apply logger_inv in E1 as [_ ->].
  split_bind E t w2 E2. rewrite checkoutWorkFlow_run in E2.
  destruct t as [t|]; [|discriminate E].
  assert (t = WORKFLOW_TEMPLATE CONFIG) as ->.
  { destruct (next_reply _); [|discriminate..].
    destruct (bool_decide _); inversion E2; reflexivity. }
  clear E2.
  split_bind E wf w3 E3. apply createWorkFlow_inv in E3 as (Ht & Hs & W3).
  split_bind E u' w4 E4. destruct u'. apply startWorkFlow_inv in E4.
  split_bind E u'' w5 E5. apply logger_inv in E5 as [_ ->].
  inversion E; subst; clear E. simpl.
  rewrite E4, W3, map_app. cbn [map]. rewrite last_snoc, Z.eqb_refl.
  eexists. split; [reflexivity|]. simpl. auto.
Qed.

Lemma workflowAttempt_missing i a w :
  WORKFLOW_TEMPLATE CONFIG ∉ wfTemplates (ix w) ->
  next_reply (ix w) = Answer ->
  workflowAttempt CONFIG i a w
  = (Thrown (Error ("Workflow template not found: " +:+ WORKFLOW_TEMPLATE CONFIG)),
     set_ix (record_call OpCheckoutWorkFlow (ix w))
       (add_log {| level := INFO;
                   text := "Starting workflow for Sord ID: " +:+ pretty i +:+ " (Attempt "
                           +:+ pretty a +:+ "/" +:+ pretty maxAttempts +:+ ")";
                   cause := None |} w)).
Proof.
  intros Ht Hr. unfold workflowAttempt, bind at 1, logger, modify.
  unfold bind at 1. rewrite checkoutWorkFlow_run. simpl. rewrite Hr.
  rewrite bool_decide_eq_false_2 by exact Ht. reflexivity.
Qed.

(** One turn of the loop when the template is missing. *)
Lemma workflowTurn_missing i a w :
  WORKFLOW_TEMPLATE CONFIG ∉ wfTemplates (ix w) ->
  next_reply (ix w) = Answer ->
  let failure := Error ("Workflow template not found: " +:+ WORKFLOW_TEMPLATE CONFIG) in
  let w1 :=
    add_log {| level := WARN;
               text := "Workflow start attempt " +:+ pretty a
                       +:+ " failed for Sord ID: " +:+ pretty i +:+ " - "
                       +:+ message_of failure;
               cause := None |}
      (set_ix (record_call OpCheckoutWorkFlow (ix w))
         (add_log {| level := INFO;
                     text := "Starting workflow for Sord ID: " +:+ pretty i +:+ " (Attempt "
                             +:+ pretty a +:+ "/" +:+ pretty maxAttempts +:+ ")";
                     cause := None |} w)) in
  try_catch (workflowAttempt CONFIG i a) (workflowFailed i a) w
  = if (a <? maxAttempts)%nat then (Normal false, add_sleep 2000 w1)
    else (Thrown failure, w1).
Proof.
  intros Ht Hr failure w1. unfold try_catch.
  rewrite workflowAttempt_missing by assumption.
  unfold workflowFailed, bind, logger, modify, sleep, modify.
  destruct (a <? maxAttempts)%nat; reflexivity.
Qed.

End Workflows.

Lemma startWorkflowWithRetry_started (CONFIG : Config) (sordId : Z) (w w' : World) :
  startWorkflowWithRetry CONFIG sordId w = (Normal tt, w') ->
  (exists wf, last (workflows (ix w')) = Some wf
              /\ wf_sord wf = sordId
              /\ wf_template wf = WORKFLOW_TEMPLATE CONFIG
              /\ wf_started wf = true)
  /\ sords (ix w') = sords (ix w)
  /\ fs w' = fs w.
Proof.
  intros E. split; [|split].
  - unfold startWorkflowWithRetry, maxAttempts in E. cbn [workflowLoop] in E.
    split_bind E d1 w1 E1.
    apply try_catch_inv in E1 as [(b & E1 & Hb)|(e1 & w1' & _ & F1)].
    { pose proof (yields_run _ _ _ _ _ (workflowAttempt_yields CONFIG _ _) E1) as ->.
      inversion Hb; subst d1. inversion E; subst w'.
      exact (workflowAttempt_started _ _ _ _ _ _ E1). }
    apply workflowFailed_inv in F1 as [(_ & Hd & _)|(_ & ? & _)]; [|discriminate].
    inversion Hd; subst d1; clear Hd.
    split_bind E d2 w2 E2.
    apply try_catch_inv in E2 as [(b & E2 & Hb)|(e2 & w2' & _ & F2)].
    + assert (w' = w2) as -> by (destruct d2; inversion E; reflexivity).
      exact (workflowAttempt_started _ _ _ _ _ _ E2).
    + apply workflowFailed_inv in F2 as [(L & _)|(_ & ? & _)]; [|discriminate].
      unfold maxAttempts in L. lia.
  - exact (keeps_run sameSords _ _ _ _ (keeps_startWorkflowWithRetry sameSords CONFIG sordId) E).
  - exact (keeps_run sameFs _ _ _ _ (keeps_startWorkflowWithRetry sameFs CONFIG sordId) E).
Qed.

(** X10: a workflow that was started.  When [startWorkflowWithRetry]
    returns, the workflow created last is started, is made from the
    configured template and belongs to the Sord it was asked for.  No Sord
    and no file is touched. *)
Theorem workflow_is_started (CONFIG : Config) (sordId : Z) (w w' : World) :
  startWorkflowWithRetry CONFIG sordId w = (Normal tt, w') ->
  (exists wf, last (workflows (ix w')) = Some wf
              /\ wf_sord wf = sordId
              /\ wf_template wf = WORKFLOW_TEMPLATE CONFIG
              /\ wf_started wf = true)
  /\ sords (ix w') = sords (ix w)
  /\ fs w' = fs w.
Proof. exact (startWorkflowWithRetry_started CONFIG sordId w w'). Qed.

Lemma workflow_is_started_witness :
  let w := demo_world [Unreachable] [] false 0 in
  let run := startWorkflowWithRetry default_config 3 w in
  run.1 = Normal tt
  /\ slept run.2 = [2000]
  /\ exists wf, last (workflows (ix run.2)) = Some wf
                /\ wf_sord wf = 3 /\ wf_started wf = true.
Proof.
  intros w run.
  assert (run = (Normal tt, run.2)) as E by (vm_compute; reflexivity).
  split; [rewrite E; reflexivity|]. split; [vm_compute; reflexivity|].
  destruct (proj1 (workflow_is_started default_config 3 w run.2 E)) as (wf & L & S & _ & T).
  exists wf. auto.
Defined.

(** X11: a workflow template that the archive does not have.  When the
    archive answers but has no template of the configured name,
    [startWorkflowWithRetry] asks for the template twice, waits two seconds
    in between, and throws that the template was not found.  It creates no
    workflow. *)
Theorem workflow_template_missing (CONFIG : Config) (sordId : Z) (w : World) :
  WORKFLOW_TEMPLATE CONFIG ∉ wfTemplates (ix w) ->
  answered 2 (ix w) ->
  let run := startWorkflowWithRetry CONFIG sordId w in
  run.1 = Thrown (Error ("Workflow template not found: " +:+ WORKFLOW_TEMPLATE CONFIG))
  /\ calls (ix run.2)
     = calls (ix w) ++ [(OpCheckoutWorkFlow, Answer); (OpCheckoutWorkFlow, Answer)]
  /\ slept run.2 = slept w ++ [2000]
  /\ workflows (ix run.2) = workflows (ix w)
  /\ sords (ix run.2) = sords (ix w).
Proof.
  intros Ht Ha run.
  destruct (answered_next _ _ OpCheckoutWorkFlow Ha) as [R1 Ha1].
  destruct (answered_next _ _ OpCheckoutWorkFlow Ha1) as [R2 _].
  destruct (startWorkflowWithRetry CONFIG sordId w) as [r w'] eqn:E. subst run.
  unfold startWorkflowWithRetry, maxAttempts in E. cbn [workflowLoop] in E.
  split_bind E d1 w1 E1;
    [|rewrite workflowTurn_missing in E1 by assumption; discriminate E1].
  rewrite workflowTurn_missing in E1 by assumption.
  change (1 <? maxAttempts)%nat with true in E1. inversion E1; subst d1 w1; clear E1.
  split_bind E d2 w2 E2;
    [rewrite workflowTurn_missing in E2 by assumption; discriminate E2|].
  rewrite workflowTurn_missing in E2 by assumption.
  change (2 <? maxAttempts)%nat with false in E2. inversion E2; subst; clear E2.
  cbn [fst snd ix fs calls record_call set_ix add_log add_sleep slept workflows sords].
  rewrite R1, R2, <- app_assoc. repeat split; reflexivity.
Qed.

Lemma workflow_template_missing_witness :
  let CONFIG :=
    {| SOURCE_DIR := SOURCE_DIR default_config; ARCHIVE_PATH := ARCHIVE_PATH default_config;
       METADATA_MASK := METADATA_MASK default_config;
       WORKFLOW_TEMPLATE := "dps.invoice.Other";
       PROCESSED_DIR := PROCESSED_DIR default_config; ERROR_DIR := ERROR_DIR default_config;
       INTERVAL := 30000; MAX_FILE_SIZE := MAX_FILE_SIZE default_config;
       ALLOWED_EXTENSIONS := [".pdf"]; EXCLUDE_PATTERNS := [];
       RETRY_ATTEMPTS := 3; CONNECTION_TIMEOUT := 30000; LOG_LEVEL := "INFO" |} in
  let w := demo_world [] [] false 0 in
  let run := startWorkflowWithRetry CONFIG 3 w in
  run.1 = Thrown (Error "Workflow template not found: dps.invoice.Other")
  /\ slept run.2 = [2000]
  /\ workflows (ix run.2) = [].
Proof.
  intros CONFIG w run.
  assert (WORKFLOW_TEMPLATE CONFIG ∉ wfTemplates (ix w)) as Ht
    by (intros H; inversion H as [|? ? ? H']; inversion H').
  assert (answered 2 (ix w)) as Ha by constructor.
  destruct (workflow_template_missing CONFIG 3 w Ht Ha) as (R & _ & S & W & _).
  auto.
Defined.
(** ** A run *)

Lemma validateELOConnection_run w :
  validateELOConnection w =
  let w1 := set_ix (record_call OpGetServerInfo (ix w)) w in
  match next_reply (ix w) with
  | Answer =>
      (Normal true,
       add_log {| level := DEBUG; text := "ELO connection validated. Server: ELO";
                  cause := None |} w1)
  | Unreachable =>
      (Normal false,
       add_log {| level := ERROR; text := "ELO connection validation failed";
                  cause := Some (RemoteException OpGetServerInfo Unreachable) |} w1)
  | ServerError =>
      (Normal false,
       add_log {| level := ERROR; text := "ELO connection test failed - no server info";
                  cause := None |} w1)
  end.
Proof.
  unfold validateELOConnection, try_catch, bind, getServerInfo, bind, remote.
  destruct (next_reply (ix w)); reflexivity.
Qed.

Section Runs.

Variable CONFIG : Config.

Lemma processOne_counted f w :
  exists b,
    (processOne CONFIG f w).1 = Normal b
    /\ totalProcessed (stats (processOne CONFIG f w).2)
       = totalProcessed (stats w) + (if b then 1 else 0)
    /\ totalErrors (stats (processOne CONFIG f w).2)
       = totalErrors (stats w) + (if b then 0 else 1).
Proof.
  assert (K1 : keeps sameStats (processSinglePDFWithRetry CONFIG f))
    by (apply keeps_processSinglePDFWithRetry; typeclasses eauto).
  assert (K2 : keeps sameStats (moveFileToErrorDir CONFIG f))
    by (apply keeps_moveFile; typeclasses eauto).
  destruct (processOne CONFIG f w) as [r w'] eqn:E. simpl.
  unfold processOne in E.
  apply try_catch_inv in E as [(b & E & ->)|(e & w1 & E & H)].
  - split_bind E finished w1 E1. pose proof (keeps_run _ _ _ _ _ K1 E1) as S1.
    exists b. destruct finished; unfold bind, countProcessed, countError, modify in E;
      inversion E; subst; simpl; rewrite S1; split; [reflexivity|lia| reflexivity | lia].
  - split_bind E finished w2 E1.
    + destruct finished; unfold bind, countProcessed, countError, modify in E; discriminate E.
    + pose proof (keeps_run _ _ _ _ _ K1 E1) as S1.
      split_bind H u w3 E3; [|discriminate E3]. apply logger_inv in E3 as [_ ->].
      split_bind H u' w4 E4;
        [|exfalso; exact (succeeds_run _ _ _ _ (moveFile_succeeds f _) E4)].
      pose proof (keeps_run _ _ _ _ _ K2 E4) as S4.
      unfold bind, countError, modify in H. inversion H; subst. simpl.
      exists false. rewrite S4. simpl. rewrite S1. split; [reflexivity|lia].
Qed.

End Runs.

(** X12: every file of a cycle is counted once.  The loop over the files
    never throws, whatever happens to a file.  Its two counters grow by the
    number of files together, and the two totals of the statistics grow by
    the same amounts as the counters. *)
Theorem every_file_is_counted (CONFIG : Config) (pdfFiles : list JFile)
    (successCount errorCount : Z) (w : World) :
  let run := processEach CONFIG pdfFiles successCount errorCount w in
  exists successes errors,
    run.1 = Normal (successes, errors)
    /\ successCount <= successes
    /\ errorCount <= errors
    /\ successes + errors = successCount + errorCount + Z.of_nat (List.length pdfFiles)
    /\ totalProcessed (stats run.2) = totalProcessed (stats w) + (successes - successCount)
    /\ totalErrors (stats run.2) = totalErrors (stats w) + (errors - errorCount).
Proof.
  revert successCount errorCount w.
  induction pdfFiles as [|f rest IH]; intros s e w; cbn [processEach].
  - exists s, e. simpl. repeat split; lia.
  - destruct (processOne_counted CONFIG f w) as (b & R & P & Q).
    unfold bind. destruct (processOne CONFIG f w) as [r w1]. simpl in R, P, Q. subst r.
    destruct b.
    + destruct (IH (s + 1) e w1) as (s' & e' & H1 & H2 & H3 & H4 & H5 & H6).
      exists s', e'. rewrite H1, H5, H6, P, Q. cbn [List.length].
      repeat split; lia.
    + destruct (IH s (e + 1) w1) as (s' & e' & H1 & H2 & H3 & H4 & H5 & H6).
      exists s', e'. rewrite H1, H5, H6, P, Q. cbn [List.length].
      repeat split; lia.
Qed.

(** X13: a cycle without a connection.  When the probe of the connection is
    not answered, [processPDFFiles] returns without a second remote call: no
    file is touched, no Sord is stored, nothing is counted and nothing is
    waited for; only the time of the run is noted. *)
Theorem no_connection_no_cycle (CONFIG : Config) (w : World) :
  next_reply (ix w) <> Answer ->
  let run := processPDFFiles CONFIG w in
  run.1 = Normal tt
  /\ calls (ix run.2) = calls (ix w) ++ [(OpGetServerInfo, next_reply (ix w))]
  /\ fs run.2 = fs w
  /\ sords (ix run.2) = sords (ix w)
  /\ slept run.2 = slept w
  /\ totalProcessed (stats run.2) = totalProcessed (stats w)
  /\ totalErrors (stats run.2) = totalErrors (stats w)
  /\ lastRun (stats run.2) = Some (now w).
Proof.
  intros Hr run.
  destruct (processPDFFiles CONFIG w) as [r w'] eqn:E. subst run.
  unfold processPDFFiles in E.
  split_bind E t w0 E0; [|discriminate E0]. inversion E0; subst t w0; clear E0.
  split_bind E u w1 E1; [|discriminate E1]. inversion E1; subst u w1; clear E1.
  assert (B : exists l,
             runBody CONFIG (now w) (set_stats
               {| totalProcessed := totalProcessed (stats w);
                  totalErrors := totalErrors (stats w);
                  lastRun := Some (now w); startTime := startTime (stats w) |} w)
             = (Normal tt,
                add_log l (add_log {| level := ERROR;
                              text := match next_reply (ix w) with
                                      | ServerError =>
                                          "ELO connection test failed - no server info"
                                      | _ => "ELO connection validation failed"
                                      end;
                              cause := match next_reply (ix w) with
                                       | ServerError => None
                                       | r => Some (RemoteException OpGetServerInfo r)
                                       end |}
                   (set_ix (record_call OpGetServerInfo (ix w))
                     (add_log {| level := INFO;
                                 text := "Starting PDF import process... (Run #"
                                         +:+ pretty (totalProcessed (stats w)
                                                     + totalErrors (stats w) + 1) +:+ ")";
                                 cause := None |}
                        (set_stats
                           {| totalProcessed := totalProcessed (stats w);
                              totalErrors := totalErrors (stats w);
                              lastRun := Some (now w); startTime := startTime (stats w) |}
                           w)))))).
  { unfold runBody, bind at 1, get_stats. unfold bind at 1, logger at 1, modify at 1.
    unfold bind at 1. rewrite validateELOConnection_run.
    cbn [ix set_ix add_log set_stats fs now slept log stats totalProcessed totalErrors].
    destruct (next_reply (ix w)); [congruence|eexists; reflexivity..]. }
  destruct B as [l B]. unfold try_catch in E. rewrite B in E.
  inversion E; subst; clear E. simpl. repeat split; reflexivity.
Qed.

Lemma no_connection_no_cycle_witness :
  let f := in_source "a.pdf" in
  let w := demo_world [Unreachable] [(f, plain_file pdf_bytes)] false 7 in
  let run := processPDFFiles default_config w in
  calls (ix run.2) = [(OpGetServerInfo, Unreachable)]
  /\ node (fs run.2) f = Some (plain_file pdf_bytes)
  /\ lastRun (stats run.2) = Some 7.
Proof.
  intros f w run.
  assert (next_reply (ix w) <> Answer) as H by discriminate.
  destruct (no_connection_no_cycle default_config w H) as (_ & C & F & _ & _ & _ & _ & L).
  split; [exact C|]. split; [|exact L].
  change (node (fs (processPDFFiles default_config w).2) f = Some (plain_file pdf_bytes)).
  rewrite F. vm_compute. reflexivity.
Defined.

(** X14: a service that cannot reach the archive at its start.  When the
    first probe of the connection is not answered, [main] makes no run at
    all, however often the timer would fire: the probe is the only remote
    call, and the files, the Sords and the statistics are as they were. *)
Theorem no_connection_no_service (CONFIG : Config) (n : nat) (w : World) :
  next_reply (ix w) <> Answer ->
  let run := main CONFIG n w in
  run.1 = Normal tt
  /\ calls (ix run.2) = calls (ix w) ++ [(OpGetServerInfo, next_reply (ix w))]
  /\ fs run.2 = fs w
  /\ sords (ix run.2) = sords (ix w)
  /\ stats run.2 = stats w
  /\ slept run.2 = slept w.
Proof.
  intros Hr run.
  destruct (main CONFIG n w) as [r w'] eqn:E. subst run.
  rewrite main_unfold in E.
  assert (Kb : keeps onlyLogged (banner CONFIG))
    by (apply keeps_banner; typeclasses eauto).
  split_bind E u w1 E1.
  - pose proof (keeps_run _ _ _ _ _ Kb E1) as (I1 & F1 & _ & S1 & T1).
    split_bind E c w2 E2; rewrite validateELOConnection_run in E2; rewrite I1 in E2;
      [|destruct (next_reply (ix w)); discriminate E2].
    destruct (next_reply (ix w)) eqn:R; [congruence|..];
      inversion E2; subst c w2; clear E2; cbn [negb] in E;
      apply logger_inv in E as [-> ->]; simpl; rewrite ?R, ?I1, ?F1, ?S1, ?T1;
      repeat split; reflexivity.
  - exfalso. unfold banner in E1.
    repeat (split_bind E1 u w1 E2; [|discriminate E2]; clear E2).
    discriminate E1.
Qed.

Lemma no_connection_no_service_witness :
  let f := in_source "a.pdf" in
  let w := demo_world [ServerError] [(f, plain_file pdf_bytes)] false 0 in
  let run := main default_config 5 w in
  calls (ix run.2) = [(OpGetServerInfo, ServerError)]
  /\ stats run.2 = stats w.
Proof.
  intros f w run.
  assert (next_reply (ix w) <> Answer) as H by discriminate.
  destruct (no_connection_no_service default_config 5 w H) as (_ & C & _ & _ & S & _).
  split; [exact C|exact S].
Defined.
(** ** Directories *)

Lemma createDirectoryIfNotExists_run d w :
  createDirectoryIfNotExists d w =
  if path_exists (fs w) d then (Normal tt, w)
  else if next_refusal (fs w)
  then (Normal tt,
        add_log {| level := ERROR; text := "Failed to create directory: " +:+ d;
                   cause := None |}
          (set_fs (set_dirs (dirs (fs w)) (fs w)) w))
  else (Normal tt,
        add_log {| level := INFO; text := "Created directory: " +:+ d; cause := None |}
          (set_fs (set_dirs ({[d]} ∪ dirs (fs w)) (fs w)) w)).
Proof.
  unfold createDirectoryIfNotExists, try_catch, bind, get_fs, mkdirs, bind, get_fs.
  destruct (path_exists (fs w) d); [reflexivity|]. simpl.
  destruct (next_refusal (fs w)); reflexivity.
Qed.

(** Whether a file has a path depends on the files only. *)
Lemma file_at_files s s' p : files s' = files s -> file_at s' p = file_at s p.
Proof. intros H. unfold file_at. rewrite H. reflexivity. Qed.

Lemma elem_of_three (a b c x : string) :
  x ∈ ({[a; b; c]} : gset string) <-> x = a \/ x = b \/ x = c.
Proof. rewrite !elem_of_union, !elem_of_singleton. tauto. Qed.

Lemma createDirectoryIfNotExists_dirs d w :
  let run := createDirectoryIfNotExists d w in
  run.1 = Normal tt
  /\ files (fs run.2) = files (fs w)
  /\ ix run.2 = ix w
  /\ dirs (fs w) ⊆ dirs (fs run.2)
  /\ (forall x, x ∈ dirs (fs run.2) ->
                x ∈ dirs (fs w) \/ (x = d /\ file_at (fs w) d = false))
  /\ (refusals (fs w) = [] ->
      refusals (fs run.2) = [] /\ (file_at (fs w) d = false -> d ∈ dirs (fs run.2)))
  /\ (path_exists (fs w) d = true -> run.2 = w).
Proof.
  intros run. subst run. rewrite createDirectoryIfNotExists_run.
  unfold path_exists, isDirectory, next_refusal.
  destruct (bool_decide_reflect (d ∈ dirs (fs w))) as [Hd|Hd]; cbn [orb].
  - simpl. repeat split; auto.
  - destruct (file_at (fs w) d) eqn:Hf; [simpl; repeat split; auto; discriminate|].
    destruct (refusals (fs w)) as [|[] rest] eqn:R; simpl;
      repeat split; try (intros; discriminate); try reflexivity;
      try (rewrite R; reflexivity); auto;
      try (intros x Hx; apply elem_of_union_r; exact Hx);
      try (intros x Hx; apply elem_of_union in Hx as [Hx|Hx]; [|left; exact Hx];
           apply elem_of_singleton in Hx; right; split; [exact Hx|reflexivity]);
      try (intros _; apply elem_of_union_l, elem_of_singleton; reflexivity).
Qed.

Lemma ensureDirectoriesExist_dirs (CONFIG : Config) (w : World) :
  let run := ensureDirectoriesExist CONFIG w in
  let three : gset string :=
    {[SOURCE_DIR CONFIG; PROCESSED_DIR CONFIG; ERROR_DIR CONFIG]} in
  run.1 = Normal tt
  /\ files (fs run.2) = files (fs w)
  /\ ix run.2 = ix w
  /\ dirs (fs w) ⊆ dirs (fs run.2)
  /\ (forall x, x ∈ dirs (fs run.2) ->
                x ∈ dirs (fs w) \/ (x ∈ three /\ file_at (fs w) x = false))
  /\ (refusals (fs w) = [] ->
      forall d, d ∈ three -> file_at (fs w) d = false -> d ∈ dirs (fs run.2))
  /\ ((forall d, d ∈ three -> path_exists (fs w) d = true) -> run.2 = w).
Proof.
  intros run three. subst run three. unfold ensureDirectoriesExist, bind.
  pose proof (createDirectoryIfNotExists_dirs (SOURCE_DIR CONFIG) w) as H1.
  destruct (createDirectoryIfNotExists (SOURCE_DIR CONFIG) w) as [r1 w1].
  simpl in H1. destruct H1 as (-> & F1 & I1 & D1 & U1 & R1 & S1).
  pose proof (createDirectoryIfNotExists_dirs (PROCESSED_DIR CONFIG) w1) as H2.
  destruct (createDirectoryIfNotExists (PROCESSED_DIR CONFIG) w1) as [r2 w2].
  simpl in H2. destruct H2 as (-> & F2 & I2 & D2 & U2 & R2 & S2).
  pose proof (createDirectoryIfNotExists_dirs (ERROR_DIR CONFIG) w2) as H3.
  destruct (createDirectoryIfNotExists (ERROR_DIR CONFIG) w2) as [r3 w3].
  simpl in H3. destruct H3 as (-> & F3 & I3 & D3 & U3 & R3 & S3).
  assert (forall p, file_at (fs w1) p = file_at (fs w) p) as A1
    by (intros p; apply file_at_files, F1).
  assert (forall p, file_at (fs w2) p = file_at (fs w) p) as A2
    by (intros p; rewrite (file_at_files _ _ p F2); apply A1).
  simpl. split; [reflexivity|]. split; [congruence|]. split; [congruence|].
  split; [intros x Hx; apply D3, D2, D1, Hx|]. split.
  { intros x Hx. apply U3 in Hx as [Hx|[-> Hx]];
      [|right; rewrite A2 in Hx; split; [apply elem_of_three; tauto|exact Hx]].
    apply U2 in Hx as [Hx|[-> Hx]];
      [|right; rewrite A1 in Hx; split; [apply elem_of_three; tauto|exact Hx]].
    apply U1 in Hx as [Hx|[-> Hx]];
      [left; exact Hx|right; split; [apply elem_of_three; tauto|exact Hx]]. }
  split.
  - intros R d Hd Hf. destruct (R1 R) as [R' M1]. destruct (R2 R') as [R'' M2].
    destruct (R3 R'') as [_ M3].
    apply elem_of_three in Hd as [->|[->| ->]].
    + apply D3, D2, M1, Hf.
    + apply D3, M2. rewrite A1. exact Hf.
    + apply M3. rewrite A2. exact Hf.
  - intros H.
    assert (w1 = w) as -> by (apply S1, H, elem_of_three; tauto).
    assert (w2 = w) as -> by (apply S2, H, elem_of_three; tauto).
    apply S3, H, elem_of_three. tauto.
Qed.



(** ** A file that cannot be read *)

Lemma checkinDocBegin_run i w :
  checkinDocBegin i w =
  match next_reply (ix w) with
  | Answer => (Normal {| url := "upload/" +:+ pretty i; doc_version := None |},
               set_ix (record_call OpCheckinDocBegin (ix w)) w)
  | r => (Thrown (RemoteException OpCheckinDocBegin r),
          set_ix (record_call OpCheckinDocBegin (ix w)) w)
  end.
Proof.
  unfold checkinDocBegin, bind at 1. rewrite ix_call_run.
  destruct (next_reply (ix w)); reflexivity.
Qed.

(** X16: a file that cannot be read is not uploaded.  When the bytes of the
    file cannot be read and the archive answers, [uploadPDFFile] returns
    false after the one call that opens the check-in: it makes no upload
    call, and no Sord is changed. *)
Theorem unreadable_file_is_not_uploaded (sordId : Z) (pdfFile : JFile) (w : World) :
  readable_bytes (fs w) pdfFile = None ->
  next_reply (ix w) = Answer ->
  let run := uploadPDFFile sordId pdfFile w in
  run.1 = Normal false
  /\ calls (ix run.2) = calls (ix w) ++ [(OpCheckinDocBegin, Answer)]
  /\ sords (ix run.2) = sords (ix w)
  /\ staged (ix run.2) = staged (ix w)
  /\ In {| level := ERROR; text := "Error uploading file: " +:+ getName pdfFile;
           cause := Some (Error "Failed to read file data") |} (log run.2).
Proof.
  intros Hb Hr run. subst run.
  assert (E : uploadPDFFile sordId pdfFile w
              = (Normal false,
                 add_log {| level := ERROR;
                            text := "Error uploading file: " +:+ getName pdfFile;
                            cause := Some (Error "Failed to read file data") |}
                   (add_log {| level := ERROR;
                               text := "Error reading file: " +:+ getName pdfFile;
                               cause := Some (IOException pdfFile) |}
                      (set_ix (record_call OpCheckinDocBegin (ix w)) w)))).
  { unfold uploadPDFFile, try_catch, bind at 1, getTime.
    unfold bind at 1. rewrite checkinDocBegin_run, Hr.
    unfold bind at 1. rewrite readFileInChunks_run.
    cbn [fs set_ix]. rewrite Hb. reflexivity. }
  rewrite E. cbn [fst snd ix set_ix add_log calls record_call sords staged log].
  rewrite Hr. repeat split; try reflexivity.
  apply in_or_app. right. left. reflexivity.
Qed.

Lemma unreadable_file_is_not_uploaded_witness :
  let f := in_source "a.pdf" in
  let locked := {| isFile := true; canRead := true; read_fails := true;
                   bytes := pdf_bytes |} in
  let w := demo_world [] [(f, locked)] false 0 in
  (validatePDFFile default_config f w).1 = Normal true
  /\ (uploadPDFFile 3 f w).1 = Normal false
  /\ calls (ix (uploadPDFFile 3 f w).2) = [(OpCheckinDocBegin, Answer)].
Proof.
  intros f locked w. split; [vm_compute; reflexivity|].
  assert (readable_bytes (fs w) f = None) as Hb by (vm_compute; reflexivity).
  assert (next_reply (ix w) = Answer) as Hr by reflexivity.
  destruct (unreadable_file_is_not_uploaded 3 f w Hb Hr) as (R & C & _).
  split; [exact R|exact C].
Defined.
(** ** Which files a cycle touches *)

#[global] Instance sameNode_preorder g : PreOrder (sameNode g).
Proof.
  split; [intros w; reflexivity|]. intros a b c H1 H2. unfold sameNode in *. congruence.
Qed.
#[global] Instance sameNode_log g : OverLog (sameNode g).
Proof. intros w e _. reflexivity. Qed.
#[global] Instance sameNode_ix g : OverIx (sameNode g).
Proof. intros w a. reflexivity. Qed.
#[global] Instance sameNode_sleep g : OverSleep (sameNode g).
Proof. intros w a. reflexivity. Qed.
#[global] Instance sameNode_stats g : OverStats (sameNode g).
Proof. intros w a. reflexivity. Qed.

Lemma chosenTarget_parent w f d : getParent (chosenTarget w f d) = d.
Proof. unfold chosenTarget. destruct (File_exists _ _); reflexivity. Qed.

Lemma keeps_sameNode_moveFile f d g :
  path_of g <> path_of f -> getParent g <> d -> keeps (sameNode g) (moveFile f d).
Proof.
  intros Hf Hd w. unfold sameNode, node.
  destruct (moveFile_files f d w) as [_ ->].
  destruct (node (fs w) f) as [n|]; [|reflexivity].
  destruct (rename_allowed _ _ _); [|reflexivity].
  rewrite lookup_insert_ne, lookup_delete_ne; [reflexivity|congruence|].
  intros E. apply Hd. rewrite <- (chosenTarget_parent w f d).
  unfold path_of in E. congruence.
Qed.

Lemma keeps_sameNode_createDirectoryIfNotExists d g :
  keeps (sameNode g) (createDirectoryIfNotExists d).
Proof.
  intros w. unfold sameNode, node.
  destruct (createDirectoryIfNotExists_dirs d w) as (_ & -> & _). reflexivity.
Qed.

Lemma validVerdict_files (CONFIG : Config) (s s' : FileSystem) (f : JFile) :
  files s = files s' ->
  File_isFile s f = File_isFile s' f /\ validVerdict CONFIG s f = validVerdict CONFIG s' f.
Proof.
  intros H.
  unfold validVerdict, headerVerdict, readable_bytes, File_isFile, File_exists,
    File_canRead, File_length, node.
  rewrite H. split; reflexivity.
Qed.

Lemma listFiles_parent (s : FileSystem) (d : string) (f : JFile) :
  In f (listFiles s d) -> getParent f = d.
Proof.
  unfold listFiles. intros H. apply list_elem_of_In, list_elem_of_omap in H.
  destruct H as (kv & _ & H). destruct (bool_decide_reflect (kv.1.1 = d)); [|discriminate].
  inversion H. simpl. assumption.
Qed.

Section Touched.

Variable CONFIG : Config.
Variable g : JFile.
Hypothesis not_processed : getParent g <> PROCESSED_DIR CONFIG.
Hypothesis not_error : getParent g <> ERROR_DIR CONFIG.

Lemma keeps_sameNode_processOne f :
  path_of g <> path_of f -> keeps (sameNode g) (processOne CONFIG f).
Proof.
  intros Hf.
  assert (Kp : keeps (sameNode g) (moveFileToProcessedDir CONFIG f))
    by (apply keeps_sameNode_moveFile; assumption).
  assert (Ke : keeps (sameNode g) (moveFileToErrorDir CONFIG f))
    by (apply keeps_sameNode_moveFile; assumption).
  assert (Ki : keeps (sameNode g) (importFileToELOWithValidation CONFIG f))
    by (apply keeps_importFileToELOWithValidation; typeclasses eauto).
  assert (Kw : forall i, keeps (sameNode g) (startWorkflowWithRetry CONFIG i))
    by (intros i; apply keeps_startWorkflowWithRetry; typeclasses eauto).
  assert (Ka : forall a, keeps (sameNode g) (importAttempt CONFIG f a))
    by (intros a; unfold importAttempt; keeps_auto).
  assert (Kf : forall a e, keeps (sameNode g) (attemptFailed CONFIG f a e))
    by (intros a e; apply keeps_attemptFailed; typeclasses eauto).
  assert (Kg : keeps (sameNode g) (giveUp CONFIG f))
    by (unfold giveUp; keeps_auto).
  assert (Kl : forall n a, keeps (sameNode g) (retryLoop CONFIG f n a))
    by (induction n as [|n IH]; intros a; simpl; keeps_auto).
  assert (Ks : keeps (sameNode g) (processSinglePDFWithRetry CONFIG f))
    by (apply Kl).
  unfold processOne. keeps_auto.
Qed.

Lemma keeps_sameNode_processEach l : forall s e,
  (forall f, In f l -> path_of g <> path_of f) ->
  keeps (sameNode g) (processEach CONFIG l s e).
Proof.
  induction l as [|f rest IH]; intros s e H; simpl; [keeps_auto|].
  apply keeps_bind; [typeclasses eauto|apply keeps_sameNode_processOne, H; left; reflexivity|].
  intros [|]; apply IH; intros f' Hf'; apply H; right; exact Hf'.
Qed.

Lemma keeps_sameNode_logStatistics : keeps (sameNode g) logStatistics.
Proof.
  intros w. unfold sameNode. unfold logStatistics, bind, getTime, get_stats, logger, modify.
  reflexivity.
Qed.

Lemma processPDFFiles_sameNode w :
  (getParent g = SOURCE_DIR CONFIG ->
   File_isFile (fs w) g && validVerdict CONFIG (fs w) g = false) ->
  sameNode g w (processPDFFiles CONFIG w).2.
Proof.
  intros Hg.
  assert (Kc : keeps (sameNode g) validateELOConnection)
    by (apply keeps_validateELOConnection; typeclasses eauto).
  assert (Kd : keeps (sameNode g) (ensureDirectoriesExist CONFIG)).
  { unfold ensureDirectoriesExist.
    repeat (apply keeps_bind; [typeclasses eauto|
                               apply keeps_sameNode_createDirectoryIfNotExists|intros _]).
    apply keeps_sameNode_createDirectoryIfNotExists. }
  assert (Kv : keeps (sameNode g) (getValidPDFFiles CONFIG (SOURCE_DIR CONFIG)))
    by (apply keeps_getValidPDFFiles; typeclasses eauto).
  assert (Ku : keeps (sameNode g) summarise).
  { unfold summarise. apply keeps_bind; [typeclasses eauto|keeps_auto|intros st].
    destruct (_ =? _); [apply keeps_sameNode_logStatistics|keeps_auto]. }
  destruct (processPDFFiles CONFIG w) as [r w'] eqn:E. simpl.
  unfold processPDFFiles in E.
  split_bind E t w0 E0; [|discriminate E0]. inversion E0; subst t w0; clear E0.
  split_bind E u w1 E1; [|discriminate E1].
  assert (S1 : sameNode g w w1 /\ files (fs w1) = files (fs w)).
  { unfold setLastRun, modify in E1. inversion E1; subst. split; reflexivity. }
  destruct S1 as [S1 F1]. clear E1.
  assert (B : forall rb wb, runBody CONFIG (now w) w1 = (rb, wb) -> sameNode g w1 wb).
  { intros rb wb B. unfold runBody in B.
    split_bind B st w2 E2; [|discriminate E2]. inversion E2; subst st w2; clear E2.
    split_bind B u2 w3 E3; [|discriminate E3]. apply logger_inv in E3 as [_ ->].
    split_bind B c w4 E4; [|exact (keeps_run _ _ _ _ _ Kc E4)].
    pose proof (keeps_run _ _ _ _ _ Kc E4) as S4.
    assert (F4 : files (fs w4) = files (fs w1))
      by (pose proof (keeps_run sameFs _ _ _ _ (keeps_validateELOConnection sameFs) E4) as F;
          unfold sameFs in F; simpl in F; rewrite F; reflexivity).
    destruct c; cbn [negb] in B;
      [|apply logger_inv in B as [_ ->]; exact S4].
    split_bind B u5 w5 E5;
      [|etransitivity; [exact S4|exact (keeps_run _ _ _ _ _ Kd E5)]].
    pose proof (keeps_run _ _ _ _ _ Kd E5) as S5.
    assert (F5 : files (fs w5) = files (fs w4)).
    { destruct (ensureDirectoriesExist_dirs CONFIG w4) as (_ & F & _). rewrite E5 in F. exact F. }
    split_bind B l w6 E6;
      [|etransitivity; [exact S4|]; etransitivity; [exact S5|];
        exact (keeps_run _ _ _ _ _ Kv E6)].
    pose proof (keeps_run _ _ _ _ _ Kv E6) as S6.
    pose proof (getValidPDFFiles_filter CONFIG (SOURCE_DIR CONFIG) w5) as L. rewrite E6 in L.
    simpl in L. destruct L as [L _]. inversion L as [L']. clear L.
    etransitivity; [exact S4|]. etransitivity; [exact S5|]. etransitivity; [exact S6|].
    destruct l as [|f0 rest]; [apply logger_inv in B as [_ ->]; reflexivity|].
    assert (Hl : forall f, In f (f0 :: rest) -> path_of g <> path_of f).
    { intros f Hf Hp. rewrite L' in Hf.
      destruct (isDirectory (fs w5) (SOURCE_DIR CONFIG)); [|destruct Hf].
      apply List.filter_In in Hf as [Hin Hv].
      apply listFiles_parent in Hin.
      assert (g = f) as <-.
      { destruct g, f. unfold path_of in Hp. simpl in Hp. congruence. }
      destruct (validVerdict_files CONFIG (fs w5) (fs w) g) as [V1 V2];
        [congruence|].
      rewrite V1, V2, (Hg Hin) in Hv. discriminate. }
    unfold processFound in B.
    split_bind B u7 w7 E7; [|discriminate E7]. apply logger_inv in E7 as [_ ->].
    pose proof (keeps_sameNode_processEach (f0 :: rest) 0 0 Hl) as Ke.
    split_bind B counts w8 E8; [|exact (keeps_run _ _ _ _ _ Ke E8)].
    pose proof (keeps_run _ _ _ _ _ Ke E8) as S8.
    split_bind B t9 w9 E9; [|discriminate E9]. inversion E9; subst t9 w9; clear E9.
    split_bind B u10 w10 E10; [|discriminate E10]. apply logger_inv in E10 as [_ ->].
    etransitivity; [exact S8|]. exact (keeps_run _ _ _ _ _ Ku B). }
  apply try_catch_inv in E as [(a & E & _)|(e & w2 & E & H)].
  - etransitivity; [exact S1|exact (B _ _ E)].
  - etransitivity; [exact S1|]. etransitivity; [exact (B _ _ E)|].
    split_bind H u3 w3 E3; [|discriminate E3]. apply logger_inv in E3 as [_ ->].
    unfold countError, modify in H. inversion H; subst. reflexivity.
Qed.

End Touched.

(** X17: which files a cycle touches.  A cycle changes no entry of the file
    system outside the processed and the error directory, except the files
    of the source directory that are regular files and pass the validation.
    In particular a file of the source directory that does not pass the
    validation stays where it is: the scan does not hand it on, and so it is
    not moved to the error directory either. *)
Theorem cycle_touches_valid_files_only (CONFIG : Config) (g : JFile) (w : World) :
  getParent g <> PROCESSED_DIR CONFIG ->
  getParent g <> ERROR_DIR CONFIG ->
  (getParent g = SOURCE_DIR CONFIG ->
   File_isFile (fs w) g && validVerdict CONFIG (fs w) g = false) ->
  node (fs (processPDFFiles CONFIG w).2) g = node (fs w) g.
Proof. intros Hp He Hg. exact (processPDFFiles_sameNode CONFIG g Hp He w Hg). Qed.

Lemma cycle_touches_valid_files_only_witness :
  let good := in_source "a.pdf" in
  let empty := in_source "empty.pdf" in
  let w := demo_world [] [(good, plain_file pdf_bytes); (empty, plain_file [])] false 0 in
  let run := processPDFFiles default_config w in
  node (fs run.2) empty = Some (plain_file [])
  /\ node (fs run.2) good = None
  /\ node (fs run.2) (in_error "empty.pdf") = None.
Proof.
  intros good empty w run. split; [|split; vm_compute; reflexivity].
  assert (node (fs w) empty = Some (plain_file [])) as <- by (vm_compute; reflexivity).
  apply (cycle_touches_valid_files_only default_config empty w);
    [discriminate|discriminate|intros _; vm_compute; reflexivity].
Defined.
(** ** When nothing fails *)

Section Returns.

Context {I : World -> Prop}.

Lemma returns_ret {A} (P : A -> Prop) a : P a -> returns I P (ret a).
Proof. intros H w Hw. exists a. auto. Qed.

Lemma returns_bind {A B} (Q : A -> Prop) (P : B -> Prop) (m : M A) (k : A -> M B) :
  returns I Q m -> (forall a, Q a -> returns I P (k a)) -> returns I P (bind m k).
Proof.
  intros Hm Hk w Hw. destruct (Hm w Hw) as (a & E & Ha & Hw'). unfold bind.
  destruct (m w) as [r w1]. simpl in E, Hw'. subst r. exact (Hk a Ha w1 Hw').
Qed.

Lemma returns_try_catch {A} (P : A -> Prop) (m : M A) (h : Exn -> M A) :
  returns I P m -> returns I P (try_catch m h).
Proof.
  intros Hm w Hw. destruct (Hm w Hw) as (a & E & Ha & Hw'). unfold try_catch.
  destruct (m w) as [r w1]. simpl in E, Hw'. subst r. exists a. auto.
Qed.

Lemma returns_weaken {A} (Q P : A -> Prop) (m : M A) :
  returns I Q m -> (forall a, Q a -> P a) -> returns I P m.
Proof.
  intros Hm H w Hw. destruct (Hm w Hw) as (a & E & Ha & Hw'). exists a. auto.
Qed.

End Returns.

Section Steady.

Variable s : FileSystem.
Variable ts : list string.
Variable sl : list Z.

Lemma steady_logger l t c : returns (steady s ts sl) (fun _ => True) (logger l t c).
Proof. intros w Hw. exists tt. auto. Qed.

Lemma steady_getTime : returns (steady s ts sl) (fun _ => True) getTime.
Proof. intros w Hw. eexists. simpl. eauto. Qed.

Lemma steady_ix_call op : returns (steady s ts sl) (fun _ => True) (ix_call op).
Proof.
  intros w (R & N & T & F & S). rewrite ix_call_run.
  unfold next_reply. rewrite R. exists tt. simpl. unfold steady. simpl.
  rewrite R. repeat split; assumption.
Qed.

Lemma steady_onlyLogged {A} (m : M A) (P : A -> Prop) :
  keeps onlyLogged m -> (forall w, fs w = s -> exists a, (m w).1 = Normal a /\ P a) ->
  returns (steady s ts sl) P m.
Proof.
  intros K H w (R & N & T & F & S). destruct (H w F) as (a & E & Ha).
  exists a. split; [exact E|]. split; [exact Ha|].
  destruct (K w) as (Hi & Hf & _ & Hs & _). unfold steady.
  rewrite Hi, Hf, Hs. auto.
Qed.

Lemma steady_findFirstSords key max : returns (steady s ts sl) (fun _ => True) (findFirstSords key max).
Proof.
  unfold findFirstSords.
  apply (returns_bind (fun _ => True)); [apply steady_ix_call|intros _ _].
  intros w Hw. eexists. simpl. eauto.
Qed.

Lemma steady_createSord parent : returns (steady s ts sl) (fun _ => True) (createSord parent).
Proof.
  unfold createSord.
  apply (returns_bind (fun _ => True)); [apply steady_ix_call|intros _ _].
  apply returns_ret. exact Logic.I.
Qed.

Lemma steady_checkinSord d : returns (steady s ts sl) (fun i => 0 < i) (checkinSord d).
Proof.
  intros w Hw. destruct (steady_ix_call OpCheckinSord w Hw) as ([] & E & _ & Hw').
  unfold checkinSord, bind.
  destruct (ix_call OpCheckinSord w) as [r w1]. simpl in E, Hw'. subst r.
  destruct Hw' as (R & N & T & F & S). simpl.
  eexists. split; [reflexivity|]. split; [exact N|].
  repeat split; simpl; try assumption. lia.
Qed.

Lemma steady_checkoutDocMasks : returns (steady s ts sl) (fun _ => True) checkoutDocMasks.
Proof.
  unfold checkoutDocMasks.
  apply (returns_bind (fun _ => True)); [apply steady_ix_call|intros _ _].
  intros w Hw. eexists. simpl. eauto.
Qed.

Lemma steady_checkinDocBegin i : returns (steady s ts sl) (fun _ => True) (checkinDocBegin i).
Proof.
  unfold checkinDocBegin.
  apply (returns_bind (fun _ => True)); [apply steady_ix_call|intros _ _].
  apply returns_ret. exact Logic.I.
Qed.

Lemma steady_upload data u : returns (steady s ts sl) (fun b => b = true) (upload data u).
Proof.
  intros w (R & N & T & F & S). unfold upload, bind, remote, next_reply. rewrite R.
  simpl. exists true. unfold steady. simpl. rewrite R. repeat split; assumption.
Qed.

Lemma steady_checkinDocEnd i d : returns (steady s ts sl) (fun _ => True) (checkinDocEnd i d).
Proof.
  intros w Hw. destruct (steady_ix_call OpCheckinDocEnd w Hw) as ([] & E & _ & Hw').
  unfold checkinDocEnd, bind.
  destruct (ix_call OpCheckinDocEnd w) as [r w1]. simpl in E, Hw'. subst r.
  destruct Hw' as (R & N & T & F & S). simpl.
  exists tt. repeat split; simpl; assumption.
Qed.

Lemma steady_checkoutWorkFlow t :
  t ∈ ts -> returns (steady s ts sl) (fun r => r = Some t) (checkoutWorkFlow t).
Proof.
  intros Ht w Hw. pose proof Hw as (R & N & T & F & S).
  rewrite checkoutWorkFlow_run. unfold next_reply. rewrite R.
  rewrite bool_decide_eq_true_2 by (rewrite T; exact Ht).
  eexists. split; [reflexivity|]. split; [reflexivity|].
  unfold steady. simpl. rewrite R. repeat split; assumption.
Qed.

Lemma steady_createWorkFlow t i : returns (steady s ts sl) (fun _ => True) (createWorkFlow t i).
Proof.
  intros w Hw. destruct (steady_ix_call OpCreateWorkFlow w Hw) as ([] & E & _ & Hw').
  unfold createWorkFlow, bind.
  destruct (ix_call OpCreateWorkFlow w) as [r w1]. simpl in E, Hw'. subst r.
  destruct Hw' as (R & N & T & F & S). simpl.
  eexists. split; [reflexivity|]. repeat split; simpl; assumption.
Qed.

Lemma steady_startWorkFlow k n : returns (steady s ts sl) (fun _ => True) (startWorkFlow k n).
Proof.
  intros w Hw. destruct (steady_ix_call OpStartWorkFlow w Hw) as ([] & E & _ & Hw').
  unfold startWorkFlow, bind.
  destruct (ix_call OpStartWorkFlow w) as [r w1]. simpl in E, Hw'. subst r.
  destruct Hw' as (R & N & T & F & S). simpl.
  exists tt. repeat split; simpl; assumption.
Qed.

Variable CONFIG : Config.

Lemma steady_getOrCreateArchiveFolder :
  returns (steady s ts sl) (fun _ => True) (getOrCreateArchiveFolder CONFIG).
Proof.
  unfold getOrCreateArchiveFolder. apply returns_try_catch.
  apply (returns_bind (fun _ => True)); [apply steady_findFirstSords|intros [|d l] _].
  - apply (returns_bind (fun _ => True)); [apply steady_logger|intros _ _].
    apply (returns_bind (fun _ => True)); [apply steady_createSord|intros d _].
    apply (returns_bind (fun _ => True));
      [eapply returns_weaken; [apply steady_checkinSord|auto]|intros i _].
    apply (returns_bind (fun _ => True)); [apply steady_logger|intros _ _].
    apply returns_ret. exact Logic.I.
  - apply (returns_bind (fun _ => True)); [apply steady_logger|intros _ _].
    apply returns_ret. exact Logic.I.
Qed.

Lemma steady_getMaskId n : returns (steady s ts sl) (fun _ => True) (getMaskId n).
Proof.
  unfold getMaskId. apply returns_try_catch.
  apply (returns_bind (fun _ => True)); [apply steady_checkoutDocMasks|intros masks _].
  destruct (findMask n masks);
    (apply (returns_bind (fun _ => True)); [apply steady_logger|intros _ _]);
    apply returns_ret; exact Logic.I.
Qed.

Variable f : JFile.
Variable data : list byte.
Hypothesis valid : validVerdict CONFIG s f = true.
Hypothesis readable : readable_bytes s f = Some data.

Lemma steady_validatePDFFile : returns (steady s ts sl) (fun b => b = true) (validatePDFFile CONFIG f).
Proof.
  apply steady_onlyLogged; [apply keeps_validatePDFFile; typeclasses eauto|].
  intros w F. exists true. rewrite validatePDFFile_verdict, F, valid. auto.
Qed.

Lemma steady_readFileInChunks :
  returns (steady s ts sl) (fun r => r = Some data) (readFileInChunks f).
Proof.
  apply steady_onlyLogged; [apply keeps_readFileInChunks; typeclasses eauto|].
  intros w F. rewrite readFileInChunks_run, F, readable. eauto.
Qed.

Lemma steady_uploadPDFFile i : returns (steady s ts sl) (fun b => b = true) (uploadPDFFile i f).
Proof.
  unfold uploadPDFFile. apply returns_try_catch.
  apply (returns_bind (fun _ => True)); [apply steady_getTime|intros t _].
  apply (returns_bind (fun _ => True)); [apply steady_checkinDocBegin|intros d _].
  apply (returns_bind (fun r => r = Some data)); [apply steady_readFileInChunks|].
  intros r ->.
  apply (returns_bind (fun b => b = true)); [apply steady_upload|intros b ->].
  apply (returns_bind (fun _ => True)); [apply steady_checkinDocEnd|intros _ _].
  apply (returns_bind (fun _ => True)); [apply steady_logger|intros _ _].
  apply returns_ret. reflexivity.
Qed.

Lemma steady_importFileToELOWithValidation :
  returns (steady s ts sl) (fun i => 0 < i) (importFileToELOWithValidation CONFIG f).
Proof.
  unfold importFileToELOWithValidation. apply returns_try_catch.
  apply (returns_bind (fun i => 0 < i)).
  - unfold importCheckin.
    apply (returns_bind (fun b => b = true)); [apply steady_validatePDFFile|intros b ->].
    cbn [negb].
    apply (returns_bind (fun _ => True)); [apply steady_getOrCreateArchiveFolder|].
    intros parent _.
    apply (returns_bind (fun _ => True)); [apply steady_createSord|intros d _].
    apply (returns_bind (fun _ => True)); [apply steady_getMaskId|intros m _].
    apply (returns_bind (fun _ => True)); [apply steady_getTime|intros t _].
    apply (returns_bind (fun _ => True)); [|intros _ _; apply steady_checkinSord].
    apply returns_try_catch. unfold setCustomMetadata. apply returns_try_catch.
    apply steady_logger.
  - intros i Hi. unfold importUpload.
    apply (returns_bind (fun b => b = true)); [apply steady_uploadPDFFile|intros b ->].
    apply returns_ret. exact Hi.
Qed.

Hypothesis template : WORKFLOW_TEMPLATE CONFIG ∈ ts.

Lemma steady_startWorkflowWithRetry i :
  returns (steady s ts sl) (fun _ => True) (startWorkflowWithRetry CONFIG i).
Proof.
  unfold startWorkflowWithRetry, maxAttempts. cbn [workflowLoop].
  apply (returns_bind (fun b => b = true)); [|intros b ->; apply returns_ret; exact Logic.I].
  apply returns_try_catch. unfold workflowAttempt.
  apply (returns_bind (fun _ => True)); [apply steady_logger|intros _ _].
  apply (returns_bind (fun r => r = Some (WORKFLOW_TEMPLATE CONFIG)));
    [apply steady_checkoutWorkFlow, template|intros r ->].
  apply (returns_bind (fun _ => True)); [apply steady_createWorkFlow|intros wf _].
  apply (returns_bind (fun _ => True)); [apply steady_startWorkFlow|intros _ _].
  apply (returns_bind (fun _ => True)); [apply steady_logger|intros _ _].
  apply returns_ret. reflexivity.
Qed.

End Steady.

Lemma retryLoop_succeeds (CONFIG : Config) (f : JFile) (data : list byte) (n a : nat)
    (w : World) :
  replies (ix w) = [] ->
  0 < nextId (ix w) ->
  WORKFLOW_TEMPLATE CONFIG ∈ wfTemplates (ix w) ->
  validVerdict CONFIG (fs w) f = true ->
  readable_bytes (fs w) f = Some data ->
  let run := retryLoop CONFIG f (S n) a w in
  let target := {| getParent := PROCESSED_DIR CONFIG; getName := getName f |} in
  run.1 = Normal true
  /\ slept run.2 = slept w
  /\ (exists doc wf,
        last (sords (ix run.2)) = Some doc
        /\ type doc = LBT_DOCUMENT
        /\ name doc = documentName f
        /\ content doc = Some data
        /\ last (workflows (ix run.2)) = Some wf
        /\ wf_sord wf = id doc
        /\ wf_template wf = WORKFLOW_TEMPLATE CONFIG
        /\ wf_started wf = true)
  /\ (File_exists (fs w) target = false ->
      rename_allowed (fs w) f target = true ->
      getParent f <> PROCESSED_DIR CONFIG ->
      node (fs run.2) target = node (fs w) f /\ node (fs run.2) f = None).
Proof.
  intros R N T V B run target.
  assert (Hw : steady (fs w) (wfTemplates (ix w)) (slept w) w) by (repeat split; assumption).
  pose (line := attemptLine CONFIG f (S a)).
  assert (H0 : steady (fs w) (wfTemplates (ix w)) (slept w) (add_log line w))
    by exact Hw.
  destruct (steady_importFileToELOWithValidation _ _ _ CONFIG f data V B _ H0)
    as (i & E1 & Hi & H1).
  destruct (importFileToELOWithValidation CONFIG f (add_log line w)) as [r1 w1] eqn:Ei.
  simpl in E1, H1. subst r1.
  destruct (importFileToELOWithValidation_stored _ _ _ _ _ Ei)
    as (_ & _ & doc & data' & L1 & I1 & T1 & N1 & C1 & B1 & _).
  assert (data' = data) as -> by (simpl in B1; congruence).
  destruct (steady_startWorkflowWithRetry _ _ _ CONFIG T i _ H1) as ([] & E2 & _ & H2).
  destruct (startWorkflowWithRetry CONFIG i w1) as [r2 w2] eqn:Ew.
  simpl in E2, H2. subst r2.
  destruct (startWorkflowWithRetry_started _ _ _ _ Ew) as ((wf & L2 & S2 & P2 & Q2) & S12 & _).
  destruct (moveFile_files f (PROCESSED_DIR CONFIG) w2) as [E3 _].
  pose proof (keeps_moveFile sameIx f (PROCESSED_DIR CONFIG) w2) as I3.
  pose proof (keeps_moveFile sameSlept f (PROCESSED_DIR CONFIG) w2) as S3.
  assert (Ea : importAttempt CONFIG f (S a) w
               = (Normal (Some true),
                  add_log {| level := INFO;
                             text := "Successfully processed file: " +:+ getName f
                                     +:+ " (Sord ID: " +:+ pretty i +:+ ")";
                             cause := None |}
                    (moveFile f (PROCESSED_DIR CONFIG) w2).2)).
  { destruct (importAttempt CONFIG f (S a) w) as [ra wa] eqn:Ea. unfold importAttempt in Ea.
    split_bind Ea u0 w0 E0; [|discriminate E0]. apply logger_inv in E0 as [_ ->].
    split_bind Ea i' w1' E1';
      [|pose proof (eq_trans (eq_sym E1') Ei) as Q; discriminate Q].
    pose proof (eq_trans (eq_sym E1') Ei) as Q. inversion Q; subst i' w1'. clear Q E1'.
    assert (truthy i = true) as Ht
      by (unfold truthy; destruct (Z.eqb_spec i 0); [lia|reflexivity]).
    rewrite Ht in Ea.
    split_bind Ea u2 w2' E2';
      [|unfold try_catch in E2'; rewrite Ew in E2'; discriminate E2'].
    unfold try_catch in E2'. rewrite Ew in E2'. inversion E2'; subst u2 w2'. clear E2'.
    split_bind Ea u3 w3 E3';
      [|exfalso; exact (succeeds_run _ _ _ _ (moveFile_succeeds f _) E3')].
    unfold moveFileToProcessedDir in E3'. rewrite E3'.
    split_bind Ea u4 w4 E4; [|discriminate E4]. apply logger_inv in E4 as [_ ->].
    inversion Ea; subst. reflexivity. }
  assert (run = (Normal true,
                 add_log {| level := INFO;
                            text := "Successfully processed file: " +:+ getName f
                                    +:+ " (Sord ID: " +:+ pretty i +:+ ")";
                            cause := None |}
                   (moveFile f (PROCESSED_DIR CONFIG) w2).2)) as ->.
  { subst run. cbn [retryLoop]. unfold bind, try_catch. rewrite Ea. reflexivity. }
  destruct H2 as (_ & _ & _ & F2 & Sl2).
  unfold sameIx, sameSlept in I3, S3. simpl.
  split; [reflexivity|]. split; [congruence|]. split.
  - exists doc, wf. rewrite I3, S12. repeat split; try assumption. congruence.
  - intros X A P. rewrite <- F2 in X, A |- *.
    exact (moveFile_plain f (PROCESSED_DIR CONFIG) w2 X A P).
Qed.

(** X18: a file for which nothing fails.  Let the archive answer every
    call, have a positive next id and know the workflow template, and let
    the file pass the validation and be readable.  Then, if at least one
    attempt is configured, the first attempt succeeds: the function returns
    true without waiting, the Sord stored last is a document named after
    the file that holds its bytes, the workflow created last is started for
    that document, and the file is moved to the processed directory. *)
Theorem processing_succeeds (CONFIG : Config) (f : JFile) (data : list byte) (w : World) :
  0 < RETRY_ATTEMPTS CONFIG ->
  replies (ix w) = [] ->
  0 < nextId (ix w) ->
  WORKFLOW_TEMPLATE CONFIG ∈ wfTemplates (ix w) ->
  validVerdict CONFIG (fs w) f = true ->
  readable_bytes (fs w) f = Some data ->
  let run := processSinglePDFWithRetry CONFIG f w in
  let target := {| getParent := PROCESSED_DIR CONFIG; getName := getName f |} in
  run.1 = Normal true
  /\ slept run.2 = slept w
  /\ (exists doc wf,
        last (sords (ix run.2)) = Some doc
        /\ type doc = LBT_DOCUMENT
        /\ name doc = documentName f
        /\ content doc = Some data
        /\ last (workflows (ix run.2)) = Some wf
        /\ wf_sord wf = id doc
        /\ wf_template wf = WORKFLOW_TEMPLATE CONFIG
        /\ wf_started wf = true)
  /\ (File_exists (fs w) target = false ->
      rename_allowed (fs w) f target = true ->
      getParent f <> PROCESSED_DIR CONFIG ->
      node (fs run.2) target = node (fs w) f /\ node (fs run.2) f = None).
Proof.
  intros HR R N T V B. unfold processSinglePDFWithRetry.
  destruct (Z.to_nat (RETRY_ATTEMPTS CONFIG)) as [|n] eqn:En; [lia|].
  exact (retryLoop_succeeds CONFIG f data n 0 w R N T V B).
Qed.

Lemma processing_succeeds_witness :
  let f := in_source "invoice.2024.pdf" in
  let w := demo_world [] [(f, plain_file pdf_bytes)] false 0 in
  let run := processSinglePDFWithRetry default_config f w in
  run.1 = Normal true
  /\ slept run.2 = []
  /\ node (fs run.2) (in_processed "invoice.2024.pdf") = Some (plain_file pdf_bytes)
  /\ node (fs run.2) f = None.
Proof.
  intros f w run.
  assert (0 < RETRY_ATTEMPTS default_config) as HR by (simpl; lia).
  assert (replies (ix w) = []) as R by reflexivity.
  assert (0 < nextId (ix w)) as N by (simpl; lia).
  assert (WORKFLOW_TEMPLATE default_config ∈ wfTemplates (ix w)) as T by constructor.
  assert (validVerdict default_config (fs w) f = true) as V by (vm_compute; reflexivity).
  assert (readable_bytes (fs w) f = Some pdf_bytes) as B by (vm_compute; reflexivity).
  destruct (processing_succeeds default_config f pdf_bytes w HR R N T V B)
    as (H1 & H2 & _ & H4).
  split; [exact H1|]. split; [exact H2|].
  assert (node (fs w) f = Some (plain_file pdf_bytes)) as <- by (vm_compute; reflexivity).
  apply H4; [vm_compute; reflexivity|vm_compute; reflexivity|discriminate].
Defined.
(** ** The configuration file *)

(** With no attempt configured, the loop is the code after it. *)
Lemma keeps_processSinglePDFWithRetry_quiet (T : World -> World -> Prop)
    `{!PreOrder T, !OverLog T, !OverFs T} (CONFIG : Config) (f : JFile) :
  RETRY_ATTEMPTS CONFIG <= 0 -> keeps T (processSinglePDFWithRetry CONFIG f).
Proof.
  intros H. unfold processSinglePDFWithRetry. rewrite Z2Nat.nonpos by exact H.
  cbn [retryLoop]. apply keeps_giveUp; typeclasses eauto.
Qed.

Lemma no_extension_no_valid_file (CONFIG : Config) (s : FileSystem) (f : JFile) :
  ALLOWED_EXTENSIONS CONFIG = [] -> validVerdict CONFIG s f = false.
Proof.
  intros H. unfold validVerdict. rewrite H. simpl.
  destruct (negb (File_exists s f) || negb (File_canRead s f)); [reflexivity|].
  destruct (File_length s f =? 0); [reflexivity|].
  destruct (File_length s f >? MAX_FILE_SIZE CONFIG); reflexivity.
Qed.

(** X19: the configuration that the script runs with, for a [config.json]
    whose numbers are whole.  A file that is missing, or that lacks one of
    the parts [settings], [settings.logging], [fileFilters] and
    [eloConnection], is ignored as a whole, in favour of the fallback
    configuration.  Otherwise the directories and the archive path are
    copied, the interval is the configured number of seconds in
    milliseconds, a list of extensions is kept even when it is empty, and
    for the size limit and the number of attempts a missing entry and a
    zero give the default, 50 MB and 3, while every other number is kept.
    That includes a negative number of attempts: the loop of
    [processSinglePDFWithRetry] then makes no turn, so the file has failed
    without an attempt, a remote call or a wait, and the code after the
    loop moves it to the error directory. *)
Theorem loaded_configuration (file : option ConfigFile.ConfigData) :
  let CONFIG := ConfigFile.loadConfig file in
  (file = None -> CONFIG = default_config)
  /\ (forall d,
        file = Some d ->
        ConfigFile.settings d = None
        \/ ConfigFile.fileFilters d = None
        \/ ConfigFile.eloConnection d = None
        \/ (exists st, ConfigFile.settings d = Some st /\ ConfigFile.logging st = None) ->
        CONFIG = default_config)
  /\ (forall d st ff ec lg,
        file = Some d ->
        ConfigFile.settings d = Some st ->
        ConfigFile.fileFilters d = Some ff ->
        ConfigFile.eloConnection d = Some ec ->
        ConfigFile.logging st = Some lg ->
        SOURCE_DIR CONFIG = ConfigFile.sourceDirectory st
        /\ PROCESSED_DIR CONFIG = ConfigFile.processedDirectory st
        /\ ERROR_DIR CONFIG = ConfigFile.errorDirectory st
        /\ ARCHIVE_PATH CONFIG = ConfigFile.archivePath st
        /\ INTERVAL CONFIG = ConfigFile.intervalSeconds st * 1000
        /\ (forall l, ConfigFile.extensions ff = Some l -> ALLOWED_EXTENSIONS CONFIG = l)
        /\ (ConfigFile.extensions ff = None -> ALLOWED_EXTENSIONS CONFIG = [".pdf"])
        /\ (ConfigFile.maxFileSizeMB ff = None \/ ConfigFile.maxFileSizeMB ff = Some 0 ->
            MAX_FILE_SIZE CONFIG = 50 * 1024 * 1024)
        /\ (forall n, ConfigFile.maxFileSizeMB ff = Some n -> n <> 0 ->
                      MAX_FILE_SIZE CONFIG = n * 1024 * 1024)
        /\ (ConfigFile.retryAttempts ec = None \/ ConfigFile.retryAttempts ec = Some 0 ->
            RETRY_ATTEMPTS CONFIG = 3)
        /\ (forall n, ConfigFile.retryAttempts ec = Some n -> n <> 0 ->
                      RETRY_ATTEMPTS CONFIG = n)
        /\ (forall n, ConfigFile.retryAttempts ec = Some n -> n < 0 ->
                      forall f w,
                        let run := processSinglePDFWithRetry CONFIG f w in
                        run = giveUp CONFIG f w
                        /\ run.1 = Normal false
                        /\ ix run.2 = ix w
                        /\ slept run.2 = slept w)).
Proof.
  intros CONFIG. subst CONFIG. split; [intros ->; reflexivity|]. split.
  - intros d -> H. unfold ConfigFile.loadConfig, ConfigFile.readConfig.
    destruct H as [-> |[H|[H|(st & -> & H)]]]; [reflexivity| | |].
    + rewrite H. destruct (ConfigFile.settings d); reflexivity.
    + rewrite H. destruct (ConfigFile.settings d); [|reflexivity].
      destruct (ConfigFile.fileFilters d); reflexivity.
    + rewrite H. destruct (ConfigFile.fileFilters d); [|reflexivity].
      destruct (ConfigFile.eloConnection d); reflexivity.
  - intros d st ff ec lg -> Hs Hf He Hl.
    unfold ConfigFile.loadConfig, ConfigFile.readConfig. rewrite Hs, Hf, He, Hl.
    cbn [SOURCE_DIR PROCESSED_DIR ERROR_DIR ARCHIVE_PATH INTERVAL ALLOWED_EXTENSIONS
         MAX_FILE_SIZE RETRY_ATTEMPTS].
    repeat match goal with |- _ /\ _ => split end; try reflexivity.
    + intros l ->. reflexivity.
    + intros ->. reflexivity.
    + intros [-> | ->]; reflexivity.
    + intros n -> Hn. unfold ConfigFile.or_Z.
      destruct (Z.eqb_spec n 0); [contradiction|reflexivity].
    + intros [-> | ->]; reflexivity.
    + intros n -> Hn. unfold ConfigFile.or_Z.
      destruct (Z.eqb_spec n 0); [contradiction|reflexivity].
    + intros n Hn Hneg f w. cbv zeta.
      match goal with |- processSinglePDFWithRetry ?c f w = _ /\ _ => set (CONFIG := c) end.
      assert (RETRY_ATTEMPTS CONFIG <= 0) as Hle.
      { subst CONFIG. cbn [RETRY_ATTEMPTS]. rewrite Hn. unfold ConfigFile.or_Z.
        destruct (Z.eqb_spec n 0); lia. }
      assert (processSinglePDFWithRetry CONFIG f w = giveUp CONFIG f w) as E.
      { unfold processSinglePDFWithRetry. rewrite Z2Nat.nonpos by exact Hle. reflexivity. }
      split; [exact E|]. split; [|split].
      * rewrite E. destruct (giveUp CONFIG f w) as [r w'] eqn:G.
        apply giveUp_inv in G as [-> _]. reflexivity.
      * apply (keeps_processSinglePDFWithRetry_quiet sameIx CONFIG f Hle).
      * apply (keeps_processSinglePDFWithRetry_quiet sameSlept CONFIG f Hle).
Qed.

Lemma loaded_configuration_witness :
  let st := {| ConfigFile.sourceDirectory := "C:\in"; ConfigFile.archivePath := "A";
               ConfigFile.metadataMask := "M"; ConfigFile.workflowTemplate := "T";
               ConfigFile.processedDirectory := "C:\in\done";
               ConfigFile.errorDirectory := "C:\in\failed";
               ConfigFile.intervalSeconds := 10;
               ConfigFile.logging := Some {| ConfigFile.logging_level := None |} |} in
  let ff := {| ConfigFile.extensions := Some []; ConfigFile.maxFileSizeMB := Some 0;
               ConfigFile.excludePatterns := None |} in
  let ec := {| ConfigFile.timeout := None; ConfigFile.retryAttempts := Some (-1) |} in
  let d := {| ConfigFile.settings := Some st; ConfigFile.fileFilters := Some ff;
              ConfigFile.eloConnection := Some ec |} in
  let CONFIG := ConfigFile.loadConfig (Some d) in
  let f := {| getParent := "C:\in"; getName := "a.pdf" |} in
  let w := demo_world [] [(f, plain_file pdf_bytes)] false 0 in
  RETRY_ATTEMPTS CONFIG = -1
  /\ MAX_FILE_SIZE CONFIG = 52428800
  /\ ALLOWED_EXTENSIONS CONFIG = []
  /\ INTERVAL CONFIG = 10000
  /\ (processSinglePDFWithRetry CONFIG f w).1 = Normal false
  /\ calls (ix (processSinglePDFWithRetry CONFIG f w).2) = [].
Proof.
  intros st ff ec d CONFIG f w.
  destruct (loaded_configuration (Some d)) as (_ & _ & H).
  destruct (H d st ff ec {| ConfigFile.logging_level := None |}
              eq_refl eq_refl eq_refl eq_refl eq_refl)
    as (_ & _ & _ & _ & Hi & Hx & _ & Hm & _ & _ & Hr & Hn).
  destruct (Hn (-1) eq_refl ltac:(lia) f w) as (_ & R1 & R2 & _).
  split; [exact (Hr (-1) eq_refl ltac:(lia))|]. split; [exact (Hm (or_intror eq_refl))|].
  split; [exact (Hx [] eq_refl)|]. split; [exact Hi|]. split; [exact R1|].
  fold CONFIG in R2. rewrite R2. reflexivity.
Defined.

(** X20: an empty list of extensions.  A configuration file that gives the
    allowed extensions as an empty list is taken at its word: the default
    [.pdf] only stands in for a missing list.  With such a file no scan
    finds a file, whatever the directory holds. *)
Theorem empty_extension_list_finds_nothing (d : ConfigFile.ConfigData)
    (dirPath : string) (w : World) :
  ALLOWED_EXTENSIONS (ConfigFile.loadConfig (Some d)) = [] ->
  (getValidPDFFiles (ConfigFile.loadConfig (Some d)) dirPath w).1 = Normal [].
Proof.
  intros H. destruct (getValidPDFFiles_filter (ConfigFile.loadConfig (Some d)) dirPath w)
    as [-> _].
  destruct (isDirectory (fs w) dirPath); [|reflexivity]. f_equal.
  induction (listFiles (fs w) dirPath) as [|f l IH]; [reflexivity|]. simpl.
  rewrite (no_extension_no_valid_file _ _ _ H), andb_false_r. exact IH.
Qed.

Lemma empty_extension_list_finds_nothing_witness :
  let st := {| ConfigFile.sourceDirectory := SOURCE_DIR default_config;
               ConfigFile.archivePath := ARCHIVE_PATH default_config;
               ConfigFile.metadataMask := "M"; ConfigFile.workflowTemplate := "T";
               ConfigFile.processedDirectory := PROCESSED_DIR default_config;
               ConfigFile.errorDirectory := ERROR_DIR default_config;
               ConfigFile.intervalSeconds := 10;
               ConfigFile.logging := Some {| ConfigFile.logging_level := None |} |} in
  let ff := {| ConfigFile.extensions := Some []; ConfigFile.maxFileSizeMB := None;
               ConfigFile.excludePatterns := None |} in
  let ec := {| ConfigFile.timeout := None; ConfigFile.retryAttempts := None |} in
  let d := {| ConfigFile.settings := Some st; ConfigFile.fileFilters := Some ff;
              ConfigFile.eloConnection := Some ec |} in
  let w := demo_world [] [(in_source "a.pdf", plain_file pdf_bytes)] false 0 in
  (getValidPDFFiles (ConfigFile.loadConfig (Some d)) (SOURCE_DIR default_config) w).1
  = Normal []
  /\ (getValidPDFFiles default_config (SOURCE_DIR default_config) w).1
     = Normal [in_source "a.pdf"].
Proof.
  intros st ff ec d w. split; [|vm_compute; reflexivity].
  apply (empty_extension_list_finds_nothing d (SOURCE_DIR default_config) w).
  reflexivity.
Defined.
(** ** The basic script *)

#[global] Instance sordsKept_preorder : PreOrder sordsKept.
Proof.
  split; [intros w; exists []; rewrite app_nil_r; reflexivity|].
  intros a b c [m1 H1] [m2 H2]. exists (m1 ++ m2). rewrite H2, H1, app_assoc. reflexivity.
Qed.

Lemma sameSords_sordsKept w w' : sords (ix w') = sords (ix w) -> sordsKept w w'.
Proof. intros H. exists []. rewrite H, app_nil_r. reflexivity. Qed.

#[global] Instance sordsKept_log : OverLog sordsKept.
Proof. intros w e _. apply sameSords_sordsKept. reflexivity. Qed.
#[global] Instance sordsKept_calls : OverCalls sordsKept.
Proof. intros w op. apply sameSords_sordsKept. reflexivity. Qed.
#[global] Instance sordsKept_staged : OverStaged sordsKept.
Proof. intros w m. apply sameSords_sordsKept. reflexivity. Qed.
#[global] Instance sordsKept_workflows : OverWorkflows sordsKept.
Proof. intros w l. apply sameSords_sordsKept. reflexivity. Qed.
#[global] Instance sordsKept_fs : OverFs sordsKept.
Proof. intros w a. apply sameSords_sordsKept. reflexivity. Qed.
#[global] Instance sordsKept_sleep : OverSleep sordsKept.
Proof. intros w a. apply sameSords_sordsKept. reflexivity. Qed.
#[global] Instance sordsKept_stats : OverStats sordsKept.
Proof. intros w a. apply sameSords_sordsKept. reflexivity. Qed.

Lemma keeps_sordsKept_checkinSord s : keeps sordsKept (checkinSord s).
Proof.
  intros w. destruct (checkinSord s w) as [r w'] eqn:E. simpl.
  apply checkinSord_stored in E as [(_ & H & _)|(e & _ & [H _])];
    [|apply sameSords_sordsKept, H].
  eexists. rewrite H, map_app. reflexivity.
Qed.

Lemma keeps_sordsKept_checkinDocEnd i d : keeps sordsKept (checkinDocEnd i d).
Proof.
  intros w. destruct (checkinDocEnd i d w) as [r w'] eqn:E. simpl.
  apply checkinDocEnd_stored in E as [_ H]. destruct r as [u|e];
    [|apply sameSords_sordsKept, H].
  exists []. rewrite H, app_nil_r, map_map. apply map_ext. intros s.
  destruct (id s =? i); reflexivity.
Qed.

(** Frames of the import of the basic script, for a relation that the two
    calls that store Sords keep. *)
Section BasicImportFrames.

Context (T : World -> World -> Prop)
  `{!PreOrder T, !OverLog T, !OverCalls T, !OverStaged T, !OverWorkflows T}.
Hypothesis keeps_checkin : forall s, keeps T (checkinSord s).
Hypothesis keeps_docEnd : forall i d, keeps T (checkinDocEnd i d).
Variable CONFIG : Config.

#[local] Hint Resolve keeps_checkin keeps_docEnd : keeps.

Lemma keeps_basic_getOrCreateArchiveFolder :
  keeps T (Basic.getOrCreateArchiveFolder CONFIG).
Proof.
  unfold Basic.getOrCreateArchiveFolder.
  apply keeps_try_catch; [typeclasses eauto| |intros e; keeps_auto].
  apply keeps_bind; [typeclasses eauto|apply keeps_findFirstSords; typeclasses eauto|].
  intros [|s l]; [|keeps_auto].
  apply keeps_bind; [typeclasses eauto|apply keeps_createSord; typeclasses eauto|].
  intros d. apply keeps_checkin.
Qed.

Lemma keeps_basic_getMaskId n : keeps T (Basic.getMaskId n).
Proof.
  unfold Basic.getMaskId.
  apply keeps_try_catch; [typeclasses eauto| |intros e; keeps_auto].
  apply keeps_bind; [typeclasses eauto|apply keeps_checkoutDocMasks; typeclasses eauto|].
  intros masks. keeps_auto.
Qed.

Lemma keeps_basic_importCheckin f : keeps T (Basic.importCheckin CONFIG f).
Proof.
  unfold Basic.importCheckin.
  apply keeps_bind; [typeclasses eauto|apply keeps_basic_getOrCreateArchiveFolder|].
  intros p. apply keeps_bind; [typeclasses eauto|apply keeps_createSord; typeclasses eauto|].
  intros d. apply keeps_bind; [typeclasses eauto|apply keeps_basic_getMaskId|].
  intros m. apply keeps_checkin.
Qed.

Lemma keeps_basic_upload data u : keeps T (upload data u).
Proof. unfold upload. keeps_auto. Qed.

Lemma keeps_basic_importUpload i f : keeps T (Basic.importUpload i f).
Proof.
  unfold Basic.importUpload.
  apply keeps_bind; [typeclasses eauto|apply keeps_checkinDocBegin; typeclasses eauto|].
  intros d. apply keeps_bind; [typeclasses eauto|apply keeps_readFileToByteArray; typeclasses eauto|].
  intros data. apply keeps_bind; [typeclasses eauto|apply keeps_basic_upload|].
  intros [|]; [|keeps_auto].
  apply keeps_bind; [typeclasses eauto|apply keeps_docEnd|intros _; keeps_auto].
Qed.

Lemma keeps_basic_importFileToELO f : keeps T (Basic.importFileToELO CONFIG f).
Proof.
  unfold Basic.importFileToELO.
  apply keeps_try_catch; [typeclasses eauto| |intros e; keeps_auto].
  apply keeps_bind; [typeclasses eauto|apply keeps_basic_importCheckin|].
  intros i. apply keeps_basic_importUpload.
Qed.

End BasicImportFrames.

(** Frames of the basic script, for a relation that its import keeps. *)
Section BasicFrames.

Context (T : World -> World -> Prop)
  `{!PreOrder T, !OverLog T, !OverCalls T, !OverWorkflows T}.
Variable CONFIG : Config.
Hypothesis import_kept : forall f, keeps T (Basic.importFileToELO CONFIG f).

Lemma keeps_basic_startWorkflow i : keeps T (Basic.startWorkflow CONFIG i).
Proof.
  unfold Basic.startWorkflow.
  apply keeps_try_catch; [typeclasses eauto| |intros e; keeps_auto].
  apply keeps_bind; [typeclasses eauto|keeps_auto|intros _].
  apply keeps_bind; [typeclasses eauto|apply keeps_checkoutWorkFlow; typeclasses eauto|].
  intros [t|]; [|keeps_auto].
  apply keeps_bind; [typeclasses eauto|apply keeps_createWorkFlow; typeclasses eauto|].
  intros wf.
  apply keeps_bind; [typeclasses eauto|apply keeps_startWorkFlow; typeclasses eauto|].
  intros _. keeps_auto.
Qed.

Context `{!OverFs T}.

Lemma keeps_basic_moveFile f d : keeps T (Basic.moveFile f d).
Proof.
  unfold Basic.moveFile.
  apply keeps_try_catch; [typeclasses eauto| |intros e; keeps_auto].
  apply keeps_bind; [typeclasses eauto|apply keeps_chooseTarget; typeclasses eauto|].
  intros t. apply keeps_bind; [typeclasses eauto|apply keeps_renameTo; typeclasses eauto|].
  intros [|]; keeps_auto.
Qed.

Lemma keeps_basic_processOne f : keeps T (Basic.processOne CONFIG f).
Proof.
  unfold Basic.processOne, Basic.processSinglePDF, Basic.moveFileToProcessedDir,
    Basic.moveFileToErrorDir.
  apply keeps_try_catch; [typeclasses eauto| |intros e].
  - apply keeps_bind; [typeclasses eauto|keeps_auto|intros _].
    apply keeps_bind; [typeclasses eauto|apply import_kept|intros i].
    destruct (truthy i); [|keeps_auto].
    apply keeps_bind; [typeclasses eauto|apply keeps_basic_startWorkflow|intros _].
    apply keeps_bind; [typeclasses eauto|apply keeps_basic_moveFile|intros _].
    keeps_auto.
  - apply keeps_bind; [typeclasses eauto|keeps_auto|intros _]. apply keeps_basic_moveFile.
Qed.

Lemma keeps_basic_processEach l : keeps T (Basic.processEach CONFIG l).
Proof.
  induction l as [|f rest IH]; simpl; [keeps_auto|].
  apply keeps_bind; [typeclasses eauto|apply keeps_basic_processOne|intros _; exact IH].
Qed.

Lemma keeps_basic_createDirectoryIfNotExists d :
  keeps T (Basic.createDirectoryIfNotExists d).
Proof.
  unfold Basic.createDirectoryIfNotExists.
  apply keeps_try_catch; [typeclasses eauto| |intros e; keeps_auto].
  apply keeps_bind; [typeclasses eauto|keeps_auto|intros s].
  destruct (negb _); [|keeps_auto].
  apply keeps_bind; [typeclasses eauto|apply keeps_mkdirs; typeclasses eauto|intros _].
  keeps_auto.
Qed.

Lemma keeps_basic_getPDFFiles d : keeps T (Basic.getPDFFiles d).
Proof. unfold Basic.getPDFFiles. keeps_auto. Qed.

Lemma keeps_basic_processPDFFiles : keeps T (Basic.processPDFFiles CONFIG).
Proof.
  unfold Basic.processPDFFiles, Basic.ensureDirectoriesExist.
  apply keeps_try_catch; [typeclasses eauto| |intros e; keeps_auto].
  apply keeps_bind; [typeclasses eauto|keeps_auto|intros _].
  apply keeps_bind; [typeclasses eauto| |intros _].
  { apply keeps_bind;
      [typeclasses eauto|apply keeps_basic_createDirectoryIfNotExists|intros _].
    apply keeps_bind;
      [typeclasses eauto|apply keeps_basic_createDirectoryIfNotExists|intros _].
    apply keeps_basic_createDirectoryIfNotExists. }
  apply keeps_bind; [typeclasses eauto|apply keeps_basic_getPDFFiles|intros l].
  destruct l as [|f rest]; [keeps_auto|].
  apply keeps_bind; [typeclasses eauto|keeps_auto|intros _].
  apply keeps_bind; [typeclasses eauto|apply keeps_basic_processEach|intros _].
  keeps_auto.
Qed.

Lemma keeps_basic_main n : keeps T (Basic.main CONFIG n).
Proof.
  unfold Basic.main.
  apply keeps_bind; [typeclasses eauto|keeps_auto|intros _].
  apply keeps_bind; [typeclasses eauto|apply keeps_basic_processPDFFiles|intros _].
  induction n as [|n IH]; simpl; [keeps_auto|].
  apply keeps_bind; [typeclasses eauto|apply keeps_basic_processPDFFiles|intros _; exact IH].
Qed.

End BasicFrames.



(** X21: the basic script removes nothing from the archive.  A cycle of the
    basic script, and the service with any number of cycles, never throws
    and leaves every Sord of the archive in place, in its order and under
    its id: the script has no call that deletes. *)
Theorem basic_script_keeps_every_sord (CONFIG : Config) (n : nat) (w : World) :
  (Basic.processPDFFiles CONFIG w).1 = Normal tt
  /\ (exists more, map id (sords (ix (Basic.processPDFFiles CONFIG w).2))
                   = map id (sords (ix w)) ++ more)
  /\ (Basic.main CONFIG n w).1 = Normal tt
  /\ (exists more, map id (sords (ix (Basic.main CONFIG n w).2))
                   = map id (sords (ix w)) ++ more).
Proof.
  assert (S : succeeds (Basic.processPDFFiles CONFIG)).
  { unfold Basic.processPDFFiles. apply succeeds_try_catch. intros e.
    apply succeeds_logger. }
  assert (I : forall f, keeps sordsKept (Basic.importFileToELO CONFIG f)).
  { intros f. exact (keeps_basic_importFileToELO sordsKept keeps_sordsKept_checkinSord
                       keeps_sordsKept_checkinDocEnd CONFIG f). }
  split; [apply succeeds_unit, S|]. split.
  { exact (keeps_basic_processPDFFiles sordsKept CONFIG I w). }
  split.
  - apply succeeds_unit. unfold Basic.main.
    apply succeeds_bind; [apply succeeds_logger|intros _].
    apply succeeds_bind; [exact S|intros _].
    induction n as [|n' IH]; simpl; [apply succeeds_ret|].
    apply succeeds_bind; [exact S|intros _; exact IH].
  - exact (keeps_basic_main sordsKept CONFIG I n w).
Qed.

Lemma collectPDF_filter (s : FileSystem) (candidates : list JFile) : forall pdfFiles,
  Basic.collectPDF s candidates pdfFiles
  = pdfFiles
    ++ List.filter
         (fun f => File_isFile s f && Js.endsWith (Js.toLowerCase (getName f)) ".pdf")
         candidates.
Proof.
  induction candidates as [|f rest IH]; intros acc; simpl.
  - rewrite app_nil_r. reflexivity.
  - destruct (File_isFile s f && Js.endsWith (Js.toLowerCase (getName f)) ".pdf").
    + rewrite IH, <- app_assoc. reflexivity.
    + apply IH.
Qed.

(** X22: the scan of the basic script.  [getPDFFiles] never throws and
    changes nothing.  When the directory exists it returns, in the order of
    the listing, exactly the regular files whose name ends in [.pdf] in any
    letter case; nothing else about a file is looked at.  When the directory
    does not exist it returns the empty list. *)
Theorem basic_scan_selects_by_suffix (dirPath : string) (w : World) :
  let run := Basic.getPDFFiles dirPath w in
  run.1 = Normal
            (if isDirectory (fs w) dirPath
             then List.filter
                    (fun f => File_isFile (fs w) f
                              && Js.endsWith (Js.toLowerCase (getName f)) ".pdf")
                    (listFiles (fs w) dirPath)
             else [])
  /\ ix run.2 = ix w /\ fs run.2 = fs w.
Proof.
  intros run. subst run. unfold Basic.getPDFFiles, try_catch, bind, get_fs.
  destruct (isDirectory (fs w) dirPath); simpl; [|auto].
  rewrite collectPDF_filter. auto.
Qed.

Lemma basic_moveFile_run f d w :
  Basic.moveFile f d w =
  let target := chosenTarget w f d in
  match node (fs w) f with
  | Some n =>
      if rename_allowed (fs w) f target
      then (Normal tt,
            add_log {| level := INFO; text := "Moved file to: " +:+ getAbsolutePath target;
                       cause := None |}
              (set_fs (renamed (fs w) f target n) w))
      else (Normal tt,
            add_log {| level := ERROR; text := "Failed to move file: " +:+ getAbsolutePath f;
                       cause := None |}
              (set_fs (set_files (files (fs w)) (fs w)) w))
  | None =>
      (Normal tt,
       add_log {| level := ERROR; text := "Failed to move file: " +:+ getAbsolutePath f;
                  cause := None |}
         (set_fs (set_files (files (fs w)) (fs w)) w))
  end.
Proof.
  unfold Basic.moveFile, try_catch. unfold bind at 1. rewrite chooseTarget_run.
  unfold bind. rewrite renameTo_run.
  destruct (node (fs w) f) as [n|]; [|reflexivity].
  destruct (rename_allowed (fs w) f (chosenTarget w f d)); reflexivity.
Qed.

Lemma basic_moveFile_plain (file : JFile) (targetDir : string) (w : World) :
  let target := {| getParent := targetDir; getName := getName file |} in
  File_exists (fs w) target = false ->
  rename_allowed (fs w) file target = true ->
  getParent file <> targetDir ->
  (Basic.moveFile file targetDir w).1 = Normal tt
  /\ ix (Basic.moveFile file targetDir w).2 = ix w
  /\ node (fs (Basic.moveFile file targetDir w).2) target = node (fs w) file
  /\ node (fs (Basic.moveFile file targetDir w).2) file = None.
Proof.
  intros target Hfree Hallowed Hdir. rewrite basic_moveFile_run.
  assert (chosenTarget w file targetDir = target) as ->
    by (unfold chosenTarget; fold target; rewrite Hfree; reflexivity).
  destruct (rename_allowed_exists _ _ _ Hallowed) as [n En].
  cbv zeta. rewrite En, Hallowed. unfold node, renamed. simpl.
  split; [reflexivity|]. split; [reflexivity|].
  split; [rewrite lookup_insert_eq; reflexivity|].
  rewrite lookup_insert_ne; [apply lookup_delete_eq|].
  unfold path_of; simpl. intros H. inversion H. congruence.
Qed.

Lemma basic_moveFile_ix f d w :
  (Basic.moveFile f d w).1 = Normal tt
  /\ ix (Basic.moveFile f d w).2 = ix w
  /\ exists new, log (Basic.moveFile f d w).2 = log w ++ new.
Proof.
  rewrite basic_moveFile_run. cbv zeta.
  destruct (node (fs w) f) as [n|]; [destruct (rename_allowed _ _ _)|];
    simpl; repeat split; eexists; reflexivity.
Qed.

Section BasicImport.

Variable CONFIG : Config.

Lemma basic_importCheckin_stored f w i w1 :
  Basic.importCheckin CONFIG f w = (Normal i, w1) ->
  exists doc, last (sords (ix w1)) = Some doc
              /\ id doc = i
              /\ type doc = LBT_DOCUMENT
              /\ name doc = documentName f
              /\ content doc = None.
Proof.
  unfold Basic.importCheckin. intros E.
  split_bind E parent wa Ea. split_bind E d wb Eb.
  apply createSord_draft in Eb as [Cn _].
  split_bind E m wc Ec.
  apply checkinSord_stored in E as [(Hi & S & _)|(e & ? & _)]; [|discriminate].
  inversion Hi; subst i. eexists. rewrite S, last_snoc.
  split; [reflexivity|]. simpl. repeat split. exact Cn.
Qed.

Lemma basic_importUpload_thrown i f w e w' :
  Basic.importUpload i f w = (Thrown e, w') -> sords (ix w') = sords (ix w).
Proof.
  unfold Basic.importUpload. intros E.
  assert (K1 : keeps sameSords (checkinDocBegin i))
    by (apply keeps_checkinDocBegin; typeclasses eauto).
  assert (K2 : keeps sameSords (readFileToByteArray f))
    by (apply keeps_readFileToByteArray; typeclasses eauto).
  assert (K3 : forall data u, keeps sameSords (upload data u))
    by (intros data u; apply keeps_basic_upload; typeclasses eauto).
  split_bind E d w1 E1; [|exact (keeps_run _ _ _ _ _ K1 E1)].
  pose proof (keeps_run _ _ _ _ _ K1 E1) as S1. unfold sameSords in S1.
  split_bind E data w2 E2; [|rewrite <- S1; exact (keeps_run _ _ _ _ _ K2 E2)].
  pose proof (keeps_run _ _ _ _ _ K2 E2) as S2. unfold sameSords in S2.
  split_bind E ok w3 E3;
    [|rewrite <- S1, <- S2; exact (keeps_run _ _ _ _ _ (K3 _ _) E3)].
  pose proof (keeps_run _ _ _ _ _ (K3 _ _) E3) as S3. unfold sameSords in S3.
  destruct ok; [|inversion E; subst; congruence].
  split_bind E u w4 E4; [discriminate E|].
  apply checkinDocEnd_stored in E4 as [_ S4]. congruence.
Qed.

End BasicImport.

(** X23: a failure after the check-in, in the basic script.  When the Sord
    of a file is checked in and the upload of its bytes then throws, for
    whatever reason, [importFileToELO] throws the same error on and makes no
    further remote call: the Sord stays in the archive, a document named
    after the file that has no content. *)
Theorem basic_failed_upload_leaves_empty_document (CONFIG : Config) (f : JFile)
    (w w1 w2 : World) (i : Z) (e : Exn) :
  Basic.importCheckin CONFIG f w = (Normal i, w1) ->
  Basic.importUpload i f w1 = (Thrown e, w2) ->
  let run := Basic.importFileToELO CONFIG f w in
  run.1 = Thrown e
  /\ calls (ix run.2) = calls (ix w2)
  /\ sords (ix run.2) = sords (ix w1)
  /\ exists doc, last (sords (ix run.2)) = Some doc
                 /\ id doc = i
                 /\ type doc = LBT_DOCUMENT
                 /\ name doc = documentName f
                 /\ content doc = None.
Proof.
  intros E1 E2 run.
  assert (run = (Thrown e,
                 add_log {| level := ERROR;
                            text := "Error importing file to ELO: " +:+ getName f;
                            cause := Some e |} w2)) as ->.
  { subst run. unfold Basic.importFileToELO, try_catch. unfold bind at 1.
    rewrite E1, E2. reflexivity. }
  pose proof (basic_importUpload_thrown _ _ _ _ _ E2) as S.
  simpl. split; [reflexivity|]. split; [reflexivity|]. split; [exact S|].
  rewrite S. exact (basic_importCheckin_stored CONFIG _ _ _ _ E1).
Qed.

Lemma basic_failed_upload_leaves_empty_document_witness :
  let f := in_source "a.pdf" in
  let w := demo_world [Answer; Answer; Answer; Answer; Answer; Answer; Answer; ServerError]
                      [(f, plain_file pdf_bytes)] false 0 in
  let run := Basic.importFileToELO default_config f w in
  run.1 = Thrown (Error "Failed to upload file content")
  /\ map (fun s => (id s, name s, content s)) (sords (ix run.2))
     = [(2, "Eingangsrechnungen", None); (3, "a", None)]
  /\ exists doc, last (sords (ix run.2)) = Some doc /\ id doc = 3 /\ content doc = None.
Proof.
  intros f w run.
  assert (Basic.importCheckin default_config f w
          = (Normal 3, (Basic.importCheckin default_config f w).2)) as E1
    by (vm_compute; reflexivity).
  assert (Basic.importUpload 3 f (Basic.importCheckin default_config f w).2
          = (Thrown (Error "Failed to upload file content"),
             (Basic.importUpload 3 f (Basic.importCheckin default_config f w).2).2)) as E2
    by (vm_compute; reflexivity).
  destruct (basic_failed_upload_leaves_empty_document default_config f w _ _ 3 _ E1 E2)
    as (R & _ & _ & doc & L & I & _ & _ & C).
  split; [exact R|]. split; [vm_compute; reflexivity|]. exists doc. auto.
Defined.

(** X24: a workflow that does not start, in the basic script.  When the
    import of a file returned the id of its Sord and the start of the
    workflow then throws, the loop of the basic script treats the file as
    failed: it moves the file to the error directory, although the Sord of
    the file stays in the archive as it was imported. *)
Theorem basic_workflow_failure_fails_the_file (CONFIG : Config) (f : JFile)
    (w w1 w2 : World) (i : Z) (e : Exn) :
  Basic.importFileToELO CONFIG f
    (add_log {| level := INFO; text := "Processing file: " +:+ getName f; cause := None |} w)
  = (Normal i, w1) ->
  i <> 0 ->
  Basic.startWorkflow CONFIG i w1 = (Thrown e, w2) ->
  let run := Basic.processOne CONFIG f w in
  let target := {| getParent := ERROR_DIR CONFIG; getName := getName f |} in
  run.1 = Normal tt
  /\ sords (ix run.2) = sords (ix w1)
  /\ In {| level := ERROR; text := "Error processing file: " +:+ getName f;
           cause := Some e |} (log run.2)
  /\ (File_exists (fs w1) target = false ->
      rename_allowed (fs w1) f target = true ->
      getParent f <> ERROR_DIR CONFIG ->
      node (fs run.2) target = node (fs w1) f /\ node (fs run.2) f = None).
Proof.
  intros E1 Hi E2 run target.
  set (line := {| level := ERROR; text := "Error processing file: " +:+ getName f;
                  cause := Some e |}).
  assert (run = Basic.moveFile f (ERROR_DIR CONFIG) (add_log line w2)) as ->.
  { subst run. unfold Basic.processOne, try_catch, Basic.processSinglePDF.
    unfold bind at 1, logger at 1, modify at 1. unfold bind at 1. rewrite E1.
    assert (truthy i = true) as ->
      by (unfold truthy; destruct (Z.eqb_spec i 0); [contradiction|reflexivity]).
    unfold bind at 1. rewrite E2. reflexivity. }
  destruct (basic_moveFile_ix f (ERROR_DIR CONFIG) (add_log line w2)) as (R & I & new & L).
  assert (K : keeps sameStores (Basic.startWorkflow CONFIG i) -> sameStores w1 w2)
    by (intros K; exact (keeps_run _ _ _ _ _ K E2)).
  assert (S2 : sords (ix w2) = sords (ix w1)).
  { exact (keeps_run sameSords _ _ _ _
             (keeps_basic_startWorkflow sameSords CONFIG i) E2). }
  assert (F2 : fs w2 = fs w1).
  { exact (keeps_run sameFs _ _ _ _ (keeps_basic_startWorkflow sameFs CONFIG i) E2). }
  clear K.
  split; [exact R|]. split; [rewrite I; exact S2|]. split.
  - rewrite L. simpl. apply in_or_app. left. apply in_or_app. right. left. reflexivity.
  - intros X A P. rewrite <- F2 in X, A |- *.
    destruct (basic_moveFile_plain f (ERROR_DIR CONFIG) (add_log line w2) X A P)
      as (_ & _ & M1 & M2).
    split; assumption.
Qed.

Lemma basic_workflow_failure_fails_the_file_witness :
  let f := in_source "a.pdf" in
  let w := demo_world [Answer; Answer; Answer; Answer; Answer; Answer; Answer; Answer;
                       Answer; Unreachable]
                      [(f, plain_file pdf_bytes)] false 0 in
  let run := Basic.processOne default_config f w in
  map (fun s => (id s, name s, content s)) (sords (ix run.2))
  = [(2, "Eingangsrechnungen", None); (3, "a", Some pdf_bytes)]
  /\ node (fs run.2) (in_error "a.pdf") = Some (plain_file pdf_bytes)
  /\ node (fs run.2) f = None.
Proof.
  intros f w run.
  set (w0 := add_log {| level := INFO; text := "Processing file: " +:+ getName f;
                        cause := None |} w).
  assert (Basic.importFileToELO default_config f w0
          = (Normal 3, (Basic.importFileToELO default_config f w0).2)) as E1
    by (vm_compute; reflexivity).
  assert (Basic.startWorkflow default_config 3 (Basic.importFileToELO default_config f w0).2
          = (Thrown (RemoteException OpCheckoutWorkFlow Unreachable),
             (Basic.startWorkflow default_config 3
                (Basic.importFileToELO default_config f w0).2).2)) as E2
    by (vm_compute; reflexivity).
  assert (3 <> 0) as Hi by lia.
  destruct (basic_workflow_failure_fails_the_file default_config f w _ _ 3 _ E1 Hi E2)
    as (_ & _ & _ & M).
  split; [vm_compute; reflexivity|].
  assert (node (fs (Basic.importFileToELO default_config f w0).2) f
          = Some (plain_file pdf_bytes)) as <- by (vm_compute; reflexivity).
  apply M; [vm_compute; reflexivity|vm_compute; reflexivity|discriminate].
Defined.
(** ** Retrying *)

Section Retry.

Variable CONFIG : Config.

Lemma getOrCreateArchiveFolder_fails w :
  next_reply (ix w) <> Answer ->
  getOrCreateArchiveFolder CONFIG w
  = (Thrown (RemoteException OpFindFirstSords (next_reply (ix w))),
     add_log {| level := ERROR; text := "Error getting/creating archive folder";
                cause := Some (RemoteException OpFindFirstSords (next_reply (ix w))) |}
       (set_ix (record_call OpFindFirstSords (ix w)) w)).
Proof.
  intros H. unfold getOrCreateArchiveFolder, try_catch. unfold bind at 1.
  unfold findFirstSords. unfold bind at 1. rewrite ix_call_run.
  destruct (next_reply (ix w)); [congruence|reflexivity..].
Qed.

(** An import whose search for the archive folder is not answered. *)
Lemma import_fails_at_search f w :
  next_reply (ix w) <> Answer ->
  validVerdict CONFIG (fs w) f = true ->
  exists e w1,
    importFileToELOWithValidation CONFIG f w = (Thrown e, w1)
    /\ ix w1 = record_call OpFindFirstSords (ix w)
    /\ fs w1 = fs w
    /\ slept w1 = slept w.
Proof.
  intros H V.
  destruct (importFileToELOWithValidation CONFIG f w) as [r w1] eqn:E.
  unfold importFileToELOWithValidation in E.
  assert (Kv : keeps onlyLogged (validatePDFFile CONFIG f))
    by (apply keeps_validatePDFFile; typeclasses eauto).
  assert (C : forall rc wc, importCheckin CONFIG f w = (rc, wc) ->
              exists e, rc = Thrown e /\ ix wc = record_call OpFindFirstSords (ix w)
                        /\ fs wc = fs w /\ slept wc = slept w).
  { intros rc wc C. unfold importCheckin in C.
    split_bind C valid wa Ea;
      [|exfalso; exact (succeeds_run _ _ _ _ (validatePDFFile_succeeds CONFIG f) Ea)].
    pose proof (validatePDFFile_verdict CONFIG f w) as Vd. rewrite Ea, V in Vd.
    simpl in Vd. inversion Vd; subst valid. cbn [negb] in C.
    pose proof (keeps_run _ _ _ _ _ Kv Ea) as (I1 & F1 & _ & S1 & _).
    split_bind C parent wb Eb; rewrite getOrCreateArchiveFolder_fails in Eb
      by (rewrite I1; exact H); inversion Eb; subst.
    eexists. split; [reflexivity|]. simpl. rewrite I1. auto. }
  apply try_catch_inv in E as [(a & E & _)|(e & wx & E & X)].
  - split_bind E i w2 E2. destruct (C _ _ E2) as (e & ? & _). discriminate.
  - split_bind X u wy Ey; [|discriminate Ey]. apply logger_inv in Ey as [_ ->].
    inversion X; subst. exists e.
    split_bind E i w2 E2.
    + destruct (C _ _ E2) as (e' & ? & _). discriminate.
    + destruct (C _ _ E2) as (_ & _ & HI & HF & HS). eexists. split; [reflexivity|].
      simpl. auto.
Qed.

(** The first turn of the loop, when the search is not answered and
    another attempt is left. *)
Lemma first_turn_is_retried f a w :
  next_reply (ix w) <> Answer ->
  validVerdict CONFIG (fs w) f = true ->
  Z.of_nat (S a) < RETRY_ATTEMPTS CONFIG ->
  exists w',
    try_catch (importAttempt CONFIG f (S a)) (attemptFailed CONFIG f (S a)) w
    = (Normal None, w')
    /\ ix w' = record_call OpFindFirstSords (ix w)
    /\ fs w' = fs w
    /\ slept w' = slept w ++ [waitTime (S a)].
Proof.
  intros H V L.
  destruct (import_fails_at_search f (add_log (attemptLine CONFIG f (S a)) w) H V)
    as (e & w1 & E1 & I1 & F1 & S1).
  assert (Ea : importAttempt CONFIG f (S a) w = (Thrown e, w1)).
  { unfold importAttempt. unfold bind at 1, logger at 1, modify at 1.
    unfold bind at 1. unfold attemptLine in E1. rewrite E1. reflexivity. }
  unfold try_catch. rewrite Ea. unfold attemptFailed.
  apply Z.ltb_lt in L. rewrite L.
  unfold bind, logger, modify, sleep, modify. eexists. split; [reflexivity|].
  simpl. rewrite I1, F1, S1. auto.
Qed.

End Retry.

(** X25: a failure that passes.  Let the very next remote call not be
    answered and all later ones be, and let the file and the archive be as
    for a file for which nothing fails.  Then, if at least two attempts are
    configured, the first attempt fails at the search for the archive
    folder, the script waits two seconds, and the second attempt succeeds:
    the function returns true, the document with the bytes of the file is
    stored, its workflow is started and the file is moved to the processed
    directory. *)
Theorem transient_failure_is_retried (CONFIG : Config) (f : JFile) (data : list byte)
    (r : Reply) (w : World) :
  2 <= RETRY_ATTEMPTS CONFIG ->
  replies (ix w) = [r] ->
  r <> Answer ->
  0 < nextId (ix w) ->
  WORKFLOW_TEMPLATE CONFIG ∈ wfTemplates (ix w) ->
  validVerdict CONFIG (fs w) f = true ->
  readable_bytes (fs w) f = Some data ->
  let run := processSinglePDFWithRetry CONFIG f w in
  let target := {| getParent := PROCESSED_DIR CONFIG; getName := getName f |} in
  run.1 = Normal true
  /\ slept run.2 = slept w ++ [2000]
  /\ (exists later, calls (ix run.2) = calls (ix w) ++ (OpFindFirstSords, r) :: later)
  /\ (exists doc wf,
        last (sords (ix run.2)) = Some doc
        /\ type doc = LBT_DOCUMENT
        /\ name doc = documentName f
        /\ content doc = Some data
        /\ last (workflows (ix run.2)) = Some wf
        /\ wf_sord wf = id doc
        /\ wf_started wf = true)
  /\ (File_exists (fs w) target = false ->
      rename_allowed (fs w) f target = true ->
      getParent f <> PROCESSED_DIR CONFIG ->
      node (fs run.2) target = node (fs w) f /\ node (fs run.2) f = None).
Proof.
  intros HR R Hr N T V B run target.
  assert (Hn : next_reply (ix w) = r) by (unfold next_reply; rewrite R; reflexivity).
  destruct (Z.to_nat (RETRY_ATTEMPTS CONFIG)) as [|[|n]] eqn:Rn; [lia|lia|].
  destruct (first_turn_is_retried CONFIG f 0 w) as (w' & E & I' & F' & S');
    [rewrite Hn; exact Hr|exact V|lia|].
  assert (run = retryLoop CONFIG f (S n) 1 w') as ->.
  { subst run. unfold processSinglePDFWithRetry. rewrite Rn. cbn [retryLoop].
    unfold bind at 1. rewrite E. reflexivity. }
  assert (R' : replies (ix w') = []) by (rewrite I'; simpl; rewrite R; reflexivity).
  assert (N' : 0 < nextId (ix w')) by (rewrite I'; exact N).
  assert (T' : WORKFLOW_TEMPLATE CONFIG ∈ wfTemplates (ix w')) by (rewrite I'; exact T).
  rewrite <- F' in V, B.
  destruct (retryLoop_succeeds CONFIG f data n 1 w' R' N' T' V B)
    as (H1 & H2 & (doc & wf & D1 & D2 & D3 & D4 & D5 & D6 & D7 & D8) & H4).
  split; [exact H1|]. split; [rewrite H2, S'; reflexivity|]. split.
  - assert (K : keeps moreCalls (retryLoop CONFIG f (S n) 1))
      by (apply keeps_retryLoop; typeclasses eauto).
    destruct (K w') as [later L]. exists later. rewrite L, I'. simpl.
    rewrite Hn, <- app_assoc. reflexivity.
  - split; [exists doc, wf; auto 10|].
    rewrite <- F'. exact H4.
Qed.

Lemma transient_failure_is_retried_witness :
  let f := in_source "a.pdf" in
  let w := demo_world [Unreachable] [(f, plain_file pdf_bytes)] false 0 in
  let run := processSinglePDFWithRetry default_config f w in
  run.1 = Normal true
  /\ slept run.2 = [2000]
  /\ node (fs run.2) (in_processed "a.pdf") = Some (plain_file pdf_bytes).
Proof.
  intros f w run.
  assert (2 <= RETRY_ATTEMPTS default_config) as HR by (simpl; lia).
  assert (replies (ix w) = [Unreachable]) as R by reflexivity.
  assert (Unreachable <> Answer) as Hr by discriminate.
  assert (0 < nextId (ix w)) as N by (simpl; lia).
  assert (WORKFLOW_TEMPLATE default_config ∈ wfTemplates (ix w)) as T by constructor.
  assert (validVerdict default_config (fs w) f = true) as V by (vm_compute; reflexivity).
  assert (readable_bytes (fs w) f = Some pdf_bytes) as B by (vm_compute; reflexivity).
  destruct (transient_failure_is_retried default_config f pdf_bytes _ w HR R Hr N T V B)
    as (H1 & H2 & _ & _ & H5).
  split; [exact H1|]. split; [exact H2|].
  assert (node (fs w) f = Some (plain_file pdf_bytes)) as <- by (vm_compute; reflexivity).
  apply H5; [vm_compute; reflexivity|vm_compute; reflexivity|discriminate].
Defined.

(** ** Exceptions stay inside *)

Lemma processPDFFiles_succeeds (CONFIG : Config) : succeeds (processPDFFiles CONFIG).
Proof.
  unfold processPDFFiles.
  apply succeeds_bind; [intros w; eexists; reflexivity|intros t].
  apply succeeds_bind; [apply succeeds_modify|intros _].
  apply succeeds_try_catch. intros e.
  apply succeeds_bind; [apply succeeds_logger|intros _; apply succeeds_modify].
Qed.

(** X26: exceptions stay inside.  Whatever the archive and the file system
    do, a cycle and the service with any number of cycles return normally:
    every exception is caught and logged on the way. *)
Theorem no_exception_escapes (CONFIG : Config) (n : nat) (w : World) :
  (processPDFFiles CONFIG w).1 = Normal tt
  /\ (main CONFIG n w).1 = Normal tt.
Proof.
  split; [apply succeeds_unit, processPDFFiles_succeeds|].
  apply succeeds_unit. rewrite main_unfold.
  apply succeeds_bind; [apply banner_succeeds|intros _].
  apply succeeds_bind; [apply validateELOConnection_succeeds|intros c].
  destruct (negb c); [apply succeeds_logger|].
  apply succeeds_bind; [apply processPDFFiles_succeeds|intros _].
  apply succeeds_bind; [apply succeeds_logger|intros _].
  induction n as [|n' IH]; simpl; [apply succeeds_ret|].
  apply succeeds_bind; [apply processPDFFiles_succeeds|intros _; exact IH].
Qed.
(** ** The archive folder, found before it is created *)

#[global] Instance sameIndex_preorder : PreOrder sameIndex.
Proof. split; [intros w; reflexivity|intros a b c H1 H2; unfold sameIndex in *; congruence]. Qed.
#[global] Instance sameIndex_log : OverLog sameIndex.
Proof. intros w e _. reflexivity. Qed.
#[global] Instance sameIndex_calls : OverCalls sameIndex.
Proof. intros w op. reflexivity. Qed.
#[global] Instance sameIndex_sords : OverSords sameIndex.
Proof. intros w l n. reflexivity. Qed.
#[global] Instance sameIndex_staged : OverStaged sameIndex.
Proof. intros w m. reflexivity. Qed.
#[global] Instance sameIndex_workflows : OverWorkflows sameIndex.
Proof. intros w l. reflexivity. Qed.
#[global] Instance sameIndex_fs : OverFs sameIndex.
Proof. intros w a. reflexivity. Qed.
#[global] Instance sameIndex_sleep : OverSleep sameIndex.
Proof. intros w a. reflexivity. Qed.
#[global] Instance sameIndex_stats : OverStats sameIndex.
Proof. intros w a. reflexivity. Qed.

Lemma sords_named_elem key a s :
  s ∈ sords_named key a <-> index a key s = true /\ s ∈ sords a.
Proof. unfold sords_named. rewrite list_elem_of_filter. reflexivity. Qed.

Lemma sords_named_more key a b added :
  index b = index a -> sords b = sords a ++ added ->
  sords_named key b = sords_named key a ++ filter (fun s => index a key s = true) added.
Proof. intros X S. unfold sords_named. rewrite X, S, filter_app. reflexivity. Qed.

Lemma nonempty_elem {A} (l : list A) : l <> [] -> exists x, x ∈ l.
Proof. destruct l as [|x l]; [congruence|]. intros _. exists x. constructor. Qed.

Lemma elem_nonempty {A} (l : list A) x : x ∈ l -> l <> [].
Proof. intros H ->. inversion H. Qed.

Lemma foldersOf_app l1 l2 : foldersOf (l1 ++ l2) = foldersOf l1 ++ foldersOf l2.
Proof. unfold foldersOf. apply filter_app. Qed.

Lemma foldersOf_elem l s : s ∈ foldersOf l <-> type s = LBT_FOLDER /\ s ∈ l.
Proof. unfold foldersOf. rewrite list_elem_of_filter. reflexivity. Qed.

Lemma foldersOf_documents l :
  Forall (fun s => type s = LBT_DOCUMENT) l -> foldersOf l = [].
Proof.
  induction 1 as [|s l Hs _ IH]; [reflexivity|].
  unfold foldersOf in *. rewrite filter_cons_False by congruence. exact IH.
Qed.

Section Found.

Variable CONFIG : Config.

(** Nothing stored, nothing created. *)
Lemma foundBeforeCreated_same w w' :
  sords (ix w') = sords (ix w) -> nextId (ix w') = nextId (ix w) ->
  index (ix w') = index (ix w) -> foundBeforeCreated CONFIG w w'.
Proof.
  intros S N X I F. split; [unfold idsBelowNext; rewrite S, N; exact I|].
  split; [exact X|]. exists []. rewrite app_nil_r. split; [exact S|].
  split; [simpl; lia|]. split; [reflexivity|constructor].
Qed.

#[global] Instance foundBeforeCreated_preorder : PreOrder (foundBeforeCreated CONFIG).
Proof.
  split; [intros w; apply foundBeforeCreated_same; reflexivity|].
  intros a b c Hab Hbc Ia Fa.
  destruct (Hab Ia Fa) as (Ib & Xb & added1 & S1 & L1 & N1 & Q1).
  assert (findsItsFolder CONFIG (ix b)) as Fb
    by (unfold findsItsFolder; rewrite Xb; exact Fa).
  destruct (Hbc Ib Fb) as (Ic & Xc & added2 & S2 & L2 & N2 & Q2).
  split; [exact Ic|]. split; [congruence|].
  exists (added1 ++ added2). split; [rewrite S2, S1, app_assoc; reflexivity|].
  rewrite foldersOf_app.
  assert (foldersOf added1 = []
          \/ sords_named (ARCHIVE_PATH CONFIG) (ix b) <> []) as Hcase.
  { destruct (foldersOf added1) as [|f rest] eqn:Ef; [left; reflexivity|right].
    assert (f ∈ foldersOf added1) as Hf by (rewrite Ef; constructor).
    apply foldersOf_elem in Hf as [_ Hf].
    apply (elem_nonempty _ f). apply sords_named_elem. split.
    - inversion Q1; assumption.
    - rewrite S1. apply elem_of_app. right. exact Hf. }
  split; [|split].
  - destruct Hcase as [->|Hne]; [exact L2|].
    rewrite (N2 Hne), app_nil_r. exact L1.
  - intros Hne. rewrite (N1 Hne). apply N2.
    apply nonempty_elem in Hne as [s Hs]. apply (elem_nonempty _ s).
    apply sords_named_elem in Hs as [Hi Hs]. apply sords_named_elem.
    split; [rewrite Xb; exact Hi|rewrite S1; apply elem_of_app; left; exact Hs].
  - apply Forall_app. split; [|exact Q2].
    eapply Forall_impl; [exact Q1|]. simpl. intros s Hs. rewrite Xc. exact Hs.
Qed.

#[global] Instance foundBeforeCreated_log : OverLog (foundBeforeCreated CONFIG).
Proof. intros w e _. apply foundBeforeCreated_same; reflexivity. Qed.
#[global] Instance foundBeforeCreated_calls : OverCalls (foundBeforeCreated CONFIG).
Proof. intros w op. apply foundBeforeCreated_same; reflexivity. Qed.
#[global] Instance foundBeforeCreated_staged : OverStaged (foundBeforeCreated CONFIG).
Proof. intros w m. apply foundBeforeCreated_same; reflexivity. Qed.
#[global] Instance foundBeforeCreated_workflows : OverWorkflows (foundBeforeCreated CONFIG).
Proof. intros w l. apply foundBeforeCreated_same; reflexivity. Qed.
#[global] Instance foundBeforeCreated_fs : OverFs (foundBeforeCreated CONFIG).
Proof. intros w a. apply foundBeforeCreated_same; reflexivity. Qed.
#[global] Instance foundBeforeCreated_sleep : OverSleep (foundBeforeCreated CONFIG).
Proof. intros w a. apply foundBeforeCreated_same; reflexivity. Qed.
#[global] Instance foundBeforeCreated_stats : OverStats (foundBeforeCreated CONFIG).
Proof. intros w a. apply foundBeforeCreated_same; reflexivity. Qed.

Lemma findFirstSords_inv key max w r w' :
  findFirstSords key max w = (r, w') ->
  sameStored w w'
  /\ forall l, r = Normal l -> l = take max (sords_named key (ix w)).
Proof.
  unfold findFirstSords, bind at 1. rewrite ix_call_run.
  destruct (next_reply (ix w)); intros E; inversion E; subst;
    (split; [split; reflexivity|]); intros l Hl; inversion Hl; reflexivity.
Qed.

Lemma createSord_inv p w s w' :
  createSord p w = (Normal s, w') ->
  s = {| id := -1; parentId := p; name := ""; mask := None; type := LBT_NONE;
         desc := ""; content := None |}
  /\ sameStored w w'.
Proof.
  unfold createSord, bind at 1. rewrite ix_call_run.
  destruct (next_reply (ix w)); intros E; inversion E; subst.
  split; [reflexivity|split; reflexivity].
Qed.

(** The folder that the script makes for the archive path, under the id
    [i]. *)
Lemma getOrCreateArchiveFolder_run w r w' :
  getOrCreateArchiveFolder CONFIG w = (r, w') ->
  (sameStored w w'
   /\ forall i, r = Normal i ->
        exists s rest, sords_named (ARCHIVE_PATH CONFIG) (ix w) = s :: rest /\ i = id s)
  \/ (sords_named (ARCHIVE_PATH CONFIG) (ix w) = []
      /\ r = Normal (nextId (ix w))
      /\ nextId (ix w') = nextId (ix w) + 1
      /\ sords (ix w')
         = sords (ix w)
           ++ [{| id := nextId (ix w); parentId := 1;
                  name := Js.substring_from (ARCHIVE_PATH CONFIG) 1; mask := None;
                  type := LBT_FOLDER;
                  desc := "Created by PDFImportService for invoice imports";
                  content := None |}]).
Proof.
  intros E. unfold getOrCreateArchiveFolder in E.
  assert (forall v e, sameStored v (add_log e v)) as Klog by (intros; split; reflexivity).
  apply try_catch_inv in E as [(i & E & ->)|(e & wx & E & H)].
  - split_bind E found w1 E1. apply findFirstSords_inv in E1 as [K1 Hfound].
    specialize (Hfound found eq_refl). destruct found as [|s l].
    + right.
      assert (sords_named (ARCHIVE_PATH CONFIG) (ix w) = []) as Hnone
        by (destruct (sords_named _ _); [reflexivity|discriminate Hfound]).
      split_bind E u w2 E2. apply logger_inv in E2 as [_ ->].
      split_bind E d w3 E3. apply createSord_inv in E3 as [-> K3]. cbv zeta in E.
      split_bind E j w4 E4.
      apply checkinSord_stored in E4 as [(Hj & S4 & N4)|(e & ? & _)]; [|discriminate].
      inversion Hj; subst j; clear Hj.
      split_bind E u' w5 E5. apply logger_inv in E5 as [_ ->]. inversion E; subst; clear E.
      destruct K1 as [S1 N1]. destruct K3 as [S3 N3]. cbn [ix add_log sords nextId] in *.
      split; [exact Hnone|]. split; [congruence|]. split; [congruence|].
      rewrite S4, S3, S1, N3, N1. reflexivity.
    + left. split_bind E u w2 E2. apply logger_inv in E2 as [_ ->].
      inversion E; subst; clear E. split; [etransitivity; [exact K1|apply Klog]|].
      intros i Hi. inversion Hi; subst i.
      destruct (sords_named (ARCHIVE_PATH CONFIG) (ix w)) as [|s' rest];
        [discriminate Hfound|].
      exists s', rest. split; [reflexivity|]. inversion Hfound. reflexivity.
  - left. split_bind H u wy Ey; [|discriminate Ey]. apply logger_inv in Ey as [_ ->].
    inversion H; subst; clear H. split; [|intros i Hi; discriminate Hi].
    etransitivity; [|apply Klog].
    split_bind E found w1 E1; [|apply findFirstSords_inv in E1 as [K1 _]; exact K1].
    apply findFirstSords_inv in E1 as [K1 _]. destruct found as [|s l].
    + split_bind E v2 w2 E2; [|discriminate E2]. apply logger_inv in E2 as [_ ->].
      assert (sameStored w (add_log {| level := INFO;
                text := "Creating archive folder: " +:+ ARCHIVE_PATH CONFIG;
                cause := None |} w1)) as K2 by (etransitivity; [exact K1|apply Klog]).
      split_bind E d w3 E3.
      * apply createSord_inv in E3 as [-> K3]. cbv zeta in E.
        split_bind E j w4 E4.
        -- split_bind E v5 w5 E5; [inversion E|].
           apply logger_inv in E5 as [? _]. discriminate.
        -- apply checkinSord_stored in E4 as [(? & _)|(e' & _ & K4)]; [discriminate|].
           etransitivity; [exact K2|]. etransitivity; [exact K3|exact K4].
      * etransitivity; [exact K2|].
        exact (keeps_run sameStored _ _ _ _ (keeps_createSord sameStored 1) E3).
    + split_bind E v2 w2 E2; [inversion E|].
      apply logger_inv in E2 as [? _]. discriminate.
Qed.

(** The resolution step creates a folder only when the search found none,
    and the search finds what it created. *)
Lemma getOrCreateArchiveFolder_found :
  keeps (foundBeforeCreated CONFIG) (getOrCreateArchiveFolder CONFIG).
Proof.
  intros w. destruct (getOrCreateArchiveFolder CONFIG w) as [r w'] eqn:E. cbn [snd].
  pose proof (keeps_run sameIndex _ _ _ _
                (keeps_getOrCreateArchiveFolder sameIndex CONFIG) E) as X.
  apply getOrCreateArchiveFolder_run in E as [([S N] & _)|(Hnone & _ & N & S)].
  - apply foundBeforeCreated_same; assumption.
  - intros I F. split.
    { unfold idsBelowNext. rewrite S, N. apply Forall_app. split.
      - eapply Forall_impl; [exact I|]. simpl. intros; lia.
      - constructor; [simpl; lia|constructor]. }
    split; [exact X|]. eexists. split; [exact S|].
    unfold foldersOf. rewrite filter_cons_True by reflexivity. rewrite filter_nil.
    split; [simpl; lia|]. split; [intros H; contradiction|].
    constructor; [|constructor]. rewrite X. apply F; reflexivity.
Qed.

End Found.

(** Setting the content of the Sord with the id [i] leaves the Sords with
    smaller ids as they are. *)
Lemma map_other_ids (l : list Sord) (i : Z) (g : Sord -> Sord) :
  Forall (fun s => id s < i) l ->
  map (fun s => if id s =? i then g s else s) l = l.
Proof.
  induction 1 as [|s l Hs _ IH]; [reflexivity|]. cbn [map].
  destruct (Z.eqb_spec (id s) i); [lia|]. rewrite IH. reflexivity.
Qed.

(** [importCheckin] for a relation that the resolution of the folder
    keeps: it holds up to a world from which only the document is checked
    in. *)
Section CheckinKept.

Context (T : World -> World -> Prop) `{!PreOrder T, !OverLog T, !OverCalls T}.
Variable CONFIG : Config.
Hypothesis folder_kept : keeps T (getOrCreateArchiveFolder CONFIG).

Lemma importCheckin_kept f w r w1 :
  importCheckin CONFIG f w = (r, w1) ->
  exists w0,
    T w w0
    /\ ((exists e, r = Thrown e /\ sameStored w0 w1)
        \/ (exists doc,
              r = Normal (nextId (ix w0))
              /\ sords (ix w1) = sords (ix w0) ++ [with_id (nextId (ix w0)) doc]
              /\ nextId (ix w1) = nextId (ix w0) + 1
              /\ type doc = LBT_DOCUMENT)).
Proof.
  intros E.
  assert (Kv : keeps T (validatePDFFile CONFIG f))
    by (apply keeps_validatePDFFile; typeclasses eauto).
  assert (Kc : forall p, keeps T (createSord p))
    by (intros p; apply keeps_createSord; typeclasses eauto).
  assert (Km : keeps T (getMaskId (METADATA_MASK CONFIG)))
    by (apply keeps_getMaskId; typeclasses eauto).
  assert (Ks : forall s, keeps T
                (try_catch (setCustomMetadata s f)
                   (fun metaError =>
                      logger WARN "Failed to set custom metadata, continuing with basic import"
                             (Some metaError)))).
  { intros s. apply keeps_try_catch; [typeclasses eauto| |intros e; keeps_auto].
    apply keeps_setCustomMetadata; typeclasses eauto. }
  unfold importCheckin in E.
  split_bind E valid wa Ea;
    [|exists w1; split; [exact (keeps_run _ _ _ _ _ Kv Ea)|left; eexists; split; reflexivity]].
  pose proof (keeps_run _ _ _ _ _ Kv Ea) as Ha.
  destruct valid; simpl in E;
    [|inversion E; subst; exists w1; split; [exact Ha|left; eexists; split; reflexivity]].
  split_bind E parent wb Eb;
    [|exists w1; split;
      [etransitivity; [exact Ha|exact (keeps_run _ _ _ _ _ folder_kept Eb)]
      |left; eexists; split; reflexivity]].
  pose proof (keeps_run _ _ _ _ _ folder_kept Eb) as Hb.
  split_bind E sord wc Ec;
    [|exists w1; split; [pose proof (keeps_run _ _ _ _ _ (Kc parent) Ec); chain
                        |left; eexists; split; reflexivity]].
  pose proof (keeps_run _ _ _ _ _ (Kc parent) Ec) as Hc.
  split_bind E maskId wd Ed;
    [|exists w1; split; [pose proof (keeps_run _ _ _ _ _ Km Ed); chain
                        |left; eexists; split; reflexivity]].
  pose proof (keeps_run _ _ _ _ _ Km Ed) as Hd.
  split_bind E t we Ee; [|discriminate Ee]. inversion Ee; subst we t; clear Ee.
  split_bind E u wf Ef;
    [|exists w1; split; [pose proof (keeps_run _ _ _ _ _ (Ks _) Ef); chain
                        |left; eexists; split; reflexivity]].
  pose proof (keeps_run _ _ _ _ _ (Ks _) Ef) as Hf.
  exists wf. split; [chain|].
  apply checkinSord_stored in E as [(-> & S & N)|(e & -> & K)].
  - right. eexists. split; [reflexivity|]. split; [exact S|]. split; [exact N|]. reflexivity.
  - left. eauto.
Qed.

End CheckinKept.

Section ImportFound.

Variable CONFIG : Config.

(** Documents that come after the Sords of [v], under ids that [v] had not
    given out, add no folder. *)
Lemma found_then_documents w v v' docs :
  foundBeforeCreated CONFIG w v ->
  sords (ix v') = sords (ix v) ++ docs ->
  Forall (fun s => type s = LBT_DOCUMENT /\ id s < nextId (ix v')) docs ->
  nextId (ix v) <= nextId (ix v') ->
  index (ix v') = index (ix w) ->
  foundBeforeCreated CONFIG w v'.
Proof.
  intros Hv S D N X I F. destruct (Hv I F) as (Iv & Xv & added & Sv & L & Nn & Q).
  split.
  { unfold idsBelowNext. rewrite S. apply Forall_app. split.
    - eapply Forall_impl; [exact Iv|]. simpl. intros; lia.
    - eapply Forall_impl; [exact D|]. simpl. tauto. }
  split; [exact X|]. exists (added ++ docs).
  split; [rewrite S, Sv, app_assoc; reflexivity|].
  rewrite foldersOf_app.
  rewrite (foldersOf_documents docs) by (eapply Forall_impl; [exact D|]; simpl; tauto).
  rewrite app_nil_r. split; [exact L|]. split; [exact Nn|].
  rewrite X, <- Xv. exact Q.
Qed.

Lemma import_body_found f w r w' :
  bind (importCheckin CONFIG f) (fun sordId => importUpload sordId f) w = (r, w') ->
  foundBeforeCreated CONFIG w w'.
Proof.
  intros E.
  assert (index (ix w') = index (ix w)) as X.
  { assert (keeps sameIndex (bind (importCheckin CONFIG f)
                               (fun sordId => importUpload sordId f))) as K.
    { apply keeps_bind; [typeclasses eauto|apply keeps_importCheckin; typeclasses eauto|].
      intros i. apply keeps_importUpload; typeclasses eauto. }
    exact (keeps_run sameIndex _ _ _ _ K E). }
  apply bind_inv in E as [(i & w1 & E1 & E2)|(e & E1 & _)].
  - apply (importCheckin_kept (foundBeforeCreated CONFIG) CONFIG
             (getOrCreateArchiveFolder_found CONFIG)) in E1
      as (w0 & T0 & [(e & ? & _)|(doc & Hi & S & N & Ht)]); [discriminate|].
    inversion Hi; subst i; clear Hi.
    intros I F. destruct (T0 I F) as (I0 & _). revert I F.
    change (foundBeforeCreated CONFIG w w').
    apply importUpload_inv in E2 as (b & w2 & Eu & H).
    apply uploadPDFFile_stored in Eu as (_ & N2 & S2). destruct b.
    + destruct H as [_ ->]. destruct S2 as (data & _ & S2).
      rewrite S, map_app, map_other_ids in S2 by exact I0. cbn [map id with_id] in S2.
      rewrite Z.eqb_refl in S2.
      eapply found_then_documents; [exact T0|exact S2| |lia|exact X].
      constructor; [|constructor]. split; [exact Ht|simpl; lia].
    + destruct H as (e & _ & <-).
      match type of X with index (ix ?x) = _ => set (wd := x) in * end.
      assert (nextId (ix wd) = nextId (ix w2)
              /\ (sords (ix wd) = sords (ix w0) ++ []
                  \/ sords (ix wd) = sords (ix w0) ++ [with_id (nextId (ix w0)) doc]))
        as [Nd Sd].
      { subst wd. unfold try_catch. rewrite deleteSord_run.
        destruct (next_reply (ix w2)) eqn:R; simpl; (split; [reflexivity|]).
        - left. rewrite S2, S, filter_app, filter_other_ids by exact I0.
          rewrite filter_cons_False by (simpl; lia). reflexivity.
        - right. rewrite S2, S. reflexivity.
        - right. rewrite S2, S. reflexivity. }
      destruct Sd as [Sd|Sd].
      * eapply found_then_documents; [exact T0|exact Sd|constructor|lia|exact X].
      * eapply found_then_documents; [exact T0|exact Sd| |lia|exact X].
        constructor; [|constructor]. split; [exact Ht|simpl; lia].
  - apply (importCheckin_kept (foundBeforeCreated CONFIG) CONFIG
             (getOrCreateArchiveFolder_found CONFIG)) in E1
      as (w0 & T0 & [(e' & _ & [S N])|(doc & ? & _)]); [|discriminate].
    apply (found_then_documents w w0 w' []); [exact T0| |constructor|lia|exact X].
    rewrite app_nil_r. exact S.
Qed.

(** An import keeps the relation: after the resolution of the folder it
    stores, changes and deletes nothing but its own document. *)
Lemma import_found f :
  keeps (foundBeforeCreated CONFIG) (importFileToELOWithValidation CONFIG f).
Proof.
  intros w. destruct (importFileToELOWithValidation CONFIG f w) as [r w'] eqn:E.
  cbn [snd]. unfold importFileToELOWithValidation in E.
  apply try_catch_inv in E as [(i & E & _)|(e & wx & E & H)].
  - eapply import_body_found, E.
  - apply import_body_found in E.
    split_bind H u wy Ey; [|discriminate Ey]. apply logger_inv in Ey as [_ ->].
    inversion H; subst; clear H. etransitivity; [exact E|].
    apply foundBeforeCreated_same; reflexivity.
Qed.

End ImportFound.

(** The frames of a run and of the service, for a relation that an import
    keeps and that lets every log line through. *)
Section Cycles.

Context (T : World -> World -> Prop)
  `{!PreOrder T, !OverLog T, !OverCalls T, !OverWorkflows T, !OverSleep T, !OverFs T,
    !OverStats T}.
Variable CONFIG : Config.
Hypothesis any_line : forall w e, T w (add_log e w).
Hypothesis import_kept : forall f, keeps T (importFileToELOWithValidation CONFIG f).

Lemma kept_logger l t c : keeps T (logger l t c).
Proof. unfold logger. apply keeps_modify. intros w. apply any_line. Qed.

Lemma kept_importAttempt f a : keeps T (importAttempt CONFIG f a).
Proof.
  unfold importAttempt, moveFileToProcessedDir.
  apply keeps_bind; [typeclasses eauto|apply kept_logger|intros _].
  apply keeps_bind; [typeclasses eauto|apply import_kept|intros i].
  destruct (truthy i); [|apply keeps_throw; typeclasses eauto].
  apply keeps_bind; [typeclasses eauto| |intros _].
  { apply keeps_try_catch; [typeclasses eauto| |intros e; apply kept_logger].
    apply keeps_startWorkflowWithRetry; typeclasses eauto. }
  apply keeps_bind; [typeclasses eauto|apply keeps_moveFile; typeclasses eauto|intros _].
  apply keeps_bind; [typeclasses eauto|apply kept_logger|intros _].
  apply keeps_ret; typeclasses eauto.
Qed.

Lemma kept_retryLoop f n : forall a, keeps T (retryLoop CONFIG f n a).
Proof.
  induction n as [|n IH]; intros a; cbn [retryLoop].
  - apply keeps_giveUp; typeclasses eauto.
  - apply keeps_bind; [typeclasses eauto| |intros [b|]; [apply keeps_ret; typeclasses eauto|apply IH]].
    apply keeps_try_catch; [typeclasses eauto|apply kept_importAttempt|intros e].
    apply keeps_attemptFailed; typeclasses eauto.
Qed.

Lemma kept_processOne f : keeps T (processOne CONFIG f).
Proof.
  unfold processOne, moveFileToErrorDir.
  apply keeps_try_catch; [typeclasses eauto| |intros e].
  - apply keeps_bind; [typeclasses eauto|apply kept_retryLoop|intros b].
    destruct b; (apply keeps_bind; [typeclasses eauto|apply keeps_count; typeclasses eauto|
                                    intros _; apply keeps_ret; typeclasses eauto]).
  - apply keeps_bind; [typeclasses eauto|apply kept_logger|intros _].
    apply keeps_bind; [typeclasses eauto|apply keeps_moveFile; typeclasses eauto|intros _].
    apply keeps_bind; [typeclasses eauto|apply keeps_count; typeclasses eauto|intros _].
    apply keeps_ret; typeclasses eauto.
Qed.

Lemma kept_processEach l : forall s e, keeps T (processEach CONFIG l s e).
Proof.
  induction l as [|f l IH]; intros s e; cbn [processEach]; [apply keeps_ret; typeclasses eauto|].
  apply keeps_bind; [typeclasses eauto|apply kept_processOne|intros b]. destruct b; apply IH.
Qed.

Lemma kept_logStatistics : keeps T logStatistics.
Proof.
  unfold logStatistics.
  apply keeps_bind; [typeclasses eauto|apply keeps_getTime; typeclasses eauto|intros t].
  apply keeps_bind; [typeclasses eauto|apply keeps_get_stats; typeclasses eauto|intros st].
  cbv zeta.
  repeat (apply keeps_bind; [typeclasses eauto|apply kept_logger|intros _]).
  apply kept_logger.
Qed.

Lemma kept_processPDFFiles : keeps T (processPDFFiles CONFIG).
Proof.
  unfold processPDFFiles.
  apply keeps_bind; [typeclasses eauto|apply keeps_getTime; typeclasses eauto|intros t].
  apply keeps_bind; [typeclasses eauto|apply keeps_count; typeclasses eauto|intros _].
  apply keeps_try_catch; [typeclasses eauto| |intros e].
  2:{ apply keeps_bind; [typeclasses eauto|apply kept_logger|intros _].
      apply keeps_count; typeclasses eauto. }
  unfold runBody.
  apply keeps_bind; [typeclasses eauto|apply keeps_get_stats; typeclasses eauto|intros st].
  apply keeps_bind; [typeclasses eauto|apply kept_logger|intros _].
  apply keeps_bind; [typeclasses eauto|apply keeps_validateELOConnection; typeclasses eauto|].
  intros connected. destruct (negb connected); [apply kept_logger|].
  apply keeps_bind; [typeclasses eauto|apply keeps_ensureDirectoriesExist; typeclasses eauto|].
  intros _.
  apply keeps_bind; [typeclasses eauto|apply keeps_getValidPDFFiles; typeclasses eauto|].
  intros l. destruct l as [|f0 l]; [apply kept_logger|].
  unfold processFound.
  apply keeps_bind; [typeclasses eauto|apply kept_logger|intros _].
  apply keeps_bind; [typeclasses eauto|apply kept_processEach|intros counts].
  apply keeps_bind; [typeclasses eauto|apply keeps_getTime; typeclasses eauto|intros t'].
  cbv zeta.
  apply keeps_bind; [typeclasses eauto|apply kept_logger|intros _].
  unfold summarise.
  apply keeps_bind; [typeclasses eauto|apply keeps_get_stats; typeclasses eauto|intros st'].
  destruct (_ =? 0); [apply kept_logStatistics|apply keeps_ret; typeclasses eauto].
Qed.

Lemma kept_intervalRuns n : keeps T (intervalRuns CONFIG n).
Proof.
  induction n as [|n IH]; cbn [intervalRuns]; [apply keeps_ret; typeclasses eauto|].
  apply keeps_bind; [typeclasses eauto|apply kept_processPDFFiles|intros _; exact IH].
Qed.

Lemma kept_main n : keeps T (main CONFIG n).
Proof.
  rewrite main_unfold.
  apply keeps_bind; [typeclasses eauto|apply keeps_banner; typeclasses eauto|intros _].
  apply keeps_bind; [typeclasses eauto|apply keeps_validateELOConnection; typeclasses eauto|].
  intros connected. destruct (negb connected); [apply kept_logger|].
  apply keeps_bind; [typeclasses eauto|apply kept_processPDFFiles|intros _].
  apply keeps_bind; [typeclasses eauto|apply kept_logger|intros _].
  apply kept_intervalRuns.
Qed.

End Cycles.

(** The basic script resolves the folder in the same way. *)
Section BasicFound.

Variable CONFIG : Config.

Lemma basic_getOrCreateArchiveFolder_run w r w' :
  Basic.getOrCreateArchiveFolder CONFIG w = (r, w') ->
  (sameStored w w'
   /\ forall i, r = Normal i ->
        exists s rest, sords_named (ARCHIVE_PATH CONFIG) (ix w) = s :: rest /\ i = id s)
  \/ (sords_named (ARCHIVE_PATH CONFIG) (ix w) = []
      /\ r = Normal (nextId (ix w))
      /\ nextId (ix w') = nextId (ix w) + 1
      /\ sords (ix w')
         = sords (ix w)
           ++ [{| id := nextId (ix w); parentId := 1;
                  name := Js.substring_from (ARCHIVE_PATH CONFIG) 1; mask := None;
                  type := LBT_FOLDER; desc := ""; content := None |}]).
Proof.
  intros E. unfold Basic.getOrCreateArchiveFolder in E.
  assert (forall v e, sameStored v (add_log e v)) as Klog by (intros; split; reflexivity).
  apply try_catch_inv in E as [(i & E & ->)|(e & wx & E & H)].
  - split_bind E found w1 E1. apply findFirstSords_inv in E1 as [K1 Hfound].
    specialize (Hfound found eq_refl). destruct found as [|s l].
    + right.
      assert (sords_named (ARCHIVE_PATH CONFIG) (ix w) = []) as Hnone
        by (destruct (sords_named _ _); [reflexivity|discriminate Hfound]).
      split_bind E d w3 E3. apply createSord_inv in E3 as [-> K3]. cbv zeta in E.
      apply checkinSord_stored in E as [(Hj & S4 & N4)|(e & ? & _)]; [|discriminate].
      inversion Hj; subst i; clear Hj.
      destruct K1 as [S1 N1]. destruct K3 as [S3 N3].
      split; [exact Hnone|]. split; [congruence|]. split; [congruence|].
      rewrite S4, S3, S1, N3, N1. reflexivity.
    + left. inversion E; subst; clear E. split; [exact K1|].
      intros i Hi. inversion Hi; subst i.
      destruct (sords_named (ARCHIVE_PATH CONFIG) (ix w)) as [|s' rest];
        [discriminate Hfound|].
      exists s', rest. split; [reflexivity|]. inversion Hfound. reflexivity.
  - left. split_bind H u wy Ey; [|discriminate Ey]. apply logger_inv in Ey as [_ ->].
    inversion H; subst; clear H. split; [|intros i Hi; discriminate Hi].
    etransitivity; [|apply Klog].
    split_bind E found w1 E1; [|apply findFirstSords_inv in E1 as [K1 _]; exact K1].
    apply findFirstSords_inv in E1 as [K1 _]. destruct found as [|s l]; [|inversion E].
    split_bind E d w3 E3.
    + apply createSord_inv in E3 as [-> K3]. cbv zeta in E.
      apply checkinSord_stored in E as [(? & _)|(e' & _ & K4)]; [discriminate|].
      etransitivity; [exact K1|]. etransitivity; [exact K3|exact K4].
    + etransitivity; [exact K1|].
      exact (keeps_run sameStored _ _ _ _ (keeps_createSord sameStored 1) E3).
Qed.

Lemma basic_getOrCreateArchiveFolder_index :
  keeps sameIndex (Basic.getOrCreateArchiveFolder CONFIG).
Proof.
  apply keeps_basic_getOrCreateArchiveFolder; try typeclasses eauto.
  intros s. apply keeps_checkinSord; typeclasses eauto.
Qed.

Lemma basic_getOrCreateArchiveFolder_found :
  keeps (foundBeforeCreated CONFIG) (Basic.getOrCreateArchiveFolder CONFIG).
Proof.
  intros w. destruct (Basic.getOrCreateArchiveFolder CONFIG w) as [r w'] eqn:E. cbn [snd].
  pose proof (keeps_run sameIndex _ _ _ _ basic_getOrCreateArchiveFolder_index E) as X.
  apply basic_getOrCreateArchiveFolder_run in E as [([S N] & _)|(Hnone & _ & N & S)].
  - apply foundBeforeCreated_same; assumption.
  - intros I F. split.
    { unfold idsBelowNext. rewrite S, N. apply Forall_app. split.
      - eapply Forall_impl; [exact I|]. simpl. intros; lia.
      - constructor; [simpl; lia|constructor]. }
    split; [exact X|]. eexists. split; [exact S|].
    unfold foldersOf. rewrite filter_cons_True by reflexivity. rewrite filter_nil.
    split; [simpl; lia|]. split; [intros H; contradiction|].
    constructor; [|constructor]. rewrite X. apply F; reflexivity.
Qed.

Lemma basic_importUpload_sords i f w r w' :
  Basic.importUpload i f w = (r, w') ->
  nextId (ix w') = nextId (ix w)
  /\ (sords (ix w') = sords (ix w)
      \/ exists c, sords (ix w')
                   = map (fun s => if id s =? i then with_content c s else s)
                         (sords (ix w))).
Proof.
  unfold Basic.importUpload. intros E.
  assert (K1 : keeps sameStored (checkinDocBegin i))
    by (apply keeps_checkinDocBegin; typeclasses eauto).
  assert (K2 : keeps sameStored (readFileToByteArray f))
    by (apply keeps_readFileToByteArray; typeclasses eauto).
  assert (K3 : forall data u, keeps sameStored (upload data u))
    by (intros data u; unfold upload; keeps_auto).
  cbv zeta in E.
  split_bind E d w1 E1;
    [|destruct (keeps_run _ _ _ _ _ K1 E1) as [S N]; split; [exact N|left; exact S]].
  pose proof (keeps_run _ _ _ _ _ K1 E1) as [S1 N1].
  split_bind E data w2 E2;
    [|destruct (keeps_run _ _ _ _ _ K2 E2) as [S N]; split; [congruence|left; congruence]].
  pose proof (keeps_run _ _ _ _ _ K2 E2) as [S2 N2].
  split_bind E ok w3 E3;
    [|destruct (keeps_run _ _ _ _ _ (K3 _ _) E3) as [S N];
      split; [congruence|left; congruence]].
  pose proof (keeps_run _ _ _ _ _ (K3 _ _) E3) as [S3 N3].
  destruct ok; [|inversion E; subst; split; [congruence|left; congruence]].
  split_bind E u w4 E4.
  - inversion E; subst; clear E. apply checkinDocEnd_stored in E4 as [N4 S4].
    split; [congruence|]. right. eexists. rewrite S4, S3, S2, S1. reflexivity.
  - apply checkinDocEnd_stored in E4 as [N4 S4].
    split; [congruence|left; congruence].
Qed.

Lemma basic_getMaskId_stored n : keeps sameStored (Basic.getMaskId n).
Proof.
  unfold Basic.getMaskId.
  apply keeps_try_catch; [typeclasses eauto| |intros e; keeps_auto].
  apply keeps_bind; [typeclasses eauto|apply keeps_checkoutDocMasks; typeclasses eauto|].
  intros masks. keeps_auto.
Qed.

Lemma basic_import_index f : keeps sameIndex (Basic.importFileToELO CONFIG f).
Proof.
  apply keeps_basic_importFileToELO; try typeclasses eauto.
  - intros s. apply keeps_checkinSord; typeclasses eauto.
  - intros i d. apply keeps_checkinDocEnd; typeclasses eauto.
Qed.

(** An import of the basic script keeps the relation as well. *)
Lemma basic_import_found f :
  keeps (foundBeforeCreated CONFIG) (Basic.importFileToELO CONFIG f).
Proof.
  intros w. destruct (Basic.importFileToELO CONFIG f w) as [r w'] eqn:E. cbn [snd].
  pose proof (keeps_run sameIndex _ _ _ _ (basic_import_index f) E) as X.
  unfold sameIndex in X.
  assert (forall v e, index (ix (add_log e v)) = index (ix w) -> index (ix v) = index (ix w))
    as Xlog by (intros v e H; exact H).
  unfold Basic.importFileToELO in E.
  assert (forall rb wb,
            bind (Basic.importCheckin CONFIG f) (fun sordId => Basic.importUpload sordId f) w
            = (rb, wb) ->
            index (ix wb) = index (ix w) -> foundBeforeCreated CONFIG w wb) as Body.
  { clear E X r w'. intros r w' E X.
    apply bind_inv in E as [(i & w1 & E1 & E2)|(e & E1 & _)].
    - unfold Basic.importCheckin in E1.
      split_bind E1 parent wa Ea.
      pose proof (keeps_run _ _ _ _ _ basic_getOrCreateArchiveFolder_found Ea) as T0.
      split_bind E1 d wb Eb. apply createSord_inv in Eb as [-> [Sb Nb]].
      split_bind E1 m wc Ec.
      pose proof (keeps_run _ _ _ _ _ (basic_getMaskId_stored _) Ec) as [Sc Nc].
      cbv zeta in E1.
      apply checkinSord_stored in E1 as [(Hi & S & N)|(e & ? & _)]; [|discriminate].
      inversion Hi; subst i; clear Hi.
      apply basic_importUpload_sords in E2 as [N2 S2].
      intros I F. destruct (T0 I F) as (I0 & _). revert I F.
      change (foundBeforeCreated CONFIG w w').
      assert (Forall (fun s => id s < nextId (ix wc)) (sords (ix wc))) as Ic
        by (rewrite Sc, Sb, Nc, Nb; exact I0).
      destruct S2 as [S2|[c S2]].
      + eapply found_then_documents; [exact T0| | |lia|exact X].
        * rewrite S2, S, Sc, Sb. reflexivity.
        * constructor; [|constructor]. split; [reflexivity|simpl; lia].
      + rewrite S, map_app, map_other_ids in S2 by exact Ic. cbn [map id with_id] in S2.
        rewrite Z.eqb_refl, Sc, Sb in S2.
        eapply found_then_documents; [exact T0|exact S2| |lia|exact X].
        constructor; [|constructor]. split; [reflexivity|simpl; lia].
    - unfold Basic.importCheckin in E1.
      split_bind E1 parent wa Ea;
        [|exact (keeps_run _ _ _ _ _ basic_getOrCreateArchiveFolder_found Ea)].
      pose proof (keeps_run _ _ _ _ _ basic_getOrCreateArchiveFolder_found Ea) as T0.
      assert (sameStored wa w') as [S N].
      { split_bind E1 d wb Eb;
          [|exact (keeps_run sameStored _ _ _ _ (keeps_createSord sameStored parent) Eb)].
        apply createSord_inv in Eb as [-> Kb].
        split_bind E1 m wc Ec;
          [|etransitivity; [exact Kb|exact (keeps_run _ _ _ _ _ (basic_getMaskId_stored _) Ec)]].
        pose proof (keeps_run _ _ _ _ _ (basic_getMaskId_stored _) Ec) as Kc.
        cbv zeta in E1.
        apply checkinSord_stored in E1 as [(? & _)|(e' & _ & K4)]; [discriminate|].
        etransitivity; [exact Kb|]. etransitivity; [exact Kc|exact K4]. }
      apply (found_then_documents CONFIG w wa w' []); [exact T0| |constructor|lia|exact X].
      rewrite app_nil_r. exact S. }
  apply try_catch_inv in E as [(i & E & _)|(e & wx & E & H)].
  - exact (Body _ _ E X).
  - split_bind H u wy Ey; [|discriminate Ey]. apply logger_inv in Ey as [_ ->].
    inversion H; subst; clear H. etransitivity; [exact (Body _ _ E X)|].
    apply foundBeforeCreated_same; reflexivity.
Qed.

End BasicFound.

Lemma foldersOf_filter_length (P : Sord -> Prop) `{!forall s, Decision (P s)} (l : list Sord) :
  (List.length (foldersOf (filter P l)) <= List.length (foldersOf l))%nat.
Proof.
  unfold foldersOf. induction l as [|s l IH]; [reflexivity|].
  destruct (decide (P s)) as [Hp|Hp].
  - rewrite (filter_cons_True P) by exact Hp.
    destruct (decide (type s = LBT_FOLDER)) as [Ht|Ht].
    + rewrite !(filter_cons_True (fun s => type s = LBT_FOLDER)) by exact Ht.
      simpl. lia.
    + rewrite !(filter_cons_False (fun s => type s = LBT_FOLDER)) by exact Ht. exact IH.
  - rewrite (filter_cons_False P) by exact Hp.
    destruct (decide (type s = LBT_FOLDER)) as [Ht|Ht].
    + rewrite (filter_cons_True (fun s => type s = LBT_FOLDER)) by exact Ht. simpl. lia.
    + rewrite (filter_cons_False (fun s => type s = LBT_FOLDER)) by exact Ht. exact IH.
Qed.

(** What the relation says of a world that has its two conditions. *)
Lemma foundBeforeCreated_after (CONFIG : Config) (w w' : World) :
  foundBeforeCreated CONFIG w w' ->
  idsBelowNext (ix w) -> findsItsFolder CONFIG (ix w) ->
  exists added,
    sords (ix w') = sords (ix w) ++ added
    /\ (List.length (foldersOf added) <= 1)%nat
    /\ (sords_named (ARCHIVE_PATH CONFIG) (ix w) <> [] -> foldersOf added = [])
    /\ Forall (fun s => s ∈ sords_named (ARCHIVE_PATH CONFIG) (ix w')) (foldersOf added)
    /\ (exists more, sords_named (ARCHIVE_PATH CONFIG) (ix w')
                     = sords_named (ARCHIVE_PATH CONFIG) (ix w) ++ more)
    /\ ((List.length (sords_named (ARCHIVE_PATH CONFIG) (ix w)) <= 1)%nat ->
        (List.length (foldersOf (sords_named (ARCHIVE_PATH CONFIG) (ix w'))) <= 1)%nat)
    /\ idsBelowNext (ix w')
    /\ findsItsFolder CONFIG (ix w').
Proof.
  intros T I F. destruct (T I F) as (I' & X & added & S & L & N & Q).
  pose proof (sords_named_more (ARCHIVE_PATH CONFIG) _ _ _ X S) as M.
  exists added. split; [exact S|]. split; [exact L|]. split; [exact N|]. split.
  { apply Forall_forall. intros s Hs. rewrite Forall_forall in Q.
    apply sords_named_elem. split; [exact (Q s Hs)|].
    apply foldersOf_elem in Hs as [_ Hs]. rewrite S. apply elem_of_app. right. exact Hs. }
  split; [eexists; exact M|]. split.
  { intros Hone. rewrite M, foldersOf_app, length_app.
    pose proof (foldersOf_filter_length
                  (fun s => index (ix w) (ARCHIVE_PATH CONFIG) s = true) added) as Hle.
    destruct (sords_named (ARCHIVE_PATH CONFIG) (ix w)) as [|s rest] eqn:Hfound.
    - simpl. lia.
    - rewrite N in Hle by discriminate. simpl in Hle.
      assert (List.length (foldersOf (s :: rest)) <= List.length (s :: rest))%nat
        by (unfold foldersOf; apply length_filter).
      lia. }
  split; [exact I'|]. unfold findsItsFolder. rewrite X. exact F.
Qed.


